(** * Void Dynamics memory manager

    A shallow embedding of [src/void_dynamics] (memory_state.py, utils.py,
    territories.py, manager.py, persistence.py) and the properties of its
    specification.

    Conventions of the embedding.
    - A Python [float] is an exact rational ([Q]); NaN and the infinities are
      not represented.  [math.sqrt], [math.exp], [math.log] and [**] are
      fields of the [Runtime] class, as are the digest of [hashlib], the
      draws of [random.Random] and the parsing of numbers out of text.
    - A Python [dict] is an association list in insertion order with unique
      keys; a [deque(maxlen=n)] is a list together with the bound applied
      on every append.
    - A method that mutates the manager is a computation in the monad [M]:
      it returns a value or raises, and in both cases yields the manager as
      mutated so far.
    - A [MemoryState] object is referred to by the key under which [_mem]
      stores it (its [memory_id], set once on creation); mutating the object
      is updating the entry of that key. *)

From Stdlib Require Import ZArith QArith Qround Qminmax List String Ascii Bool.
From Stdlib Require Import Lia Lqa Permutation Sorted.
From Stdlib Require Import DecimalString DecimalZ DecimalPos.
Import ListNotations.

Set Warnings "-register-all".
Local Open Scope string_scope.
Local Open Scope Z_scope.
Local Open Scope list_scope.

(* ------------------------------------------------------------------ *)
(** * Python values, exceptions and builtins *)

Module Py.

(** The values [json.load] produces. *)
Inductive json : Type :=
| JNull
| JBool (b : bool)
| JInt (z : Z)
| JFloat (q : Q)
| JStr (s : string)
| JList (l : list json)
| JObj (kv : list (string * json)).

(** The exception classes the code raises or catches.  [Untyped] is not a
    Python exception: it marks a payload value that Python stores as it is
    in an attribute annotated [Optional[int]] although it is neither [None]
    nor an [int]; the embedding has no such state, and no handler catches
    it. *)
Inductive exn : Type :=
| ValueError (msg : string)
| TypeError (msg : string)
| AttributeError (msg : string)
| KeyError (msg : string)
| RecursionError
| Untyped.

Inductive result (A : Type) : Type :=
| Ok (a : A)
| Raise (e : exn).
Arguments Ok {A} a.
Arguments Raise {A} e.

Definition rbind {A B} (r : result A) (k : A -> result B) : result B :=
  match r with
  | Ok a => k a
  | Raise e => Raise e
  end.

Notation "x <-! c ;; k" := (rbind c (fun x => k))
  (at level 61, c at next level, right associativity).

(** [except (TypeError, ValueError)]. *)
Definition is_type_or_value_error (e : exn) : bool :=
  match e with
  | ValueError _ | TypeError _ => true
  | _ => false
  end.

(** [except Exception]. *)
Definition is_exception (e : exn) : bool :=
  match e with
  | Untyped => false
  | _ => true
  end.

Fixpoint rmap {A B} (f : A -> result B) (l : list A) : result (list B) :=
  match l with
  | [] => Ok []
  | x :: l' => y <-! f x ;; ys <-! rmap f l' ;; Ok (y :: ys)
  end.

(** ** Numbers *)

Definition Qltb (a b : Q) : bool := negb (Qle_bool b a).

(** [min(a, b)] and [max(a, b)] on floats: the first argument wins ties. *)
Definition fmin (a b : Q) : Q := if Qltb b a then b else a.
Definition fmax (a b : Q) : Q := if Qltb a b then b else a.

(** [int(x)] of a float: truncation towards zero. *)
Definition Qtrunc (q : Q) : Z :=
  if Qle_bool 0 q then Qfloor q else Qceiling q.

(** [n / d] rounded to the nearest integer, ties to even ([0 < d]). *)
Definition round_half_even (n d : Z) : Z :=
  let q := n / d in
  let r := n mod d in
  if 2 * r <? d then q
  else if d <? 2 * r then q + 1
  else if Z.even q then q else q + 1.

(** The double nearest to a real number, ties to even: 53 significant
    bits, and the spacing [2 ^ -1074] of the subnormals below
    [2 ^ -1022].  It is what a float literal denotes and what one
    arithmetic operation on doubles returns from its exact result.  A real
    beyond the largest double is left as it is. *)
Definition round_double (x : Q) : Q :=
  let n := Qnum x in
  let d := Zpos (Qden x) in
  if n =? 0 then 0%Q
  else
    let a := Z.abs n in
    let e0 := Z.log2 a - Z.log2 d in
    let e := if a * 2 ^ Z.max 0 (- e0) <? d * 2 ^ Z.max 0 e0
             then e0 - 1 else e0 in
    let s := Z.min (52 - e) 1074 in
    let mant :=
      round_half_even (a * 2 ^ Z.max 0 s) (d * 2 ^ Z.max 0 (- s)) in
    Qmake (Z.sgn n * mant * 2 ^ Z.max 0 (- s)) (Z.to_pos (2 ^ Z.max 0 s)).

(** [str(n)] of an integer. *)
Definition str_of_Z (z : Z) : string := NilZero.string_of_int (Z.to_int z).

(** What the interpreter and its libraries compute and the embedding takes
    as given. *)
Inductive rng_source : Type :=
| FromSeed (s : Z)          (** [Random(seed)] with an integer seed *)
| FromOS (entropy : Z).     (** [Random(None)]: seeded by the system *)

Inductive rng_call : Type :=
| CallRandom
| CallShuffle (n : nat).

(** The generator's state is determined by how it was seeded and by the
    calls made on it since. *)
Record rng_state : Type := {
  rng_src : rng_source;
  rng_log : list rng_call
}.

Class Runtime : Type := {
  py_sqrt : Q -> Q;                       (** [math.sqrt] *)
  py_exp : Q -> Q;                        (** [math.exp] *)
  py_log : Q -> Q;                        (** [math.log] *)
  py_pow : Q -> Q -> Q;                   (** [x ** y] *)
  int_of_str : string -> option Z;        (** [int(s)], [None] for ValueError *)
  float_of_str : string -> option Q;      (** [float(s)] *)
  py_repr : json -> string;               (** [str(x)] of a non-string *)
  blake2b_hex : string -> option string;  (** 16-byte digest, [None] if it raises *)
  builtin_hash : string -> Z;             (** [hash(s)] *)
  rng_random : rng_state -> Q;            (** the value [random()] returns *)
  rng_shuffle : rng_state -> list string -> list string
                                          (** the order [shuffle] leaves *)
}.

Section Builtins.
Context {rt : Runtime}.

Definition py_float (j : json) : result Q :=
  match j with
  | JInt z => Ok (inject_Z z)
  | JFloat q => Ok q
  | JBool b => Ok (if b then 1%Q else 0%Q)
  | JStr s =>
      match float_of_str s with
      | Some q => Ok q
      | None => Raise (ValueError "could not convert string to float")
      end
  | _ => Raise (TypeError "float() argument must be a string or a real number")
  end.

Definition py_int (j : json) : result Z :=
  match j with
  | JInt z => Ok z
  | JFloat q => Ok (Qtrunc q)
  | JBool b => Ok (if b then 1 else 0)
  | JStr s =>
      match int_of_str s with
      | Some z => Ok z
      | None => Raise (ValueError "invalid literal for int()")
      end
  | _ => Raise (TypeError "int() argument must be a string or a real number")
  end.

Definition py_str (j : json) : string :=
  match j with
  | JStr s => s
  | JInt z => str_of_Z z
  | _ => py_repr j
  end.

End Builtins.

(** [bool(x)]. *)
Definition py_bool (j : json) : bool :=
  match j with
  | JNull => false
  | JBool b => b
  | JInt z => negb (z =? 0)
  | JFloat q => negb (Qeq_bool q 0)
  | JStr s => negb (s =? "")%string
  | JList l => match l with [] => false | _ => true end
  | JObj kv => match kv with [] => false | _ => true end
  end.

(** A number used in a comparison without conversion. *)
Definition py_num (j : json) : result Q :=
  match j with
  | JInt z => Ok (inject_Z z)
  | JFloat q => Ok q
  | JBool b => Ok (if b then 1%Q else 0%Q)
  | _ => Raise (TypeError "'<' not supported")
  end.

Fixpoint chars (s : string) : list string :=
  match s with
  | EmptyString => []
  | String c s' => String c EmptyString :: chars s'
  end.

(** [for x in j]. *)
Definition py_iter (j : json) : result (list json) :=
  match j with
  | JList l => Ok l
  | JStr s => Ok (map JStr (chars s))
  | JObj kv => Ok (map (fun p => JStr (fst p)) kv)
  | _ => Raise (TypeError "object is not iterable")
  end.

Fixpoint assoc (k : string) (kv : list (string * json)) : option json :=
  match kv with
  | [] => None
  | (k', v) :: kv' => if (k =? k')%string then Some v else assoc k kv'
  end.

(** [j.get(key, default)]. *)
Definition py_get (j : json) (key : string) (default : json) : result json :=
  match j with
  | JObj kv => Ok (match assoc key kv with Some v => v | None => default end)
  | _ => Raise (AttributeError "object has no attribute 'get'")
  end.

(** [j.items()]. *)
Definition py_items (j : json) : result (list (string * json)) :=
  match j with
  | JObj kv => Ok kv
  | _ => Raise (AttributeError "object has no attribute 'items'")
  end.

Definition is_list (j : json) : bool :=
  match j with JList _ => true | _ => false end.

Definition is_dict (j : json) : bool :=
  match j with JObj _ => true | _ => false end.

End Py.
Export Py.

(* ------------------------------------------------------------------ *)
(** * Insertion-ordered dictionaries and bounded deques *)

Class Key (K : Type) : Type := {
  keqb : K -> K -> bool;
  keqb_eq : forall a b, keqb a b = true <-> a = b
}.

#[export] Instance Key_string : Key string :=
  {| keqb := String.eqb; keqb_eq := String.eqb_eq |}.

#[export] Instance Key_Z : Key Z :=
  {| keqb := Z.eqb; keqb_eq := Z.eqb_eq |}.

Definition pair_eqb (p q : Z * Z) : bool :=
  (fst p =? fst q) && (snd p =? snd q).

Lemma pair_eqb_eq (p q : Z * Z) : pair_eqb p q = true <-> p = q.
Proof.
  destruct p as [a b], q as [c d]; unfold pair_eqb; simpl.
  rewrite andb_true_iff, !Z.eqb_eq. split.
  - intros [-> ->]; reflexivity.
  - intros H; inversion H; auto.
Qed.

#[export] Instance Key_pair : Key (Z * Z) :=
  {| keqb := pair_eqb; keqb_eq := pair_eqb_eq |}.

Section Dict.
Context {K V : Type} `{Key K}.

Definition dict : Type := list (K * V).

(** [d.get(k)] *)
Fixpoint dict_get (k : K) (d : dict) : option V :=
  match d with
  | [] => None
  | (k', v) :: d' => if keqb k k' then Some v else dict_get k d'
  end.

(** [k in d] *)
Definition dict_mem (k : K) (d : dict) : bool :=
  match dict_get k d with Some _ => true | None => false end.

(** [d[k] = v]: an existing key keeps its place. *)
Fixpoint dict_set (k : K) (v : V) (d : dict) : dict :=
  match d with
  | [] => [(k, v)]
  | (k', v') :: d' =>
      if keqb k k' then (k', v) :: d' else (k', v') :: dict_set k v d'
  end.

(** [d.pop(k, None)] *)
Fixpoint dict_pop (k : K) (d : dict) : dict :=
  match d with
  | [] => []
  | (k', v') :: d' => if keqb k k' then d' else (k', v') :: dict_pop k d'
  end.

(** Mutating the object stored under [k]. *)
Fixpoint dict_update (k : K) (f : V -> V) (d : dict) : dict :=
  match d with
  | [] => []
  | (k', v') :: d' =>
      if keqb k k' then (k', f v') :: d' else (k', v') :: dict_update k f d'
  end.

Definition dict_keys (d : dict) : list K := map fst d.
Definition dict_values (d : dict) : list V := map snd d.

End Dict.
Arguments dict K V : clear implicits.

(** [dq.append(x)] on a [deque(maxlen=n)]. *)
Definition deque_append {A} (maxlen : nat) (x : A) (dq : list A) : list A :=
  let dq' := dq ++ [x] in
  skipn (List.length dq' - maxlen) dq'.

(** [dq.extend(xs)] *)
Definition deque_extend {A} (maxlen : nat) (xs dq : list A) : list A :=
  fold_left (fun acc x => deque_append maxlen x acc) xs dq.

(* ------------------------------------------------------------------ *)
(** * memory_state.py *)

Module memory_state.

(** [clamp01]: clamp a float to [[0, 1]]. *)
Definition clamp01 (value : Q) : Q :=
  if Qltb value 0 then 0%Q
  else if Qltb 1 value then 1%Q
  else value.

(** The dataclass [MemoryState], without [memory_id] (the key in [_mem]). *)
Record MemoryState : Type := {
  text : string;
  embedding : option (list Q);
  metadata : json;
  territory_id : option Z;
  ttl : Z;
  last_touch_tick : Z;
  use_count : Z;
  mass : Q;
  heat : Q;
  confidence : Q;
  novelty : Q;
  boredom : Q;
  inhibition : Q;
  frontier_hits : Z;
  pending_condense : bool
}.

Definition set_territory_id (v : option Z) (ms : MemoryState) : MemoryState :=
  {| text := text ms; embedding := embedding ms; metadata := metadata ms;
     territory_id := v; ttl := ttl ms; last_touch_tick := last_touch_tick ms;
     use_count := use_count ms; mass := mass ms; heat := heat ms;
     confidence := confidence ms; novelty := novelty ms; boredom := boredom ms;
     inhibition := inhibition ms; frontier_hits := frontier_hits ms;
     pending_condense := pending_condense ms |}.

Definition set_ttl (v : Z) (ms : MemoryState) : MemoryState :=
  {| text := text ms; embedding := embedding ms; metadata := metadata ms;
     territory_id := territory_id ms; ttl := v;
     last_touch_tick := last_touch_tick ms;
     use_count := use_count ms; mass := mass ms; heat := heat ms;
     confidence := confidence ms; novelty := novelty ms; boredom := boredom ms;
     inhibition := inhibition ms; frontier_hits := frontier_hits ms;
     pending_condense := pending_condense ms |}.

Definition set_last_touch_tick (v : Z) (ms : MemoryState) : MemoryState :=
  {| text := text ms; embedding := embedding ms; metadata := metadata ms;
     territory_id := territory_id ms; ttl := ttl ms; last_touch_tick := v;
     use_count := use_count ms; mass := mass ms; heat := heat ms;
     confidence := confidence ms; novelty := novelty ms; boredom := boredom ms;
     inhibition := inhibition ms; frontier_hits := frontier_hits ms;
     pending_condense := pending_condense ms |}.

Definition set_use_count (v : Z) (ms : MemoryState) : MemoryState :=
  {| text := text ms; embedding := embedding ms; metadata := metadata ms;
     territory_id := territory_id ms; ttl := ttl ms;
     last_touch_tick := last_touch_tick ms;
     use_count := v; mass := mass ms; heat := heat ms;
     confidence := confidence ms; novelty := novelty ms; boredom := boredom ms;
     inhibition := inhibition ms; frontier_hits := frontier_hits ms;
     pending_condense := pending_condense ms |}.

Definition set_mass (v : Q) (ms : MemoryState) : MemoryState :=
  {| text := text ms; embedding := embedding ms; metadata := metadata ms;
     territory_id := territory_id ms; ttl := ttl ms;
     last_touch_tick := last_touch_tick ms;
     use_count := use_count ms; mass := v; heat := heat ms;
     confidence := confidence ms; novelty := novelty ms; boredom := boredom ms;
     inhibition := inhibition ms; frontier_hits := frontier_hits ms;
     pending_condense := pending_condense ms |}.

Definition set_heat (v : Q) (ms : MemoryState) : MemoryState :=
  {| text := text ms; embedding := embedding ms; metadata := metadata ms;
     territory_id := territory_id ms; ttl := ttl ms;
     last_touch_tick := last_touch_tick ms;
     use_count := use_count ms; mass := mass ms; heat := v;
     confidence := confidence ms; novelty := novelty ms; boredom := boredom ms;
     inhibition := inhibition ms; frontier_hits := frontier_hits ms;
     pending_condense := pending_condense ms |}.

Definition set_confidence (v : Q) (ms : MemoryState) : MemoryState :=
  {| text := text ms; embedding := embedding ms; metadata := metadata ms;
     territory_id := territory_id ms; ttl := ttl ms;
     last_touch_tick := last_touch_tick ms;
     use_count := use_count ms; mass := mass ms; heat := heat ms;
     confidence := v; novelty := novelty ms; boredom := boredom ms;
     inhibition := inhibition ms; frontier_hits := frontier_hits ms;
     pending_condense := pending_condense ms |}.

Definition set_novelty (v : Q) (ms : MemoryState) : MemoryState :=
  {| text := text ms; embedding := embedding ms; metadata := metadata ms;
     territory_id := territory_id ms; ttl := ttl ms;
     last_touch_tick := last_touch_tick ms;
     use_count := use_count ms; mass := mass ms; heat := heat ms;
     confidence := confidence ms; novelty := v; boredom := boredom ms;
     inhibition := inhibition ms; frontier_hits := frontier_hits ms;
     pending_condense := pending_condense ms |}.

Definition set_boredom (v : Q) (ms : MemoryState) : MemoryState :=
  {| text := text ms; embedding := embedding ms; metadata := metadata ms;
     territory_id := territory_id ms; ttl := ttl ms;
     last_touch_tick := last_touch_tick ms;
     use_count := use_count ms; mass := mass ms; heat := heat ms;
     confidence := confidence ms; novelty := novelty ms; boredom := v;
     inhibition := inhibition ms; frontier_hits := frontier_hits ms;
     pending_condense := pending_condense ms |}.

Definition set_inhibition (v : Q) (ms : MemoryState) : MemoryState :=
  {| text := text ms; embedding := embedding ms; metadata := metadata ms;
     territory_id := territory_id ms; ttl := ttl ms;
     last_touch_tick := last_touch_tick ms;
     use_count := use_count ms; mass := mass ms; heat := heat ms;
     confidence := confidence ms; novelty := novelty ms; boredom := boredom ms;
     inhibition := v; frontier_hits := frontier_hits ms;
     pending_condense := pending_condense ms |}.

Definition set_frontier_hits (v : Z) (ms : MemoryState) : MemoryState :=
  {| text := text ms; embedding := embedding ms; metadata := metadata ms;
     territory_id := territory_id ms; ttl := ttl ms;
     last_touch_tick := last_touch_tick ms;
     use_count := use_count ms; mass := mass ms; heat := heat ms;
     confidence := confidence ms; novelty := novelty ms; boredom := boredom ms;
     inhibition := inhibition ms; frontier_hits := v;
     pending_condense := pending_condense ms |}.

Definition set_pending_condense (v : bool) (ms : MemoryState) : MemoryState :=
  {| text := text ms; embedding := embedding ms; metadata := metadata ms;
     territory_id := territory_id ms; ttl := ttl ms;
     last_touch_tick := last_touch_tick ms;
     use_count := use_count ms; mass := mass ms; heat := heat ms;
     confidence := confidence ms; novelty := novelty ms; boredom := boredom ms;
     inhibition := inhibition ms; frontier_hits := frontier_hits ms;
     pending_condense := v |}.

(** [MemoryState.clamp_ranges] *)
Definition clamp_ranges (ms : MemoryState) : MemoryState :=
  {| text := text ms; embedding := embedding ms; metadata := metadata ms;
     territory_id := territory_id ms;
     ttl := if ttl ms <? 0 then 0 else ttl ms;
     last_touch_tick := last_touch_tick ms;
     use_count := use_count ms;
     mass := if Qltb (mass ms) 0 then 0%Q else mass ms;
     heat := if Qltb (heat ms) 0 then 0%Q else heat ms;
     confidence := clamp01 (confidence ms);
     novelty := clamp01 (novelty ms);
     boredom := clamp01 (boredom ms);
     inhibition := if Qltb (inhibition ms) 0 then 0%Q else inhibition ms;
     frontier_hits := frontier_hits ms;
     pending_condense := pending_condense ms |}.

(** [MemoryState.to_dict] *)
Definition to_dict (ms : MemoryState) : json :=
  JObj [
    ("text", JStr (text ms));
    ("embedding",
      match embedding ms with
      | Some e => JList (map JFloat e)
      | None => JNull
      end);
    ("metadata", metadata ms);
    ("territory_id",
      match territory_id ms with
      | Some t => JInt t
      | None => JNull
      end);
    ("ttl", JInt (ttl ms));
    ("last_touch_tick", JInt (last_touch_tick ms));
    ("use_count", JInt (use_count ms));
    ("mass", JFloat (mass ms));
    ("heat", JFloat (heat ms));
    ("confidence", JFloat (confidence ms));
    ("novelty", JFloat (novelty ms));
    ("boredom", JFloat (boredom ms));
    ("inhibition", JFloat (inhibition ms));
    ("frontier_hits", JInt (frontier_hits ms));
    ("pending_condense", JBool (pending_condense ms))
  ].

Section FromDict.
Context {rt : Runtime}.

(** [MemoryState.from_dict(memory_id, data)]; the caller keeps [memory_id].
    The conversions run in the order of the source, so the first one to
    fail decides the exception; [territory_id] is stored unconverted. *)
Definition from_dict (data : json) : result MemoryState :=
  emb <-! py_get data "embedding" JNull ;;
  embedding' <-!
    match emb with
    | JNull => Ok None
    | _ => xs <-! py_iter emb ;; fs <-! rmap py_float xs ;; Ok (Some fs)
    end ;;
  text_j <-! py_get data "text" (JStr "") ;;
  metadata' <-! py_get data "metadata" JNull ;;
  tid_j <-! py_get data "territory_id" JNull ;;
  ttl_j <-! py_get data "ttl" (JInt 0) ;;
  ttl' <-! py_int ttl_j ;;
  ltt_j <-! py_get data "last_touch_tick" (JInt 0) ;;
  ltt <-! py_int ltt_j ;;
  uc_j <-! py_get data "use_count" (JInt 0) ;;
  uc <-! py_int uc_j ;;
  mass_j <-! py_get data "mass" (JFloat 1) ;;
  mass' <-! py_float mass_j ;;
  heat_j <-! py_get data "heat" (JFloat 0) ;;
  heat' <-! py_float heat_j ;;
  conf_j <-! py_get data "confidence" (JFloat 0.5) ;;
  conf <-! py_float conf_j ;;
  nov_j <-! py_get data "novelty" (JFloat 0.5) ;;
  nov <-! py_float nov_j ;;
  bor_j <-! py_get data "boredom" (JFloat 0) ;;
  bor <-! py_float bor_j ;;
  inh_j <-! py_get data "inhibition" (JFloat 0) ;;
  inh <-! py_float inh_j ;;
  fh_j <-! py_get data "frontier_hits" (JInt 0) ;;
  fh <-! py_int fh_j ;;
  pc_j <-! py_get data "pending_condense" (JBool false) ;;
  tid <-!
    match tid_j with
    | JNull => Ok None
    | JInt t => Ok (Some t)
    | _ => Raise Untyped
    end ;;
  Ok (clamp_ranges
        {| text := py_str text_j; embedding := embedding';
           metadata := metadata'; territory_id := tid; ttl := ttl';
           last_touch_tick := ltt; use_count := uc; mass := mass';
           heat := heat'; confidence := conf; novelty := nov;
           boredom := bor; inhibition := inh; frontier_hits := fh;
           pending_condense := py_bool pc_j |}).

End FromDict.

End memory_state.
Export memory_state.

(* ------------------------------------------------------------------ *)
(** * utils.py *)

Module utils.

Section Utils.
Context {rt : Runtime}.

(** [require_int(value, minimum=..., name=...)] *)
Definition require_int (value : json) (minimum : Z) (name : string)
  : result Z :=
  match py_int value with
  | Ok cast_value =>
      if cast_value <? minimum
      then Raise (ValueError (name ++ " must be >= " ++ str_of_Z minimum)%string)
      else Ok cast_value
  | Raise e =>
      if is_type_or_value_error e
      then Raise (ValueError (name ++ " must be an integer")%string)
      else Raise e
  end.

End Utils.

(** [clamp_float(value, lower, upper)] on a float ([float(value)] is then
    the identity; a caller holding an unconverted value applies [py_float]
    first). *)
Definition clamp_float (value lower upper : Q) : Q :=
  if Qltb value lower then lower
  else if Qltb upper value then upper
  else value.

(** Python equality of hashable scalars, as dictionary keys compare. *)
Definition key_num (j : json) : option Q :=
  match j with
  | JBool b => Some (if b then 1%Q else 0%Q)
  | JInt z => Some (inject_Z z)
  | JFloat q => Some q
  | _ => None
  end.

Definition key_eqb (a b : json) : bool :=
  match a, b with
  | JNull, JNull => true
  | JStr s, JStr t => (s =? t)%string
  | _, _ =>
      match key_num a, key_num b with
      | Some x, Some y => Qeq_bool x y
      | _, _ => false
      end
  end.

Fixpoint kw_set (k v : json) (d : list (json * json)) : list (json * json) :=
  match d with
  | [] => [(k, v)]
  | (k', v') :: d' =>
      if key_eqb k k' then (k', v) :: d' else (k', v') :: kw_set k v d'
  end.

(** One element of the iterable given to [dict.update]: a sequence of
    length two whose first component is hashable. *)
Definition update_item (item : json) : result (json * json) :=
  let bad_length :=
    Raise (ValueError "dictionary update sequence element has the wrong length") in
  let hashable (k v : json) :=
    match k with
    | JList _ | JObj _ => Raise (TypeError "unhashable type")
    | _ => Ok (k, v)
    end in
  match item with
  | JList [k; v] => hashable k v
  | JList _ => bad_length
  | JStr s =>
      match chars s with
      | [a; b] => Ok (JStr a, JStr b)
      | _ => bad_length
      end
  | JObj [(a, _); (b, _)] => Ok (JStr a, JStr b)
  | JObj _ => bad_length
  | _ => Raise (TypeError "cannot convert dictionary update sequence element")
  end.

(** [merged.update(config)] *)
Definition dict_update_json (merged : list (json * json)) (config : json)
  : result (list (json * json)) :=
  match config with
  | JObj kv =>
      Ok (fold_left (fun d p => kw_set (JStr (fst p)) (snd p) d) kv merged)
  | _ =>
      items <-! py_iter config ;;
      pairs <-! rmap update_item items ;;
      Ok (fold_left (fun d p => kw_set (fst p) (snd p) d) pairs merged)
  end.

Definition defaults : list (string * json) := [
  ("capacity", JInt 256);
  ("base_ttl", JInt 128);
  ("decay_half_life", JInt 32);
  ("prune_sample", JInt 64);
  ("prune_target_ratio", JFloat 0.2);
  ("thread_safe", JBool false);
  ("seed", JNull);
  ("recency_half_life_ticks", JInt 64);
  ("habituation_start", JInt 32);
  ("habituation_scale", JFloat 1.0);
  ("boredom_weight", JFloat 0.35);
  ("frontier_novelty_threshold", JFloat 0.8);
  ("frontier_patience", JInt 3);
  ("diffusion_interval", JInt 12);
  ("diffusion_kappa", JFloat 0.25);
  ("exploration_churn_window", JInt 32);
  ("condensation_boredom", JFloat 0.85);
  ("condensation_conf", JFloat 0.6);
  ("condensation_mass", JFloat 5.0)
].

(** [sanitize_config(config)]: the defaults overridden by [config]. *)
Definition sanitize_config (config : json) : result (list (json * json)) :=
  dict_update_json (map (fun p => (JStr (fst p), snd p)) defaults) config.

End utils.
Export utils.

(* ------------------------------------------------------------------ *)
(** * The manager's state (the attributes set by [VoidMemoryManager.__init__]) *)

Module state.

(** The validated construction parameters: the private attributes
    [_capacity] ... [_condensation_mass], which [__init__] sets once, and
    the [seed]; [_config] echoes them. *)
Record Config : Type := {
  capacity : Z;
  base_ttl : Z;
  decay_half_life : Z;
  prune_sample : Z;
  prune_target_ratio : Q;
  thread_safe : bool;
  seed : option Z;
  recency_half_life_ticks : Z;
  habituation_start : Z;
  habituation_scale : Q;
  boredom_weight : Q;
  frontier_novelty_threshold : Q;
  frontier_patience : Z;
  diffusion_interval : Z;
  diffusion_kappa : Q;
  exploration_churn_window : Z;
  condensation_boredom : Q;
  condensation_conf : Q;
  condensation_mass : Q
}.

(** A condensation callback is an object outside the manager: what it
    answers may depend on the batches it has been given before. *)
Record CondenseCallback : Type := {
  cb_answer : list (list string) -> option (string * string);
  cb_seen : list (list string)
}.

Definition cb_call (cb : CondenseCallback) (texts : list string)
  : option (string * string) * CondenseCallback :=
  let seen := cb_seen cb ++ [texts] in
  (cb_answer cb seen, {| cb_answer := cb_answer cb; cb_seen := seen |}).

Record VoidMemoryManager : Type := {
  _config : Config;
  _rng : rng_state;
  _mem : dict string MemoryState;
  _tick : Z;
  _events : list (list (string * json));
  _nn_distances : list Q;
  _territory_centroids : dict Z (list Q);
  _territory_counts : dict Z Z;
  _territory_member_dists : dict Z (list Q);
  _territory_tau : Q;
  _next_territory_id : Z;
  _deterministic_ids : dict string Z;
  _reward_ema : Q;
  _pair_churn : dict (Z * Z) (list Z);
  _pair_last : dict (Z * Z) Z;
  _exploration_temp : Q;
  _pending_condense : list string;
  _condense_callback : option CondenseCallback;
  engrams : dict string (list string);
  frontier : dict string (list (string * json));
  _split_counter : Z;
  _merge_counter : Z
}.

Definition upd_rng (f : rng_state -> rng_state)
  (m : VoidMemoryManager) : VoidMemoryManager :=
  {| _config := _config m; _rng := f (_rng m); _mem := _mem m;
     _tick := _tick m; _events := _events m;
     _nn_distances := _nn_distances m;
     _territory_centroids := _territory_centroids m;
     _territory_counts := _territory_counts m;
     _territory_member_dists := _territory_member_dists m;
     _territory_tau := _territory_tau m;
     _next_territory_id := _next_territory_id m;
     _deterministic_ids := _deterministic_ids m;
     _reward_ema := _reward_ema m; _pair_churn := _pair_churn m;
     _pair_last := _pair_last m; _exploration_temp := _exploration_temp m;
     _pending_condense := _pending_condense m;
     _condense_callback := _condense_callback m; engrams := engrams m;
     frontier := frontier m; _split_counter := _split_counter m;
     _merge_counter := _merge_counter m |}.

Definition upd_mem (f : dict string MemoryState -> dict string MemoryState)
  (m : VoidMemoryManager) : VoidMemoryManager :=
  {| _config := _config m; _rng := _rng m; _mem := f (_mem m);
     _tick := _tick m; _events := _events m;
     _nn_distances := _nn_distances m;
     _territory_centroids := _territory_centroids m;
     _territory_counts := _territory_counts m;
     _territory_member_dists := _territory_member_dists m;
     _territory_tau := _territory_tau m;
     _next_territory_id := _next_territory_id m;
     _deterministic_ids := _deterministic_ids m;
     _reward_ema := _reward_ema m; _pair_churn := _pair_churn m;
     _pair_last := _pair_last m; _exploration_temp := _exploration_temp m;
     _pending_condense := _pending_condense m;
     _condense_callback := _condense_callback m; engrams := engrams m;
     frontier := frontier m; _split_counter := _split_counter m;
     _merge_counter := _merge_counter m |}.

Definition upd_tick (f : Z -> Z)
  (m : VoidMemoryManager) : VoidMemoryManager :=
  {| _config := _config m; _rng := _rng m; _mem := _mem m;
     _tick := f (_tick m); _events := _events m;
     _nn_distances := _nn_distances m;
     _territory_centroids := _territory_centroids m;
     _territory_counts := _territory_counts m;
     _territory_member_dists := _territory_member_dists m;
     _territory_tau := _territory_tau m;
     _next_territory_id := _next_territory_id m;
     _deterministic_ids := _deterministic_ids m;
     _reward_ema := _reward_ema m; _pair_churn := _pair_churn m;
     _pair_last := _pair_last m; _exploration_temp := _exploration_temp m;
     _pending_condense := _pending_condense m;
     _condense_callback := _condense_callback m; engrams := engrams m;
     frontier := frontier m; _split_counter := _split_counter m;
     _merge_counter := _merge_counter m |}.

Definition upd_events (f : list (list (string * json)) -> list (list (string * json)))
  (m : VoidMemoryManager) : VoidMemoryManager :=
  {| _config := _config m; _rng := _rng m; _mem := _mem m; _tick := _tick m;
     _events := f (_events m); _nn_distances := _nn_distances m;
     _territory_centroids := _territory_centroids m;
     _territory_counts := _territory_counts m;
     _territory_member_dists := _territory_member_dists m;
     _territory_tau := _territory_tau m;
     _next_territory_id := _next_territory_id m;
     _deterministic_ids := _deterministic_ids m;
     _reward_ema := _reward_ema m; _pair_churn := _pair_churn m;
     _pair_last := _pair_last m; _exploration_temp := _exploration_temp m;
     _pending_condense := _pending_condense m;
     _condense_callback := _condense_callback m; engrams := engrams m;
     frontier := frontier m; _split_counter := _split_counter m;
     _merge_counter := _merge_counter m |}.

Definition upd_nn_distances (f : list Q -> list Q)
  (m : VoidMemoryManager) : VoidMemoryManager :=
  {| _config := _config m; _rng := _rng m; _mem := _mem m; _tick := _tick m;
     _events := _events m; _nn_distances := f (_nn_distances m);
     _territory_centroids := _territory_centroids m;
     _territory_counts := _territory_counts m;
     _territory_member_dists := _territory_member_dists m;
     _territory_tau := _territory_tau m;
     _next_territory_id := _next_territory_id m;
     _deterministic_ids := _deterministic_ids m;
     _reward_ema := _reward_ema m; _pair_churn := _pair_churn m;
     _pair_last := _pair_last m; _exploration_temp := _exploration_temp m;
     _pending_condense := _pending_condense m;
     _condense_callback := _condense_callback m; engrams := engrams m;
     frontier := frontier m; _split_counter := _split_counter m;
     _merge_counter := _merge_counter m |}.

Definition upd_territory_centroids (f : dict Z (list Q) -> dict Z (list Q))
  (m : VoidMemoryManager) : VoidMemoryManager :=
  {| _config := _config m; _rng := _rng m; _mem := _mem m; _tick := _tick m;
     _events := _events m; _nn_distances := _nn_distances m;
     _territory_centroids := f (_territory_centroids m);
     _territory_counts := _territory_counts m;
     _territory_member_dists := _territory_member_dists m;
     _territory_tau := _territory_tau m;
     _next_territory_id := _next_territory_id m;
     _deterministic_ids := _deterministic_ids m;
     _reward_ema := _reward_ema m; _pair_churn := _pair_churn m;
     _pair_last := _pair_last m; _exploration_temp := _exploration_temp m;
     _pending_condense := _pending_condense m;
     _condense_callback := _condense_callback m; engrams := engrams m;
     frontier := frontier m; _split_counter := _split_counter m;
     _merge_counter := _merge_counter m |}.

Definition upd_territory_counts (f : dict Z Z -> dict Z Z)
  (m : VoidMemoryManager) : VoidMemoryManager :=
  {| _config := _config m; _rng := _rng m; _mem := _mem m; _tick := _tick m;
     _events := _events m; _nn_distances := _nn_distances m;
     _territory_centroids := _territory_centroids m;
     _territory_counts := f (_territory_counts m);
     _territory_member_dists := _territory_member_dists m;
     _territory_tau := _territory_tau m;
     _next_territory_id := _next_territory_id m;
     _deterministic_ids := _deterministic_ids m;
     _reward_ema := _reward_ema m; _pair_churn := _pair_churn m;
     _pair_last := _pair_last m; _exploration_temp := _exploration_temp m;
     _pending_condense := _pending_condense m;
     _condense_callback := _condense_callback m; engrams := engrams m;
     frontier := frontier m; _split_counter := _split_counter m;
     _merge_counter := _merge_counter m |}.

Definition upd_territory_member_dists (f : dict Z (list Q) -> dict Z (list Q))
  (m : VoidMemoryManager) : VoidMemoryManager :=
  {| _config := _config m; _rng := _rng m; _mem := _mem m; _tick := _tick m;
     _events := _events m; _nn_distances := _nn_distances m;
     _territory_centroids := _territory_centroids m;
     _territory_counts := _territory_counts m;
     _territory_member_dists := f (_territory_member_dists m);
     _territory_tau := _territory_tau m;
     _next_territory_id := _next_territory_id m;
     _deterministic_ids := _deterministic_ids m;
     _reward_ema := _reward_ema m; _pair_churn := _pair_churn m;
     _pair_last := _pair_last m; _exploration_temp := _exploration_temp m;
     _pending_condense := _pending_condense m;
     _condense_callback := _condense_callback m; engrams := engrams m;
     frontier := frontier m; _split_counter := _split_counter m;
     _merge_counter := _merge_counter m |}.

Definition upd_territory_tau (f : Q -> Q)
  (m : VoidMemoryManager) : VoidMemoryManager :=
  {| _config := _config m; _rng := _rng m; _mem := _mem m; _tick := _tick m;
     _events := _events m; _nn_distances := _nn_distances m;
     _territory_centroids := _territory_centroids m;
     _territory_counts := _territory_counts m;
     _territory_member_dists := _territory_member_dists m;
     _territory_tau := f (_territory_tau m);
     _next_territory_id := _next_territory_id m;
     _deterministic_ids := _deterministic_ids m;
     _reward_ema := _reward_ema m; _pair_churn := _pair_churn m;
     _pair_last := _pair_last m; _exploration_temp := _exploration_temp m;
     _pending_condense := _pending_condense m;
     _condense_callback := _condense_callback m; engrams := engrams m;
     frontier := frontier m; _split_counter := _split_counter m;
     _merge_counter := _merge_counter m |}.

Definition upd_next_territory_id (f : Z -> Z)
  (m : VoidMemoryManager) : VoidMemoryManager :=
  {| _config := _config m; _rng := _rng m; _mem := _mem m; _tick := _tick m;
     _events := _events m; _nn_distances := _nn_distances m;
     _territory_centroids := _territory_centroids m;
     _territory_counts := _territory_counts m;
     _territory_member_dists := _territory_member_dists m;
     _territory_tau := _territory_tau m;
     _next_territory_id := f (_next_territory_id m);
     _deterministic_ids := _deterministic_ids m;
     _reward_ema := _reward_ema m; _pair_churn := _pair_churn m;
     _pair_last := _pair_last m; _exploration_temp := _exploration_temp m;
     _pending_condense := _pending_condense m;
     _condense_callback := _condense_callback m; engrams := engrams m;
     frontier := frontier m; _split_counter := _split_counter m;
     _merge_counter := _merge_counter m |}.

Definition upd_deterministic_ids (f : dict string Z -> dict string Z)
  (m : VoidMemoryManager) : VoidMemoryManager :=
  {| _config := _config m; _rng := _rng m; _mem := _mem m; _tick := _tick m;
     _events := _events m; _nn_distances := _nn_distances m;
     _territory_centroids := _territory_centroids m;
     _territory_counts := _territory_counts m;
     _territory_member_dists := _territory_member_dists m;
     _territory_tau := _territory_tau m;
     _next_territory_id := _next_territory_id m;
     _deterministic_ids := f (_deterministic_ids m);
     _reward_ema := _reward_ema m; _pair_churn := _pair_churn m;
     _pair_last := _pair_last m; _exploration_temp := _exploration_temp m;
     _pending_condense := _pending_condense m;
     _condense_callback := _condense_callback m; engrams := engrams m;
     frontier := frontier m; _split_counter := _split_counter m;
     _merge_counter := _merge_counter m |}.

Definition upd_reward_ema (f : Q -> Q)
  (m : VoidMemoryManager) : VoidMemoryManager :=
  {| _config := _config m; _rng := _rng m; _mem := _mem m; _tick := _tick m;
     _events := _events m; _nn_distances := _nn_distances m;
     _territory_centroids := _territory_centroids m;
     _territory_counts := _territory_counts m;
     _territory_member_dists := _territory_member_dists m;
     _territory_tau := _territory_tau m;
     _next_territory_id := _next_territory_id m;
     _deterministic_ids := _deterministic_ids m;
     _reward_ema := f (_reward_ema m); _pair_churn := _pair_churn m;
     _pair_last := _pair_last m; _exploration_temp := _exploration_temp m;
     _pending_condense := _pending_condense m;
     _condense_callback := _condense_callback m; engrams := engrams m;
     frontier := frontier m; _split_counter := _split_counter m;
     _merge_counter := _merge_counter m |}.

Definition upd_pair_churn (f : dict (Z * Z) (list Z) -> dict (Z * Z) (list Z))
  (m : VoidMemoryManager) : VoidMemoryManager :=
  {| _config := _config m; _rng := _rng m; _mem := _mem m; _tick := _tick m;
     _events := _events m; _nn_distances := _nn_distances m;
     _territory_centroids := _territory_centroids m;
     _territory_counts := _territory_counts m;
     _territory_member_dists := _territory_member_dists m;
     _territory_tau := _territory_tau m;
     _next_territory_id := _next_territory_id m;
     _deterministic_ids := _deterministic_ids m;
     _reward_ema := _reward_ema m; _pair_churn := f (_pair_churn m);
     _pair_last := _pair_last m; _exploration_temp := _exploration_temp m;
     _pending_condense := _pending_condense m;
     _condense_callback := _condense_callback m; engrams := engrams m;
     frontier := frontier m; _split_counter := _split_counter m;
     _merge_counter := _merge_counter m |}.

Definition upd_pair_last (f : dict (Z * Z) Z -> dict (Z * Z) Z)
  (m : VoidMemoryManager) : VoidMemoryManager :=
  {| _config := _config m; _rng := _rng m; _mem := _mem m; _tick := _tick m;
     _events := _events m; _nn_distances := _nn_distances m;
     _territory_centroids := _territory_centroids m;
     _territory_counts := _territory_counts m;
     _territory_member_dists := _territory_member_dists m;
     _territory_tau := _territory_tau m;
     _next_territory_id := _next_territory_id m;
     _deterministic_ids := _deterministic_ids m;
     _reward_ema := _reward_ema m; _pair_churn := _pair_churn m;
     _pair_last := f (_pair_last m);
     _exploration_temp := _exploration_temp m;
     _pending_condense := _pending_condense m;
     _condense_callback := _condense_callback m; engrams := engrams m;
     frontier := frontier m; _split_counter := _split_counter m;
     _merge_counter := _merge_counter m |}.

Definition upd_exploration_temp (f : Q -> Q)
  (m : VoidMemoryManager) : VoidMemoryManager :=
  {| _config := _config m; _rng := _rng m; _mem := _mem m; _tick := _tick m;
     _events := _events m; _nn_distances := _nn_distances m;
     _territory_centroids := _territory_centroids m;
     _territory_counts := _territory_counts m;
     _territory_member_dists := _territory_member_dists m;
     _territory_tau := _territory_tau m;
     _next_territory_id := _next_territory_id m;
     _deterministic_ids := _deterministic_ids m;
     _reward_ema := _reward_ema m; _pair_churn := _pair_churn m;
     _pair_last := _pair_last m;
     _exploration_temp := f (_exploration_temp m);
     _pending_condense := _pending_condense m;
     _condense_callback := _condense_callback m; engrams := engrams m;
     frontier := frontier m; _split_counter := _split_counter m;
     _merge_counter := _merge_counter m |}.

Definition upd_pending_condense (f : list string -> list string)
  (m : VoidMemoryManager) : VoidMemoryManager :=
  {| _config := _config m; _rng := _rng m; _mem := _mem m; _tick := _tick m;
     _events := _events m; _nn_distances := _nn_distances m;
     _territory_centroids := _territory_centroids m;
     _territory_counts := _territory_counts m;
     _territory_member_dists := _territory_member_dists m;
     _territory_tau := _territory_tau m;
     _next_territory_id := _next_territory_id m;
     _deterministic_ids := _deterministic_ids m;
     _reward_ema := _reward_ema m; _pair_churn := _pair_churn m;
     _pair_last := _pair_last m; _exploration_temp := _exploration_temp m;
     _pending_condense := f (_pending_condense m);
     _condense_callback := _condense_callback m; engrams := engrams m;
     frontier := frontier m; _split_counter := _split_counter m;
     _merge_counter := _merge_counter m |}.

Definition upd_condense_callback (f : option CondenseCallback -> option CondenseCallback)
  (m : VoidMemoryManager) : VoidMemoryManager :=
  {| _config := _config m; _rng := _rng m; _mem := _mem m; _tick := _tick m;
     _events := _events m; _nn_distances := _nn_distances m;
     _territory_centroids := _territory_centroids m;
     _territory_counts := _territory_counts m;
     _territory_member_dists := _territory_member_dists m;
     _territory_tau := _territory_tau m;
     _next_territory_id := _next_territory_id m;
     _deterministic_ids := _deterministic_ids m;
     _reward_ema := _reward_ema m; _pair_churn := _pair_churn m;
     _pair_last := _pair_last m; _exploration_temp := _exploration_temp m;
     _pending_condense := _pending_condense m;
     _condense_callback := f (_condense_callback m); engrams := engrams m;
     frontier := frontier m; _split_counter := _split_counter m;
     _merge_counter := _merge_counter m |}.

Definition upd_engrams (f : dict string (list string) -> dict string (list string))
  (m : VoidMemoryManager) : VoidMemoryManager :=
  {| _config := _config m; _rng := _rng m; _mem := _mem m; _tick := _tick m;
     _events := _events m; _nn_distances := _nn_distances m;
     _territory_centroids := _territory_centroids m;
     _territory_counts := _territory_counts m;
     _territory_member_dists := _territory_member_dists m;
     _territory_tau := _territory_tau m;
     _next_territory_id := _next_territory_id m;
     _deterministic_ids := _deterministic_ids m;
     _reward_ema := _reward_ema m; _pair_churn := _pair_churn m;
     _pair_last := _pair_last m; _exploration_temp := _exploration_temp m;
     _pending_condense := _pending_condense m;
     _condense_callback := _condense_callback m; engrams := f (engrams m);
     frontier := frontier m; _split_counter := _split_counter m;
     _merge_counter := _merge_counter m |}.

Definition upd_frontier (f : dict string (list (string * json)) -> dict string (list (string * json)))
  (m : VoidMemoryManager) : VoidMemoryManager :=
  {| _config := _config m; _rng := _rng m; _mem := _mem m; _tick := _tick m;
     _events := _events m; _nn_distances := _nn_distances m;
     _territory_centroids := _territory_centroids m;
     _territory_counts := _territory_counts m;
     _territory_member_dists := _territory_member_dists m;
     _territory_tau := _territory_tau m;
     _next_territory_id := _next_territory_id m;
     _deterministic_ids := _deterministic_ids m;
     _reward_ema := _reward_ema m; _pair_churn := _pair_churn m;
     _pair_last := _pair_last m; _exploration_temp := _exploration_temp m;
     _pending_condense := _pending_condense m;
     _condense_callback := _condense_callback m; engrams := engrams m;
     frontier := f (frontier m); _split_counter := _split_counter m;
     _merge_counter := _merge_counter m |}.

Definition upd_split_counter (f : Z -> Z)
  (m : VoidMemoryManager) : VoidMemoryManager :=
  {| _config := _config m; _rng := _rng m; _mem := _mem m; _tick := _tick m;
     _events := _events m; _nn_distances := _nn_distances m;
     _territory_centroids := _territory_centroids m;
     _territory_counts := _territory_counts m;
     _territory_member_dists := _territory_member_dists m;
     _territory_tau := _territory_tau m;
     _next_territory_id := _next_territory_id m;
     _deterministic_ids := _deterministic_ids m;
     _reward_ema := _reward_ema m; _pair_churn := _pair_churn m;
     _pair_last := _pair_last m; _exploration_temp := _exploration_temp m;
     _pending_condense := _pending_condense m;
     _condense_callback := _condense_callback m; engrams := engrams m;
     frontier := frontier m; _split_counter := f (_split_counter m);
     _merge_counter := _merge_counter m |}.

Definition upd_merge_counter (f : Z -> Z)
  (m : VoidMemoryManager) : VoidMemoryManager :=
  {| _config := _config m; _rng := _rng m; _mem := _mem m; _tick := _tick m;
     _events := _events m; _nn_distances := _nn_distances m;
     _territory_centroids := _territory_centroids m;
     _territory_counts := _territory_counts m;
     _territory_member_dists := _territory_member_dists m;
     _territory_tau := _territory_tau m;
     _next_territory_id := _next_territory_id m;
     _deterministic_ids := _deterministic_ids m;
     _reward_ema := _reward_ema m; _pair_churn := _pair_churn m;
     _pair_last := _pair_last m; _exploration_temp := _exploration_temp m;
     _pending_condense := _pending_condense m;
     _condense_callback := _condense_callback m; engrams := engrams m;
     frontier := frontier m; _split_counter := _split_counter m;
     _merge_counter := f (_merge_counter m) |}.

(** ** Computations over the manager *)

Definition M (A : Type) : Type :=
  VoidMemoryManager -> result A * VoidMemoryManager.

Definition ret {A} (a : A) : M A := fun m => (Ok a, m).

Definition bind {A B} (c : M A) (k : A -> M B) : M B :=
  fun m =>
    match c m with
    | (Ok a, m') => k a m'
    | (Raise e, m') => (Raise e, m')
    end.

Definition raise {A} (e : exn) : M A := fun m => (Raise e, m).

Definition gets {A} (f : VoidMemoryManager -> A) : M A :=
  fun m => (Ok (f m), m).

Definition modify (f : VoidMemoryManager -> VoidMemoryManager) : M unit :=
  fun m => (Ok tt, f m).

Definition lift {A} (r : result A) : M A := fun m => (r, m).

Notation "x <- c ;; k" := (bind c (fun x => k))
  (at level 61, c at next level, right associativity).
Notation "c >> k" := (bind c (fun _ => k))
  (at level 61, right associativity).

(** [for x in l: body] *)
Fixpoint for_each {A} (l : list A) (body : A -> M unit) : M unit :=
  match l with
  | [] => ret tt
  | x :: l' => body x >> for_each l' body
  end.

(** [VoidMemoryManager._record_event] *)
Definition _record_event (event_type : string)
  (payload : list (string * json)) : M unit :=
  fun m =>
    let data := dict_set "tick" (JInt (_tick m))
                  (dict_set "type" (JStr event_type) payload) in
    (Ok tt, upd_events (deque_append 1024 data) m).

End state.
Export state.

(* ------------------------------------------------------------------ *)
(** * territories.py *)

Module territories.

(** [sum(xs)] *)
Definition fsum (l : list Q) : Q := fold_left Qplus l 0%Q.

(** [sorted(xs)] on floats: a stable insertion sort. *)
Fixpoint insert_sorted (x : Q) (l : list Q) : list Q :=
  match l with
  | [] => [x]
  | y :: l' => if Qltb y x then y :: insert_sorted x l' else x :: y :: l'
  end.

Definition sorted (l : list Q) : list Q := fold_right insert_sorted [] l.

(** [statistics.median]: the middle value of the sorted data, the mean of
    the two middle values when their number is even.  (On empty data Python
    raises; the one call below is guarded.) *)
Definition median (data : list Q) : Q :=
  let data := sorted data in
  let n := List.length data in
  if Nat.odd n then nth (n / 2) data 0%Q
  else ((nth (n / 2 - 1) data 0 + nth (n / 2) data 0) / 2)%Q.

(** [itertools.combinations(l, 2)] *)
Fixpoint combinations2 {A} (l : list A) : list (A * A) :=
  match l with
  | [] => []
  | x :: l' => map (fun y => (x, y)) l' ++ combinations2 l'
  end.

(** [estimate_novelty]; [len(set(text))] counts the distinct characters. *)
Definition estimate_novelty (text : string) : Q :=
  if (text =? "")%string then 0%Q
  else
    let distinct := nodup ascii_dec (list_ascii_of_string text) in
    clamp01 (inject_Z (Z.of_nat (List.length distinct)) / 64).

Section Territories.
Context {rt : Runtime}.

(** [normalize_embedding] *)
Definition normalize_embedding (embedding : list Q) : list Q :=
  let vector := embedding in
  let norm := py_sqrt (fsum (map (fun v => v * v)%Q vector)) in
  if Qeq_bool norm 0 then vector
  else map (fun v => v / norm)%Q vector.

(** [cosine_distance] *)
Definition cosine_distance (a b : list Q) : result Q :=
  if match a with [] => true | _ => false end
     || match b with [] => true | _ => false end
     || negb (List.length a =? List.length b)%nat
  then Raise (ValueError
         "cosine distance requires non-empty vectors of the same length")
  else
    let dot := fsum (map (fun p => fst p * snd p)%Q (combine a b)) in
    let norm_a := py_sqrt (fsum (map (fun x => x * x)%Q a)) in
    let norm_b := py_sqrt (fsum (map (fun y => y * y)%Q b)) in
    if Qeq_bool norm_a 0 || Qeq_bool norm_b 0 then Ok 1%Q
    else
      let cosine := fmax (-1) (fmin 1 (dot / (norm_a * norm_b))) in
      Ok (1 - cosine)%Q.

(** [hash_text] *)
Definition hash_text (text : string) : string :=
  match blake2b_hex text with
  | Some digest => digest
  | None => str_of_Z (Z.abs (builtin_hash text))
  end.

(** [warmup_active]; [_territory_warmup] is the class constant 1000. *)
Definition _territory_warmup : nat := 1000.

Definition warmup_active (m : VoidMemoryManager) : bool :=
  (List.length (_nn_distances m) <? _territory_warmup)%nat
  && (List.length (_territory_centroids m) <? 50)%nat.

(** [create_territory] *)
Definition create_territory (embedding : list Q) (text : string) : M Z :=
  tid <- gets _next_territory_id ;;
  modify (upd_next_territory_id (fun n => n + 1)) >>
  modify (upd_territory_centroids
            (dict_set tid (normalize_embedding embedding))) >>
  modify (upd_territory_counts (dict_set tid 0)) >>
  modify (upd_territory_member_dists (dict_set tid [])) >>
  modify (upd_deterministic_ids (fun d =>
            let deterministic_id := hash_text text in
            if dict_mem deterministic_id d then d
            else dict_set deterministic_id tid d)) >>
  _record_event "territory_create" [("id", JInt tid)] >>
  ret tid.

(** [deterministic_territory] *)
Definition deterministic_territory (text : string) : M Z :=
  let deterministic_id := hash_text text in
  known <- gets (fun m => dict_get deterministic_id (_deterministic_ids m)) ;;
  match known with
  | Some tid => ret tid
  | None =>
      tid <- gets _next_territory_id ;;
      modify (upd_next_territory_id (fun n => n + 1)) >>
      modify (upd_territory_counts (dict_set tid 0)) >>
      modify (upd_territory_member_dists (dict_set tid [])) >>
      modify (upd_deterministic_ids (dict_set deterministic_id tid)) >>
      _record_event "territory_create" [("id", JInt tid)] >>
      ret tid
  end.

(** [update_centroid] *)
Definition update_centroid (tid : Z) (embedding : list Q) : M unit :=
  modify (fun m =>
    match dict_get tid (_territory_centroids m) with
    | None =>
        upd_territory_centroids
          (dict_set tid (normalize_embedding embedding)) m
    | Some centroid =>
        let count :=
          Z.max 1 (match dict_get tid (_territory_counts m) with
                   | Some c => c
                   | None => 1
                   end) in
        let updated :=
          map (fun p => (fst p * inject_Z count + snd p)
                        / (inject_Z count + 1))%Q
              (combine centroid embedding) in
        upd_territory_centroids
          (dict_set tid (normalize_embedding updated)) m
    end).

(** [record_nn_distance] *)
Definition record_nn_distance (distance : Q) : M unit :=
  modify (upd_nn_distances (deque_append 5000 distance)) >>
  modify (fun m =>
    match _nn_distances m with
    | [] => m
    | _ :: _ =>
        upd_territory_tau
          (fun _ => clamp_float (median (_nn_distances m)) 0.05 0.6) m
    end).

(** The loop of [assign_territory] over the centroids: the first centroid
    at the least distance. *)
Fixpoint nearest_centroid (vector : list Q) (items : list (Z * list Q))
  (best : option (Z * Q)) : result (option (Z * Q)) :=
  match items with
  | [] => Ok best
  | (tid, centroid) :: rest =>
      distance <-! cosine_distance vector centroid ;;
      nearest_centroid vector rest
        (match best with
         | None => Some (tid, distance)
         | Some (_, best_distance) =>
             if Qltb distance best_distance then Some (tid, distance)
             else best
         end)
  end.

(** [assign_territory] *)
Definition assign_territory (text : string) (embedding : option (list Q))
  : M Z :=
  match embedding with
  | None => deterministic_territory text
  | Some e =>
      let vector := normalize_embedding e in
      centroids <- gets _territory_centroids ;;
      warm <- gets warmup_active ;;
      if match centroids with [] => true | _ => false end || warm
      then create_territory vector text
      else
        best <- lift (nearest_centroid vector centroids None) ;;
        match best with
        | None => create_territory vector text
        | Some (best_tid, best_distance) =>
            record_nn_distance best_distance >>
            tau <- gets _territory_tau ;;
            if Qle_bool best_distance tau
            then update_centroid best_tid vector >> ret best_tid
            else create_territory vector text
        end
  end.

(** [territory_radius] *)
Definition territory_radius (m : VoidMemoryManager) (tid : Z) : Q :=
  match dict_get tid (_territory_member_dists m) with
  | None | Some [] => 0%Q
  | Some (d :: ds) => fold_left fmax ds d
  end.

Definition count_of (m : VoidMemoryManager) (tid : Z) : Z :=
  match dict_get tid (_territory_counts m) with
  | Some c => c
  | None => 0
  end.

(** [merge_territories] *)
Definition merge_territories (from_tid to_tid : Z) : M unit :=
  if from_tid =? to_tid then ret tt
  else
    centroid_a <- gets (fun m => dict_get from_tid (_territory_centroids m)) ;;
    centroid_b <- gets (fun m => dict_get to_tid (_territory_centroids m)) ;;
    match centroid_a, centroid_b with
    | Some ca, Some cb =>
        count_a <- gets (fun m => count_of m from_tid) ;;
        count_b <- gets (fun m => count_of m to_tid) ;;
        if count_a + count_b >? 1000 then ret tt
        else
          let blended :=
            map (fun p => (fst p * inject_Z count_a + snd p * inject_Z count_b)
                          / inject_Z (Z.max 1 (count_a + count_b)))%Q
                (combine ca cb) in
          modify (upd_territory_centroids
                    (dict_set to_tid (normalize_embedding blended))) >>
          modify (upd_territory_member_dists (fun md =>
            let of_tid t := match dict_get t md with
                            | Some d => d
                            | None => []
                            end in
            let merged_dists :=
              deque_extend 1024 (of_tid from_tid)
                (deque_extend 1024 (of_tid to_tid) []) in
            dict_pop from_tid (dict_set to_tid merged_dists md))) >>
          modify (upd_mem (map (fun p =>
            (fst p,
             match territory_id (snd p) with
             | Some t =>
                 if t =? from_tid
                 then set_territory_id (Some to_tid) (snd p)
                 else snd p
             | None => snd p
             end)))) >>
          modify (upd_territory_counts (fun c =>
            dict_pop from_tid (dict_set to_tid (count_a + count_b) c))) >>
          modify (upd_territory_centroids (dict_pop from_tid)) >>
          modify (upd_merge_counter (fun n => n + 1)) >>
          _record_event "territory_merge"
            [("from", JInt from_tid); ("to", JInt to_tid)]
    | _, _ => ret tt
    end.

(** [self._rng.random()] *)
Definition rng_draw_random : M Q :=
  fun m =>
    (Ok (rng_random (_rng m)),
     upd_rng (fun r => {| rng_src := rng_src r;
                          rng_log := rng_log r ++ [CallRandom] |}) m).

(** The loop of [maybe_diffuse] over the pairs of territories; it stops
    at the first merge ([break]). *)
Fixpoint diffuse_pairs (pairs : list (Z * Z)) : M unit :=
  match pairs with
  | [] => ret tt
  | (a, b) :: rest =>
      if a =? b then diffuse_pairs rest
      else
        centroid_a <- gets (fun m => dict_get a (_territory_centroids m)) ;;
        centroid_b <- gets (fun m => dict_get b (_territory_centroids m)) ;;
        match centroid_a, centroid_b with
        | Some ca, Some cb =>
            distance <- lift (cosine_distance ca cb) ;;
            territory_tau <- gets _territory_tau ;;
            let tau := fmin territory_tau 0.6 in
            max_radius <- gets (fun m =>
              fmax (territory_radius m a) (territory_radius m b)) ;;
            if Qle_bool distance (0.5 * territory_tau)
               && Qle_bool max_radius (1.25 * tau)
            then
              combined <- gets (fun m => count_of m a + count_of m b) ;;
              if combined >=? 500 then diffuse_pairs rest
              else
                kappa <- gets (fun m => diffusion_kappa (_config m)) ;;
                draw <- rng_draw_random ;;
                if Qltb kappa draw then diffuse_pairs rest
                else
                  count_a <- gets (fun m => count_of m a) ;;
                  count_b <- gets (fun m => count_of m b) ;;
                  if count_a <=? count_b
                  then merge_territories a b
                  else merge_territories b a
            else diffuse_pairs rest
        | _, _ => diffuse_pairs rest
        end
  end.

(** [maybe_diffuse] *)
Definition maybe_diffuse : M unit :=
  interval <- gets (fun m => diffusion_interval (_config m)) ;;
  tick <- gets _tick ;;
  if interval <=? 0 then ret tt
  else if negb (tick mod interval =? 0) then ret tt
  else
    territories <- gets (fun m => dict_keys (_territory_centroids m)) ;;
    diffuse_pairs (combinations2 territories).

(** The running sum of the non-empty embeddings in the loop of
    [maybe_split_territory]. *)
Definition add_embedding (centroid_sum : option (list Q)) (st : MemoryState)
  : option (list Q) :=
  match embedding st with
  | Some (x :: e) =>
      let acc :=
        match centroid_sum with
        | None => repeat 0%Q (List.length (x :: e))
        | Some s => s
        end in
      Some (map (fun p => fst p + snd p)%Q (combine acc (x :: e)))
  | _ => centroid_sum
  end.

Definition in_territory (tid : Z) (st : MemoryState) : bool :=
  match territory_id st with
  | Some t => t =? tid
  | None => false
  end.

(** The members of a territory, in the stored order, and the candidates
    [maybe_split_territory] picks among them. *)
Definition split_members (m : VoidMemoryManager) (tid : Z)
  : list (string * MemoryState) :=
  filter (fun p => in_territory tid (snd p)) (_mem m).

Definition split_median (members : list (string * MemoryState)) : Q :=
  let novelties := sorted (map (fun p => novelty (snd p)) members) in
  nth (List.length novelties / 2) novelties 0%Q.

Definition split_candidates (members : list (string * MemoryState))
  : list (string * MemoryState) :=
  let median_novelty := split_median members in
  filter (fun p => Qltb median_novelty (novelty (snd p))
                   && Qltb (boredom (snd p)) 0.7) members.

(** [maybe_split_territory(manager, ms)], [ms] being the object stored
    under [ms_id]. *)
Definition maybe_split_territory (ms_id : string) : M unit :=
  found <- gets (fun m => dict_get ms_id (_mem m)) ;;
  match found with
  | None => ret tt
  | Some ms =>
      match territory_id ms with
      | None => ret tt
      | Some tid =>
          members <- gets (fun m => split_members m tid) ;;
          if (List.length members <? 6)%nat then ret tt
          else
            let candidates := split_candidates members in
            if (List.length candidates <? 2)%nat
               || (List.length candidates =? List.length members)%nat
            then ret tt
            else
              let seed_embedding :=
                match candidates with
                | (_, c) :: _ =>
                    match embedding c with Some e => e | None => [] end
                | [] => []
                end in
              new_tid <- create_territory seed_embedding (text ms) ;;
              for_each candidates (fun p =>
                modify (upd_mem (dict_update (fst p)
                                   (set_territory_id (Some new_tid))))) >>
              let centroid_sum :=
                fold_left add_embedding (map snd candidates) None in
              let new_count := Z.of_nat (List.length candidates) in
              match centroid_sum with
              | Some (s :: ss) =>
                  let averaged :=
                    map (fun value => value / inject_Z (Z.max 1 new_count))%Q
                        (s :: ss) in
                  modify (upd_territory_centroids
                            (dict_set new_tid (normalize_embedding averaged)))
              | _ => ret tt
              end >>
              modify (upd_territory_counts (dict_set new_tid new_count)) >>
              modify (upd_territory_counts (fun c =>
                let old :=
                  match dict_get tid c with
                  | Some n => n
                  | None => Z.of_nat (List.length members)
                  end in
                dict_set tid (Z.max 0 (old - new_count)) c)) >>
              modify (upd_split_counter (fun n => n + 1)) >>
              _record_event "territory_split"
                [("from", JInt tid); ("to", JInt new_tid);
                 ("count", JInt new_count)]
      end
  end.

(** [record_member_distance(manager, ms, sim)] *)
Definition record_member_distance (ms_id : string) (sim : Q) : M unit :=
  found <- gets (fun m => dict_get ms_id (_mem m)) ;;
  match found with
  | None => ret tt
  | Some ms =>
      match embedding ms, territory_id ms with
      | Some _, Some tid =>
          centroid <- gets (fun m => dict_get tid (_territory_centroids m)) ;;
          match centroid with
          | None => ret tt
          | Some _ =>
              let distance := fmax 0 (1 - sim) in
              dists <- gets (fun m =>
                         dict_get tid (_territory_member_dists m)) ;;
              match dists with
              | None => raise (KeyError (str_of_Z tid))
              | Some dq =>
                  modify (upd_territory_member_dists
                            (dict_set tid (deque_append 1024 distance dq))) >>
                  record_nn_distance distance
              end
          end
      | _, _ => ret tt
      end
  end.

(** [update_pair_metrics(manager, states)], the states given by their
    keys. *)
Definition update_pair_metrics (states : list string) : M unit :=
  ids <- gets (fun m =>
           flat_map (fun sid =>
             match dict_get sid (_mem m) with
             | Some st =>
                 match territory_id st with Some t => [t] | None => [] end
             | None => []
             end) states) ;;
  for_each (combinations2 ids) (fun ab =>
    let pair := (Z.min (fst ab) (snd ab), Z.max (fst ab) (snd ab)) in
    modify (fun m =>
      let window := Z.to_nat (exploration_churn_window (_config m)) in
      let dq := match dict_get pair (_pair_churn m) with
                | Some d => d
                | None => []
                end in
      upd_pair_last (dict_set pair (_tick m))
        (upd_pair_churn
           (dict_set pair (deque_append window (_tick m) dq)) m))).

End Territories.

End territories.
Export territories.

(* ------------------------------------------------------------------ *)
(** * persistence.py *)

Module persistence.

(** The dictionary [_config] that [__init__] builds from the validated
    parameters. *)
Definition config_dict (c : Config) : list (string * json) := [
  ("capacity", JInt (capacity c));
  ("base_ttl", JInt (base_ttl c));
  ("decay_half_life", JInt (decay_half_life c));
  ("prune_sample", JInt (prune_sample c));
  ("prune_target_ratio", JFloat (prune_target_ratio c));
  ("thread_safe", JBool (thread_safe c));
  ("seed", match seed c with Some s => JInt s | None => JNull end);
  ("recency_half_life_ticks", JInt (recency_half_life_ticks c));
  ("habituation_start", JInt (habituation_start c));
  ("habituation_scale", JFloat (habituation_scale c));
  ("boredom_weight", JFloat (boredom_weight c));
  ("frontier_novelty_threshold", JFloat (frontier_novelty_threshold c));
  ("frontier_patience", JInt (frontier_patience c));
  ("diffusion_interval", JInt (diffusion_interval c));
  ("diffusion_kappa", JFloat (diffusion_kappa c));
  ("exploration_churn_window", JInt (exploration_churn_window c));
  ("condensation_boredom", JFloat (condensation_boredom c));
  ("condensation_conf", JFloat (condensation_conf c));
  ("condensation_mass", JFloat (condensation_mass c))
].

(** [_persistence_version] *)
Definition _persistence_version : Z := 1.

(** [f"{a}:{b}"] *)
Definition pair_key (p : Z * Z) : string :=
  (str_of_Z (fst p) ++ ":" ++ str_of_Z (snd p))%string.

(** [manager_to_dict] *)
Definition manager_to_dict (manager : VoidMemoryManager) : json :=
  let mem_dict := map (fun p => (fst p, to_dict (snd p))) (_mem manager) in
  let territory_member_dists :=
    map (fun p => (str_of_Z (fst p), JList (map JFloat (snd p))))
        (_territory_member_dists manager) in
  let pair_churn :=
    map (fun p => (pair_key (fst p), JList (map JInt (snd p))))
        (_pair_churn manager) in
  let pair_last :=
    map (fun p => (pair_key (fst p), JInt (snd p))) (_pair_last manager) in
  JObj [
    ("version", JInt _persistence_version);
    ("tick", JInt (_tick manager));
    ("mem", JObj mem_dict);
    ("engrams",
      JObj (map (fun p => (fst p, JList (map JStr (snd p))))
                (engrams manager)));
    ("frontier", JObj (map (fun p => (fst p, JObj (snd p))) (frontier manager)));
    ("next_territory", JInt (_next_territory_id manager));
    ("reward_ema", JFloat (_reward_ema manager));
    ("pair_churn", JObj pair_churn);
    ("pair_last", JObj pair_last);
    ("territory_centroids",
      JObj (map (fun p => (str_of_Z (fst p), JList (map JFloat (snd p))))
                (_territory_centroids manager)));
    ("territory_counts",
      JObj (map (fun p => (str_of_Z (fst p), JInt (snd p)))
                (_territory_counts manager)));
    ("territory_member_dists", JObj territory_member_dists);
    ("nn_distances", JList (map JFloat (_nn_distances manager)));
    ("territory_tau", JFloat (_territory_tau manager));
    ("split_counter", JInt (_split_counter manager));
    ("merge_counter", JInt (_merge_counter manager));
    ("config", JObj (config_dict (_config manager)))
  ].

(** [s.split(":", 1)] unpacked into two names: [None] when [s] has no
    colon (the unpacking raises ValueError). *)
Fixpoint split_colon (s : string) : option (string * string) :=
  match s with
  | EmptyString => None
  | String c s' =>
      if Ascii.eqb c ":"%char then Some (EmptyString, s')
      else
        match split_colon s' with
        | Some (a, b) => Some (String c a, b)
        | None => None
        end
  end.

Section Persistence.
Context {rt : Runtime}.

(** [try: body except (TypeError, ValueError): continue] around the
    computation of one entry, [store] being the assignment that ends the
    [try] block. *)
Definition try_entry {A} (entry : result A)
  (store : A -> VoidMemoryManager -> VoidMemoryManager) : M unit :=
  match entry with
  | Ok a => modify (store a)
  | Raise e => if is_type_or_value_error e then ret tt else raise e
  end.

(** [(int(a_str), int(b_str))] sorted, from the key ["a:b"]. *)
Definition parse_pair (key : string) : result (Z * Z) :=
  match split_colon key with
  | None => Raise (ValueError "not enough values to unpack")
  | Some (a_str, b_str) =>
      a <-! py_int (JStr a_str) ;;
      b <-! py_int (JStr b_str) ;;
      Ok (Z.min a b, Z.max a b)
  end.

(** [populate_manager_from_dict(manager, payload)] *)
Definition populate_manager_from_dict (payload : json) : M unit :=
  tick <- lift (j <-! py_get payload "tick" (JInt 0) ;; py_int j) ;;
  modify (upd_tick (fun _ => tick)) >>
  next_territory <-
    lift (j <-! py_get payload "next_territory" (JInt 10000) ;; py_int j) ;;
  modify (upd_next_territory_id (fun _ => next_territory)) >>
  reward_ema <-
    lift (j <-! py_get payload "reward_ema" (JFloat 0) ;; py_float j) ;;
  modify (upd_reward_ema (fun _ => reward_ema)) >>
  territory_tau <-
    lift (j <-! py_get payload "territory_tau" (JFloat 0.3) ;; py_float j) ;;
  modify (upd_territory_tau (fun _ => clamp_float territory_tau 0.05 0.6)) >>
  split_counter <-
    lift (j <-! py_get payload "split_counter" (JInt 0) ;; py_int j) ;;
  modify (upd_split_counter (fun _ => split_counter)) >>
  merge_counter <-
    lift (j <-! py_get payload "merge_counter" (JInt 0) ;; py_int j) ;;
  modify (upd_merge_counter (fun _ => merge_counter)) >>
  modify (upd_engrams (fun _ => [])) >>
  engrams_items <-
    lift (j <-! py_get payload "engrams" (JObj []) ;; py_items j) ;;
  for_each engrams_items (fun kv =>
    match snd kv with
    | JList members =>
        modify (upd_engrams (dict_set (fst kv) (map py_str members)))
    | _ => ret tt
    end) >>
  modify (upd_frontier (fun _ => [])) >>
  frontier_items <-
    lift (j <-! py_get payload "frontier" (JObj []) ;; py_items j) ;;
  for_each frontier_items (fun kv =>
    match snd kv with
    | JObj info => modify (upd_frontier (dict_set (fst kv) info))
    | _ => ret tt
    end) >>
  mem_payload <- lift (py_get payload "mem" (JObj [])) ;;
  match mem_payload with
  | JObj items =>
      for_each items (fun kv =>
        match from_dict (snd kv) with
        | Ok st => modify (upd_mem (dict_set (fst kv) st))
        | Raise e => if is_exception e then ret tt else raise e
        end)
  | _ => ret tt
  end >>
  centroid_items <-
    lift (j <-! py_get payload "territory_centroids" (JObj []) ;; py_items j) ;;
  for_each centroid_items (fun kv =>
    try_entry
      (tid <-! py_int (JStr (fst kv)) ;;
       xs <-! py_iter (snd kv) ;;
       centroid <-! rmap py_float xs ;;
       Ok (tid, centroid))
      (fun e => upd_territory_centroids (dict_set (fst e) (snd e)))) >>
  count_items <-
    lift (j <-! py_get payload "territory_counts" (JObj []) ;; py_items j) ;;
  for_each count_items (fun kv =>
    try_entry
      (tid <-! py_int (JStr (fst kv)) ;;
       count <-! py_int (snd kv) ;;
       Ok (tid, count))
      (fun e => upd_territory_counts (dict_set (fst e) (snd e)))) >>
  dists_items <-
    lift (j <-! py_get payload "territory_member_dists" (JObj []) ;;
          py_items j) ;;
  for_each dists_items (fun kv =>
    try_entry
      (tid <-! py_int (JStr (fst kv)) ;;
       xs <-! py_iter (snd kv) ;;
       vals <-! rmap py_float xs ;;
       Ok (tid, deque_extend 1024 vals []))
      (fun e => upd_territory_member_dists (dict_set (fst e) (snd e)))) >>
  modify (upd_nn_distances (fun _ => [])) >>
  nn_payload <- lift (py_get payload "nn_distances" (JList [])) ;;
  match nn_payload with
  | JList vals =>
      for_each vals (fun val =>
        try_entry (py_float val)
          (fun d => upd_nn_distances (deque_append 5000 d)))
  | _ => ret tt
  end >>
  churn_items <-
    lift (j <-! py_get payload "pair_churn" (JObj []) ;; py_items j) ;;
  for_each churn_items (fun kv => fun m =>
    let window := Z.to_nat (exploration_churn_window (_config m)) in
    try_entry
      (pair <-! parse_pair (fst kv) ;;
       xs <-! py_iter (snd kv) ;;
       ticks <-! rmap py_int xs ;;
       Ok (pair, deque_extend window ticks []))
      (fun e => upd_pair_churn (dict_set (fst e) (snd e))) m) >>
  last_items <-
    lift (j <-! py_get payload "pair_last" (JObj []) ;; py_items j) ;;
  for_each last_items (fun kv =>
    try_entry
      (pair <-! parse_pair (fst kv) ;;
       value <-! py_int (snd kv) ;;
       Ok (pair, value))
      (fun e => upd_pair_last (dict_set (fst e) (snd e)))).

End Persistence.

(** ** Files *)

(** [json.dump] and [json.load] on the text of a file. *)
Class Codec : Type := {
  ftext : Type;
  json_dumps : json -> ftext;
  json_loads : ftext -> option json    (** [None]: JSONDecodeError *)
}.

(** What [open] finds: the text of the readable files, and the paths that
    can be opened for writing (the others raise OSError). *)
Record FileSystem {codec : Codec} : Type := {
  fs_read : string -> option ftext;
  fs_writable : string -> bool
}.

Section Files.
Context {rt : Runtime} {codec : Codec}.

Definition fs_write (path : string) (content : ftext) (fs : FileSystem)
  : FileSystem :=
  {| fs_read := fun p => if (p =? path)%string then Some content
                         else fs_read fs p;
     fs_writable := fs_writable fs |}.

(** [save_json(manager, path)] *)
Definition save_json (manager : VoidMemoryManager) (path : string)
  (fs : FileSystem) : bool * FileSystem :=
  if fs_writable fs path
  then (true, fs_write path (json_dumps (manager_to_dict manager)) fs)
  else (false, fs).

(** [load_json(cls, path)]; [cls] is the constructor applied to the
    sanitized configuration. *)
Definition load_json
  (cls : list (json * json) -> result VoidMemoryManager)
  (path : string) (fs : FileSystem) : result (option VoidMemoryManager) :=
  match fs_read fs path with
  | None => Ok None
  | Some content =>
      match json_loads content with
      | None => Ok None
      | Some payload =>
          config_j <-! py_get payload "config" (JObj []) ;;
          config <-! sanitize_config config_j ;;
          manager <-! cls config ;;
          match populate_manager_from_dict payload manager with
          | (Ok _, manager') => Ok (Some manager')
          | (Raise e, _) => if is_exception e then Ok None else Raise e
          end
      end
  end.

End Files.

End persistence.
Export persistence.

(* ------------------------------------------------------------------ *)
(** * manager.py *)

Module manager.

(** [_reward_alpha] *)
Definition _reward_alpha : Q := 0.05.

(** The argument [results] of [reinforce]: the values under the keys
    ["ids"] and ["distances"], [None] for a missing key. *)
Record ReinforceResults : Type := {
  res_ids : option (list (list string));
  res_distances : option (list (list json))
}.

(** The names [__init__] accepts; the first five have no default. *)
Definition init_defaults : list (string * json) := [
  ("thread_safe", JBool false);
  ("seed", JNull);
  ("recency_half_life_ticks", JInt 64);
  ("habituation_start", JInt 32);
  ("habituation_scale", JFloat 1.0);
  ("boredom_weight", JFloat 0.35);
  ("frontier_novelty_threshold", JFloat 0.8);
  ("frontier_patience", JInt 3);
  ("diffusion_interval", JInt 12);
  ("diffusion_kappa", JFloat 0.25);
  ("exploration_churn_window", JInt 32);
  ("condensation_boredom", JFloat 0.85);
  ("condensation_conf", JFloat 0.6);
  ("condensation_mass", JFloat 5.0)
].

Definition init_required : list string :=
  ["capacity"; "base_ttl"; "decay_half_life"; "prune_sample";
   "prune_target_ratio"].

(** Binding the keyword arguments when [cls] is called with the entries of
    [config] as keywords. *)
Definition bind_kwargs (config : list (json * json))
  : result (list (string * json)) :=
  kwargs <-! rmap (fun p =>
               match fst p with
               | JStr name => Ok (name, snd p)
               | _ => Raise (TypeError "keywords must be strings")
               end) config ;;
  if negb (forallb (fun p =>
             existsb (String.eqb (fst p))
               (init_required ++ map fst init_defaults)) kwargs)
  then Raise (TypeError "got an unexpected keyword argument")
  else if negb (forallb (fun name =>
                  existsb (fun p => String.eqb name (fst p)) kwargs)
                init_required)
  then Raise (TypeError "missing required keyword-only argument")
  else Ok kwargs.

Definition kwarg (kwargs : list (string * json)) (name : string) : json :=
  match assoc name kwargs with
  | Some v => v
  | None =>
      match assoc name init_defaults with
      | Some d => d
      | None => JNull
      end
  end.

(** The attributes [__init__] sets after validating its parameters. *)
Definition initial_state (config : Config) (rng : rng_state)
  : VoidMemoryManager :=
  {| _config := config;
     _rng := rng;
     _mem := [];
     _tick := 0;
     _events := [];
     _nn_distances := [];
     _territory_centroids := [];
     _territory_counts := [];
     _territory_member_dists := [];
     _territory_tau := 0.3;
     _next_territory_id := 10000;
     _deterministic_ids := [];
     _reward_ema := 0.0;
     _pair_churn := [];
     _pair_last := [];
     _exploration_temp := 1.0;
     _pending_condense := [];
     _condense_callback := None;
     engrams := [];
     frontier := [];
     _split_counter := 0;
     _merge_counter := 0 |}.

(** [Random(seed)] *)
Definition new_rng (seed : option Z) (entropy : Z) : rng_state :=
  {| rng_src := match seed with
                | Some s => FromSeed s
                | None => FromOS entropy
                end;
     rng_log := [] |}.

Section Manager.
Context {rt : Runtime}.

(** [VoidMemoryManager.__init__], called with the entries of [config] as
    keywords; [entropy] is what the system hands to [Random(None)]. *)
Definition __init__ (entropy : Z) (config : list (json * json))
  : result VoidMemoryManager :=
  kw <-! bind_kwargs config ;;
  capacity' <-! require_int (kwarg kw "capacity") 10 "capacity" ;;
  base_ttl' <-! require_int (kwarg kw "base_ttl") 10 "base_ttl" ;;
  decay_half_life' <-!
    require_int (kwarg kw "decay_half_life") 1 "decay_half_life" ;;
  prune_sample' <-! require_int (kwarg kw "prune_sample") 16 "prune_sample" ;;
  ratio <-! py_float (kwarg kw "prune_target_ratio") ;;
  let thread_safe' := py_bool (kwarg kw "thread_safe") in
  seed' <-!
    match kwarg kw "seed" with
    | JNull => Ok None
    | j => s <-! py_int j ;; Ok (Some s)
    end ;;
  recency <-!
    require_int (kwarg kw "recency_half_life_ticks") 1
      "recency_half_life_ticks" ;;
  habituation_start' <-!
    require_int (kwarg kw "habituation_start") 0 "habituation_start" ;;
  scale <-! py_float (kwarg kw "habituation_scale") ;;
  weight <-! py_float (kwarg kw "boredom_weight") ;;
  threshold <-! py_float (kwarg kw "frontier_novelty_threshold") ;;
  patience <-!
    require_int (kwarg kw "frontier_patience") 2 "frontier_patience" ;;
  interval <-!
    require_int (kwarg kw "diffusion_interval") 5 "diffusion_interval" ;;
  kappa <-! py_float (kwarg kw "diffusion_kappa") ;;
  window <-!
    require_int (kwarg kw "exploration_churn_window") 10
      "exploration_churn_window" ;;
  c_boredom <-! py_num (kwarg kw "condensation_boredom") ;;
  c_conf <-! py_num (kwarg kw "condensation_conf") ;;
  c_mass <-! py_float (kwarg kw "condensation_mass") ;;
  Ok (initial_state
        {| capacity := capacity';
           base_ttl := base_ttl';
           decay_half_life := decay_half_life';
           prune_sample := prune_sample';
           prune_target_ratio := clamp_float ratio 0.05 1.0;
           thread_safe := thread_safe';
           seed := seed';
           recency_half_life_ticks := recency;
           habituation_start := habituation_start';
           habituation_scale := fmax scale 1.0;
           boredom_weight := clamp_float weight 0.0 1.0;
           frontier_novelty_threshold := clamp_float threshold 0.0 1.0;
           frontier_patience := patience;
           diffusion_interval := interval;
           diffusion_kappa := clamp_float kappa 0.0 1.0;
           exploration_churn_window := window;
           condensation_boredom := clamp01 c_boredom;
           condensation_conf := clamp01 c_conf;
           condensation_mass := c_mass |}
        (new_rng seed' entropy)).

(** ** Internal helpers *)

(** [_register_memory] *)
Definition _register_memory (memory_id text : string)
  (embedding : option (list Q)) (meta : json) : M unit :=
  territory_id' <- assign_territory text embedding ;;
  base <- gets (fun m => base_ttl (_config m)) ;;
  tick <- gets _tick ;;
  let state :=
    clamp_ranges
      {| text := text; embedding := embedding; metadata := meta;
         territory_id := Some territory_id'; ttl := base;
         last_touch_tick := tick; use_count := 0; mass := 1.0;
         heat := 0.0; confidence := 0.35;
         novelty := estimate_novelty text; boredom := 0.0;
         inhibition := 0.0; frontier_hits := 0;
         pending_condense := false |} in
  modify (upd_mem (dict_set memory_id state)) >>
  modify (upd_territory_counts (fun c =>
    dict_set territory_id'
      (match dict_get territory_id' c with Some n => n | None => 0 end + 1)
      c)) >>
  modify (upd_territory_member_dists (fun md =>
    if dict_mem territory_id' md then md else dict_set territory_id' [] md)) >>
  _record_event "register"
    [("id", JStr memory_id); ("territory", JInt territory_id')].

(** [_boredom_increment] *)
Definition _boredom_increment (c : Config) (ms : MemoryState) : Q :=
  if use_count ms <=? habituation_start c then 0.02%Q
  else
    let denominator := fmax (habituation_scale c) (inject_Z (use_count ms)) in
    fmin 0.2 (inject_Z (use_count ms) / denominator * 0.05).

(** The assignments of [_apply_reinforcement] to the fields of [ms]. *)
Definition reinforce_state (c : Config) (tick : Z) (sim heat_gain : Q)
  (ttl_boost : Z) (ms : MemoryState) : MemoryState :=
  let ttl_boost := Z.max ttl_boost 0 in
  let ms := set_last_touch_tick tick ms in
  let ms := set_use_count (use_count ms + 1) ms in
  let ms := set_heat (heat ms + heat_gain) ms in
  let ms := set_mass (mass ms + sim * (1.0 + heat_gain)) ms in
  let boredom_gain := _boredom_increment c ms in
  let ms := set_boredom (clamp01 (boredom ms + boredom_gain)) ms in
  let ms :=
    set_confidence
      (clamp01 (confidence ms + (1.0 - confidence ms) * sim * 0.3)) ms in
  let ms := set_novelty (clamp01 (novelty ms * 0.9 + (1.0 - sim) * 0.1)) ms in
  let ms := set_ttl (Z.max (ttl ms) ttl_boost) ms in
  clamp_ranges ms.

(** [_apply_reinforcement] *)
Definition _apply_reinforcement (ms_id : string) (sim heat_gain : Q)
  (ttl_boost : Z) : M unit :=
  modify (fun m =>
    upd_mem (dict_update ms_id
               (reinforce_state (_config m) (_tick m) sim heat_gain ttl_boost))
            m) >>
  record_member_distance ms_id sim.

(** [composite_score] *)
Definition composite_score (m : VoidMemoryManager) (ms : MemoryState) : Q :=
  let dt := Z.max 0 (_tick m - last_touch_tick ms) in
  let recency_hl := Z.max 1 (recency_half_life_ticks (_config m)) in
  let recency :=
    py_exp (- py_log 2.0 * inject_Z dt / inject_Z recency_hl) in
  let score :=
    (confidence ms * (1.0 - boredom_weight (_config m))
     + novelty ms * boredom_weight (_config m))%Q in
  let score := (score + (heat ms * 0.1 + recency))%Q in
  fmax 0.0 score.

(** [_remove_memory] *)
Definition _remove_memory (memory_id : string) : M unit :=
  found <- gets (fun m => dict_get memory_id (_mem m)) ;;
  match found with
  | None => ret tt
  | Some ms =>
      modify (upd_mem (dict_pop memory_id)) >>
      match territory_id ms with
      | Some tid =>
          count <- gets (fun m =>
            match dict_get tid (_territory_counts m) with
            | Some n => n
            | None => 0
            end - 1) ;;
          if count <=? 0
          then
            modify (upd_territory_counts (dict_pop tid)) >>
            modify (upd_territory_centroids (dict_pop tid)) >>
            modify (upd_territory_member_dists (dict_pop tid))
          else modify (upd_territory_counts (dict_set tid count))
      | None => ret tt
      end >>
      _record_event "evict" [("id", JStr memory_id)]
  end.

(** The assignments of the first loop of [_decay_pass] to one trace. *)
Definition decay_state (decay_factor : Q) (ms : MemoryState) : MemoryState :=
  let ms := set_heat (heat ms * decay_factor) ms in
  let ms := set_ttl (Z.max 0 (ttl ms - 1)) ms in
  let ms := set_inhibition (inhibition ms * 0.98) ms in
  clamp_ranges ms.

Definition evictable (ms : MemoryState) : bool :=
  (ttl ms <=? 0) && Qltb (confidence ms) 0.05 && Qltb (mass ms) 3.0.

(** [_decay_pass] *)
Definition _decay_pass : M unit :=
  half_life <- gets (fun m => decay_half_life (_config m)) ;;
  let decay_factor := py_pow 0.5 (1.0 / inject_Z half_life) in
  modify (upd_mem (map (fun p => (fst p, decay_state decay_factor (snd p))))) >>
  to_remove <- gets (fun m =>
    map fst (filter (fun p => evictable (snd p)) (_mem m))) ;;
  for_each to_remove _remove_memory.

(** [sorted(candidates, key=...)] on keyed items: stable, ascending. *)
Fixpoint insert_by_key {A} (x : Q * A) (l : list (Q * A)) : list (Q * A) :=
  match l with
  | [] => [x]
  | y :: l' =>
      if Qltb (fst y) (fst x) then y :: insert_by_key x l' else x :: y :: l'
  end.

Definition sort_by_key {A} (l : list (Q * A)) : list (Q * A) :=
  fold_right insert_by_key [] l.

(** [self._rng.shuffle(candidates)] *)
Definition rng_do_shuffle (candidates : list string) : M (list string) :=
  fun m =>
    (Ok (rng_shuffle (_rng m) candidates),
     upd_rng (fun r =>
       {| rng_src := rng_src r;
          rng_log := rng_log r ++ [CallShuffle (List.length candidates)] |}) m).

(** The ratio [_prune_if_needed] uses: the configured ratio, a double,
    clamped between the doubles written [0.05] and [0.95]. *)
Definition prune_ratio (prune_target_ratio' : Q) : Q :=
  clamp_float (round_double prune_target_ratio')
    (round_double 0.05) (round_double 0.95).

(** [size * ratio - self._capacity] in double arithmetic: the product is
    rounded, then the difference is.  The two integers convert as they
    are: the size of a store that exceeds the capacity, and that
    capacity, are far below [2 ^ 53]. *)
Definition prune_excess (size capacity' : Z) (ratio : Q) : Q :=
  round_double (round_double (inject_Z size * ratio) - inject_Z capacity').

(** The number of removals [_prune_if_needed] attempts. *)
Definition prune_target (size capacity' : Z) (prune_target_ratio' : Q) : Z :=
  let ratio := prune_ratio prune_target_ratio' in
  Z.max 1
    (Z.min (size - capacity')
       (Qtrunc (fmax 1.0 (prune_excess size capacity' ratio)))).

(** The sample [_prune_if_needed] scores: the head of the shuffled keys. *)
Definition prune_sample_of (m : VoidMemoryManager) (shuffled : list string)
  : list string :=
  firstn (Nat.min (List.length shuffled)
            (Z.to_nat (prune_sample (_config m)))) shuffled.

Definition score_of (m : VoidMemoryManager) (mid : string) : Q :=
  match dict_get mid (_mem m) with
  | Some ms => composite_score m ms
  | None => 0%Q
  end.

(** [_prune_if_needed] *)
Definition _prune_if_needed : M unit :=
  size <- gets (fun m => Z.of_nat (List.length (_mem m))) ;;
  capacity' <- gets (fun m => capacity (_config m)) ;;
  if size <=? capacity' then ret tt
  else
    ratio <- gets (fun m => prune_target_ratio (_config m)) ;;
    let target_drop := prune_target size capacity' ratio in
    keys <- gets (fun m => dict_keys (_mem m)) ;;
    shuffled <- rng_do_shuffle keys ;;
    candidates <- gets (fun m => prune_sample_of m shuffled) ;;
    scored <- gets (fun m =>
      map snd (sort_by_key (map (fun mid => (score_of m mid, mid)) candidates))) ;;
    for_each (firstn (Z.to_nat target_drop) scored) _remove_memory >>
    _record_event "prune" [("count", JInt target_drop)].

(** [_after_operation] *)
Definition _after_operation : M unit :=
  modify (upd_tick (fun t => t + 1)) >>
  _decay_pass >>
  _prune_if_needed >>
  maybe_diffuse >>
  modify (upd_exploration_temp (fun t => fmin t 1.0)).

(** [_flush_condensation_locked] *)
Definition _flush_condensation_locked : M (list (string * string)) :=
  queue <- gets _pending_condense ;;
  match queue with
  | [] => ret []
  | _ :: _ =>
      pairs <- gets (fun m =>
        flat_map (fun memory_id =>
          match dict_get memory_id (_mem m) with
          | Some ms => [(memory_id, text ms)]
          | None => []
          end) queue) ;;
      for_each queue (fun memory_id =>
        modify (upd_mem (dict_update memory_id
                           (set_pending_condense false)))) >>
      modify (upd_pending_condense (fun _ => [])) >>
      ret pairs
  end.

(** ** Public API *)

(** The rows of [register_chunks]: entry [index] of each list. *)
Definition chunk_rows (ids raw_texts : list string)
  (embeddings : option (list (option (list Q))))
  (metadata : option (list json))
  : list (string * string * option (list Q) * json) :=
  map (fun index =>
    (nth index ids "", nth index raw_texts "",
     match embeddings with
     | Some l =>
         match nth index l None with
         | Some e => Some (normalize_embedding e)
         | None => None
         end
     | None => None
     end,
     match metadata with
     | Some l => nth index l JNull
     | None => JNull
     end)) (seq 0 (List.length ids)).

(** The loop of [register_chunks]; it returns [added]. *)
Fixpoint register_rows
  (rows : list (string * string * option (list Q) * json)) (added : bool)
  : M bool :=
  match rows with
  | [] => ret added
  | (memory_id, text, embedding, meta) :: rest =>
      known <- gets (fun m => dict_mem memory_id (_mem m)) ;;
      if known then register_rows rest added
      else
        _register_memory memory_id text embedding meta >>
        register_rows rest true
  end.

(** [register_chunks] up to the end of the [with] block; it returns
    [added] and [pending]. *)
Definition register_chunks_locked (ids raw_texts : list string)
  (embeddings : option (list (option (list Q))))
  (metadata : option (list json)) : M (bool * list (string * string)) :=
  if negb (List.length ids =? List.length raw_texts)%nat
  then raise (ValueError "ids and raw_texts must be correlated pairwise")
  else if match embeddings with
          | Some l => negb (List.length l =? List.length ids)%nat
          | None => false
          end
  then raise (ValueError "embeddings length must match ids")
  else if match metadata with
          | Some l => negb (List.length l =? List.length ids)%nat
          | None => false
          end
  then raise (ValueError "metadata length must match ids")
  else
    added <- register_rows (chunk_rows ids raw_texts embeddings metadata)
               false ;;
    if added
    then
      pending <- _flush_condensation_locked ;;
      _after_operation >>
      ret (true, pending)
    else ret (false, []).

(** [_run_condense_callback], which re-enters [register_chunks]; [depth]
    is the room left on the interpreter's stack. *)
Fixpoint _run_condense_callback (depth : nat)
  (pending : list (string * string)) : M unit :=
  callback <- gets _condense_callback ;;
  match pending, callback with
  | [], _ | _, None => ret tt
  | _ :: _, Some cb =>
      let texts := map snd pending in
      let (summary, cb') := cb_call cb texts in
      modify (upd_condense_callback (fun _ => Some cb')) >>
      match summary with
      | None => ret tt
      | Some (summary_id, text) =>
          match depth with
          | O => raise RecursionError
          | S depth' =>
              r <- register_chunks_locked [summary_id] [text] None None ;;
              if fst r then _run_condense_callback depth' (snd r)
              else ret tt
          end
      end
  end.

(** [sys.getrecursionlimit()] *)
Definition recursion_limit : nat := 1000.

(** [register_chunks] *)
Definition register_chunks (ids raw_texts : list string)
  (embeddings : option (list (option (list Q))))
  (metadata : option (list json)) : M unit :=
  r <- register_chunks_locked ids raw_texts embeddings metadata ;;
  if fst r then _run_condense_callback recursion_limit (snd r)
  else ret tt.

(** The first inner loop of [reinforce]: the known ids of a row and their
    similarities. *)
Fixpoint resolve_row (mem : dict string MemoryState)
  (row : list (string * json)) : result (list (string * Q)) :=
  match row with
  | [] => Ok []
  | (memory_id, distance) :: rest =>
      match dict_get memory_id mem with
      | None => resolve_row mem rest
      | Some _ =>
          d <-! py_float distance ;;
          let sim := fmax 0.0 (1.0 - d) in
          tail <-! resolve_row mem rest ;;
          Ok ((memory_id, sim) :: tail)
      end
  end.

(** The frontier accounting and the condensation check of [reinforce] for
    one state, after its reinforcement. *)
Definition frontier_step (ms_id : string) : M unit :=
  found <- gets (fun m => dict_get ms_id (_mem m)) ;;
  threshold <- gets (fun m => frontier_novelty_threshold (_config m)) ;;
  patience <- gets (fun m => frontier_patience (_config m)) ;;
  match found with
  | None => ret tt
  | Some ms =>
      if Qle_bool threshold (novelty ms) && Qltb (boredom ms) 0.5
      then
        let hits := frontier_hits ms + 1 in
        modify (upd_mem (dict_update ms_id (set_frontier_hits hits))) >>
        modify (upd_frontier (dict_set ms_id
          [("territory",
            match territory_id ms with Some t => JInt t | None => JNull end);
           ("hits", JInt hits);
           ("novelty", JFloat (novelty ms))])) >>
        if patience <=? hits
        then
          maybe_split_territory ms_id >>
          modify (upd_mem (dict_update ms_id (set_frontier_hits 0)))
        else ret tt
      else
        modify (upd_mem (dict_update ms_id (set_frontier_hits 0))) >>
        modify (upd_frontier (dict_pop ms_id))
  end.

Definition condensation_step (ms_id : string) : M unit :=
  modify (fun m =>
    match dict_get ms_id (_mem m) with
    | None => m
    | Some ms =>
        if Qle_bool (condensation_boredom (_config m)) (boredom ms)
           && Qle_bool (condensation_conf (_config m)) (confidence ms)
           && Qle_bool (condensation_mass (_config m)) (mass ms)
        then
          if existsb (String.eqb ms_id) (_pending_condense m) then m
          else
            upd_mem (dict_update ms_id (set_pending_condense true))
              (upd_pending_condense (fun q => q ++ [ms_id]) m)
        else m
    end).

(** One iteration of the loop of [reinforce] over the rows. *)
Definition reinforce_row (heat_gain : Q) (ttl_boost : Z)
  (ids_row : list string) (dist_row : list json) : M unit :=
  if negb (List.length ids_row =? List.length dist_row)%nat
  then raise (ValueError "ids_row and dist_row must align")
  else
    resolved <- (fun m =>
      lift (resolve_row (_mem m) (combine ids_row dist_row)) m) ;;
    match resolved with
    | [] => ret tt
    | _ :: _ =>
        let states := map fst resolved in
        let sims := map snd resolved in
        for_each states (fun ms_id =>
          modify (upd_mem (dict_update ms_id (fun ms =>
            set_inhibition (fmin (inhibition ms + 0.05) 1.0) ms)))) >>
        update_pair_metrics states >>
        let avg_sim := (fsum sims / inject_Z (Z.of_nat (List.length sims)))%Q in
        modify (upd_reward_ema (fun ema =>
          (1.0 - _reward_alpha) * ema + _reward_alpha * avg_sim)%Q) >>
        for_each resolved (fun p =>
          _apply_reinforcement (fst p) (snd p) heat_gain ttl_boost >>
          frontier_step (fst p) >>
          condensation_step (fst p)) >>
        _record_event "reinforce"
          [("count", JInt (Z.of_nat (List.length states)))]
    end.

(** [reinforce] *)
Definition reinforce (results : ReinforceResults) (heat_gain : Q)
  (ttl_boost : Z) : M unit :=
  match res_ids results, res_distances results with
  | Some ids_rows, Some dist_rows =>
      if negb (List.length ids_rows =? List.length dist_rows)%nat
      then raise (ValueError "ids and distances rows must align")
      else
        for_each (combine ids_rows dist_rows) (fun row =>
          reinforce_row heat_gain ttl_boost (fst row) (snd row)) >>
        pending <- _flush_condensation_locked ;;
        _after_operation >>
        _run_condense_callback recursion_limit pending
  | _, _ => raise (ValueError "results must contain 'ids' and 'distances'")
  end.

(** The assignments of [degrade] to one trace. *)
Definition degrade_state (ttl_floor : Z) (ms : MemoryState) : MemoryState :=
  let ms := set_ttl (Z.min (ttl ms) ttl_floor) ms in
  let ms := set_boredom (fmin 1.0 (boredom ms + 0.1)) ms in
  clamp_ranges ms.

(** The loop of [degrade]; it returns [count]. *)
Fixpoint degrade_loop (ttl_floor : Z) (ids : list string) (count : Z)
  : M Z :=
  match ids with
  | [] => ret count
  | memory_id :: rest =>
      known <- gets (fun m => dict_mem memory_id (_mem m)) ;;
      if known
      then
        modify (upd_mem (dict_update memory_id (degrade_state ttl_floor))) >>
        degrade_loop ttl_floor rest (count + 1)
      else degrade_loop ttl_floor rest count
  end.

(** [degrade] *)
Definition degrade (ids : list string) (ttl_floor : json) : M unit :=
  ttl_floor <- lift (require_int ttl_floor 1 "ttl_floor") ;;
  count <- degrade_loop ttl_floor ids 0 ;;
  if negb (count =? 0)
  then _record_event "degrade" [("count", JInt count)]
  else ret tt.

(** [register_engram] *)
Definition register_engram (summary_id : string) (member_ids : list string)
  (text : string) : M bool :=
  members <- gets (fun m =>
    filter (fun mid => dict_mem mid (_mem m)) member_ids) ;;
  if (List.length members <? 2)%nat then ret false
  else
    modify (upd_engrams (dict_set summary_id members)) >>
    for_each members (fun mid =>
      modify (upd_mem (dict_update mid (fun ms =>
        let ms := set_boredom (fmin 1.0 (boredom ms + 0.05)) ms in
        let ms := set_inhibition (fmin 1.0 (inhibition ms + 0.05)) ms in
        clamp_ranges ms)))) >>
    _record_event "engram"
      [("id", JStr summary_id);
       ("members", JInt (Z.of_nat (List.length members)))] >>
    ret true.

(** [scored.sort(key=..., reverse=True)]: stable, descending. *)
Fixpoint insert_desc {A} (x : A * Q) (l : list (A * Q)) : list (A * Q) :=
  match l with
  | [] => [x]
  | y :: l' =>
      if Qltb (snd x) (snd y) then y :: insert_desc x l' else x :: y :: l'
  end.

(** [top] *)
Definition top (k : Z) : M (list (string * Q)) :=
  let k := if k <=? 0 then 1 else k in
  let k := if k >? 100 then 100 else k in
  scored <- gets (fun m =>
    map (fun p => (fst p, composite_score m (snd p))) (_mem m)) ;;
  ret (firstn (Z.to_nat k) (fold_right insert_desc [] scored)).

(** [composite_score_for] *)
Definition composite_score_for (memory_id : string) : M (option Q) :=
  ms <- gets (fun m => dict_get memory_id (_mem m)) ;;
  match ms with
  | None => ret None
  | Some ms => score <- gets (fun m => composite_score m ms) ;; ret (Some score)
  end.

(** [exploratory_weight] *)
Definition exploratory_weight (memory_id : string) : M Q :=
  ms <- gets (fun m => dict_get memory_id (_mem m)) ;;
  match ms with
  | None => ret 0.0%Q
  | Some ms => ret (clamp01 (novelty ms * (1.0 - boredom ms)))
  end.

(** [stats] *)
Definition stats : M (list (string * Q)) :=
  mem <- gets _mem ;;
  match mem with
  | [] =>
      ret [("count", 0.0%Q); ("avg_confidence", 0.0%Q);
           ("avg_novelty", 0.0%Q); ("avg_boredom", 0.0%Q);
           ("avg_mass", 0.0%Q)]
  | _ :: _ =>
      let count := inject_Z (Z.of_nat (List.length mem)) in
      let avg (f : MemoryState -> Q) :=
        (fsum (map (fun p => f (snd p)) mem) / count)%Q in
      ret [("count", count); ("avg_confidence", avg confidence);
           ("avg_novelty", avg novelty); ("avg_boredom", avg boredom);
           ("avg_mass", avg mass)]
  end.

(** [consume_events] *)
Definition consume_events : M (list (list (string * json))) :=
  events <- gets _events ;;
  modify (upd_events (fun _ => [])) >>
  ret events.

(** [peek_events] *)
Definition peek_events (limit : Z) : M (list (list (string * json))) :=
  if limit <=? 0 then ret []
  else events <- gets _events ;; ret (firstn (Z.to_nat limit) events).

(** [set_condense_callback] *)
Definition set_condense_callback (callback : option CondenseCallback)
  : M unit :=
  modify (upd_condense_callback (fun _ => callback)).

(** ** Persistence *)

(** [to_dict] *)
Definition to_dict : M json := gets manager_to_dict.

(** [from_dict] *)
Definition from_dict (entropy : Z) (payload : json)
  : result VoidMemoryManager :=
  config_j <-! py_get payload "config" (JObj []) ;;
  config <-! sanitize_config config_j ;;
  manager <-! __init__ entropy config ;;
  match populate_manager_from_dict payload manager with
  | (Ok _, manager') => Ok manager'
  | (Raise e, _) => Raise e
  end.

End Manager.

Section ManagerFiles.
Context {rt : Runtime} {codec : Codec}.

(** [save_json] *)
Definition save_json (path : string) (fs : FileSystem)
  (manager : VoidMemoryManager) : bool * FileSystem :=
  persistence.save_json manager path fs.

(** [load_json] *)
Definition load_json (entropy : Z) (path : string) (fs : FileSystem)
  : result (option VoidMemoryManager) :=
  persistence.load_json (__init__ entropy) path fs.

End ManagerFiles.

End manager.
Export manager.

(* ------------------------------------------------------------------ *)
(** * The clamping functions on all doubles

    The manager above reads a float as a rational number.  Here the
    functions that bound the attributes are given on every double: the
    finite ones, the two infinities and NaN, with the comparisons of the
    interpreter, which are all false on NaN. *)

Module ieee.

Inductive double : Type :=
| Fin (q : Q)
| PInf
| NInf
| NaN.

(** [a < b] *)
Definition lt (a b : double) : bool :=
  match a, b with
  | NaN, _ | _, NaN => false
  | Fin x, Fin y => Qltb x y
  | NInf, NInf => false
  | NInf, _ => true
  | _, NInf => false
  | PInf, _ => false
  | Fin _, PInf => true
  end.

(** [a <= b] *)
Definition le (a b : double) : bool :=
  match a, b with
  | NaN, _ | _, NaN => false
  | Fin x, Fin y => Qle_bool x y
  | NInf, _ => true
  | _, PInf => true
  | _, NInf => false
  | PInf, _ => false
  end.

Definition is_nan (a : double) : bool :=
  match a with NaN => true | _ => false end.

(** [utils.clamp_float]; [float(value)] of a float is the float. *)
Definition clamp_float (value lower upper : double) : double :=
  if lt value lower then lower
  else if lt upper value then upper
  else value.

(** [memory_state.clamp01] *)
Definition clamp01 (value : double) : double :=
  if lt value (Fin 0) then Fin 0
  else if lt (Fin 1) value then Fin 1
  else value.

(** [MemoryState], its floats being doubles. *)
Record MemoryState : Type := {
  text : string;
  embedding : option (list double);
  metadata : json;
  territory_id : option Z;
  ttl : Z;
  last_touch_tick : Z;
  use_count : Z;
  mass : double;
  heat : double;
  confidence : double;
  novelty : double;
  boredom : double;
  inhibition : double;
  frontier_hits : Z;
  pending_condense : bool
}.

(** [MemoryState.clamp_ranges] *)
Definition clamp_ranges (ms : MemoryState) : MemoryState :=
  {| text := text ms; embedding := embedding ms; metadata := metadata ms;
     territory_id := territory_id ms;
     ttl := if ttl ms <? 0 then 0 else ttl ms;
     last_touch_tick := last_touch_tick ms;
     use_count := use_count ms;
     mass := if lt (mass ms) (Fin 0) then Fin 0 else mass ms;
     heat := if lt (heat ms) (Fin 0) then Fin 0 else heat ms;
     confidence := clamp01 (confidence ms);
     novelty := clamp01 (novelty ms);
     boredom := clamp01 (boredom ms);
     inhibition :=
       if lt (inhibition ms) (Fin 0) then Fin 0 else inhibition ms;
     frontier_hits := frontier_hits ms;
     pending_condense := pending_condense ms |}.

(** A trace of the manager, its rationals read as finite doubles. *)
Definition of_trace (ms : memory_state.MemoryState) : MemoryState :=
  {| text := memory_state.text ms;
     embedding := option_map (map Fin) (memory_state.embedding ms);
     metadata := memory_state.metadata ms;
     territory_id := memory_state.territory_id ms;
     ttl := memory_state.ttl ms;
     last_touch_tick := memory_state.last_touch_tick ms;
     use_count := memory_state.use_count ms;
     mass := Fin (memory_state.mass ms);
     heat := Fin (memory_state.heat ms);
     confidence := Fin (memory_state.confidence ms);
     novelty := Fin (memory_state.novelty ms);
     boredom := Fin (memory_state.boredom ms);
     inhibition := Fin (memory_state.inhibition ms);
     frontier_hits := memory_state.frontier_hits ms;
     pending_condense := memory_state.pending_condense ms |}.

(** [max(a, b)] and [min(a, b)]: the first argument is kept unless the
    second compares beyond it, so a NaN in first place is kept and a NaN
    in second place is dropped. *)
Definition max (a b : double) : double := if lt a b then b else a.
Definition min (a b : double) : double := if lt b a then b else a.

(** [a * b], the product of finite doubles being taken exactly. *)
Definition mul (a b : double) : double :=
  match a, b with
  | NaN, _ | _, NaN => NaN
  | Fin x, Fin y => Fin (x * y)
  | Fin x, PInf | PInf, Fin x =>
      if Qeq_bool x 0 then NaN else if Qltb 0 x then PInf else NInf
  | Fin x, NInf | NInf, Fin x =>
      if Qeq_bool x 0 then NaN else if Qltb 0 x then NInf else PInf
  | PInf, PInf | NInf, NInf => PInf
  | PInf, NInf | NInf, PInf => NInf
  end.

(** [a / b], the quotient of finite doubles being taken exactly; [None]
    is the ZeroDivisionError of a zero divisor. *)
Definition div (a b : double) : option double :=
  match b with
  | Fin y =>
      if Qeq_bool y 0 then None
      else
        Some match a with
             | Fin x => Fin (x / y)
             | PInf => if Qltb 0 y then PInf else NInf
             | NInf => if Qltb 0 y then NInf else PInf
             | NaN => NaN
             end
  | NaN => Some NaN
  | PInf | NInf =>
      Some match a with
           | Fin _ => Fin 0
           | _ => NaN
           end
  end.

(** [VoidMemoryManager._boredom_increment], from the attributes it
    reads: [habituation_start], [habituation_scale] and the [use_count]
    of the trace. *)
Definition _boredom_increment (habituation_start : Z)
  (habituation_scale : double) (use_count : Z) : option double :=
  if use_count <=? habituation_start then Some (Fin 0.02)
  else
    let denominator := max habituation_scale (Fin (inject_Z use_count)) in
    match div (Fin (inject_Z use_count)) denominator with
    | Some ratio => Some (min (Fin 0.2) (mul ratio (Fin 0.05)))
    | None => None
    end.

(** An attribute that is a number within [[lower, upper]]. *)
Definition between (lower upper value : double) : Prop :=
  le lower value = true /\ le value upper = true.

End ieee.

(* ------------------------------------------------------------------ *)
(** * The snapshots the manager above covers *)

(** [MemoryState.from_dict] stores [data.get("territory_id")] as it
    finds it, and the code that follows compares and hashes it.  The
    manager above has integers for territories: it covers the snapshots
    whose traces carry an integer or [None] there. *)
Definition plain_territory (data : json) : bool :=
  match data with
  | JObj kv =>
      match assoc "territory_id" kv with
      | None | Some JNull | Some (JInt _) => true
      | Some _ => false
      end
  | _ => true
  end.

Definition integer_territories (payload : json) : bool :=
  match payload with
  | JObj kv =>
      match assoc "mem" kv with
      | Some (JObj mem) => forallb (fun p => plain_territory (snd p)) mem
      | _ => true
      end
  | _ => true
  end.

(* ------------------------------------------------------------------ *)
(** * Instances for computing examples *)

Module samples.

(** A runtime with rational stand-ins for the numeric library: Newton
    steps for the square root, truncated series for the exponential and the logarithm, the
    digest of a text taken to be the text itself, a generator that shuffles
    by reversing.  The examples computed with it exercise the control flow
    of the manager; no theorem depends on these choices. *)
Fixpoint newton (n : nat) (q x : Q) : Q :=
  match n with
  | O => x
  | S n' => newton n' q (Qred ((x + q / x) / 2))
  end.

Fixpoint exp_series (n : nat) (x term acc : Q) (k : Z) : Q :=
  match n with
  | O => acc
  | S n' =>
      let term' := Qred (term * x / inject_Z k) in
      exp_series n' x term' (Qred (acc + term')) (k + 1)
  end.

Fixpoint log_series (n : nat) (z2 term acc : Q) (k : Z) : Q :=
  match n with
  | O => acc
  | S n' =>
      let term' := Qred (term * z2) in
      log_series n' z2 term' (Qred (acc + term' / inject_Z k)) (k + 2)
  end.

Definition sample_exp (x : Q) : Q := exp_series 8 x 1 1 1.

Definition sample_log (x : Q) : Q :=
  if Qle_bool x 0 then 0%Q
  else
    let z := Qred ((x - 1) / (x + 1)) in
    Qred (2 * log_series 6 (z * z) z z 3).

Definition sample_runtime : Runtime := {|
  py_sqrt := fun q => if Qle_bool q 0 then 0%Q else newton 6 q ((q + 1) / 2);
  py_exp := sample_exp;
  py_log := sample_log;
  py_pow := fun x y => sample_exp (y * sample_log x);
  int_of_str := fun s => option_map Z.of_int (NilZero.int_of_string s);
  float_of_str := fun s =>
    option_map (fun d => inject_Z (Z.of_int d)) (NilZero.int_of_string s);
  py_repr := fun _ => "<object>";
  blake2b_hex := fun s => Some s;
  builtin_hash := fun s => Z.of_nat (String.length s);
  rng_random := fun r => match rng_src r with FromSeed _ => 0.5%Q | FromOS _ => 0.75%Q end;
  rng_shuffle := fun _ l => rev l
|}.

(** A codec whose text is the value itself. *)
Definition sample_codec : Codec := {|
  ftext := json;
  json_dumps := fun j => j;
  json_loads := fun t => Some t
|}.

Definition empty_fs : @FileSystem sample_codec := {|
  fs_read := fun _ => None;
  fs_writable := fun _ => true
|}.

(** A file system holding one file. *)
Definition fs_with (path : string) (content : @ftext sample_codec)
  : @FileSystem sample_codec := {|
  fs_read := fun p => if (p =? path)%string then Some content else None;
  fs_writable := fun _ => true
|}.

(** The configuration of the first test of the repository. *)
Definition test_config : list (json * json) := [
  (JStr "capacity", JInt 64);
  (JStr "base_ttl", JInt 120);
  (JStr "decay_half_life", JInt 32);
  (JStr "prune_sample", JInt 32);
  (JStr "prune_target_ratio", JFloat 0.2);
  (JStr "seed", JInt 7);
  (JStr "diffusion_interval", JInt 12)
].

Definition test_cfg : Config := {|
  capacity := 64;
  base_ttl := 120;
  decay_half_life := 32;
  prune_sample := 32;
  prune_target_ratio := 0.2;
  thread_safe := false;
  seed := Some 7;
  recency_half_life_ticks := 64;
  habituation_start := 32;
  habituation_scale := 1.0;
  boredom_weight := 0.35;
  frontier_novelty_threshold := 0.8;
  frontier_patience := 3;
  diffusion_interval := 12;
  diffusion_kappa := 0.25;
  exploration_churn_window := 32;
  condensation_boredom := 0.85;
  condensation_conf := 0.6;
  condensation_mass := 5.0
|}.

(** The manager that configuration constructs, and the same after three
    short texts were registered. *)
Definition fresh_manager : VoidMemoryManager :=
  initial_state test_cfg (new_rng (Some 7) 0).

Definition learned_manager : VoidMemoryManager :=
  Eval vm_compute in
  snd (register_chunks (rt := sample_runtime)
         ["mem-alpha"; "mem-beta"; "mem-gamma"]
         ["energy"; "tensor"; "quantum"] None None fresh_manager).

(** A manager of capacity 10 configured with [prune_target_ratio = 1.0],
    and the state in which its first maintenance reaches the prune step
    after thirty chunks were registered in one call. *)
Definition crowded_config : list (json * json) := [
  (JStr "capacity", JInt 10);
  (JStr "base_ttl", JInt 120);
  (JStr "decay_half_life", JInt 32);
  (JStr "prune_sample", JInt 32);
  (JStr "prune_target_ratio", JFloat 1.0);
  (JStr "seed", JInt 7)
].


Definition loaded_or (fallback : VoidMemoryManager)
  (r : result VoidMemoryManager) : VoidMemoryManager :=
  match r with
  | Ok m => m
  | Raise _ => fallback
  end.

Definition crowded_fresh : VoidMemoryManager :=
  Eval vm_compute in
  loaded_or fresh_manager (__init__ (rt := sample_runtime) 0 crowded_config).


(** A snapshot of six traces sharing territory 10000, with novelties
    0.1, 0.2, 0.3, 0.5, 0.6 and 0.7, and the manager loaded from it. *)
Definition trace_payload (novelty' : Q) : json :=
  JObj [("text", JStr "shared"); ("territory_id", JInt 10000);
        ("ttl", JInt 100); ("novelty", JFloat novelty')].

Definition split_payload : json :=
  JObj [
    ("tick", JInt 1);
    ("next_territory", JInt 10001);
    ("mem", JObj [("a", trace_payload 0.1); ("b", trace_payload 0.2);
                  ("c", trace_payload 0.3); ("d", trace_payload 0.5);
                  ("e", trace_payload 0.6); ("f", trace_payload 0.7)]);
    ("territory_counts", JObj [("10000", JInt 6)]);
    ("territory_member_dists", JObj [("10000", JList [])])
  ].

Definition split_manager : VoidMemoryManager :=
  Eval vm_compute in
  loaded_or fresh_manager (from_dict (rt := sample_runtime) 0 split_payload).

(** A reinforcement whose second row has an id and no distance. *)
Definition ragged_results : ReinforceResults := {|
  res_ids := Some [["mem-alpha"]; ["mem-beta"]];
  res_distances := Some [[JFloat 0.05]; []]
|}.

(** A snapshot whose configuration asks for a capacity of 5. *)
Definition small_capacity_payload : json :=
  JObj [("config", JObj [("capacity", JInt 5)])].

End samples.
Export samples.

(* ------------------------------------------------------------------ *)
(** * The specification's formulas, in its own words *)

Module spec.

(** The number of removals at the prune step, as the specification
    computes it:
    [max(1, min(|mem| - capacity, floor(max(1, |mem| * ratio - capacity))))]. *)
Definition spec_prune_target (size capacity' : Z) (ratio : Q) : Z :=
  Z.max 1
    (Z.min (size - capacity')
       (Qfloor (Qmax 1 (inject_Z size * ratio - inject_Z capacity')))).

(** The candidates of a split, as the specification selects them: the
    members whose novelty exceeds the statistical median of the members'
    novelties and whose boredom is below 0.7. *)
Definition spec_split_candidates (members : list (string * MemoryState))
  : list (string * MemoryState) :=
  let med := median (map (fun p => novelty (snd p)) members) in
  filter (fun p => Qltb med (novelty (snd p)) && Qltb (boredom (snd p)) 0.7)
         members.

End spec.
Export spec.

(* ------------------------------------------------------------------ *)
(** * Driving a manager through its public operations *)

Module api.

(** A call of a public method on an existing manager. *)
Inductive call : Type :=
| RegisterChunks (ids raw_texts : list string)
    (embeddings : option (list (option (list Q))))
    (metadata : option (list json))
| Reinforce (results : ReinforceResults) (heat_gain : Q) (ttl_boost : Z)
| Degrade (ids : list string) (ttl_floor : json)
| RegisterEngram (summary_id : string) (member_ids : list string)
    (text : string)
| Top (k : Z)
| CompositeScoreFor (memory_id : string)
| ExploratoryWeight (memory_id : string)
| Stats
| ConsumeEvents
| PeekEvents (limit : Z)
| SetCondenseCallback (callback : option CondenseCallback)
| ToDict.

(** What a call returns. *)
Inductive answer : Type :=
| Nothing
| Flag (b : bool)
| Scores (l : list (string * Q))
| Score (s : option Q)
| Weight (w : Q)
| Events (l : list (list (string * json)))
| Snapshot (j : json).

Section Api.
Context {rt : Runtime}.

Definition run_call (c : call) : M answer :=
  match c with
  | RegisterChunks ids raw_texts embeddings metadata =>
      register_chunks ids raw_texts embeddings metadata >> ret Nothing
  | Reinforce results heat_gain ttl_boost =>
      reinforce results heat_gain ttl_boost >> ret Nothing
  | Degrade ids ttl_floor => degrade ids ttl_floor >> ret Nothing
  | RegisterEngram summary_id member_ids text =>
      b <- register_engram summary_id member_ids text ;; ret (Flag b)
  | Top k => l <- top k ;; ret (Scores l)
  | CompositeScoreFor memory_id =>
      s <- composite_score_for memory_id ;; ret (Score s)
  | ExploratoryWeight memory_id =>
      w <- exploratory_weight memory_id ;; ret (Weight w)
  | Stats => l <- stats ;; ret (Scores l)
  | ConsumeEvents => l <- consume_events ;; ret (Events l)
  | PeekEvents limit => l <- peek_events limit ;; ret (Events l)
  | SetCondenseCallback callback =>
      set_condense_callback callback >> ret Nothing
  | ToDict => j <- to_dict ;; ret (Snapshot j)
  end.

(** The keyword arguments [params] together with [seed=s]. *)
Definition with_seed (s : Z) (params : list (json * json))
  : list (json * json) :=
  (JStr "seed", JInt s) :: params.

(** A sequence of calls, each on the manager the previous one left,
    whether it returned or raised. *)
Fixpoint drive (calls : list call) (m : VoidMemoryManager)
  : list (result answer) * VoidMemoryManager :=
  match calls with
  | [] => ([], m)
  | c :: rest =>
      let (r, m') := run_call c m in
      let (rs, m'') := drive rest m' in
      (r :: rs, m'')
  end.

(** The managers a program can hold that only ever constructs one and
    calls it. *)
Inductive reachable : VoidMemoryManager -> Prop :=
| reach_init (entropy : Z) (config : list (json * json)) (m : VoidMemoryManager) :
    __init__ entropy config = Ok m -> reachable m
| reach_call (c : call) (m : VoidMemoryManager) :
    reachable m -> reachable (snd (run_call c m)).

End Api.

End api.
Export api.

(* ------------------------------------------------------------------ *)
(** * Invariants *)

Module invariants.

(** The adaptive radius is within its bounds, and is the clamped median of
    the recorded distances when there are any. *)
Definition tau_in_range (m : VoidMemoryManager) : Prop :=
  (0.05 <= _territory_tau m)%Q /\ (_territory_tau m <= 0.6)%Q.

Definition tau_is_median (m : VoidMemoryManager) : Prop :=
  _nn_distances m <> [] ->
  _territory_tau m = clamp_float (median (_nn_distances m)) 0.05 0.6.

Definition tau_ok (m : VoidMemoryManager) : Prop :=
  tau_in_range m /\ tau_is_median m.

(** The [pending_condense] flags of a store, by key. *)
Definition flags_of (d : dict string MemoryState) : dict string bool :=
  map (fun p => (fst p, pending_condense (snd p))) d.

(** A trace's id is in the condensation queue exactly when its flag is
    set. *)
Definition queue_matches_flags (m : VoidMemoryManager) : Prop :=
  forall memory_id ms,
    dict_get memory_id (_mem m) = Some ms ->
    (In memory_id (_pending_condense m) <-> pending_condense ms = true).

(** The same, together with what makes it inductive: the keys of the
    store are distinct and every queued id is a key. *)
Definition queue_inv (m : VoidMemoryManager) : Prop :=
  NoDup (dict_keys (_mem m))
  /\ forall memory_id,
       In memory_id (_pending_condense m)
       <-> exists ms, dict_get memory_id (_mem m) = Some ms
                      /\ pending_condense ms = true.

(** The queue is empty and no flag is set. *)
Definition queue_idle (m : VoidMemoryManager) : Prop :=
  NoDup (dict_keys (_mem m))
  /\ _pending_condense m = []
  /\ forall memory_id ms,
       In (memory_id, ms) (_mem m) -> pending_condense ms = false.

End invariants.
Export invariants.

(* ------------------------------------------------------------------ *)
(** * What a snapshot keeps *)

Module shape.

(** A dictionary whose keys are distinct, as those of a Python dictionary
    are, with a property of its keys and one of its values. *)
Definition dict_ok {K V : Type} `{Key K} (RK : K -> Prop) (RV : V -> Prop)
  (d : dict K V) : Prop :=
  NoDup (dict_keys d) /\ forall k v, In (k, v) d -> RK k /\ RV v.

Definition any {A : Type} (_ : A) : Prop := True.

(** A deque within its [maxlen]. *)
Definition within {A : Type} (maxlen : nat) (dq : list A) : Prop :=
  (List.length dq <= maxlen)%nat.

(** A trace that [clamp_ranges] leaves as it is. *)
Definition clamped (ms : MemoryState) : Prop := clamp_ranges ms = ms.

(** A pair of territories in the order [update_pair_metrics] stores. *)
Definition ordered_pair (p : Z * Z) : Prop := fst p <= snd p.

(** A configuration that [__init__] accepts and leaves as it is. *)
Definition config_ok (c : Config) : Prop :=
  10 <= capacity c
  /\ 10 <= base_ttl c
  /\ 1 <= decay_half_life c
  /\ 16 <= prune_sample c
  /\ clamp_float (prune_target_ratio c) 0.05 1.0 = prune_target_ratio c
  /\ 1 <= recency_half_life_ticks c
  /\ 0 <= habituation_start c
  /\ fmax (habituation_scale c) 1.0 = habituation_scale c
  /\ clamp_float (boredom_weight c) 0.0 1.0 = boredom_weight c
  /\ clamp_float (frontier_novelty_threshold c) 0.0 1.0
     = frontier_novelty_threshold c
  /\ 2 <= frontier_patience c
  /\ 5 <= diffusion_interval c
  /\ clamp_float (diffusion_kappa c) 0.0 1.0 = diffusion_kappa c
  /\ 10 <= exploration_churn_window c
  /\ clamp01 (condensation_boredom c) = condensation_boredom c
  /\ clamp01 (condensation_conf c) = condensation_conf c.

(** The shape of the attributes a snapshot records, as the operations
    keep it: the validated configuration, clamped traces, deques within
    their bounds, ordered pairs. *)
Definition well_formed (m : VoidMemoryManager) : Prop :=
  config_ok (_config m)
  /\ dict_ok any clamped (_mem m)
  /\ dict_ok any any (engrams m)
  /\ dict_ok any any (frontier m)
  /\ dict_ok any any (_territory_centroids m)
  /\ dict_ok any any (_territory_counts m)
  /\ dict_ok any (within 1024) (_territory_member_dists m)
  /\ within 5000 (_nn_distances m)
  /\ dict_ok ordered_pair
       (within (Z.to_nat (exploration_churn_window (_config m))))
       (_pair_churn m)
  /\ dict_ok ordered_pair any (_pair_last m).

(** The manager [load_json] builds from the snapshot of [m]: the
    persisted attributes of [m] in a freshly constructed manager. *)
Definition reloaded (entropy : Z) (m : VoidMemoryManager)
  : VoidMemoryManager :=
  {| _config := _config m;
     _rng := new_rng (seed (_config m)) entropy;
     _mem := _mem m;
     _tick := _tick m;
     _events := [];
     _nn_distances := _nn_distances m;
     _territory_centroids := _territory_centroids m;
     _territory_counts := _territory_counts m;
     _territory_member_dists := _territory_member_dists m;
     _territory_tau := _territory_tau m;
     _next_territory_id := _next_territory_id m;
     _deterministic_ids := [];
     _reward_ema := _reward_ema m;
     _pair_churn := _pair_churn m;
     _pair_last := _pair_last m;
     _exploration_temp := 1.0;
     _pending_condense := [];
     _condense_callback := None;
     engrams := engrams m;
     frontier := frontier m;
     _split_counter := _split_counter m;
     _merge_counter := _merge_counter m |}.

End shape.
Export shape.

(* ------------------------------------------------------------------ *)
(** * Reasoning about computations over the manager *)

Module logic.

(** [triple P c Q E]: from a state satisfying [P], [c] either returns [a]
    in a state satisfying [Q a], or raises in a state satisfying [E]. *)
Definition triple {A} (P : VoidMemoryManager -> Prop) (c : M A)
  (Q : A -> VoidMemoryManager -> Prop) (E : VoidMemoryManager -> Prop)
  : Prop :=
  forall m, P m ->
    match c m with
    | (Ok a, m') => Q a m'
    | (Raise _, m') => E m'
    end.

(** [preserves P c]: [P] holds after [c], however it ends. *)
Definition preserves {A} (P : VoidMemoryManager -> Prop) (c : M A) : Prop :=
  forall m, P m -> P (snd (c m)).

Lemma preserves_triple {A} P (c : M A) :
  preserves P c <-> triple P c (fun _ => P) P.
Proof.
  unfold preserves, triple; split; intros H m Hm; specialize (H m Hm);
    destruct (c m) as [[a|e] m']; simpl in *; exact H.
Qed.

Lemma triple_bind {A B} P (c : M A) (k : A -> M B) Q R E :
  triple P c Q E -> (forall a, triple (Q a) (k a) R E) ->
  triple P (bind c k) R E.
Proof.
  intros Hc Hk m Hm. unfold bind. specialize (Hc m Hm).
  destruct (c m) as [[a|e] m']; [apply (Hk a m' Hc) | exact Hc].
Qed.

Lemma triple_conseq {A} (P P' : VoidMemoryManager -> Prop) (c : M A)
  (Q Q' : A -> VoidMemoryManager -> Prop) (E E' : VoidMemoryManager -> Prop) :
  triple P' c Q' E' ->
  (forall m, P m -> P' m) -> (forall a m, Q' a m -> Q a m) ->
  (forall m, E' m -> E m) -> triple P c Q E.
Proof.
  intros H HP HQ HE m Hm. specialize (H m (HP m Hm)).
  destruct (c m) as [[a|e] m']; auto.
Qed.

Lemma preserves_bind {A B} P (c : M A) (k : A -> M B) :
  preserves P c -> (forall a, preserves P (k a)) -> preserves P (bind c k).
Proof.
  intros Hc Hk m Hm. unfold bind. specialize (Hc m Hm).
  destruct (c m) as [[a|e] m']; simpl in *; [apply Hk; exact Hc | exact Hc].
Qed.

Lemma preserves_ret {A} P (a : A) : preserves P (ret a).
Proof. intros m Hm; exact Hm. Qed.

Lemma preserves_raise {A} P e : preserves P (@raise A e).
Proof. intros m Hm; exact Hm. Qed.

Lemma preserves_gets {A} P (f : VoidMemoryManager -> A) : preserves P (gets f).
Proof. intros m Hm; exact Hm. Qed.

Lemma preserves_lift {A} P (r : result A) : preserves P (lift r).
Proof. intros m Hm; exact Hm. Qed.

Lemma preserves_modify P f :
  (forall m, P m -> P (f m)) -> preserves P (modify f).
Proof. intros H m Hm; apply H; exact Hm. Qed.

Lemma preserves_for_each {A} P (l : list A) (body : A -> M unit) :
  (forall x, In x l -> preserves P (body x)) -> preserves P (for_each l body).
Proof.
  induction l as [|x l IH]; intros H; simpl.
  - apply preserves_ret.
  - apply preserves_bind.
    + apply H; left; reflexivity.
    + intros _. apply IH. intros y Hy. apply H; right; exact Hy.
Qed.

Lemma preserves_record_event P ty payload :
  (forall f m, P m -> P (upd_events f m)) ->
  preserves P (_record_event ty payload).
Proof. intros H m Hm. unfold _record_event; simpl. apply H; exact Hm. Qed.

(** One step through the structure of a computation. *)
Ltac pres_step :=
  lazymatch goal with
  | |- preserves _ (bind _ _) => apply preserves_bind; [ | intro ]
  | |- preserves _ (ret _) => apply preserves_ret
  | |- preserves _ (raise _) => apply preserves_raise
  | |- preserves _ (gets _) => apply preserves_gets
  | |- preserves _ (lift _) => apply preserves_lift
  | |- preserves _ (for_each _ _) => apply preserves_for_each; intros ? ?
  | |- preserves _ (modify _) => apply preserves_modify
  | |- preserves _ (match ?x with _ => _ end) => destruct x
  | |- preserves _ (let (_, _) := ?x in _) => destruct x
  end.

(** ** Facts about dictionaries *)

Section DictFacts.
Context {K V : Type} `{Key K}.

Lemma keqb_refl (k : K) : keqb k k = true.
Proof. apply keqb_eq; reflexivity. Qed.

Lemma keqb_neq (a b : K) : a <> b -> keqb a b = false.
Proof.
  intros Hn. destruct (keqb a b) eqn:E; [|reflexivity].
  apply keqb_eq in E. contradiction.
Qed.

Lemma keqb_false (a b : K) : keqb a b = false -> a <> b.
Proof. intros E ->. rewrite keqb_refl in E. discriminate. Qed.

Lemma dict_get_update (k k' : K) (f : V -> V) (d : dict K V) :
  dict_get k (dict_update k' f d) =
  if keqb k k' then option_map f (dict_get k d) else dict_get k d.
Proof.
  induction d as [|[k0 v0] d IH]; simpl.
  - destruct (keqb k k'); reflexivity.
  - destruct (keqb k' k0) eqn:E0; simpl.
    + apply keqb_eq in E0; subst k0.
      destruct (keqb k k') eqn:E; reflexivity.
    + destruct (keqb k k0) eqn:E1.
      * apply keqb_eq in E1; subst k0.
        rewrite (keqb_neq k k'); [reflexivity|].
        intros ->. rewrite keqb_refl in E0; discriminate.
      * exact IH.
Qed.

Lemma dict_get_set (k k' : K) (v : V) (d : dict K V) :
  dict_get k (dict_set k' v d) = if keqb k k' then Some v else dict_get k d.
Proof.
  induction d as [|[k0 v0] d IH]; simpl.
  - destruct (keqb k k'); reflexivity.
  - destruct (keqb k' k0) eqn:E0; simpl.
    + apply keqb_eq in E0; subst k0. destruct (keqb k k'); reflexivity.
    + destruct (keqb k k0) eqn:E1.
      * apply keqb_eq in E1; subst k0.
        rewrite (keqb_neq k k'); [reflexivity|].
        intros ->. rewrite keqb_refl in E0; discriminate.
      * exact IH.
Qed.

Lemma dict_keys_update (k : K) (f : V -> V) (d : dict K V) :
  dict_keys (dict_update k f d) = dict_keys d.
Proof.
  unfold dict_keys.
  induction d as [|[k0 v0] d IH]; simpl; [reflexivity|].
  destruct (keqb k k0); simpl; [reflexivity|].
  rewrite IH. reflexivity.
Qed.

Lemma dict_update_absent (k : K) (f : V -> V) (d : dict K V) :
  dict_get k d = None -> dict_update k f d = d.
Proof.
  induction d as [|[k0 v0] d IH]; simpl; [reflexivity|].
  destruct (keqb k k0); [discriminate|].
  intros Hn. rewrite (IH Hn). reflexivity.
Qed.

Lemma dict_get_In (k : K) (v : V) (d : dict K V) :
  dict_get k d = Some v -> In (k, v) d.
Proof.
  induction d as [|[k0 v0] d IH]; simpl; [discriminate|].
  destruct (keqb k k0) eqn:E.
  - apply keqb_eq in E; subst. intros [= ->]. left; reflexivity.
  - intros Hg. right. apply IH; exact Hg.
Qed.

Lemma dict_get_None_keys (k : K) (d : dict K V) :
  dict_get k d = None <-> ~ In k (dict_keys d).
Proof.
  induction d as [|[k0 v0] d IH]; simpl.
  - split; auto.
  - destruct (keqb k k0) eqn:E.
    + apply keqb_eq in E; subst. split; [discriminate|].
      intros Hn. exfalso. apply Hn. left; reflexivity.
    + rewrite IH. split.
      * intros Hn [Heq|Hin]; [|auto]. subst. rewrite keqb_refl in E. discriminate.
      * intros Hn Hin. apply Hn. right; exact Hin.
Qed.

Lemma NoDup_get_In (k : K) (v : V) (d : dict K V) :
  NoDup (dict_keys d) -> In (k, v) d -> dict_get k d = Some v.
Proof.
  induction d as [|[k0 v0] d IH]; simpl; [contradiction|].
  intros Hnd [Heq|Hin].
  - inversion Heq; subst. rewrite keqb_refl. reflexivity.
  - inversion Hnd as [|? ? Hnot Hnd']; subst.
    destruct (keqb k k0) eqn:E.
    + apply keqb_eq in E; subst. exfalso. apply Hnot.
      change (In k0 (map fst d)). apply in_map_iff. exists (k0, v). auto.
    + apply IH; assumption.
Qed.

(** Mutating the objects of a list of keys, one after the other. *)
Definition update_all (f : V -> V) (ks : list K) (d : dict K V) : dict K V :=
  fold_left (fun d k => dict_update k f d) ks d.

Lemma update_all_keys (f : V -> V) (ks : list K) :
  forall d, dict_keys (update_all f ks d) = dict_keys d.
Proof.
  unfold update_all.
  induction ks as [|k ks IH]; intros d; simpl; [reflexivity|].
  rewrite IH. apply dict_keys_update.
Qed.

End DictFacts.

Lemma update_all_get {V} (f : V -> V) (ks : list string) :
  forall (d : dict string V) (k : string),
    dict_get k (update_all f ks d)
    = option_map (Nat.iter (count_occ string_dec ks k) f) (dict_get k d).
Proof.
  unfold update_all.
  induction ks as [|i ks IH]; intros d k; simpl.
  - destruct (dict_get k d); reflexivity.
  - rewrite IH, dict_get_update.
    destruct (string_dec i k) as [->|Hne].
    + rewrite keqb_refl. destruct (dict_get k d); simpl; [|reflexivity].
      rewrite <- Nat.iter_succ_r. reflexivity.
    + rewrite keqb_neq by congruence. reflexivity.
Qed.

Lemma for_each_pure {A} (g : A -> VoidMemoryManager -> VoidMemoryManager)
  (l : list A) :
  forall m,
    for_each l (fun x m' => (Ok tt, g x m')) m
    = (Ok tt, fold_left (fun m x => g x m) l m).
Proof.
  induction l as [|x l IH]; intros m; simpl; [reflexivity|].
  unfold bind. apply IH.
Qed.

Lemma for_each_modify {A} (g : A -> VoidMemoryManager -> VoidMemoryManager)
  (l : list A) :
  forall m,
    for_each l (fun x => modify (g x)) m
    = (Ok tt, fold_left (fun m x => g x m) l m).
Proof.
  induction l as [|x l IH]; intros m; simpl; [reflexivity|].
  unfold bind, modify. apply IH.
Qed.

End logic.
Export logic.

Example fresh_manager_constructed :
  __init__ (rt := sample_runtime) 0 test_config = Ok fresh_manager.
Proof. reflexivity. Qed.

(* ------------------------------------------------------------------ *)
(** * Queries on an unknown id *)

Section Queries.
Context {rt : Runtime}.

Lemma composite_score_for_pure (memory_id : string) (m : VoidMemoryManager) :
  snd (composite_score_for memory_id m) = m.
Proof.
  unfold composite_score_for, bind, gets, ret; simpl.
  destruct (dict_get memory_id (_mem m)); reflexivity.
Qed.

Lemma exploratory_weight_pure (memory_id : string) (m : VoidMemoryManager) :
  snd (exploratory_weight memory_id m) = m.
Proof.
  unfold exploratory_weight, bind, gets, ret; simpl.
  destruct (dict_get memory_id (_mem m)); reflexivity.
Qed.

(** C10.  For an id that is not in the store, [composite_score_for]
    returns [None] and [exploratory_weight] returns 0.0; and whatever the id,
    each of the two queries leaves the manager as it was. *)
Theorem unknown_id_queries (m : VoidMemoryManager) (memory_id : string) :
  (dict_get memory_id (_mem m) = None ->
   composite_score_for memory_id m = (Ok None, m)
   /\ exploratory_weight memory_id m = (Ok 0.0%Q, m))
  /\ snd (composite_score_for memory_id m) = m
  /\ snd (exploratory_weight memory_id m) = m.
Proof.
  split; [|split].
  - intros Hnone.
    unfold composite_score_for, exploratory_weight, bind, gets, ret; simpl.
    rewrite Hnone. split; reflexivity.
  - apply composite_score_for_pure.
  - apply exploratory_weight_pure.
Qed.

End Queries.

Lemma unknown_id_queries_witness :
  dict_get "mem-omega" (_mem learned_manager) = None
  /\ composite_score_for (rt := sample_runtime) "mem-omega" learned_manager
     = (Ok None, learned_manager)
  /\ exploratory_weight "mem-omega" learned_manager
     = (Ok 0.0%Q, learned_manager).
Proof.
  split; [reflexivity|].
  apply (proj1 (unknown_id_queries (rt := sample_runtime)
                  learned_manager "mem-omega")).
  reflexivity.
Defined.

(* ------------------------------------------------------------------ *)
(** * Degradation *)

Lemma Qltb_true (a b : Q) : Qltb a b = true <-> (a < b)%Q.
Proof.
  unfold Qltb. rewrite negb_true_iff. split.
  - intros H. apply Qnot_le_lt. intros Hle.
    apply Qle_bool_iff in Hle. congruence.
  - intros H. destruct (Qle_bool b a) eqn:E; [|reflexivity].
    apply Qle_bool_iff in E. exfalso. apply (Qlt_not_le _ _ H E).
Qed.

Lemma Qltb_false (a b : Q) : Qltb a b = false <-> (b <= a)%Q.
Proof.
  unfold Qltb. rewrite negb_false_iff. apply Qle_bool_iff.
Qed.

Lemma upd_mem_id (m : VoidMemoryManager) : upd_mem (fun d => d) m = m.
Proof. destruct m; reflexivity. Qed.

Lemma upd_mem_ext (f g : dict string MemoryState -> dict string MemoryState)
  (m : VoidMemoryManager) :
  f (_mem m) = g (_mem m) -> upd_mem f m = upd_mem g m.
Proof. intros H. unfold upd_mem. rewrite H. reflexivity. Qed.

Definition degrade_all (ttl_floor : Z) (ids : list string)
  (d : dict string MemoryState) : dict string MemoryState :=
  update_all (degrade_state ttl_floor) ids d.

Definition known_count (m : VoidMemoryManager) (ids : list string) : Z :=
  Z.of_nat (List.length (filter (fun memory_id => dict_mem memory_id (_mem m)) ids)).

Lemma dict_mem_update {V} (k k' : string) (f : V -> V) (d : dict string V) :
  dict_mem k (dict_update k' f d) = dict_mem k d.
Proof.
  unfold dict_mem. rewrite dict_get_update.
  destruct (keqb k k'); destruct (dict_get k d); reflexivity.
Qed.

Lemma degrade_loop_run (ttl_floor : Z) (ids : list string) :
  forall (count : Z) (m : VoidMemoryManager),
    degrade_loop ttl_floor ids count m
    = (Ok (count + known_count m ids), upd_mem (degrade_all ttl_floor ids) m).
Proof.
  induction ids as [|memory_id ids IH]; intros count m.
  - simpl. unfold ret, known_count, degrade_all, update_all. simpl.
    rewrite Z.add_0_r, upd_mem_id. reflexivity.
  - simpl. unfold bind at 1. unfold gets at 1.
    destruct (dict_mem memory_id (_mem m)) eqn:Hk.
    + unfold bind at 1. unfold modify at 1. rewrite IH.
      f_equal.
      * f_equal. unfold known_count. simpl. rewrite Hk. simpl List.length.
        replace (filter (fun i => dict_mem i
                   (dict_update memory_id (degrade_state ttl_floor) (_mem m))) ids)
          with (filter (fun i => dict_mem i (_mem m)) ids).
        -- lia.
        -- apply filter_ext. intros a. rewrite dict_mem_update. reflexivity.
    + rewrite IH. f_equal.
      * f_equal. unfold known_count. simpl. rewrite Hk. reflexivity.
      * apply upd_mem_ext. unfold degrade_all, update_all. simpl.
        rewrite dict_update_absent; [reflexivity|].
        unfold dict_mem in Hk. destruct (dict_get memory_id (_mem m));
          [discriminate|reflexivity].
Qed.

Lemma degrade_all_get (ttl_floor : Z) (ids : list string)
  (d : dict string MemoryState) (memory_id : string) :
  dict_get memory_id (degrade_all ttl_floor ids d)
  = option_map
      (Nat.iter (count_occ string_dec ids memory_id) (degrade_state ttl_floor))
      (dict_get memory_id d).
Proof. apply update_all_get. Qed.

Lemma degrade_all_keys (ttl_floor : Z) (ids : list string)
  (d : dict string MemoryState) :
  dict_keys (degrade_all ttl_floor ids d) = dict_keys d.
Proof. apply update_all_keys. Qed.

(** What [degrade] does to the boredom of a trace each time its id comes
    up. *)
Definition bore (b : Q) : Q := fmin 1.0 (b + 0.1).

Lemma bore_nonneg (b : Q) : (0 <= b)%Q -> (0 <= bore b)%Q.
Proof.
  intros Hb. unfold bore, fmin.
  destruct (Qltb (b + 0.1) 1.0) eqn:E; lra.
Qed.

Lemma clamp01_bore (b : Q) : (0 <= b)%Q -> clamp01 (bore b) = bore b.
Proof.
  intros Hb. unfold clamp01.
  assert (H0 : (0 <= bore b)%Q) by (apply bore_nonneg; exact Hb).
  assert (H1 : (bore b <= 1)%Q).
  { unfold bore, fmin. destruct (Qltb (b + 0.1) 1.0) eqn:E.
    - apply Qltb_true in E. lra.
    - lra. }
  apply Qltb_false in H0. rewrite H0.
  apply Qltb_false in H1. rewrite H1. reflexivity.
Qed.

Lemma degrade_state_iter (ttl_floor : Z) (ms : MemoryState) (n : nat) :
  1 <= ttl_floor -> 0 <= ttl ms -> (0 <= boredom ms)%Q ->
  let ms' := Nat.iter n (degrade_state ttl_floor) ms in
  0 <= ttl ms'
  /\ (0 <= boredom ms')%Q
  /\ ttl ms' = (match n with O => ttl ms | S _ => Z.min (ttl ms) ttl_floor end)
  /\ boredom ms' = Nat.iter n bore (boredom ms).
Proof.
  intros Hf Ht Hb. induction n as [|n IH]; simpl.
  - repeat split; auto.
  - destruct IH as (IHt & IHb & IHttl & IHbor).
    set (prev := Nat.iter n (degrade_state ttl_floor) ms) in *.
    unfold degrade_state; simpl.
    assert (Hmin : 0 <= Z.min (ttl prev) ttl_floor) by lia.
    assert (Hlt : (Z.min (ttl prev) ttl_floor <? 0) = false)
      by (apply Z.ltb_ge; exact Hmin).
    rewrite Hlt.
    change (fmin 1.0 (boredom prev + 0.1)) with (bore (boredom prev)).
    rewrite (clamp01_bore _ IHb).
    repeat split.
    + exact Hmin.
    + apply bore_nonneg; exact IHb.
    + rewrite IHttl. destruct n; lia.
    + rewrite IHbor. reflexivity.
Qed.

Section Degrade.
Context {rt : Runtime}.

Lemma require_int_ok (z minimum : Z) (name : string) :
  minimum <= z -> require_int (JInt z) minimum name = Ok z.
Proof.
  intros Hle. unfold require_int. simpl.
  assert (Hlt : (z <? minimum) = false) by (apply Z.ltb_ge; exact Hle).
  rewrite Hlt. reflexivity.
Qed.

(** C8, as the code has it.  [degrade(ids, ttl_floor)] with
    [ttl_floor >= 1] returns without raising and changes nothing but the
    store and the event log: the tick, the generator, the territories and
    every other attribute are as before, so no maintenance ran.  The store
    keeps its keys (nothing is removed, ids that are not keys are skipped),
    and the trace of a key becomes the one obtained by applying the update
    of [degrade] once for each occurrence of the key in [ids].  For a trace
    in range, any positive number of occurrences leaves
    [ttl = min(previous ttl, ttl_floor)], and the boredom is
    [b := min(1, b + 0.1)] applied once per occurrence: exactly
    [min(1, previous boredom + 0.1)] when the id occurs once. *)
Theorem degrade_effect (m : VoidMemoryManager) (ids : list string)
  (ttl_floor : Z) :
  1 <= ttl_floor ->
  exists mem' events',
    degrade ids (JInt ttl_floor) m
    = (Ok tt, upd_events (fun _ => events') (upd_mem (fun _ => mem') m))
    /\ dict_keys mem' = dict_keys (_mem m)
    /\ (forall memory_id,
          dict_get memory_id mem'
          = option_map
              (Nat.iter (count_occ string_dec ids memory_id)
                        (degrade_state ttl_floor))
              (dict_get memory_id (_mem m)))
    /\ (forall memory_id ms ms',
          dict_get memory_id (_mem m) = Some ms ->
          dict_get memory_id mem' = Some ms' ->
          0 <= ttl ms -> (0 <= boredom ms)%Q ->
          (In memory_id ids -> ttl ms' = Z.min (ttl ms) ttl_floor)
          /\ boredom ms'
             = Nat.iter (count_occ string_dec ids memory_id) bore (boredom ms)
          /\ (count_occ string_dec ids memory_id = 1%nat ->
              boredom ms' = fmin 1.0 (boredom ms + 0.1))).
Proof.
  intros Hf.
  exists (degrade_all ttl_floor ids (_mem m)).
  exists (if negb (known_count m ids =? 0)
          then deque_append 1024
                 [("count", JInt (known_count m ids)); ("type", JStr "degrade");
                  ("tick", JInt (_tick m))] (_events m)
          else _events m).
  split; [|split; [|split]].
  - unfold degrade. rewrite (require_int_ok _ _ _ Hf).
    unfold bind at 1, lift at 1. unfold bind at 1.
    rewrite degrade_loop_run. rewrite Z.add_0_l.
    destruct (negb (known_count m ids =? 0)).
    + unfold _record_event. reflexivity.
    + unfold ret. destruct m; reflexivity.
  - apply degrade_all_keys.
  - intros memory_id. apply degrade_all_get.
  - intros memory_id ms ms' Hget Hget' Ht Hb.
    rewrite degrade_all_get, Hget in Hget'. simpl in Hget'.
    injection Hget' as <-.
    destruct (degrade_state_iter ttl_floor ms
                (count_occ string_dec ids memory_id) Hf Ht Hb)
      as (_ & _ & Httl & Hbor).
    split; [|split].
    + intros Hin. rewrite Httl.
      apply (count_occ_In string_dec) in Hin.
      destruct (count_occ string_dec ids memory_id); [lia|reflexivity].
    + exact Hbor.
    + intros Hone. rewrite Hbor, Hone. reflexivity.
Qed.

End Degrade.

(** The three traces of the sample are degraded to a floor of 30. *)
Lemma degrade_effect_witness :
  1 <= 30
  /\ exists mem' events',
       degrade (rt := sample_runtime) ["mem-alpha"; "mem-beta"; "mem-gamma"]
         (JInt 30) learned_manager
       = (Ok tt,
          upd_events (fun _ => events')
            (upd_mem (fun _ => mem') learned_manager))
       /\ dict_keys mem' = dict_keys (_mem learned_manager).
Proof.
  split; [lia|].
  destruct (degrade_effect (rt := sample_runtime) learned_manager
              ["mem-alpha"; "mem-beta"; "mem-gamma"] 30 ltac:(lia))
    as (mem' & events' & Hrun & Hkeys & _).
  exists mem', events'. split; assumption.
Defined.

(** [degrade] with an id listed twice raises the boredom by 0.2, not by
    0.1. *)
Lemma degrade_twice_listed :
  exists m ms ms',
    dict_get "mem-alpha" (_mem m) = Some ms
    /\ (forall rt : Runtime,
          dict_get "mem-alpha"
            (_mem (snd (degrade ["mem-alpha"; "mem-alpha"] (JInt 30) m)))
          = Some ms')
    /\ Qeq_bool (boredom ms) 0 = true
    /\ Qeq_bool (boredom ms') 0.2 = true
    /\ boredom ms' <> fmin 1.0 (boredom ms + 0.1).
Proof.
  exists learned_manager.
  eexists. eexists.
  split; [vm_compute; reflexivity|].
  split; [intros rt; vm_compute; reflexivity|].
  split; [reflexivity|]. split; [reflexivity|].
  vm_compute. discriminate.
Qed.

(* ------------------------------------------------------------------ *)
(** * The prune step *)






Lemma in_firstn {A} (n : nat) (l : list A) (x : A) :
  In x (firstn n l) -> In x l.
Proof.
  intros H. rewrite <- (firstn_skipn n l). apply in_or_app. left; exact H.
Qed.

Lemma in_skipn {A} (n : nat) (l : list A) (x : A) :
  In x (skipn n l) -> In x l.
Proof.
  intros H. rewrite <- (firstn_skipn n l). apply in_or_app. right; exact H.
Qed.

Lemma sorted_firstn_skipn {A} (R : A -> A -> Prop) (l : list A) :
  StronglySorted R l ->
  forall n x y, In x (firstn n l) -> In y (skipn n l) -> R x y.
Proof.
  induction 1 as [|a l Hs IH Hall]; intros n x y Hx Hy.
  - destruct n; simpl in Hx; contradiction.
  - destruct n as [|n]; simpl in Hx, Hy; [contradiction|].
    destruct Hx as [<-|Hx].
    + rewrite Forall_forall in Hall. apply Hall.
      apply (in_skipn n); exact Hy.
    + apply (IH n); assumption.
Qed.




Lemma spec_prune_target_bounds (size capacity' : Z) (ratio : Q) :
  capacity' < size ->
  1 <= spec_prune_target size capacity' ratio <= size - capacity'.
Proof.
  intros Hlt. unfold spec_prune_target.
  set (x := (inject_Z size * ratio - inject_Z capacity')%Q).
  assert (H1 : 1 <= Qfloor (Qmax 1 x)).
  { change 1 with (Qfloor 1) at 1. apply Qfloor_resp_le. apply Q.le_max_l. }
  lia.
Qed.

Section Prune.
Context {rt : Runtime}.




End Prune.

Example crowded_fresh_constructed :
  __init__ (rt := sample_runtime) 0 crowded_config = Ok crowded_fresh.
Proof. reflexivity. Qed.


(** The rounding shows in ordinary stores.  A hundred traces, a capacity of
    10 and a ratio of 0.29: the product is the double just below 29, so 18
    removals are attempted where the formula over the reals gives 19.
    Twenty traces, a capacity of 10 and a ratio of 0.6: the product rounds
    up to 12, so 2 removals are attempted where exact arithmetic on the
    double 0.6 gives 1. *)
Example prune_target_in_doubles :
  prune_target 100 10 0.29 = 18
  /\ spec_prune_target 100 10 0.29 = 19
  /\ prune_target 20 10 0.6 = 2
  /\ spec_prune_target 20 10 (round_double 0.6) = 1.
Proof. repeat split; vm_compute; reflexivity. Qed.


(* ------------------------------------------------------------------ *)
(** * Splitting a territory *)

Lemma filter_length_le {A} (f : A -> bool) (l : list A) :
  (List.length (filter f l) <= List.length l)%nat.
Proof.
  induction l as [|x l IH]; simpl; [lia|].
  destruct (f x); simpl; lia.
Qed.

Lemma set_territory_id_iter (v : option Z) (n : nat) (ms : MemoryState) :
  Nat.iter (S n) (set_territory_id v) ms = set_territory_id v ms.
Proof.
  induction n as [|n IH]; [reflexivity|].
  change (Nat.iter (S (S n)) (set_territory_id v) ms)
    with (set_territory_id v (Nat.iter (S n) (set_territory_id v) ms)).
  rewrite IH. reflexivity.
Qed.

Lemma fold_upd_mem_update {A} (key : A -> string)
  (f : MemoryState -> MemoryState) (l : list A) :
  forall m,
    fold_left (fun m x => upd_mem (dict_update (key x) f) m) l m
    = upd_mem (update_all f (map key l)) m.
Proof.
  unfold update_all.
  induction l as [|x l IH]; intros m; simpl.
  - symmetry. apply upd_mem_id.
  - rewrite IH. reflexivity.
Qed.

Section Split.
Context {rt : Runtime}.

(** The novelty [maybe_split_territory] compares with: the element at
    index [len // 2] of the sorted novelties (the upper of the two middle
    values when their number is even). *)
Lemma split_median_upper (members : list (string * MemoryState)) :
  split_median members
  = nth (List.length members / 2)
        (sorted (map (fun p => novelty (snd p)) members)) 0%Q.
Proof.
  unfold split_median. f_equal. f_equal.
  assert (Hlen : forall l, List.length (sorted l) = List.length l).
  { assert (Hins : forall x l, List.length (insert_sorted x l)
                               = S (List.length l)).
    { intros x l. induction l as [|y l IH]; simpl; [reflexivity|].
      destruct (Qltb y x); simpl; [rewrite IH|]; reflexivity. }
    intros l. unfold sorted. induction l as [|x l IH]; simpl; [reflexivity|].
    rewrite Hins, IH. reflexivity. }
  rewrite Hlen, length_map. reflexivity.
Qed.

(** C7, as the code has it.  Let [M] be the traces sharing the territory
    of [ms], at least six of them, and let [C] be the members whose novelty
    exceeds the element at index [|M| // 2] of the sorted novelties of [M]
    and whose boredom is below 0.7.  When [2 <= |C| < |M|] the call
    returns having given every trace of [C], and no other trace, the
    territory id that was next to be allocated, and having counted one more
    split; otherwise it returns leaving the manager as it was. *)
Theorem split_reassigns_candidates (m : VoidMemoryManager) (ms_id : string)
  (ms : MemoryState) (tid : Z) :
  dict_get ms_id (_mem m) = Some ms ->
  territory_id ms = Some tid ->
  let M := split_members m tid in
  let C := split_candidates M in
  (6 <= List.length M)%nat ->
  ((2 <= List.length C < List.length M)%nat ->
   exists m',
     maybe_split_territory ms_id m = (Ok tt, m')
     /\ (forall memory_id,
           dict_get memory_id (_mem m')
           = option_map
               (fun st =>
                  if existsb (String.eqb memory_id) (map fst C)
                  then set_territory_id (Some (_next_territory_id m)) st
                  else st)
               (dict_get memory_id (_mem m)))
     /\ _split_counter m' = _split_counter m + 1
     /\ _next_territory_id m' = _next_territory_id m + 1)
  /\ (~ (2 <= List.length C < List.length M)%nat ->
      maybe_split_territory ms_id m = (Ok tt, m)).
Proof.
  intros Hget Htid M C HM.
  assert (HCM : (List.length C <= List.length M)%nat)
    by apply filter_length_le.
  assert (Hsix : (List.length M <? 6)%nat = false)
    by (apply Nat.ltb_ge; exact HM).
  split.
  - intros [H2 Hlt].
    assert (Hc2 : (List.length C <? 2)%nat = false)
      by (apply Nat.ltb_ge; exact H2).
    assert (Hne : (List.length C =? List.length M)%nat = false)
      by (apply Nat.eqb_neq; lia).
    unfold maybe_split_territory.
    unfold bind at 1, gets at 1. rewrite Hget, Htid.
    unfold bind at 1, gets at 1. fold M. rewrite Hsix. fold C.
    rewrite Hc2, Hne. change (false || false) with false. cbv iota.
    unfold create_territory.
    unfold bind, gets, modify, ret, _record_event.
    rewrite for_each_pure, fold_upd_mem_update.
    destruct (fold_left add_embedding (map snd C) None) as [[|s ss]|];
      (eexists; split; [reflexivity|]; simpl; split; [|split; reflexivity];
       intros memory_id; rewrite update_all_get;
       destruct (dict_get memory_id (_mem m)) as [st|]; [|reflexivity];
       simpl; f_equal;
       destruct (existsb (String.eqb memory_id) (map fst C)) eqn:Hex;
       [ apply existsb_exists in Hex; destruct Hex as (k & Hin & Hk);
         apply String.eqb_eq in Hk; subst k;
         apply (count_occ_In string_dec) in Hin;
         destruct (count_occ string_dec (map fst C) memory_id) as [|n];
         [lia | apply set_territory_id_iter]
       | assert (Hnot : ~ In memory_id (map fst C))
           by (intros Hin;
               assert (Ht : existsb (String.eqb memory_id) (map fst C) = true)
                 by (apply existsb_exists; exists memory_id; split;
                     [exact Hin | apply String.eqb_refl]);
               congruence);
         apply (count_occ_not_In string_dec) in Hnot; rewrite Hnot;
         reflexivity ]).
  - intros Hnot.
    unfold maybe_split_territory.
    unfold bind at 1, gets at 1. rewrite Hget, Htid.
    unfold bind at 1, gets at 1. fold M. rewrite Hsix. fold C.
    destruct (List.length C <? 2)%nat eqn:Hc2; [reflexivity|].
    destruct (List.length C =? List.length M)%nat eqn:Hne; [reflexivity|].
    exfalso. apply Hnot.
    apply Nat.ltb_ge in Hc2. apply Nat.eqb_neq in Hne. lia.
Qed.

End Split.

Example split_manager_loaded :
  from_dict (rt := sample_runtime) 0 split_payload = Ok split_manager.
Proof. reflexivity. Qed.

(** The six traces of the sample, split on its last trace. *)
Lemma split_reassigns_candidates_witness :
  (6 <= List.length (split_members split_manager 10000))%nat
  /\ exists m',
       maybe_split_territory (rt := sample_runtime) "f" split_manager
       = (Ok tt, m')
       /\ _split_counter m' = _split_counter split_manager + 1.
Proof.
  assert (Hget : exists ms, dict_get "f" (_mem split_manager) = Some ms
                            /\ territory_id ms = Some 10000)
    by (eexists; split; vm_compute; reflexivity).
  destruct Hget as (ms & Hget & Htid).
  assert (H6 : (6 <= List.length (split_members split_manager 10000))%nat)
    by (vm_compute; lia).
  split; [exact H6|].
  destruct (proj1 (split_reassigns_candidates (rt := sample_runtime)
                     split_manager "f" ms 10000 Hget Htid H6))
    as (m' & Hrun & _ & Hcount & _).
  - vm_compute. lia.
  - exists m'. split; assumption.
Defined.

(** Six members with novelties 0.1, 0.2, 0.3, 0.5, 0.6, 0.7 and no
    boredom: the statistical median is 0.4, so the specification's
    candidates are d, e and f; the split moves e and f only, and d stays. *)
Lemma split_takes_upper_median :
  map fst (spec_split_candidates (split_members split_manager 10000))
  = ["d"; "e"; "f"]
  /\ (forall rt : Runtime,
        map (fun p => (fst p, territory_id (snd p)))
            (_mem (snd (maybe_split_territory "f" split_manager)))
        = [("a", Some 10000); ("b", Some 10000); ("c", Some 10000);
           ("d", Some 10000); ("e", Some 10001); ("f", Some 10001)]).
Proof.
  split; [vm_compute; reflexivity|].
  intros rt. vm_compute. reflexivity.
Qed.

(* ------------------------------------------------------------------ *)
(** * The adaptive radius *)

Create HintDb tau_pres.

Lemma clamp_float_bounds (v lo hi : Q) :
  (lo <= hi)%Q ->
  (lo <= clamp_float v lo hi)%Q /\ (clamp_float v lo hi <= hi)%Q.
Proof.
  intros Hle. unfold clamp_float.
  destruct (Qltb v lo) eqn:E1; [lra|].
  destruct (Qltb hi v) eqn:E2; [lra|].
  apply Qltb_false in E1. apply Qltb_false in E2. lra.
Qed.

(** The operations write the radius and the recorded distances in
    [record_nn_distance] only (and when a snapshot is loaded).  So a
    property [P] of these two attributes that survives
    [record_nn_distance] survives every operation. *)
Section TauFootprint.
Context {rt : Runtime}.
Variable P : VoidMemoryManager -> Prop.
Hypothesis P_frame :
  forall m m',
    _territory_tau m' = _territory_tau m ->
    _nn_distances m' = _nn_distances m -> P m -> P m'.
Hypothesis P_push : forall distance, preserves P (record_nn_distance distance).

Ltac tau_frame :=
  let m := fresh "m" in
  let H := fresh "H" in
  intros m H;
  repeat match goal with
         | |- context [match ?x with _ => _ end] => destruct x
         end;
  solve [ exact H | apply (P_frame m); [reflexivity | reflexivity | exact H] ].

Ltac tau_step :=
  first
    [ solve [auto with tau_pres]
    | apply P_push
    | apply preserves_record_event; intros ? ?; tau_frame
    | apply preserves_modify; tau_frame
    | pres_step ].

Ltac tau_auto := repeat tau_step.

Lemma tau_create_territory e t : preserves P (create_territory e t).
Proof. unfold create_territory. tau_auto. Qed.
#[local] Hint Resolve tau_create_territory : tau_pres.

Lemma tau_deterministic_territory t :
  preserves P (deterministic_territory t).
Proof. unfold deterministic_territory. tau_auto. Qed.
#[local] Hint Resolve tau_deterministic_territory : tau_pres.

Lemma tau_update_centroid tid e : preserves P (update_centroid tid e).
Proof. unfold update_centroid. tau_auto. Qed.
#[local] Hint Resolve tau_update_centroid : tau_pres.

Lemma tau_assign_territory t e : preserves P (assign_territory t e).
Proof. unfold assign_territory. tau_auto. Qed.
#[local] Hint Resolve tau_assign_territory : tau_pres.

Lemma tau_merge_territories a b : preserves P (merge_territories a b).
Proof. unfold merge_territories. tau_auto. Qed.
#[local] Hint Resolve tau_merge_territories : tau_pres.

Lemma tau_rng_draw_random : preserves P rng_draw_random.
Proof. unfold rng_draw_random. simpl. tau_frame. Qed.
#[local] Hint Resolve tau_rng_draw_random : tau_pres.

Lemma tau_diffuse_pairs pairs : preserves P (diffuse_pairs pairs).
Proof.
  induction pairs as [|[a b] pairs IH]; simpl; tau_auto.
Qed.
#[local] Hint Resolve tau_diffuse_pairs : tau_pres.

Lemma tau_maybe_diffuse : preserves P maybe_diffuse.
Proof. unfold maybe_diffuse. tau_auto. Qed.
#[local] Hint Resolve tau_maybe_diffuse : tau_pres.

Lemma tau_maybe_split_territory ms_id :
  preserves P (maybe_split_territory ms_id).
Proof. unfold maybe_split_territory. tau_auto. Qed.
#[local] Hint Resolve tau_maybe_split_territory : tau_pres.

Lemma tau_record_member_distance ms_id sim :
  preserves P (record_member_distance ms_id sim).
Proof. unfold record_member_distance. tau_auto. Qed.
#[local] Hint Resolve tau_record_member_distance : tau_pres.

Lemma tau_update_pair_metrics states :
  preserves P (update_pair_metrics states).
Proof. unfold update_pair_metrics. tau_auto. Qed.
#[local] Hint Resolve tau_update_pair_metrics : tau_pres.

Lemma tau_register_memory a b c d :
  preserves P (_register_memory a b c d).
Proof. unfold _register_memory. tau_auto. Qed.
#[local] Hint Resolve tau_register_memory : tau_pres.

Lemma tau_apply_reinforcement a b c d :
  preserves P (_apply_reinforcement a b c d).
Proof. unfold _apply_reinforcement. tau_auto. Qed.
#[local] Hint Resolve tau_apply_reinforcement : tau_pres.

Lemma tau_remove_memory a : preserves P (_remove_memory a).
Proof. unfold _remove_memory. tau_auto. Qed.
#[local] Hint Resolve tau_remove_memory : tau_pres.

Lemma tau_decay_pass : preserves P _decay_pass.
Proof. unfold _decay_pass. tau_auto. Qed.
#[local] Hint Resolve tau_decay_pass : tau_pres.

Lemma tau_rng_do_shuffle l : preserves P (rng_do_shuffle l).
Proof. unfold rng_do_shuffle. simpl. tau_frame. Qed.
#[local] Hint Resolve tau_rng_do_shuffle : tau_pres.

Lemma tau_prune_if_needed : preserves P _prune_if_needed.
Proof. unfold _prune_if_needed. tau_auto. Qed.
#[local] Hint Resolve tau_prune_if_needed : tau_pres.

Lemma tau_after_operation : preserves P _after_operation.
Proof. unfold _after_operation. tau_auto. Qed.
#[local] Hint Resolve tau_after_operation : tau_pres.

Lemma tau_flush : preserves P _flush_condensation_locked.
Proof. unfold _flush_condensation_locked. tau_auto. Qed.
#[local] Hint Resolve tau_flush : tau_pres.

Lemma tau_register_rows rows added :
  preserves P (register_rows rows added).
Proof.
  revert added.
  induction rows as [|[[[i t] e] md] rows IH]; intros added; simpl; tau_auto.
Qed.
#[local] Hint Resolve tau_register_rows : tau_pres.

Lemma tau_register_chunks_locked a b c d :
  preserves P (register_chunks_locked a b c d).
Proof. unfold register_chunks_locked. tau_auto. Qed.
#[local] Hint Resolve tau_register_chunks_locked : tau_pres.

Lemma tau_run_condense_callback depth pending :
  preserves P (_run_condense_callback depth pending).
Proof.
  revert pending.
  induction depth as [|depth IH]; intros pending; simpl; tau_auto.
Qed.
#[local] Hint Resolve tau_run_condense_callback : tau_pres.

Lemma tau_register_chunks a b c d :
  preserves P (register_chunks a b c d).
Proof. unfold register_chunks. tau_auto. Qed.
#[local] Hint Resolve tau_register_chunks : tau_pres.

Lemma tau_frontier_step a : preserves P (frontier_step a).
Proof. unfold frontier_step. tau_auto. Qed.
#[local] Hint Resolve tau_frontier_step : tau_pres.

Lemma tau_condensation_step a : preserves P (condensation_step a).
Proof. unfold condensation_step. tau_auto. Qed.
#[local] Hint Resolve tau_condensation_step : tau_pres.

Lemma tau_reinforce_row a b c d : preserves P (reinforce_row a b c d).
Proof.
  unfold reinforce_row. tau_auto.
Qed.
#[local] Hint Resolve tau_reinforce_row : tau_pres.

Lemma tau_reinforce a b c : preserves P (reinforce a b c).
Proof. unfold reinforce. tau_auto. Qed.
#[local] Hint Resolve tau_reinforce : tau_pres.

Lemma tau_degrade_loop f ids count :
  preserves P (degrade_loop f ids count).
Proof.
  revert count. induction ids as [|i ids IH]; intros count; simpl; tau_auto.
Qed.
#[local] Hint Resolve tau_degrade_loop : tau_pres.

Lemma tau_degrade ids f : preserves P (degrade ids f).
Proof. unfold degrade. tau_auto. Qed.
#[local] Hint Resolve tau_degrade : tau_pres.

Lemma tau_register_engram a b c : preserves P (register_engram a b c).
Proof. unfold register_engram. tau_auto. Qed.
#[local] Hint Resolve tau_register_engram : tau_pres.

Lemma tau_run_call c : preserves P (run_call c).
Proof.
  destruct c; simpl;
    unfold top, composite_score_for, exploratory_weight, stats,
      consume_events, peek_events, set_condense_callback, to_dict;
    tau_auto.
Qed.

End TauFootprint.

Lemma preserves_try_entry {rt : Runtime} {A} P (entry : result A)
  (store : A -> VoidMemoryManager -> VoidMemoryManager) :
  (forall a m, P m -> P (store a m)) -> preserves P (try_entry entry store).
Proof.
  intros H. unfold try_entry. destruct entry as [a|e].
  - apply preserves_modify. apply H.
  - destruct (is_type_or_value_error e);
      [apply preserves_ret | apply preserves_raise].
Qed.

Lemma preserves_state_dep {A} P (c : VoidMemoryManager -> M A) :
  (forall m0, preserves P (c m0)) -> preserves P (fun m => c m m).
Proof. intros H m Hm. apply (H m m Hm). Qed.

Lemma triple_any {A} (c : M A) :
  triple (fun _ => True) c (fun _ _ => True) (fun _ => True).
Proof. intros m _. destruct (c m) as [[a|e] m']; exact I. Qed.

Lemma triple_lift_value {A} (r : result A) :
  triple (fun _ => True) (lift r) (fun a _ => r = Ok a) (fun _ => True).
Proof. intros m _. unfold lift. destruct r; [reflexivity | exact I]. Qed.

Lemma triple_of_preserves {A} P (c : M A) :
  preserves P c -> triple P c (fun _ => P) (fun _ => True).
Proof.
  intros H m Hm. specialize (H m Hm).
  destruct (c m) as [[a|e] m']; simpl in *; [exact H | exact I].
Qed.

(** The radius a snapshot asks for. *)
Definition payload_tau {rt : Runtime} (payload : json) : result Q :=
  j <-! py_get payload "territory_tau" (JFloat 0.3) ;; py_float j.

Section TauLoad.
Context {rt : Runtime}.

Lemma populate_tau_in_range (payload : json) :
  preserves tau_in_range (populate_manager_from_dict payload).
Proof.
  unfold populate_manager_from_dict.
  repeat first
    [ apply preserves_try_entry;
      let m := fresh "m" in let H := fresh "H" in
      intros ? m H; exact H
    | lazymatch goal with
      | |- preserves _ (fun _ => _) => apply preserves_state_dep; intros ?
      end
    | apply preserves_modify;
      let m := fresh "m" in let H := fresh "H" in
      intros m H;
      first [ exact H
            | unfold tau_in_range; simpl; apply clamp_float_bounds; lra ]
    | pres_step ].
Qed.

Lemma populate_tau_value (payload : json) (m m' : VoidMemoryManager) :
  populate_manager_from_dict payload m = (Ok tt, m') ->
  exists t, payload_tau payload = Ok t
            /\ _territory_tau m' = clamp_float t 0.05 0.6.
Proof.
  intros Hrun.
  assert (Ht : triple (fun _ => True) (populate_manager_from_dict payload)
                 (fun _ m' => exists t, payload_tau payload = Ok t
                    /\ _territory_tau m' = clamp_float t 0.05 0.6)
                 (fun _ => True)).
  { unfold populate_manager_from_dict.
    do 6 (eapply triple_bind; [apply triple_any | intros; cbv beta]).
    eapply triple_bind; [apply triple_lift_value | intros t; cbv beta].
    intros m0 Hval.
    eapply (triple_bind
              (fun m => payload_tau payload = Ok t)
              _ _ (fun _ m1 => _territory_tau m1 = clamp_float t 0.05 0.6));
      [ | | exact Hval ].
    - intros m1 H1. simpl. reflexivity.
    - intros _.
      eapply triple_conseq
        with (P' := fun m1 => _territory_tau m1 = clamp_float t 0.05 0.6)
             (Q' := fun _ m1 => _territory_tau m1 = clamp_float t 0.05 0.6)
             (E' := fun _ => True);
        [ apply triple_of_preserves | auto | | auto ].
      + repeat first
          [ apply preserves_try_entry;
            let m := fresh "m" in let H := fresh "H" in
            intros ? m H; exact H
          | lazymatch goal with
      | |- preserves _ (fun _ => _) => apply preserves_state_dep; intros ?
      end
          | apply preserves_modify;
            let m := fresh "m" in let H := fresh "H" in
            intros m H; exact H
          | pres_step ].
      + intros _ m1 H1. exists t. split; [exact Hval | exact H1]. }
  specialize (Ht m I). rewrite Hrun in Ht. exact Ht.
Qed.

End TauLoad.

(** On finite doubles [clamp_float] is the function the manager uses. *)
Lemma clamp_float_finite (value lower upper : Q) :
  ieee.clamp_float (ieee.Fin value) (ieee.Fin lower) (ieee.Fin upper)
  = ieee.Fin (clamp_float value lower upper).
Proof.
  unfold ieee.clamp_float, clamp_float. cbn [ieee.lt].
  destruct (Qltb value lower); [reflexivity|].
  destruct (Qltb upper value); reflexivity.
Qed.


Section TauTheorem.
Context {rt : Runtime}.

Lemma init_initial_state (entropy : Z) (config : list (json * json))
  (m : VoidMemoryManager) :
  __init__ entropy config = Ok m ->
  exists c r, m = initial_state c r.
Proof.
  unfold __init__. intros H.
  repeat match type of H with
         | rbind ?x _ = Ok _ =>
             destruct x; [cbn [rbind] in H | discriminate H]
         | (let x := _ in _) = _ => cbv zeta in H
         end.
  injection H as <-. eexists. eexists. reflexivity.
Qed.

Lemma tau_in_range_frame (m m' : VoidMemoryManager) :
  _territory_tau m' = _territory_tau m ->
  _nn_distances m' = _nn_distances m -> tau_in_range m -> tau_in_range m'.
Proof. unfold tau_in_range. intros -> _ H. exact H. Qed.


(** After a push the radius is the clamped median of the window, whatever
    it was before. *)
Lemma push_sets_tau (distance : Q) (m : VoidMemoryManager) :
  tau_in_range m ->
  tau_ok (snd (record_nn_distance distance m)).
Proof.
  intros Hm. unfold record_nn_distance, bind, modify; simpl.
  destruct (deque_append 5000 distance (_nn_distances m)) eqn:E.
  - unfold tau_ok, tau_in_range, tau_is_median in *; simpl. rewrite E.
    split; [exact Hm|]. intros Hne. contradiction.
  - unfold tau_ok, tau_in_range, tau_is_median; simpl. rewrite E.
    split; [apply clamp_float_bounds; lra|]. intros _. reflexivity.
Qed.


Lemma tau_in_range_push (distance : Q) :
  preserves tau_in_range (record_nn_distance distance).
Proof. intros m Hm. apply (push_sets_tau distance m Hm). Qed.


Lemma tau_ok_initial (c : Config) (r : rng_state) :
  tau_ok (initial_state c r).
Proof.
  unfold tau_ok, tau_in_range, tau_is_median; simpl.
  split; [lra|]. intros H; contradiction.
Qed.


Lemma populated_tau (entropy : Z) (config : list (json * json))
  (payload : json) (m0 m : VoidMemoryManager) :
  __init__ entropy config = Ok m0 ->
  populate_manager_from_dict payload m0 = (Ok tt, m) ->
  tau_in_range m
  /\ exists t, payload_tau payload = Ok t
               /\ _territory_tau m = clamp_float t 0.05 0.6.
Proof.
  intros Hinit Hrun. split.
  - destruct (init_initial_state _ _ _ Hinit) as (c & r & ->).
    pose proof (populate_tau_in_range payload (initial_state c r)
                  (proj1 (tau_ok_initial c r))) as H.
    rewrite Hrun in H. exact H.
  - apply (populate_tau_value payload m0 m Hrun).
Qed.

Lemma from_dict_populated (entropy : Z) (payload : json)
  (m : VoidMemoryManager) :
  from_dict entropy payload = Ok m ->
  exists config m0,
    __init__ entropy config = Ok m0
    /\ populate_manager_from_dict payload m0 = (Ok tt, m).
Proof.
  unfold from_dict. intros H.
  destruct (py_get payload "config" (JObj [])) as [cj|]; [|discriminate].
  cbn [rbind] in H.
  destruct (sanitize_config cj) as [config|]; [|discriminate].
  cbn [rbind] in H.
  destruct (__init__ entropy config) as [m0|] eqn:Hinit; [|discriminate].
  cbn [rbind] in H.
  destruct (populate_manager_from_dict payload m0) as [[[]|e] m'] eqn:Hrun;
    [|discriminate].
  injection H as <-. exists config, m0. split; [exact Hinit | exact Hrun].
Qed.

Lemma load_json_populated {codec : Codec} (entropy : Z) (path : string)
  (fs : FileSystem) (m : VoidMemoryManager) :
  load_json entropy path fs = Ok (Some m) ->
  exists content payload config m0,
    fs_read fs path = Some content
    /\ json_loads content = Some payload
    /\ __init__ entropy config = Ok m0
    /\ populate_manager_from_dict payload m0 = (Ok tt, m).
Proof.
  unfold load_json, persistence.load_json. intros H.
  destruct (fs_read fs path) as [content|] eqn:Hread; [|discriminate].
  destruct (json_loads content) as [payload|] eqn:Hparse; [|discriminate].
  destruct (py_get payload "config" (JObj [])) as [cj|]; [|discriminate].
  cbn [rbind] in H.
  destruct (sanitize_config cj) as [config|]; [|discriminate].
  cbn [rbind] in H.
  destruct (__init__ entropy config) as [m0|] eqn:Hinit; [|discriminate].
  cbn [rbind] in H.
  destruct (populate_manager_from_dict payload m0) as [[[]|e] m'] eqn:Hrun.
  - injection H as <-. exists content, payload, config, m0.
    repeat split; auto.
  - destruct (is_exception e); discriminate.
Qed.


End TauTheorem.

Lemma learned_manager_reachable :
  reachable (rt := sample_runtime) learned_manager.
Proof.
  assert (Hrun : learned_manager
                 = snd (run_call (rt := sample_runtime)
                          (RegisterChunks
                             ["mem-alpha"; "mem-beta"; "mem-gamma"]
                             ["energy"; "tensor"; "quantum"] None None)
                          fresh_manager))
    by (vm_compute; reflexivity).
  rewrite Hrun. apply reach_call.
  apply (reach_init 0 test_config). reflexivity.
Qed.



(* ------------------------------------------------------------------ *)
(** * The condensation queue *)

Lemma flags_of_update (k : string) (f : MemoryState -> MemoryState)
  (d : dict string MemoryState) :
  (forall ms, pending_condense (f ms) = pending_condense ms) ->
  flags_of (dict_update k f d) = flags_of d.
Proof.
  intros Hf. unfold flags_of.
  induction d as [|[k0 v0] d IH]; simpl; [reflexivity|].
  destruct (k =? k0)%string; simpl.
  - rewrite Hf. reflexivity.
  - rewrite IH. reflexivity.
Qed.

Lemma flags_of_map (g : string * MemoryState -> MemoryState)
  (d : dict string MemoryState) :
  (forall p, pending_condense (g p) = pending_condense (snd p)) ->
  flags_of (map (fun p => (fst p, g p)) d) = flags_of d.
Proof.
  intros Hg. unfold flags_of. rewrite map_map. apply map_ext.
  intros p. simpl. rewrite Hg. reflexivity.
Qed.

Lemma flags_of_keys (d : dict string MemoryState) :
  dict_keys (flags_of d) = dict_keys d.
Proof.
  unfold dict_keys, flags_of. rewrite map_map. reflexivity.
Qed.

Lemma flags_of_get (k : string) (d : dict string MemoryState) :
  dict_get k (flags_of d) = option_map pending_condense (dict_get k d).
Proof.
  unfold flags_of. induction d as [|[k0 v0] d IH]; simpl; [reflexivity|].
  destruct (k =? k0)%string; [reflexivity | exact IH].
Qed.

Lemma flags_of_In (k : string) (ms : MemoryState)
  (d : dict string MemoryState) :
  In (k, ms) d -> In (k, pending_condense ms) (flags_of d).
Proof.
  intros H. unfold flags_of.
  apply (in_map (fun p => (fst p, pending_condense (snd p))) d (k, ms) H).
Qed.

Ltac flag_kept :=
  intros;
  repeat match goal with
         | |- context [match ?x with _ => _ end] => destruct x
         end;
  reflexivity.

(** The operations that neither add nor remove a trace, and touch neither
    a flag nor the queue, keep every property [P] of the flags and the
    queue. *)
Section QueueFootprint.
Context {rt : Runtime}.
Variable P : VoidMemoryManager -> Prop.
Hypothesis P_frame :
  forall m m',
    flags_of (_mem m') = flags_of (_mem m) ->
    _pending_condense m' = _pending_condense m -> P m -> P m'.

Create HintDb queue_pres.

Ltac queue_frame :=
  let m := fresh "m" in
  let H := fresh "H" in
  intros m H;
  repeat match goal with
         | |- context [match ?x with _ => _ end] => destruct x
         end;
  solve
    [ exact H
    | apply (P_frame m); [reflexivity | reflexivity | exact H]
    | apply (P_frame m);
      [ simpl; first [ apply flags_of_update | apply flags_of_map ]; flag_kept
      | reflexivity | exact H ] ].

Ltac queue_step :=
  first
    [ solve [auto with queue_pres]
    | apply preserves_record_event; intros ? ?; queue_frame
    | apply preserves_modify; queue_frame
    | pres_step ].

Ltac queue_auto := repeat queue_step.

Lemma queue_create_territory e t : preserves P (create_territory e t).
Proof. unfold create_territory. queue_auto. Qed.
#[local] Hint Resolve queue_create_territory : queue_pres.

Lemma queue_deterministic_territory t :
  preserves P (deterministic_territory t).
Proof. unfold deterministic_territory. queue_auto. Qed.
#[local] Hint Resolve queue_deterministic_territory : queue_pres.

Lemma queue_update_centroid tid e : preserves P (update_centroid tid e).
Proof. unfold update_centroid. queue_auto. Qed.
#[local] Hint Resolve queue_update_centroid : queue_pres.

Lemma queue_record_nn_distance d : preserves P (record_nn_distance d).
Proof. unfold record_nn_distance. queue_auto. Qed.
#[local] Hint Resolve queue_record_nn_distance : queue_pres.

Lemma queue_assign_territory t e : preserves P (assign_territory t e).
Proof. unfold assign_territory. queue_auto. Qed.
#[local] Hint Resolve queue_assign_territory : queue_pres.

Lemma queue_merge_territories a b : preserves P (merge_territories a b).
Proof. unfold merge_territories. queue_auto. Qed.
#[local] Hint Resolve queue_merge_territories : queue_pres.

Lemma queue_rng_draw_random : preserves P rng_draw_random.
Proof. unfold rng_draw_random. simpl. queue_frame. Qed.
#[local] Hint Resolve queue_rng_draw_random : queue_pres.

Lemma queue_diffuse_pairs pairs : preserves P (diffuse_pairs pairs).
Proof.
  induction pairs as [|[a b] pairs IH]; simpl; queue_auto.
Qed.
#[local] Hint Resolve queue_diffuse_pairs : queue_pres.

Lemma queue_maybe_diffuse : preserves P maybe_diffuse.
Proof. unfold maybe_diffuse. queue_auto. Qed.

Lemma queue_maybe_split_territory ms_id :
  preserves P (maybe_split_territory ms_id).
Proof. unfold maybe_split_territory. queue_auto. Qed.
#[local] Hint Resolve queue_maybe_split_territory : queue_pres.

Lemma queue_record_member_distance ms_id sim :
  preserves P (record_member_distance ms_id sim).
Proof. unfold record_member_distance. queue_auto. Qed.
#[local] Hint Resolve queue_record_member_distance : queue_pres.

Lemma queue_update_pair_metrics states :
  preserves P (update_pair_metrics states).
Proof. unfold update_pair_metrics. queue_auto. Qed.
#[local] Hint Resolve queue_update_pair_metrics : queue_pres.

Lemma queue_apply_reinforcement a b c d :
  preserves P (_apply_reinforcement a b c d).
Proof. unfold _apply_reinforcement. queue_auto. Qed.
#[local] Hint Resolve queue_apply_reinforcement : queue_pres.

Lemma queue_rng_do_shuffle l : preserves P (rng_do_shuffle l).
Proof. unfold rng_do_shuffle. simpl. queue_frame. Qed.

Lemma queue_frontier_step a : preserves P (frontier_step a).
Proof. unfold frontier_step. queue_auto. Qed.
#[local] Hint Resolve queue_frontier_step : queue_pres.

Lemma queue_degrade_loop f ids count :
  preserves P (degrade_loop f ids count).
Proof.
  revert count. induction ids as [|i ids IH]; intros count; simpl; queue_auto.
Qed.
#[local] Hint Resolve queue_degrade_loop : queue_pres.

Lemma queue_degrade ids f : preserves P (degrade ids f).
Proof. unfold degrade. queue_auto. Qed.

Lemma queue_register_engram a b c : preserves P (register_engram a b c).
Proof. unfold register_engram. queue_auto. Qed.

Lemma queue_queries c :
  match c with
  | RegisterChunks _ _ _ _ | Reinforce _ _ _ => True
  | _ => preserves P (run_call c)
  end.
Proof.
  destruct c; try exact I; simpl;
    unfold top, composite_score_for, exploratory_weight, stats,
      consume_events, peek_events, set_condense_callback, to_dict;
    first [ apply preserves_bind; [apply queue_degrade | intro; apply preserves_ret]
          | apply preserves_bind;
            [apply queue_register_engram | intro; apply preserves_ret]
          | queue_auto ].
Qed.

End QueueFootprint.

Section DictMoreFacts.
Context {V : Type}.

Lemma dict_keys_set (k : string) (v : V) (d : dict string V) :
  dict_keys (dict_set k v d)
  = if dict_mem k d then dict_keys d else dict_keys d ++ [k].
Proof.
  unfold dict_keys, dict_mem.
  induction d as [|[k0 v0] d IH]; simpl; [reflexivity|].
  destruct (k =? k0)%string; simpl; [reflexivity|].
  rewrite IH. destruct (dict_get k d); reflexivity.
Qed.

Lemma NoDup_dict_set (k : string) (v : V) (d : dict string V) :
  NoDup (dict_keys d) -> NoDup (dict_keys (dict_set k v d)).
Proof.
  intros Hnd. rewrite dict_keys_set.
  destruct (dict_mem k d) eqn:Hm; [exact Hnd|].
  apply (Permutation_NoDup (l := k :: dict_keys d)).
  - apply Permutation_cons_append.
  - constructor; [|exact Hnd].
    apply (dict_get_None_keys k d).
    unfold dict_mem in Hm. destruct (dict_get k d); [discriminate|reflexivity].
Qed.

Lemma in_dict_set (k k' : string) (v v' : V) (d : dict string V) :
  In (k', v') (dict_set k v d) -> (k', v') = (k, v) \/ In (k', v') d.
Proof.
  induction d as [|[k0 v0] d IH]; simpl.
  - intros [H|[]]. left. symmetry. exact H.
  - destruct (k =? k0)%string eqn:E; simpl.
    + apply String.eqb_eq in E. subst k0.
      intros [H|H]; [left; symmetry; exact H | right; right; exact H].
    + intros [H|H]; [right; left; exact H|].
      destruct (IH H) as [Heq|Hin]; [left; exact Heq | right; right; exact Hin].
Qed.

Lemma in_dict_pop (k : string) (x : string * V) (d : dict string V) :
  In x (dict_pop k d) -> In x d.
Proof.
  induction d as [|[k0 v0] d IH]; simpl; [auto|].
  destruct (k =? k0)%string; simpl.
  - intros H. right. exact H.
  - intros [H|H]; [left; exact H | right; apply IH; exact H].
Qed.

Lemma NoDup_dict_pop (k : string) (d : dict string V) :
  NoDup (dict_keys d) -> NoDup (dict_keys (dict_pop k d)).
Proof.
  unfold dict_keys.
  induction d as [|[k0 v0] d IH]; simpl; [auto|].
  intros Hnd. inversion Hnd as [|? ? Hnot Hnd']; subst.
  destruct (k =? k0)%string; simpl; [exact Hnd'|].
  constructor; [|apply IH; exact Hnd'].
  intros Hin. apply Hnot.
  apply in_map_iff in Hin. destruct Hin as ([k1 v1] & Hk & Hin).
  apply in_dict_pop in Hin. simpl in Hk. subst k1.
  apply in_map_iff. exists (k0, v1). split; [reflexivity | exact Hin].
Qed.

End DictMoreFacts.

(* ------------------------------------------------------------------ *)
(** ** The idle queue through registration and maintenance *)

Lemma queue_idle_frame (m m' : VoidMemoryManager) :
  flags_of (_mem m') = flags_of (_mem m) ->
  _pending_condense m' = _pending_condense m ->
  queue_idle m -> queue_idle m'.
Proof.
  intros Hflags Hq (Hnd & Hempty & Hall).
  split; [|split].
  - rewrite <- flags_of_keys, Hflags, flags_of_keys. exact Hnd.
  - rewrite Hq. exact Hempty.
  - intros memory_id ms Hin.
    apply flags_of_In in Hin. rewrite Hflags in Hin.
    unfold flags_of in Hin. apply in_map_iff in Hin.
    destruct Hin as ([k0 ms0] & Heq & Hin0). simpl in Heq.
    injection Heq as -> Hflag. rewrite <- Hflag.
    apply (Hall memory_id ms0 Hin0).
Qed.

Lemma queue_idle_set (memory_id : string) (st : MemoryState)
  (m : VoidMemoryManager) :
  pending_condense st = false ->
  queue_idle m -> queue_idle (upd_mem (dict_set memory_id st) m).
Proof.
  intros Hst (Hnd & Hempty & Hall). split; [|split]; simpl.
  - apply NoDup_dict_set. exact Hnd.
  - exact Hempty.
  - intros k ms Hin. apply in_dict_set in Hin.
    destruct Hin as [Heq|Hin].
    + injection Heq as -> ->. exact Hst.
    + apply (Hall k ms Hin).
Qed.

Lemma queue_idle_pop (memory_id : string) (m : VoidMemoryManager) :
  queue_idle m -> queue_idle (upd_mem (dict_pop memory_id) m).
Proof.
  intros (Hnd & Hempty & Hall). split; [|split]; simpl.
  - apply NoDup_dict_pop. exact Hnd.
  - exact Hempty.
  - intros k ms Hin. apply in_dict_pop in Hin. apply (Hall k ms Hin).
Qed.

Ltac idle_frame :=
  let m := fresh "m" in
  let H := fresh "H" in
  intros m H;
  repeat match goal with
         | |- context [match ?x with _ => _ end] => destruct x
         end;
  solve
    [ exact H
    | apply (queue_idle_frame m); [reflexivity | reflexivity | exact H]
    | apply (queue_idle_frame m);
      [ simpl; first [ apply flags_of_update | apply flags_of_map ]; flag_kept
      | reflexivity | exact H ]
    | apply queue_idle_pop; exact H
    | apply queue_idle_set; [reflexivity | exact H] ].

Create HintDb idle_pres.

Ltac idle_step :=
  first
    [ solve [auto with idle_pres]
    | apply preserves_record_event; intros ? ?; idle_frame
    | apply preserves_modify; idle_frame
    | pres_step ].

Ltac idle_auto := repeat idle_step.

Section Idle.
Context {rt : Runtime}.

Lemma idle_assign_territory t e : preserves queue_idle (assign_territory t e).
Proof. apply queue_assign_territory. exact queue_idle_frame. Qed.
#[local] Hint Resolve idle_assign_territory : idle_pres.

Lemma idle_maybe_diffuse : preserves queue_idle maybe_diffuse.
Proof. apply queue_maybe_diffuse. exact queue_idle_frame. Qed.
#[local] Hint Resolve idle_maybe_diffuse : idle_pres.

Lemma idle_rng_do_shuffle l : preserves queue_idle (rng_do_shuffle l).
Proof. apply queue_rng_do_shuffle. exact queue_idle_frame. Qed.
#[local] Hint Resolve idle_rng_do_shuffle : idle_pres.

Lemma idle_register_memory a b c d :
  preserves queue_idle (_register_memory a b c d).
Proof. unfold _register_memory. idle_auto. Qed.
#[local] Hint Resolve idle_register_memory : idle_pres.

Lemma idle_remove_memory a : preserves queue_idle (_remove_memory a).
Proof. unfold _remove_memory. idle_auto. Qed.
#[local] Hint Resolve idle_remove_memory : idle_pres.

Lemma idle_decay_pass : preserves queue_idle _decay_pass.
Proof. unfold _decay_pass. idle_auto. Qed.
#[local] Hint Resolve idle_decay_pass : idle_pres.

Lemma idle_prune_if_needed : preserves queue_idle _prune_if_needed.
Proof. unfold _prune_if_needed. idle_auto. Qed.
#[local] Hint Resolve idle_prune_if_needed : idle_pres.

Lemma idle_after_operation : preserves queue_idle _after_operation.
Proof. unfold _after_operation. idle_auto. Qed.
#[local] Hint Resolve idle_after_operation : idle_pres.

Lemma idle_flush : preserves queue_idle _flush_condensation_locked.
Proof.
  intros m H. unfold _flush_condensation_locked, bind, gets.
  destruct H as (Hnd & Hempty & Hall). rewrite Hempty. simpl.
  split; [|split]; assumption.
Qed.
#[local] Hint Resolve idle_flush : idle_pres.

Lemma idle_register_rows rows added :
  preserves queue_idle (register_rows rows added).
Proof.
  revert added.
  induction rows as [|[[[i t] e] md] rows IH]; intros added; simpl; idle_auto.
Qed.
#[local] Hint Resolve idle_register_rows : idle_pres.

Lemma idle_register_chunks_locked a b c d :
  preserves queue_idle (register_chunks_locked a b c d).
Proof. unfold register_chunks_locked. idle_auto. Qed.
#[local] Hint Resolve idle_register_chunks_locked : idle_pres.

Lemma idle_run_condense_callback depth pending :
  preserves queue_idle (_run_condense_callback depth pending).
Proof.
  revert pending.
  induction depth as [|depth IH]; intros pending; simpl; idle_auto.
Qed.

End Idle.

(* ------------------------------------------------------------------ *)
(** ** The queue and the flags through reinforcement *)

Lemma flagged_iff (memory_id : string) (d : dict string MemoryState) :
  (exists ms, dict_get memory_id d = Some ms /\ pending_condense ms = true)
  <-> dict_get memory_id (flags_of d) = Some true.
Proof.
  rewrite flags_of_get. split.
  - intros (ms & -> & Hflag). simpl. rewrite Hflag. reflexivity.
  - destruct (dict_get memory_id d) as [ms|]; simpl; [|discriminate].
    intros [= Hflag]. exists ms. split; [reflexivity | exact Hflag].
Qed.

Lemma queue_inv_frame (m m' : VoidMemoryManager) :
  flags_of (_mem m') = flags_of (_mem m) ->
  _pending_condense m' = _pending_condense m ->
  queue_inv m -> queue_inv m'.
Proof.
  intros Hflags Hq (Hnd & Hiff). split.
  - rewrite <- flags_of_keys, Hflags, flags_of_keys. exact Hnd.
  - intros memory_id. rewrite Hq, flagged_iff, Hflags, <- flagged_iff.
    apply Hiff.
Qed.

Lemma queue_idle_inv (m : VoidMemoryManager) : queue_idle m -> queue_inv m.
Proof.
  intros (Hnd & Hempty & Hall). split; [exact Hnd|].
  intros memory_id. rewrite Hempty. split; [intros []|].
  intros (ms & Hget & Hflag). apply dict_get_In in Hget.
  rewrite (Hall memory_id ms Hget) in Hflag. discriminate.
Qed.

Lemma queue_inv_matches (m : VoidMemoryManager) :
  queue_inv m -> queue_matches_flags m.
Proof.
  intros (Hnd & Hiff) memory_id ms Hget. rewrite Hiff. split.
  - intros (ms' & Hget' & Hflag). congruence.
  - intros Hflag. exists ms. split; assumption.
Qed.

Lemma set_pending_iter (n : nat) (ms : MemoryState) :
  pending_condense (Nat.iter (S n) (set_pending_condense false) ms) = false.
Proof. reflexivity. Qed.

Ltac inv_frame :=
  let m := fresh "m" in
  let H := fresh "H" in
  intros m H;
  repeat match goal with
         | |- context [match ?x with _ => _ end] => destruct x
         end;
  solve
    [ exact H
    | apply (queue_inv_frame m); [reflexivity | reflexivity | exact H]
    | apply (queue_inv_frame m);
      [ simpl; first [ apply flags_of_update | apply flags_of_map ]; flag_kept
      | reflexivity | exact H ] ].

Create HintDb inv_pres.

Ltac inv_step :=
  first
    [ solve [auto with inv_pres]
    | apply preserves_record_event; intros ? ?; inv_frame
    | apply preserves_modify; inv_frame
    | pres_step ].

Ltac inv_auto := repeat inv_step.

#[local] Opaque recursion_limit.

Section Queue.
Context {rt : Runtime}.

Lemma inv_condensation_step (ms_id : string) :
  preserves queue_inv (condensation_step ms_id).
Proof.
  unfold condensation_step. apply preserves_modify. intros m Hm.
  destruct (dict_get ms_id (_mem m)) as [ms|] eqn:Hget; [|exact Hm].
  destruct (Qle_bool (condensation_boredom (_config m)) (boredom ms)
            && Qle_bool (condensation_conf (_config m)) (confidence ms)
            && Qle_bool (condensation_mass (_config m)) (mass ms));
    [|exact Hm].
  destruct (existsb (String.eqb ms_id) (_pending_condense m)); [exact Hm|].
  destruct Hm as (Hnd & Hiff). split; simpl.
  - rewrite dict_keys_update. exact Hnd.
  - intros memory_id. rewrite dict_get_update.
    destruct (string_dec memory_id ms_id) as [->|Hne].
    + rewrite keqb_refl, Hget. simpl. split.
      * intros _. eexists. split; reflexivity.
      * intros _. apply in_or_app. right. left. reflexivity.
    + rewrite (keqb_neq memory_id ms_id Hne), <- Hiff. split.
      * intros Hin. apply in_app_or in Hin.
        destruct Hin as [Hin|[Heq|[]]]; [exact Hin | congruence].
      * intros Hin. apply in_or_app. left. exact Hin.
Qed.
#[local] Hint Resolve inv_condensation_step : inv_pres.

Lemma inv_update_pair_metrics s : preserves queue_inv (update_pair_metrics s).
Proof. apply queue_update_pair_metrics. exact queue_inv_frame. Qed.
#[local] Hint Resolve inv_update_pair_metrics : inv_pres.

Lemma inv_apply_reinforcement a b c d :
  preserves queue_inv (_apply_reinforcement a b c d).
Proof. apply queue_apply_reinforcement. exact queue_inv_frame. Qed.
#[local] Hint Resolve inv_apply_reinforcement : inv_pres.

Lemma inv_frontier_step a : preserves queue_inv (frontier_step a).
Proof. apply queue_frontier_step. exact queue_inv_frame. Qed.
#[local] Hint Resolve inv_frontier_step : inv_pres.

Lemma inv_reinforce_row a b c d :
  preserves queue_inv (reinforce_row a b c d).
Proof. unfold reinforce_row. inv_auto. Qed.
#[local] Hint Resolve inv_reinforce_row : inv_pres.

(** Draining the queue leaves it idle. *)
Lemma flush_makes_idle (m : VoidMemoryManager) :
  queue_inv m ->
  exists pairs m',
    _flush_condensation_locked m = (Ok pairs, m') /\ queue_idle m'.
Proof.
  intros (Hnd & Hiff). unfold _flush_condensation_locked, bind, gets.
  destruct (_pending_condense m) as [|q qs] eqn:Hq.
  - eexists. eexists. split; [reflexivity|].
    split; [exact Hnd | split; [exact Hq|]].
    intros memory_id ms Hin.
    destruct (pending_condense ms) eqn:Hflag; [|reflexivity].
    exfalso. apply (proj2 (Hiff memory_id)).
    exists ms. split; [apply NoDup_get_In; assumption | exact Hflag].
  - rewrite for_each_modify.
    rewrite (fold_upd_mem_update (fun x => x)), map_id.
    unfold modify, ret.
    remember (update_all (set_pending_condense false) (q :: qs) (_mem m))
      as mem' eqn:Hmem'.
    assert (Hkeys : dict_keys mem' = dict_keys (_mem m))
      by (rewrite Hmem'; apply update_all_keys).
    eexists.
    exists (upd_pending_condense (fun _ => []) (upd_mem (fun _ => mem') m)).
    split; [rewrite Hmem'; reflexivity|].
    split; [|split]; simpl.
    + rewrite Hkeys. exact Hnd.
    + reflexivity.
    + intros memory_id ms' Hin.
      apply NoDup_get_In in Hin; [|rewrite Hkeys; exact Hnd].
      rewrite Hmem', update_all_get in Hin.
      destruct (dict_get memory_id (_mem m)) as [ms|] eqn:Hget;
        [|discriminate].
      cbn [option_map] in Hin.
      remember (count_occ string_dec (q :: qs) memory_id) as n eqn:Hn.
      injection Hin as <-. symmetry in Hn.
      destruct n as [|n].
      * change (pending_condense ms = false).
        destruct (pending_condense ms) eqn:Hflag; [|reflexivity].
        exfalso.
        apply (count_occ_not_In string_dec (q :: qs) memory_id); [exact Hn|].
        apply Hiff. exists ms. split; assumption.
      * apply set_pending_iter.
Qed.

(** Registering an id that is not yet a key. *)
Definition fresh_for (memory_id : string) (m : VoidMemoryManager) : Prop :=
  queue_inv m /\ dict_get memory_id (flags_of (_mem m)) = None.

Lemma fresh_for_frame (memory_id : string) (m m' : VoidMemoryManager) :
  flags_of (_mem m') = flags_of (_mem m) ->
  _pending_condense m' = _pending_condense m ->
  fresh_for memory_id m -> fresh_for memory_id m'.
Proof.
  intros Hflags Hq (Hinv & Hnone). split.
  - apply (queue_inv_frame m); assumption.
  - rewrite Hflags. exact Hnone.
Qed.

Lemma queue_inv_set_fresh (memory_id : string) (st : MemoryState)
  (m : VoidMemoryManager) :
  pending_condense st = false ->
  fresh_for memory_id m ->
  queue_inv (upd_mem (dict_set memory_id st) m).
Proof.
  intros Hst ((Hnd & Hiff) & Hnone). split; simpl.
  - apply NoDup_dict_set. exact Hnd.
  - intros k. rewrite dict_get_set.
    destruct (string_dec k memory_id) as [->|Hne].
    + rewrite keqb_refl. split.
      * intros Hin. apply Hiff in Hin. apply flagged_iff in Hin.
        rewrite Hnone in Hin. discriminate.
      * intros (ms & [= <-] & Hflag). congruence.
    + rewrite (keqb_neq k memory_id Hne). apply Hiff.
Qed.

Lemma register_memory_fresh (memory_id text : string)
  (embedding : option (list Q)) (meta : json) (m : VoidMemoryManager) :
  fresh_for memory_id m ->
  queue_inv (snd (_register_memory memory_id text embedding meta m)).
Proof.
  intros Hm. unfold _register_memory. unfold bind at 1.
  pose proof (queue_assign_territory (fresh_for memory_id)
                (fresh_for_frame memory_id) text embedding m Hm) as Ha.
  destruct (assign_territory text embedding m) as [[tid|e] m1]; simpl in Ha.
  - unfold bind, gets, modify, _record_event. simpl.
    match goal with
    | |- queue_inv ?final =>
        apply (queue_inv_frame
                 (upd_mem (dict_set memory_id
                    (clamp_ranges
                       {| text := text; embedding := embedding;
                          metadata := meta; territory_id := Some tid;
                          ttl := base_ttl (_config m1);
                          last_touch_tick := _tick m1; use_count := 0;
                          mass := 1.0; heat := 0.0; confidence := 0.35;
                          novelty := estimate_novelty text; boredom := 0.0;
                          inhibition := 0.0; frontier_hits := 0;
                          pending_condense := false |})) m1))
    end; [reflexivity | reflexivity |].
    apply queue_inv_set_fresh; [reflexivity | exact Ha].
  - simpl. exact (proj1 Ha).
Qed.

Lemma inv_register_rows rows added :
  preserves queue_inv (register_rows rows added).
Proof.
  revert added.
  induction rows as [|[[[i t] e] md] rows IH]; intros added m Hm; simpl.
  - exact Hm.
  - unfold bind at 1, gets at 1.
    destruct (dict_mem i (_mem m)) eqn:Hk; [apply IH; exact Hm|].
    assert (Hfresh : fresh_for i m).
    { split; [exact Hm|]. rewrite flags_of_get.
      unfold dict_mem in Hk. destruct (dict_get i (_mem m));
        [discriminate | reflexivity]. }
    pose proof (register_memory_fresh i t e md m Hfresh) as Hreg.
    unfold bind.
    destruct (_register_memory i t e md m) as [[[]|err] m1]; simpl in *.
    + apply IH. exact Hreg.
    + exact Hreg.
Qed.

(** From the drained queue to the end of a mutator: maintenance, then the
    callback and the registration of its summary. *)
Lemma idle_tail (depth : nat) (pending : list (string * string))
  (m : VoidMemoryManager) :
  queue_idle m ->
  queue_idle (snd ((_after_operation >>
                    _run_condense_callback depth pending) m)).
Proof.
  intros Hm.
  apply (preserves_bind queue_idle _after_operation
           (fun _ => _run_condense_callback depth pending)); [| |exact Hm].
  - apply idle_after_operation.
  - intros _. apply idle_run_condense_callback.
Qed.

Lemma inv_reinforce results heat_gain ttl_boost :
  preserves queue_inv (reinforce results heat_gain ttl_boost).
Proof.
  intros m Hm. unfold reinforce.
  destruct (res_ids results) as [ids_rows|]; [|exact Hm].
  destruct (res_distances results) as [dist_rows|]; [|exact Hm].
  destruct (negb (List.length ids_rows =? List.length dist_rows)%nat);
    [exact Hm|].
  unfold bind at 1.
  assert (Hrows : preserves queue_inv
            (for_each (combine ids_rows dist_rows) (fun row =>
               reinforce_row heat_gain ttl_boost (fst row) (snd row))))
    by (apply preserves_for_each; intros; apply inv_reinforce_row).
  specialize (Hrows m Hm).
  destruct (for_each (combine ids_rows dist_rows) _ m) as [[[]|e] m1];
    simpl in Hrows; [|exact Hrows].
  unfold bind at 1.
  destruct (flush_makes_idle m1 Hrows) as (pairs & m2 & -> & Hidle).
  apply queue_idle_inv. apply idle_tail. exact Hidle.
Qed.

Lemma inv_register_chunks ids raw_texts embeddings metadata :
  preserves queue_inv (register_chunks ids raw_texts embeddings metadata).
Proof.
  intros m Hm. unfold register_chunks, register_chunks_locked.
  destruct (negb (List.length ids =? List.length raw_texts)%nat);
    [exact Hm|].
  destruct (match embeddings with
            | Some l => negb (List.length l =? List.length ids)%nat
            | None => false
            end); [exact Hm|].
  destruct (match metadata with
            | Some l => negb (List.length l =? List.length ids)%nat
            | None => false
            end); [exact Hm|].
  unfold bind at 1. unfold bind at 1.
  pose proof (inv_register_rows
                (chunk_rows ids raw_texts embeddings metadata) false m Hm)
    as Hrows.
  destruct (register_rows (chunk_rows ids raw_texts embeddings metadata)
              false m) as [[added|e] m1]; simpl in Hrows; [|exact Hrows].
  destruct added; [|exact Hrows].
  unfold bind at 1.
  destruct (flush_makes_idle m1 Hrows) as (pairs & m2 & -> & Hidle).
  unfold bind at 1.
  pose proof (idle_after_operation m2 Hidle) as Hafter.
  destruct (_after_operation m2) as [[[]|e] m3]; cbn [snd] in Hafter.
  - change (queue_inv
              (snd (_run_condense_callback recursion_limit pairs m3))).
    apply queue_idle_inv.
    apply idle_run_condense_callback. exact Hafter.
  - apply queue_idle_inv. exact Hafter.
Qed.

Lemma inv_run_call (c : call) : preserves queue_inv (run_call c).
Proof.
  destruct c;
    try (match goal with
         | |- preserves _ (run_call ?c) =>
             exact (queue_queries queue_inv queue_inv_frame c)
         end).
  - simpl. apply preserves_bind;
      [apply inv_register_chunks | intro; apply preserves_ret].
  - simpl. apply preserves_bind;
      [apply inv_reinforce | intro; apply preserves_ret].
Qed.

Lemma queue_inv_initial (c : Config) (r : rng_state) :
  queue_inv (initial_state c r).
Proof.
  split; simpl; [constructor|].
  intros memory_id. split; [intros [] | intros (ms & Hget & _); discriminate].
Qed.

Lemma reachable_queue_inv (m : VoidMemoryManager) :
  reachable m -> queue_inv m.
Proof.
  induction 1 as [entropy config m Hinit | c m Hreach IH].
  - destruct (init_initial_state _ _ _ Hinit) as (c & r & ->).
    apply queue_inv_initial.
  - apply inv_run_call. exact IH.
Qed.

(** Loading a snapshot leaves the queue empty. *)
Lemma populate_keeps_queue (payload : json) :
  preserves (fun m => _pending_condense m = [])
            (populate_manager_from_dict payload).
Proof.
  unfold populate_manager_from_dict.
  repeat first
    [ apply preserves_try_entry;
      let m := fresh "m" in let H := fresh "H" in
      intros ? m H; exact H
    | lazymatch goal with
      | |- preserves _ (fun _ => _) => apply preserves_state_dep; intros ?
      end
    | apply preserves_modify;
      let m := fresh "m" in let H := fresh "H" in
      intros m H; exact H
    | pres_step ].
Qed.

Lemma populated_queue (entropy : Z) (config : list (json * json))
  (payload : json) (m0 m : VoidMemoryManager) :
  __init__ entropy config = Ok m0 ->
  populate_manager_from_dict payload m0 = (Ok tt, m) ->
  _pending_condense m = [].
Proof.
  intros Hinit Hrun.
  destruct (init_initial_state _ _ _ Hinit) as (c & r & ->).
  pose proof (populate_keeps_queue payload (initial_state c r) eq_refl) as H.
  rewrite Hrun in H. exact H.
Qed.

Lemma empty_queue_matches (m : VoidMemoryManager) :
  _pending_condense m = [] ->
  (queue_matches_flags m
   <-> forall memory_id ms,
         dict_get memory_id (_mem m) = Some ms ->
         pending_condense ms = false).
Proof.
  intros Hq. unfold queue_matches_flags. rewrite Hq. split.
  - intros H memory_id ms Hget.
    destruct (pending_condense ms) eqn:Hflag; [|reflexivity].
    exfalso. apply (proj2 (H memory_id ms Hget)). exact Hflag.
  - intros H memory_id ms Hget. rewrite (H memory_id ms Hget).
    split; [intros [] | discriminate].
Qed.

(** C5, as the code has it.  In every manager that was constructed and
    then driven through public calls, whether they returned or raised, a
    stored trace's id is in the condensation queue exactly when its
    [pending_condense] is set; the property that carries this from call to
    call (the keys are distinct and the queued ids are exactly the keys of
    the flagged traces) is kept by every public call.  A manager produced by
    [from_dict] or [load_json] has an empty queue while each trace carries
    the flag the snapshot gave it: there the equivalence holds exactly when
    no loaded trace is flagged. *)
Theorem queue_mirrors_flags {codec : Codec} :
  (forall m, reachable m -> queue_matches_flags m)
  /\ (forall c m, queue_inv m -> queue_inv (snd (run_call c m)))
  /\ (forall entropy payload m,
        from_dict entropy payload = Ok m ->
        _pending_condense m = []
        /\ (queue_matches_flags m
            <-> forall memory_id ms,
                  dict_get memory_id (_mem m) = Some ms ->
                  pending_condense ms = false))
  /\ (forall entropy path fs m,
        load_json entropy path fs = Ok (Some m) ->
        _pending_condense m = []
        /\ (queue_matches_flags m
            <-> forall memory_id ms,
                  dict_get memory_id (_mem m) = Some ms ->
                  pending_condense ms = false)).
Proof.
  split; [|split; [|split]].
  - intros m Hreach. apply queue_inv_matches, reachable_queue_inv. exact Hreach.
  - intros c m Hm. apply inv_run_call. exact Hm.
  - intros entropy payload m Hload.
    destruct (from_dict_populated _ _ _ Hload) as (config & m0 & Hinit & Hrun).
    pose proof (populated_queue _ _ _ _ _ Hinit Hrun) as Hq.
    split; [exact Hq | apply empty_queue_matches; exact Hq].
  - intros entropy path fs m Hload.
    destruct (load_json_populated _ _ _ _ Hload)
      as (content & payload & config & m0 & _ & _ & Hinit & Hrun).
    pose proof (populated_queue _ _ _ _ _ Hinit Hrun) as Hq.
    split; [exact Hq | apply empty_queue_matches; exact Hq].
Qed.

End Queue.

(** The sample manager, after its three registrations. *)
Lemma queue_mirrors_flags_witness :
  reachable (rt := sample_runtime) learned_manager
  /\ queue_matches_flags learned_manager.
Proof.
  split; [exact learned_manager_reachable|].
  apply (proj1 (queue_mirrors_flags (rt := sample_runtime)
                                    (codec := sample_codec))).
  exact learned_manager_reachable.
Defined.

(** A snapshot whose one trace has [pending_condense] set loads with the
    flag set and the queue empty. *)
Lemma loaded_flag_without_queue :
  exists payload,
    forall (rt : Runtime) (entropy : Z),
    exists m ms,
      from_dict entropy payload = Ok m
      /\ dict_get "a" (_mem m) = Some ms
      /\ pending_condense ms = true
      /\ _pending_condense m = []
      /\ ~ queue_matches_flags m.
Proof.
  exists (JObj [("mem", JObj [("a", JObj [("text", JStr "saturated");
                                           ("pending_condense", JBool true)])])]).
  intros rt entropy. eexists. eexists.
  split; [vm_compute; reflexivity|].
  split; [vm_compute; reflexivity|].
  split; [reflexivity|]. split; [reflexivity|].
  intros H.
  match type of H with
  | queue_matches_flags ?m =>
      assert (Hget : exists ms, dict_get "a" (_mem m) = Some ms
                                /\ pending_condense ms = true)
        by (eexists; split; vm_compute; reflexivity)
  end.
  destruct Hget as (ms & Hget & Hflag).
  apply (H "a" ms Hget) in Hflag. exact Hflag.
Qed.

(* ------------------------------------------------------------------ *)
(** * Reproducibility from a seed *)

Section Seed.
Context {rt : Runtime}.

Lemma seeded_init_ignores_entropy (s : Z) (params : list (json * json))
  (e1 e2 : Z) :
  __init__ e1 (with_seed s params) = __init__ e2 (with_seed s params).
Proof.
  unfold __init__, with_seed, bind_kwargs.
  cbn [rmap fst snd rbind].
  destruct (rmap _ params) as [kw|err]; [|reflexivity].
  cbn [rbind].
  match goal with
  | |- rbind (if ?b then _ else _) _ = _ => destruct b; [reflexivity|]
  end.
  match goal with
  | |- rbind (if ?b then _ else _) _ = _ => destruct b; [reflexivity|]
  end.
  cbn [rbind].
  change (kwarg (("seed", JInt s) :: kw) "seed") with (JInt s).
  cbv beta iota. cbn [py_int rbind].
  repeat match goal with
         | |- rbind ?x _ = rbind ?x _ =>
             destruct x; [cbn [rbind] | reflexivity]
         | |- (let _ := _ in _) = _ => cbv zeta
         end.
  reflexivity.
Qed.

(** C2.  Two managers constructed with the same integer seed and the same
    other parameters are the same manager, whatever entropy the system
    would have supplied to an unseeded generator; driven through the same
    sequence of public calls they return the same answers, raise the same
    errors and end in the same state, so that [to_dict] gives the same
    snapshot. *)
Theorem same_seed_same_snapshots (s : Z) (params : list (json * json))
  (e1 e2 : Z) (calls : list call) :
  __init__ e1 (with_seed s params) = __init__ e2 (with_seed s params)
  /\ forall m1 m2,
       __init__ e1 (with_seed s params) = Ok m1 ->
       __init__ e2 (with_seed s params) = Ok m2 ->
       drive calls m1 = drive calls m2
       /\ manager_to_dict (snd (drive calls m1))
          = manager_to_dict (snd (drive calls m2)).
Proof.
  split; [apply seeded_init_ignores_entropy|].
  intros m1 m2 H1 H2.
  rewrite (seeded_init_ignores_entropy s params e1 e2) in H1.
  rewrite H1 in H2. injection H2 as <-. split; reflexivity.
Qed.

End Seed.

(** The parameters of the first test, seeded with 7, under two different
    entropies. *)
Lemma same_seed_same_snapshots_witness :
  __init__ (rt := sample_runtime) 0 (with_seed 7 test_config)
  = Ok fresh_manager
  /\ __init__ (rt := sample_runtime) 1 (with_seed 7 test_config)
     = Ok fresh_manager
  /\ manager_to_dict
       (snd (drive (rt := sample_runtime)
               [Degrade ["mem-alpha"] (JInt 30); ToDict] fresh_manager))
     = manager_to_dict
       (snd (drive (rt := sample_runtime)
               [Degrade ["mem-alpha"] (JInt 30); ToDict] fresh_manager)).
Proof.
  assert (H0 : __init__ (rt := sample_runtime) 0 (with_seed 7 test_config)
               = Ok fresh_manager) by reflexivity.
  assert (H1 : __init__ (rt := sample_runtime) 1 (with_seed 7 test_config)
               = Ok fresh_manager) by reflexivity.
  split; [exact H0|]. split; [exact H1|].
  exact (proj2 (proj2 (same_seed_same_snapshots (rt := sample_runtime)
                         7 test_config 0 1
                         [Degrade ["mem-alpha"] (JInt 30); ToDict])
                  fresh_manager fresh_manager H0 H1)).
Defined.

(** Without a seed the generator is the system's: managers constructed
    under different entropies differ. *)
Lemma unseeded_init_depends_on_entropy :
  forall rt : Runtime,
    __init__ 0 [(JStr "capacity", JInt 64); (JStr "base_ttl", JInt 120);
                (JStr "decay_half_life", JInt 32);
                (JStr "prune_sample", JInt 32);
                (JStr "prune_target_ratio", JFloat 0.2)]
    <> __init__ 1 [(JStr "capacity", JInt 64); (JStr "base_ttl", JInt 120);
                   (JStr "decay_half_life", JInt 32);
                   (JStr "prune_sample", JInt 32);
                   (JStr "prune_target_ratio", JFloat 0.2)].
Proof.
  intros rt. vm_compute. intros H. discriminate H.
Qed.

(* ------------------------------------------------------------------ *)
(** * Errors while loading a snapshot *)

Section LoadErrors.
Context {rt : Runtime} {codec : Codec}.

(** A file that cannot be read or parsed gives [None]. *)
Lemma load_json_unreadable (entropy : Z) (path : string) (fs : FileSystem) :
  fs_read fs path = None -> load_json entropy path fs = Ok None.
Proof.
  intros H. unfold load_json, persistence.load_json. rewrite H. reflexivity.
Qed.

Lemma load_json_unparsable (entropy : Z) (path : string) (fs : FileSystem)
  (content : ftext) :
  fs_read fs path = Some content -> json_loads content = None ->
  load_json entropy path fs = Ok None.
Proof.
  intros H1 H2. unfold load_json, persistence.load_json.
  rewrite H1, H2. reflexivity.
Qed.

End LoadErrors.

(** C3 at its failing inputs.  [load_json] on a file whose payload has an
    invalid configuration entry raises the constructor's ValueError; on a
    payload that is not an object, on a [config] that is not a mapping and
    on a configuration key the constructor does not know it raises as
    well: the configuration is read and the manager constructed outside
    the handlers of [load_json]. *)
Theorem load_json_raises (rt : Runtime) (entropy : Z) :
  load_json (codec := sample_codec) entropy "snapshot.json"
    (fs_with "snapshot.json" small_capacity_payload)
  = Raise (ValueError "capacity must be >= 10")
  /\ load_json (codec := sample_codec) entropy "snapshot.json"
       (fs_with "snapshot.json" (JList []))
     = Raise (AttributeError "object has no attribute 'get'")
  /\ load_json (codec := sample_codec) entropy "snapshot.json"
       (fs_with "snapshot.json" (JObj [("config", JInt 5)]))
     = Raise (TypeError "object is not iterable")
  /\ load_json (codec := sample_codec) entropy "snapshot.json"
       (fs_with "snapshot.json"
          (JObj [("config", JObj [("colour", JStr "red")])]))
     = Raise (TypeError "got an unexpected keyword argument").
Proof.
  split; [vm_compute; reflexivity|].
  split; [vm_compute; reflexivity|].
  split; vm_compute; reflexivity.
Qed.

(* ------------------------------------------------------------------ *)
(** * Validation errors of reinforce *)

Section ReinforceErrors.
Context {rt : Runtime}.

(** A missing key and a difference in the number of rows are detected
    before anything is touched. *)
Lemma reinforce_rejects_up_front (results : ReinforceResults)
  (heat_gain : Q) (ttl_boost : Z) (m : VoidMemoryManager) :
  (res_ids results = None \/ res_distances results = None ->
   reinforce results heat_gain ttl_boost m
   = (Raise (ValueError "results must contain 'ids' and 'distances'"), m))
  /\ (forall ids_rows dist_rows,
        res_ids results = Some ids_rows ->
        res_distances results = Some dist_rows ->
        List.length ids_rows <> List.length dist_rows ->
        reinforce results heat_gain ttl_boost m
        = (Raise (ValueError "ids and distances rows must align"), m)).
Proof.
  split.
  - intros [H|H]; unfold reinforce; rewrite H;
      [|destruct (res_ids results)]; reflexivity.
  - intros ids_rows dist_rows Hi Hd Hne. unfold reinforce.
    rewrite Hi, Hd.
    apply Nat.eqb_neq in Hne. rewrite Hne. reflexivity.
Qed.

End ReinforceErrors.

(** C4 at its failing input.  On the sample manager, [reinforce] with a
    valid first row and a second row whose ids and distances differ in
    length raises the alignment error after the first row has been
    applied: the first trace has been touched, the reward average has
    moved and a [reinforce] event has been logged, while the tick has not
    advanced. *)
Theorem reinforce_raises_after_mutation (rt : Runtime) :
  fst (reinforce ragged_results 0.8 180 learned_manager)
  = Raise (ValueError "ids_row and dist_row must align")
  /\ option_map use_count (dict_get "mem-alpha" (_mem learned_manager))
     = Some 0
  /\ option_map use_count
       (dict_get "mem-alpha"
          (_mem (snd (reinforce ragged_results 0.8 180 learned_manager))))
     = Some 1
  /\ Qeq_bool (_reward_ema learned_manager) 0 = true
  /\ Qeq_bool
       (_reward_ema (snd (reinforce ragged_results 0.8 180 learned_manager)))
       0.0475 = true
  /\ List.length
       (_events (snd (reinforce ragged_results 0.8 180 learned_manager)))
     = S (List.length (_events learned_manager))
  /\ _tick (snd (reinforce ragged_results 0.8 180 learned_manager))
     = _tick learned_manager.
Proof.
  split; [vm_compute; reflexivity|].
  split; [vm_compute; reflexivity|].
  split; [vm_compute; reflexivity|].
  split; [vm_compute; reflexivity|].
  split; [vm_compute; reflexivity|].
  split; vm_compute; reflexivity.
Qed.

(* ------------------------------------------------------------------ *)
(** * The shape of the persisted attributes *)

Section DictShape.
Context {K V : Type} `{Key K}.
Variable RK : K -> Prop.
Variable RV : V -> Prop.

Lemma in_set (k : K) (v : V) (x : K * V) (d : dict K V) :
  In x (dict_set k v d) -> x = (k, v) \/ In x d.
Proof.
  induction d as [|[k0 v0] d IH]; simpl.
  - intros [Hx|[]]. left. symmetry. exact Hx.
  - destruct (keqb k k0) eqn:E; simpl.
    + apply keqb_eq in E. subst k0.
      intros [Hx|Hx]; [left; symmetry; exact Hx | right; right; exact Hx].
    + intros [Hx|Hx]; [right; left; exact Hx|].
      destruct (IH Hx) as [Heq|Hin]; [left; exact Heq | right; right; exact Hin].
Qed.

Lemma in_pop (k : K) (x : K * V) (d : dict K V) :
  In x (dict_pop k d) -> In x d.
Proof.
  induction d as [|[k0 v0] d IH]; simpl; [auto|].
  destruct (keqb k k0); simpl.
  - intros Hx. right. exact Hx.
  - intros [Hx|Hx]; [left; exact Hx | right; apply IH; exact Hx].
Qed.

Lemma set_fresh (k : K) (v : V) (d : dict K V) :
  ~ In k (dict_keys d) -> dict_set k v d = d ++ [(k, v)].
Proof.
  induction d as [|[k0 v0] d IH]; simpl; [reflexivity|].
  intros Hn. rewrite keqb_neq.
  - rewrite IH; [reflexivity|]. intros Hin. apply Hn. right. exact Hin.
  - intros ->. apply Hn. left. reflexivity.
Qed.

Lemma set_known (k : K) (v : V) (d : dict K V) :
  In k (dict_keys d) -> dict_keys (dict_set k v d) = dict_keys d.
Proof.
  induction d as [|[k0 v0] d IH]; simpl; [contradiction|].
  intros Hin. destruct (keqb k k0) eqn:E; simpl; [reflexivity|].
  f_equal. apply IH. destruct Hin as [Heq|Hin]; [|exact Hin].
  subst k0. rewrite keqb_refl in E. discriminate.
Qed.

Lemma keys_set_nodup (k : K) (v : V) (d : dict K V) :
  NoDup (dict_keys d) -> NoDup (dict_keys (dict_set k v d)).
Proof.
  intros Hnd.
  destruct (dict_get k d) eqn:Hg.
  - rewrite set_known; [exact Hnd|].
    apply dict_get_In in Hg.
    change (In k (map fst d)). apply in_map_iff. exists (k, v0). auto.
  - apply dict_get_None_keys in Hg. rewrite set_fresh by exact Hg.
    unfold dict_keys. rewrite map_app. simpl.
    apply (Permutation_NoDup (l := k :: map fst d)).
    + apply Permutation_cons_append.
    + constructor; assumption.
Qed.

Lemma keys_pop_nodup (k : K) (d : dict K V) :
  NoDup (dict_keys d) -> NoDup (dict_keys (dict_pop k d)).
Proof.
  unfold dict_keys.
  induction d as [|[k0 v0] d IH]; simpl; [auto|].
  intros Hnd. inversion Hnd as [|? ? Hnot Hnd']; subst.
  destruct (keqb k k0); simpl; [exact Hnd'|].
  constructor; [|apply IH; exact Hnd'].
  intros Hin. apply Hnot.
  apply in_map_iff in Hin. destruct Hin as ([k1 v1] & Hk & Hin).
  apply in_pop in Hin. simpl in Hk. subst k1.
  apply in_map_iff. exists (k0, v1). split; [reflexivity | exact Hin].
Qed.

Lemma in_update (k : K) (f : V -> V) (x : K * V) (d : dict K V) :
  In x (dict_update k f d) ->
  In x d \/ exists v, In (fst x, v) d /\ snd x = f v.
Proof.
  induction d as [|[k0 v0] d IH]; simpl; [auto|].
  destruct (keqb k k0); simpl.
  - intros [Hx|Hx]; [|left; right; exact Hx].
    right. exists v0. subst x. simpl. auto.
  - intros [Hx|Hx]; [left; left; exact Hx|].
    destruct (IH Hx) as [Hin|(v & Hin & Hv)]; [left; right; exact Hin|].
    right. exists v. auto.
Qed.

Lemma dict_ok_nil : dict_ok RK RV (@nil (K * V)).
Proof. split; [constructor | intros k v []]. Qed.

Lemma dict_ok_set (k : K) (v : V) (d : dict K V) :
  RK k -> RV v -> dict_ok RK RV d -> dict_ok RK RV (dict_set k v d).
Proof.
  intros Hk Hv (Hnd & Hall). split.
  - apply keys_set_nodup. exact Hnd.
  - intros k' v' Hin. apply in_set in Hin.
    destruct Hin as [Heq|Hin]; [|apply Hall; exact Hin].
    injection Heq as -> ->. auto.
Qed.

Lemma dict_ok_pop (k : K) (d : dict K V) :
  dict_ok RK RV d -> dict_ok RK RV (dict_pop k d).
Proof.
  intros (Hnd & Hall). split.
  - apply keys_pop_nodup. exact Hnd.
  - intros k' v' Hin. apply in_pop in Hin. apply Hall. exact Hin.
Qed.

Lemma dict_ok_update (k : K) (f : V -> V) (d : dict K V) :
  (forall v, RV v -> RV (f v)) ->
  dict_ok RK RV d -> dict_ok RK RV (dict_update k f d).
Proof.
  intros Hf (Hnd & Hall). split.
  - rewrite dict_keys_update. exact Hnd.
  - intros k' v' Hin. apply in_update in Hin.
    destruct Hin as [Hin|(v & Hin & Hv)]; [apply Hall; exact Hin|].
    simpl in Hin, Hv. subst v'. destruct (Hall k' v Hin) as [Hk Hv].
    split; [exact Hk | apply Hf; exact Hv].
Qed.

Lemma dict_ok_map (h : K * V -> V) (d : dict K V) :
  (forall p, RV (snd p) -> RV (h p)) ->
  dict_ok RK RV d -> dict_ok RK RV (map (fun p => (fst p, h p)) d).
Proof.
  intros Hh (Hnd & Hall). split.
  - unfold dict_keys. rewrite map_map. simpl. exact Hnd.
  - intros k v Hin. apply in_map_iff in Hin.
    destruct Hin as ([k0 v0] & Heq & Hin). simpl in Heq.
    injection Heq as <- <-. destruct (Hall k0 v0 Hin) as [Hk Hv].
    split; [exact Hk | apply (Hh (k0, v0)); exact Hv].
Qed.

Lemma dict_ok_get (k : K) (v : V) (d : dict K V) :
  dict_ok RK RV d -> dict_get k d = Some v -> RV v.
Proof.
  intros (_ & Hall) Hg. apply dict_get_In in Hg.
  apply (Hall k v Hg).
Qed.

(** Storing the items of a dictionary one after the other, as the loops
    of [populate_manager_from_dict] do, gives the dictionary back. *)
Lemma dict_rebuild_from (d acc : dict K V) :
  NoDup (dict_keys (acc ++ d)) ->
  fold_left (fun a p => dict_set (fst p) (snd p) a) d acc = acc ++ d.
Proof.
  revert acc. induction d as [|[k v] d IH]; intros acc Hnd; simpl.
  - rewrite app_nil_r. reflexivity.
  - assert (Hfresh : ~ In k (dict_keys acc)).
    { unfold dict_keys in *. rewrite map_app in Hnd. simpl in Hnd.
      apply NoDup_remove_2 in Hnd. intros Hin. apply Hnd.
      apply in_or_app. left. exact Hin. }
    rewrite set_fresh by exact Hfresh.
    rewrite IH; rewrite <- app_assoc; [reflexivity | exact Hnd].
Qed.

Lemma dict_rebuild (d : dict K V) :
  NoDup (dict_keys d) ->
  fold_left (fun a p => dict_set (fst p) (snd p) a) d [] = d.
Proof. intros Hnd. apply (dict_rebuild_from d []). exact Hnd. Qed.

End DictShape.

(** ** Deques *)

Lemma within_append {A} (n : nat) (x : A) (dq : list A) :
  within n (deque_append n x dq).
Proof.
  unfold within, deque_append. cbv zeta. rewrite length_skipn. lia.
Qed.

Lemma within_nil {A} (n : nat) : within n (@nil A).
Proof. unfold within. simpl. lia. Qed.

Lemma within_extend {A} (n : nat) (xs dq : list A) :
  within n dq -> within n (deque_extend n xs dq).
Proof.
  unfold deque_extend. revert dq.
  induction xs as [|x xs IH]; intros dq Hdq; simpl; [exact Hdq|].
  apply IH. apply within_append.
Qed.

Lemma append_within {A} (n : nat) (x : A) (dq : list A) :
  (List.length dq < n)%nat -> deque_append n x dq = dq ++ [x].
Proof.
  intros Hlt. unfold deque_append. cbv zeta.
  replace (List.length (dq ++ [x]) - n)%nat with 0%nat;
    [reflexivity|].
  rewrite length_app. simpl. lia.
Qed.

(** Refilling a deque with what it held gives it back. *)
Lemma extend_within_from {A} (n : nat) (xs dq : list A) :
  within n (dq ++ xs) -> deque_extend n xs dq = dq ++ xs.
Proof.
  unfold deque_extend, within. revert dq.
  induction xs as [|x xs IH]; intros dq Hlen; simpl.
  - rewrite app_nil_r. reflexivity.
  - rewrite append_within.
    + rewrite IH; rewrite <- app_assoc; [reflexivity | exact Hlen].
    + rewrite length_app in Hlen. simpl in Hlen. lia.
Qed.

Lemma extend_within {A} (n : nat) (xs : list A) :
  within n xs -> deque_extend n xs [] = xs.
Proof. intros Hlen. apply (extend_within_from n xs []). exact Hlen. Qed.

(** ** Clamped traces *)

Lemma Qltb_irrefl (q : Q) : Qltb q q = false.
Proof. apply Qltb_false. lra. Qed.

Lemma clamp01_idem (q : Q) : clamp01 (clamp01 q) = clamp01 q.
Proof.
  unfold clamp01.
  destruct (Qltb q 0) eqn:E0; [reflexivity|].
  destruct (Qltb 1 q) eqn:E1; [reflexivity|].
  rewrite E0, E1. reflexivity.
Qed.

Lemma floor0_idem (q : Q) :
  (if Qltb (if Qltb q 0 then 0%Q else q) 0 then 0%Q
   else if Qltb q 0 then 0%Q else q)
  = if Qltb q 0 then 0%Q else q.
Proof.
  destruct (Qltb q 0) eqn:E0; [reflexivity|]. rewrite E0. reflexivity.
Qed.

Lemma clamped_clamp_ranges (ms : MemoryState) : clamped (clamp_ranges ms).
Proof.
  unfold clamped, clamp_ranges. cbn [text embedding metadata territory_id ttl
    last_touch_tick use_count mass heat confidence novelty boredom inhibition
    frontier_hits pending_condense].
  rewrite !clamp01_idem, !floor0_idem.
  destruct (ttl ms <? 0) eqn:E; [reflexivity|]. rewrite E. reflexivity.
Qed.

Lemma clamped_fields (ms : MemoryState) :
  clamped ms ->
  (ttl ms <? 0) = false
  /\ Qltb (mass ms) 0 = false /\ Qltb (heat ms) 0 = false
  /\ Qltb (inhibition ms) 0 = false
  /\ clamp01 (confidence ms) = confidence ms
  /\ clamp01 (novelty ms) = novelty ms
  /\ clamp01 (boredom ms) = boredom ms.
Proof.
  unfold clamped, clamp_ranges. intros Hc.
  assert (Hq : forall q : Q,
             (if Qltb q 0 then 0%Q else q) = q -> Qltb q 0 = false).
  { intros q Hq. destruct (Qltb q 0) eqn:E; [|reflexivity].
    rewrite <- Hq in E. rewrite Qltb_irrefl in E. discriminate E. }
  destruct ms. cbn in Hc. injection Hc as Ht Hm Hh Hcf Hn Hb Hi.
  cbn. repeat split; auto.
  destruct (ttl0 <? 0) eqn:E; [|reflexivity].
  rewrite <- Ht in E. discriminate E.
Qed.

Lemma clamped_intro (ms : MemoryState) :
  (ttl ms <? 0) = false ->
  Qltb (mass ms) 0 = false -> Qltb (heat ms) 0 = false ->
  Qltb (inhibition ms) 0 = false ->
  clamp01 (confidence ms) = confidence ms ->
  clamp01 (novelty ms) = novelty ms ->
  clamp01 (boredom ms) = boredom ms ->
  clamped ms.
Proof.
  unfold clamped, clamp_ranges. destruct ms. cbn.
  intros -> -> -> -> -> -> ->. reflexivity.
Qed.

Lemma clamped_set_frontier_hits (h : Z) (ms : MemoryState) :
  clamped ms -> clamped (set_frontier_hits h ms).
Proof.
  intros Hc. apply clamped_fields in Hc.
  destruct Hc as (H1 & H2 & H3 & H4 & H5 & H6 & H7).
  apply clamped_intro; assumption.
Qed.

Lemma clamped_set_pending_condense (b : bool) (ms : MemoryState) :
  clamped ms -> clamped (set_pending_condense b ms).
Proof.
  intros Hc. apply clamped_fields in Hc.
  destruct Hc as (H1 & H2 & H3 & H4 & H5 & H6 & H7).
  apply clamped_intro; assumption.
Qed.

Lemma clamped_set_territory_id (t : option Z) (ms : MemoryState) :
  clamped ms -> clamped (set_territory_id t ms).
Proof.
  intros Hc. apply clamped_fields in Hc.
  destruct Hc as (H1 & H2 & H3 & H4 & H5 & H6 & H7).
  apply clamped_intro; assumption.
Qed.

Lemma clamped_inhibited (ms : MemoryState) :
  clamped ms ->
  clamped (set_inhibition (fmin (inhibition ms + 0.05) 1.0) ms).
Proof.
  intros Hc. apply clamped_fields in Hc.
  destruct Hc as (H1 & H2 & H3 & H4 & H5 & H6 & H7).
  apply clamped_intro; try assumption.
  cbn [inhibition set_inhibition].
  apply Qltb_false in H4. apply Qltb_false.
  unfold fmin. destruct (Qltb 1.0 (inhibition ms + 0.05)); lra.
Qed.

Lemma clamped_reinforce_state c tick sim heat_gain ttl_boost ms :
  clamped (reinforce_state c tick sim heat_gain ttl_boost ms).
Proof. unfold reinforce_state. cbv zeta. apply clamped_clamp_ranges. Qed.

Lemma clamped_decay_state f ms : clamped (decay_state f ms).
Proof. unfold decay_state. cbv zeta. apply clamped_clamp_ranges. Qed.

Lemma clamped_degrade_state f ms : clamped (degrade_state f ms).
Proof. unfold degrade_state. cbv zeta. apply clamped_clamp_ranges. Qed.

Lemma ordered_min_max (a b : Z) : ordered_pair (Z.min a b, Z.max a b).
Proof. unfold ordered_pair. simpl. lia. Qed.

Lemma any_holds {A} (x : A) : any x.
Proof. exact I. Qed.

(* ------------------------------------------------------------------ *)
(** * Every operation keeps the shape of the persisted attributes *)

Create HintDb wf_pres.

Ltac wf_fact :=
  repeat first
    [ assumption
    | apply any_holds
    | apply ordered_min_max
    | apply within_append
    | apply within_nil
    | apply within_extend
    | apply dict_ok_nil
    | apply dict_ok_set
    | apply dict_ok_pop
    | apply dict_ok_update; [intros ? ?; cbv beta zeta|]
    | apply dict_ok_map; [intros ? ?; cbv beta zeta|]
    | apply clamped_clamp_ranges
    | apply clamped_reinforce_state
    | apply clamped_decay_state
    | apply clamped_degrade_state
    | apply clamped_set_frontier_hits
    | apply clamped_set_pending_condense
    | apply clamped_set_territory_id
    | apply clamped_inhibited
    | progress
        (repeat match goal with
                | |- context [match ?x with _ => _ end] => destruct x
                end) ].

Ltac wf_frame :=
  let m := fresh "m" in
  let H := fresh "H" in
  intros m H;
  repeat match goal with
         | |- context [match ?x with _ => _ end] => destruct x
         end;
  try exact H;
  destruct H as (Hcfg & Hmem & Hengr & Hfront & Hcen & Hcnt & Hdists & Hnn
                 & Hchurn & Hlast);
  unfold well_formed;
  cbn [_config _rng _mem _tick _events _nn_distances _territory_centroids
       _territory_counts _territory_member_dists _territory_tau
       _next_territory_id _deterministic_ids _reward_ema _pair_churn
       _pair_last _exploration_temp _pending_condense _condense_callback
       engrams frontier _split_counter _merge_counter
       upd_rng upd_mem upd_tick upd_events upd_nn_distances
       upd_territory_centroids upd_territory_counts
       upd_territory_member_dists upd_territory_tau upd_next_territory_id
       upd_deterministic_ids upd_reward_ema upd_pair_churn upd_pair_last
       upd_exploration_temp upd_pending_condense upd_condense_callback
       upd_engrams upd_frontier upd_split_counter upd_merge_counter];
  cbv zeta;
  refine (conj _ (conj _ (conj _ (conj _ (conj _ (conj _ (conj _
            (conj _ (conj _ _)))))))));
  solve [wf_fact].

Ltac wf_step :=
  first
    [ solve [auto with wf_pres]
    | apply preserves_record_event; intros ? ?; wf_frame
    | apply preserves_modify; wf_frame
    | pres_step ].

Ltac wf_auto := repeat wf_step.

Section Shape.
Context {rt : Runtime}.

Lemma wf_record_nn_distance d : preserves well_formed (record_nn_distance d).
Proof. unfold record_nn_distance. wf_auto. Qed.
#[local] Hint Resolve wf_record_nn_distance : wf_pres.

Lemma wf_create_territory e t : preserves well_formed (create_territory e t).
Proof. unfold create_territory. wf_auto. Qed.
#[local] Hint Resolve wf_create_territory : wf_pres.

Lemma wf_deterministic_territory t :
  preserves well_formed (deterministic_territory t).
Proof. unfold deterministic_territory. wf_auto. Qed.
#[local] Hint Resolve wf_deterministic_territory : wf_pres.

Lemma wf_update_centroid tid e : preserves well_formed (update_centroid tid e).
Proof. unfold update_centroid. wf_auto. Qed.
#[local] Hint Resolve wf_update_centroid : wf_pres.

Lemma wf_assign_territory t e : preserves well_formed (assign_territory t e).
Proof. unfold assign_territory. wf_auto. Qed.
#[local] Hint Resolve wf_assign_territory : wf_pres.

Lemma wf_merge_territories a b : preserves well_formed (merge_territories a b).
Proof. unfold merge_territories. wf_auto. Qed.
#[local] Hint Resolve wf_merge_territories : wf_pres.

Lemma wf_rng_draw_random : preserves well_formed rng_draw_random.
Proof. unfold rng_draw_random. simpl. wf_frame. Qed.
#[local] Hint Resolve wf_rng_draw_random : wf_pres.

Lemma wf_diffuse_pairs pairs : preserves well_formed (diffuse_pairs pairs).
Proof.
  induction pairs as [|[a b] pairs IH]; simpl; wf_auto.
Qed.
#[local] Hint Resolve wf_diffuse_pairs : wf_pres.

Lemma wf_maybe_diffuse : preserves well_formed maybe_diffuse.
Proof. unfold maybe_diffuse. wf_auto. Qed.
#[local] Hint Resolve wf_maybe_diffuse : wf_pres.

Lemma wf_maybe_split_territory ms_id :
  preserves well_formed (maybe_split_territory ms_id).
Proof. unfold maybe_split_territory. wf_auto. Qed.
#[local] Hint Resolve wf_maybe_split_territory : wf_pres.

Lemma wf_record_member_distance ms_id sim :
  preserves well_formed (record_member_distance ms_id sim).
Proof. unfold record_member_distance. wf_auto. Qed.
#[local] Hint Resolve wf_record_member_distance : wf_pres.

Lemma wf_update_pair_metrics states :
  preserves well_formed (update_pair_metrics states).
Proof. unfold update_pair_metrics. wf_auto. Qed.
#[local] Hint Resolve wf_update_pair_metrics : wf_pres.

Lemma wf_register_memory a b c d :
  preserves well_formed (_register_memory a b c d).
Proof. unfold _register_memory. wf_auto. Qed.
#[local] Hint Resolve wf_register_memory : wf_pres.

Lemma wf_apply_reinforcement a b c d :
  preserves well_formed (_apply_reinforcement a b c d).
Proof. unfold _apply_reinforcement. wf_auto. Qed.
#[local] Hint Resolve wf_apply_reinforcement : wf_pres.

Lemma wf_remove_memory a : preserves well_formed (_remove_memory a).
Proof. unfold _remove_memory. wf_auto. Qed.
#[local] Hint Resolve wf_remove_memory : wf_pres.

Lemma wf_decay_pass : preserves well_formed _decay_pass.
Proof. unfold _decay_pass. wf_auto. Qed.
#[local] Hint Resolve wf_decay_pass : wf_pres.

Lemma wf_rng_do_shuffle l : preserves well_formed (rng_do_shuffle l).
Proof. unfold rng_do_shuffle. simpl. wf_frame. Qed.
#[local] Hint Resolve wf_rng_do_shuffle : wf_pres.

Lemma wf_prune_if_needed : preserves well_formed _prune_if_needed.
Proof. unfold _prune_if_needed. wf_auto. Qed.
#[local] Hint Resolve wf_prune_if_needed : wf_pres.

Lemma wf_after_operation : preserves well_formed _after_operation.
Proof. unfold _after_operation. wf_auto. Qed.
#[local] Hint Resolve wf_after_operation : wf_pres.

Lemma wf_flush : preserves well_formed _flush_condensation_locked.
Proof. unfold _flush_condensation_locked. wf_auto. Qed.
#[local] Hint Resolve wf_flush : wf_pres.

Lemma wf_register_rows rows added :
  preserves well_formed (register_rows rows added).
Proof.
  revert added.
  induction rows as [|[[[i t] e] md] rows IH]; intros added; simpl; wf_auto.
Qed.
#[local] Hint Resolve wf_register_rows : wf_pres.

Lemma wf_register_chunks_locked a b c d :
  preserves well_formed (register_chunks_locked a b c d).
Proof. unfold register_chunks_locked. wf_auto. Qed.
#[local] Hint Resolve wf_register_chunks_locked : wf_pres.

Lemma wf_run_condense_callback depth pending :
  preserves well_formed (_run_condense_callback depth pending).
Proof.
  revert pending.
  induction depth as [|depth IH]; intros pending; simpl; wf_auto.
Qed.
#[local] Hint Resolve wf_run_condense_callback : wf_pres.

Lemma wf_register_chunks a b c d :
  preserves well_formed (register_chunks a b c d).
Proof. unfold register_chunks. wf_auto. Qed.
#[local] Hint Resolve wf_register_chunks : wf_pres.

Lemma wf_frontier_step a : preserves well_formed (frontier_step a).
Proof. unfold frontier_step. wf_auto. Qed.
#[local] Hint Resolve wf_frontier_step : wf_pres.

Lemma wf_condensation_step a : preserves well_formed (condensation_step a).
Proof. unfold condensation_step. wf_auto. Qed.
#[local] Hint Resolve wf_condensation_step : wf_pres.

Lemma wf_reinforce_row a b c d : preserves well_formed (reinforce_row a b c d).
Proof.
  unfold reinforce_row. wf_auto.
Qed.
#[local] Hint Resolve wf_reinforce_row : wf_pres.

Lemma wf_reinforce a b c : preserves well_formed (reinforce a b c).
Proof. unfold reinforce. wf_auto. Qed.
#[local] Hint Resolve wf_reinforce : wf_pres.

Lemma wf_degrade_loop f ids count :
  preserves well_formed (degrade_loop f ids count).
Proof.
  revert count. induction ids as [|i ids IH]; intros count; simpl; wf_auto.
Qed.
#[local] Hint Resolve wf_degrade_loop : wf_pres.

Lemma wf_degrade ids f : preserves well_formed (degrade ids f).
Proof. unfold degrade. wf_auto. Qed.
#[local] Hint Resolve wf_degrade : wf_pres.

Lemma wf_register_engram a b c : preserves well_formed (register_engram a b c).
Proof. unfold register_engram. wf_auto. Qed.
#[local] Hint Resolve wf_register_engram : wf_pres.

Lemma wf_run_call c : preserves well_formed (run_call c).
Proof.
  destruct c; simpl;
    unfold top, composite_score_for, exploratory_weight, stats,
      consume_events, peek_events, set_condense_callback, to_dict;
    wf_auto.
Qed.


Lemma well_formed_initial (c : Config) (r : rng_state) :
  config_ok c -> well_formed (initial_state c r).
Proof.
  intros Hc. unfold well_formed, initial_state. cbn.
  refine (conj Hc (conj _ (conj _ (conj _ (conj _ (conj _ (conj _
            (conj _ (conj _ _))))))))); wf_fact.
Qed.

End Shape.

(* ------------------------------------------------------------------ *)
(** * Reachable managers are well formed *)

Lemma clamp_float_idem (x lo hi : Q) :
  Qltb hi lo = false ->
  clamp_float (clamp_float x lo hi) lo hi = clamp_float x lo hi.
Proof.
  intros Hb. unfold clamp_float.
  destruct (Qltb x lo) eqn:E1.
  - rewrite Qltb_irrefl, Hb. reflexivity.
  - destruct (Qltb hi x) eqn:E2.
    + rewrite Qltb_irrefl.
      destruct (Qltb hi lo); [discriminate Hb | reflexivity].
    + rewrite E1, E2. reflexivity.
Qed.

Lemma fmax_idem (x b : Q) : fmax (fmax x b) b = fmax x b.
Proof.
  unfold fmax. destruct (Qltb x b) eqn:E.
  - rewrite Qltb_irrefl. reflexivity.
  - rewrite E. reflexivity.
Qed.

Section Reach.
Context {rt : Runtime}.

Lemma require_int_min (v : json) (minimum : Z) (name : string) (z : Z) :
  require_int v minimum name = Ok z -> minimum <= z.
Proof.
  unfold require_int. destruct (py_int v) as [a|e].
  - destruct (a <? minimum) eqn:E; [discriminate|].
    intros [= <-]. apply Z.ltb_ge. exact E.
  - destruct (is_type_or_value_error e); discriminate.
Qed.

Lemma init_config_ok (entropy : Z) (config : list (json * json))
  (m : VoidMemoryManager) :
  __init__ entropy config = Ok m ->
  exists c r, m = initial_state c r /\ config_ok c.
Proof.
  unfold __init__. intros H.
  repeat match type of H with
         | rbind ?x _ = Ok _ =>
             let E := fresh "E" in
             destruct x eqn:E; [cbn [rbind] in H | discriminate H]
         | (let x := _ in _) = _ => cbv zeta in H
         end.
  injection H as <-. eexists. eexists. split; [reflexivity|].
  unfold config_ok.
  cbn [capacity base_ttl decay_half_life prune_sample prune_target_ratio
       recency_half_life_ticks habituation_start habituation_scale
       boredom_weight frontier_novelty_threshold frontier_patience
       diffusion_interval diffusion_kappa exploration_churn_window
       condensation_boredom condensation_conf].
  refine (conj _ (conj _ (conj _ (conj _ (conj _ (conj _ (conj _ (conj _
         (conj _ (conj _ (conj _ (conj _ (conj _ (conj _ (conj _ _)))))))))))))));
    first [ eapply require_int_min; eassumption
          | apply clamp_float_idem; reflexivity
          | apply fmax_idem
          | apply clamp01_idem ].
Qed.

Lemma reachable_well_formed (m : VoidMemoryManager) :
  reachable m -> well_formed m.
Proof.
  induction 1 as [entropy config m Hinit | c m Hreach IH].
  - apply init_config_ok in Hinit. destruct Hinit as (c & r & -> & Hc).
    apply well_formed_initial. exact Hc.
  - apply wf_run_call. exact IH.
Qed.

End Reach.

(* ------------------------------------------------------------------ *)
(** * Reading back what a snapshot records *)

(** [str(n)] has no colon, so the key of a pair splits where it was
    joined. *)
Lemma split_colon_uint (d : Decimal.uint) (s : string) :
  split_colon (NilEmpty.string_of_uint d ++ String ":" s)
  = Some (NilEmpty.string_of_uint d, s).
Proof.
  induction d; simpl; try rewrite IHd; reflexivity.
Qed.

Lemma split_colon_nilzero (d : Decimal.uint) (s : string) :
  split_colon (NilZero.string_of_uint d ++ String ":" s)
  = Some (NilZero.string_of_uint d, s).
Proof.
  unfold NilZero.string_of_uint.
  destruct d; try apply split_colon_uint. reflexivity.
Qed.

Lemma split_colon_str_of_Z (z : Z) (s : string) :
  split_colon (str_of_Z z ++ ":" ++ s) = Some (str_of_Z z, s).
Proof.
  change (":" ++ s)%string with (String ":" s).
  unfold str_of_Z, NilZero.string_of_int.
  destruct (Z.to_int z) as [d|d].
  - apply split_colon_nilzero.
  - change (split_colon
              (String "-" (NilZero.string_of_uint d ++ String ":" s))
            = Some (String "-" (NilZero.string_of_uint d), s)).
    cbn [split_colon]. change (Ascii.eqb "-" ":") with false. cbv iota.
    rewrite split_colon_nilzero. reflexivity.
Qed.

Section Decode.
Context {rt : Runtime}.
Hypothesis int_of_str_of_Z : forall z, int_of_str (str_of_Z z) = Some z.

Lemma rmap_py_float (l : list Q) : rmap py_float (map JFloat l) = Ok l.
Proof.
  induction l as [|q l IH]; simpl; [reflexivity|]. rewrite IH. reflexivity.
Qed.

Lemma rmap_py_int (l : list Z) : rmap py_int (map JInt l) = Ok l.
Proof.
  induction l as [|z l IH]; simpl; [reflexivity|]. rewrite IH. reflexivity.
Qed.

Lemma map_py_str (l : list string) : map py_str (map JStr l) = l.
Proof.
  induction l as [|s l IH]; simpl; [reflexivity|]. rewrite IH. reflexivity.
Qed.

Lemma py_int_str_of_Z (z : Z) : py_int (JStr (str_of_Z z)) = Ok z.
Proof. unfold py_int. rewrite int_of_str_of_Z. reflexivity. Qed.

Lemma from_dict_to_dict (ms : MemoryState) :
  memory_state.from_dict (memory_state.to_dict ms) = Ok (clamp_ranges ms).
Proof.
  destruct ms as [tx emb md tid tl ltt uc ma he co no bo inh fh pc].
  unfold memory_state.from_dict, memory_state.to_dict.
  cbn [text embedding metadata territory_id ttl
    last_touch_tick use_count mass heat confidence novelty boredom inhibition
    frontier_hits pending_condense].
  destruct emb as [e|], tid as [t|];
    cbn [rbind py_get assoc String.eqb Ascii.eqb Bool.eqb py_iter py_int
         py_float py_str py_bool];
    rewrite ?rmap_py_float; reflexivity.
Qed.

Lemma parse_pair_key (p : Z * Z) :
  ordered_pair p -> parse_pair (pair_key p) = Ok p.
Proof.
  destruct p as [a b]. unfold ordered_pair, parse_pair, pair_key.
  cbn [fst snd]. intros Hle.
  rewrite split_colon_str_of_Z, !py_int_str_of_Z. cbn [rbind].
  rewrite Z.min_l, Z.max_r by lia. reflexivity.
Qed.

(** ** The constructor on a recorded configuration *)

Lemma sanitize_config_dict (c : Config) :
  sanitize_config (JObj (config_dict c))
  = Ok (map (fun p => (JStr (fst p), snd p)) (config_dict c)).
Proof. reflexivity. Qed.

Lemma bind_kwargs_config_dict (c : Config) :
  bind_kwargs (map (fun p => (JStr (fst p), snd p)) (config_dict c))
  = Ok (config_dict c).
Proof. reflexivity. Qed.

Lemma init_config_dict (entropy : Z) (c : Config) :
  config_ok c ->
  __init__ entropy (map (fun p => (JStr (fst p), snd p)) (config_dict c))
  = Ok (initial_state c (new_rng (seed c) entropy)).
Proof.
  destruct c as [cap bt dh ps ratio ts sd rh hs hsc bw fnt fp di dk win
                 cb cc cm].
  unfold config_ok.
  cbn [capacity base_ttl decay_half_life prune_sample prune_target_ratio
       recency_half_life_ticks habituation_start habituation_scale
       boredom_weight frontier_novelty_threshold frontier_patience
       diffusion_interval diffusion_kappa exploration_churn_window
       condensation_boredom condensation_conf seed].
  intros (H1 & H2 & H3 & H4 & H5 & H6 & H7 & H8 & H9 & H10 & H11 & H12
          & H13 & H14 & H15 & H16).
  unfold __init__. rewrite bind_kwargs_config_dict. cbn [rbind].
  cbn [kwarg config_dict assoc String.eqb Ascii.eqb Bool.eqb
       capacity base_ttl decay_half_life prune_sample prune_target_ratio
       thread_safe seed
       recency_half_life_ticks habituation_start habituation_scale
       boredom_weight frontier_novelty_threshold frontier_patience
       diffusion_interval diffusion_kappa exploration_churn_window
       condensation_boredom condensation_conf condensation_mass].
  rewrite !require_int_ok by assumption.
  cbn [rbind py_float py_num py_bool].
  rewrite H5, H8, H9, H10, H13, H15, H16.
  destruct sd as [s|]; reflexivity.
Qed.

End Decode.

(* ------------------------------------------------------------------ *)
(** * Running [populate_manager_from_dict] on a snapshot *)

Lemma bind_runs {A B} (c : M A) (k : A -> M B) (m m1 : VoidMemoryManager)
  (a : A) (r : result B * VoidMemoryManager) :
  c m = (Ok a, m1) -> k a m1 = r -> bind c k m = r.
Proof. intros Hc Hk. unfold bind. rewrite Hc. exact Hk. Qed.

(** A loop over encoded items whose body stores each of them. *)
Lemma for_each_map_runs {A B} (I : VoidMemoryManager -> Prop)
  (enc : A -> B) (body : B -> M unit)
  (g : A -> VoidMemoryManager -> VoidMemoryManager) (l : list A) :
  (forall x m, In x l -> I m ->
     body (enc x) m = (Ok tt, g x m) /\ I (g x m)) ->
  forall m, I m ->
    for_each (map enc l) body m = (Ok tt, fold_left (fun m x => g x m) l m).
Proof.
  induction l as [|x l IH]; intros Hb m Hm; simpl; [reflexivity|].
  unfold bind. destruct (Hb x m (or_introl eq_refl) Hm) as [-> HI].
  apply IH; [|exact HI].
  intros y m' Hy. apply Hb. right. exact Hy.
Qed.

(** Updates of one attribute, one after the other, are one update. *)
Lemma fold_upd {T A} (u : (T -> T) -> VoidMemoryManager -> VoidMemoryManager)
  (h : A -> T -> T) :
  (forall f g m, u f (u g m) = u (fun x => f (g x)) m) ->
  (forall m, u (fun x => x) m = m) ->
  forall l m,
    fold_left (fun m x => u (h x) m) l m
    = u (fun d => fold_left (fun a x => h x a) l d) m.
Proof.
  intros Hcomp Hid. induction l as [|x l IH]; intros m; simpl.
  - symmetry. apply Hid.
  - rewrite IH, Hcomp. reflexivity.
Qed.

Lemma load_dict {K V B} `{Key K} (I : VoidMemoryManager -> Prop)
  (u : (dict K V -> dict K V) -> VoidMemoryManager -> VoidMemoryManager)
  (enc : K * V -> B) (body : B -> M unit) (E : dict K V) :
  (forall f g m, u f (u g m) = u (fun x => f (g x)) m) ->
  (forall m, u (fun x => x) m = m) ->
  (forall x m, In x E -> I m ->
     body (enc x) m = (Ok tt, u (dict_set (fst x) (snd x)) m)
     /\ I (u (dict_set (fst x) (snd x)) m)) ->
  forall m, I m ->
    for_each (map enc E) body m
    = (Ok tt,
       u (fun d => fold_left (fun a p => dict_set (fst p) (snd p) a) E d) m).
Proof.
  intros Hcomp Hid Hb m Hm.
  rewrite (for_each_map_runs I enc body
             (fun x => u (dict_set (fst x) (snd x))) E Hb m Hm).
  rewrite (fold_upd u (fun x => dict_set (fst x) (snd x)) Hcomp Hid).
  reflexivity.
Qed.

Lemma manager_ext (a b : VoidMemoryManager) :
  _config a = _config b -> _rng a = _rng b -> _mem a = _mem b ->
  _tick a = _tick b -> _events a = _events b ->
  _nn_distances a = _nn_distances b ->
  _territory_centroids a = _territory_centroids b ->
  _territory_counts a = _territory_counts b ->
  _territory_member_dists a = _territory_member_dists b ->
  _territory_tau a = _territory_tau b ->
  _next_territory_id a = _next_territory_id b ->
  _deterministic_ids a = _deterministic_ids b ->
  _reward_ema a = _reward_ema b -> _pair_churn a = _pair_churn b ->
  _pair_last a = _pair_last b -> _exploration_temp a = _exploration_temp b ->
  _pending_condense a = _pending_condense b ->
  _condense_callback a = _condense_callback b ->
  engrams a = engrams b -> frontier a = frontier b ->
  _split_counter a = _split_counter b ->
  _merge_counter a = _merge_counter b -> a = b.
Proof.
  destruct a, b. cbn. intros. subst. reflexivity.
Qed.

Section Populate.
Context {rt : Runtime}.
Hypothesis int_of_str_of_Z : forall z, int_of_str (str_of_Z z) = Some z.

Ltac run_step :=
  eapply bind_runs;
  [ reflexivity
  | cbv beta iota; cbn [assoc String.eqb Ascii.eqb Bool.eqb] ].

Ltac run_loop u inv :=
  eapply bind_runs;
  [ eapply (load_dict inv u); [ reflexivity | intros []; reflexivity | | ]
  | cbv beta iota ].

Lemma clamp_float_fixed (v lo hi : Q) :
  (lo <= v)%Q -> (v <= hi)%Q -> clamp_float v lo hi = v.
Proof.
  intros Hlo Hhi. unfold clamp_float.
  apply Qltb_false in Hlo. apply Qltb_false in Hhi.
  rewrite Hlo, Hhi. reflexivity.
Qed.

Lemma populate_snapshot (entropy : Z) (m : VoidMemoryManager) :
  well_formed m -> tau_in_range m ->
  populate_manager_from_dict (manager_to_dict m)
    (initial_state (_config m) (new_rng (seed (_config m)) entropy))
  = (Ok tt, reloaded entropy m).
Proof.
  intros (Hcfg & Hmem & Hengr & Hfront & Hcen & Hcnt & Hdists & Hnn
          & Hchurn & Hlast) Htau.
  unfold populate_manager_from_dict.
  do 14 run_step.
  run_loop upd_engrams (fun _ : VoidMemoryManager => True).
  { intros [k v] m' _ _. split; [|exact I]. cbn [fst snd].
    rewrite map_py_str. reflexivity. }
  { exact I. }
  do 2 run_step.
  run_loop upd_frontier (fun _ : VoidMemoryManager => True).
  { intros [k v] m' _ _. split; [reflexivity | exact I]. }
  { exact I. }
  run_step.
  run_loop upd_mem (fun _ : VoidMemoryManager => True).
  { intros [k ms] m' Hin _. split; [|exact I]. cbn [fst snd].
    rewrite from_dict_to_dict.
    destruct (proj2 Hmem k ms Hin) as [_ Hc]. rewrite Hc. reflexivity. }
  { exact I. }
  run_step.
  run_loop upd_territory_centroids (fun _ : VoidMemoryManager => True).
  { intros [k v] m' _ _. split; [|exact I]. cbn [fst snd].
    rewrite (py_int_str_of_Z int_of_str_of_Z). cbn [rbind py_iter].
    rewrite rmap_py_float. reflexivity. }
  { exact I. }
  run_step.
  run_loop upd_territory_counts (fun _ : VoidMemoryManager => True).
  { intros [k v] m' _ _. split; [|exact I]. cbn [fst snd].
    rewrite (py_int_str_of_Z int_of_str_of_Z). reflexivity. }
  { exact I. }
  run_step.
  run_loop upd_territory_member_dists (fun _ : VoidMemoryManager => True).
  { intros [k v] m' Hin _. split; [|exact I]. cbn [fst snd].
    rewrite (py_int_str_of_Z int_of_str_of_Z). cbn [rbind py_iter].
    rewrite rmap_py_float. cbn [rbind].
    destruct (proj2 Hdists k v Hin) as [_ Hw].
    rewrite (extend_within 1024 v Hw). reflexivity. }
  { exact I. }
  do 2 run_step.
  eapply bind_runs.
  { apply (for_each_map_runs (fun _ : VoidMemoryManager => True) JFloat _
             (fun x => upd_nn_distances (deque_append 5000 x))).
    - intros q m' _ _. split; [reflexivity | exact I].
    - exact I. }
  cbv beta iota.
  rewrite (fold_upd upd_nn_distances (fun x => deque_append 5000 x))
    by (first [reflexivity | intros []; reflexivity]).
  run_step.
  eapply bind_runs.
  { eapply (load_dict (fun m' => _config m' = _config m) upd_pair_churn);
      [reflexivity | intros []; reflexivity | | reflexivity].
    intros [k v] m' Hin Hm'. split; [|exact Hm']. cbn [fst snd].
    cbv zeta. destruct (proj2 Hchurn k v Hin) as [Hk Hw].
    rewrite (parse_pair_key int_of_str_of_Z k Hk). cbn [rbind py_iter].
    rewrite rmap_py_int. cbn [rbind]. rewrite Hm'.
    rewrite (extend_within _ v Hw). reflexivity. }
  cbv beta iota.
  run_step.
  etransitivity.
  { eapply (load_dict (fun _ : VoidMemoryManager => True) upd_pair_last);
      [reflexivity | intros []; reflexivity | | exact I].
    intros [k v] m' Hin _. split; [|exact I]. cbn [fst snd].
    destruct (proj2 Hlast k v Hin) as [Hk _].
    rewrite (parse_pair_key int_of_str_of_Z k Hk). reflexivity. }
  f_equal. unfold reloaded, initial_state.
  assert (Hwin : fold_left (fun a x => deque_append 5000 x a)
                   (_nn_distances m) [] = _nn_distances m)
    by apply (extend_within 5000 _ Hnn).
  apply manager_ext;
    cbn [_config _rng _mem _tick _events _nn_distances _territory_centroids
         _territory_counts _territory_member_dists _territory_tau
         _next_territory_id _deterministic_ids _reward_ema _pair_churn
         _pair_last _exploration_temp _pending_condense _condense_callback
         engrams frontier _split_counter _merge_counter
         upd_rng upd_mem upd_tick upd_events upd_nn_distances
         upd_territory_centroids upd_territory_counts
         upd_territory_member_dists upd_territory_tau upd_next_territory_id
         upd_deterministic_ids upd_reward_ema upd_pair_churn upd_pair_last
         upd_exploration_temp upd_pending_condense upd_condense_callback
         upd_engrams upd_frontier upd_split_counter upd_merge_counter];
    try reflexivity.
  - apply dict_rebuild, Hmem.
  - exact Hwin.
  - apply dict_rebuild, Hcen.
  - apply dict_rebuild, Hcnt.
  - apply dict_rebuild, Hdists.
  - apply clamp_float_fixed; [exact (proj1 Htau) | exact (proj2 Htau)].
  - apply dict_rebuild, Hchurn.
  - apply dict_rebuild, Hlast.
  - apply dict_rebuild, Hengr.
  - apply dict_rebuild, Hfront.
Qed.

End Populate.

(* ------------------------------------------------------------------ *)
(** * Saving and loading *)

Section RoundTrip.
Context {rt : Runtime} {codec : Codec}.
Hypothesis int_of_str_of_Z : forall z, int_of_str (str_of_Z z) = Some z.

Lemma load_saved (entropy : Z) (path : string) (fs : FileSystem)
  (m : VoidMemoryManager) :
  well_formed m -> tau_in_range m ->
  json_loads (json_dumps (manager_to_dict m)) = Some (manager_to_dict m) ->
  fs_writable fs path = true ->
  fst (save_json path fs m) = true
  /\ load_json entropy path (snd (save_json path fs m))
     = Ok (Some (reloaded entropy m)).
Proof.
  intros Hwf Htau Hcodec Hw.
  unfold save_json, persistence.save_json. rewrite Hw.
  split; [reflexivity|].
  unfold load_json, persistence.load_json, fs_write.
  cbn [snd fs_read]. rewrite String.eqb_refl, Hcodec.
  change (py_get (manager_to_dict m) "config" (JObj []))
    with (Ok (JObj (config_dict (_config m)))).
  cbn [rbind]. rewrite sanitize_config_dict. cbn [rbind].
  rewrite (init_config_dict entropy (_config m) (proj1 Hwf)). cbn [rbind].
  rewrite (populate_snapshot int_of_str_of_Z entropy m Hwf Htau).
  reflexivity.
Qed.


End RoundTrip.

(** The sample runtime reads back the integers it prints. *)
Lemma sample_int_of_str (z : Z) :
  int_of_str (Runtime := sample_runtime) (str_of_Z z) = Some z.
Proof.
  unfold str_of_Z. cbn [int_of_str sample_runtime].
  rewrite NilZero.isi.
  - cbn [option_map]. rewrite DecimalZ.of_to. reflexivity.
  - destruct z; cbn; try discriminate.
    intros Heq. injection Heq as Heq.
    revert Heq. apply Unsigned.to_uint_nonnil.
  - destruct z; cbn; try discriminate.
    intros Heq. injection Heq as Heq.
    revert Heq. apply Unsigned.to_uint_nonnil.
Qed.


(* ------------------------------------------------------------------ *)
(** * Further properties of the public operations *)

Section Registration.
Context {rt : Runtime}.

Lemma register_rows_known
  (rows : list (string * string * option (list Q) * json)) (added : bool)
  (m : VoidMemoryManager) :
  (forall r, In r rows -> dict_mem (fst (fst (fst r))) (_mem m) = true) ->
  register_rows rows added m = (Ok added, m).
Proof.
  induction rows as [|[[[i t] e] md] rows IH]; intros Hk; simpl.
  - reflexivity.
  - unfold bind at 1, gets at 1.
    pose proof (Hk (i, t, e, md) (or_introl eq_refl)) as Hi.
    cbn [fst] in Hi. rewrite Hi.
    apply IH. intros r Hr. apply Hk. right. exact Hr.
Qed.

Lemma chunk_rows_ids (ids raw_texts : list string)
  (embeddings : option (list (option (list Q))))
  (metadata : option (list json)) r :
  In r (chunk_rows ids raw_texts embeddings metadata) ->
  In (fst (fst (fst r))) ids.
Proof.
  unfold chunk_rows. intros Hin. apply in_map_iff in Hin.
  destruct Hin as (index & <- & Hindex). cbn [fst].
  apply in_seq in Hindex. apply nth_In. lia.
Qed.

(** [register_chunks] checks the lengths of its arguments before it
    touches the manager: a list of texts, of embeddings or of metadata
    that is not as long as the list of ids makes it raise the ValueError
    of that argument, the manager being as it was. *)
Theorem register_chunks_rejects_misaligned (ids raw_texts : list string)
  (embeddings : option (list (option (list Q))))
  (metadata : option (list json)) (m : VoidMemoryManager) :
  (List.length ids <> List.length raw_texts ->
   register_chunks ids raw_texts embeddings metadata m
   = (Raise (ValueError "ids and raw_texts must be correlated pairwise"), m))
  /\ (forall l,
        List.length ids = List.length raw_texts ->
        embeddings = Some l -> List.length l <> List.length ids ->
        register_chunks ids raw_texts embeddings metadata m
        = (Raise (ValueError "embeddings length must match ids"), m))
  /\ (forall l,
        List.length ids = List.length raw_texts ->
        (forall l', embeddings = Some l' ->
                    List.length l' = List.length ids) ->
        metadata = Some l -> List.length l <> List.length ids ->
        register_chunks ids raw_texts embeddings metadata m
        = (Raise (ValueError "metadata length must match ids"), m)).
Proof.
  unfold register_chunks, register_chunks_locked.
  split; [|split].
  - intros Hne. apply Nat.eqb_neq in Hne. rewrite Hne. reflexivity.
  - intros l Heq -> Hne.
    apply Nat.eqb_eq in Heq. rewrite Heq.
    apply Nat.eqb_neq in Hne. rewrite Hne. reflexivity.
  - intros l Heq Hemb -> Hne.
    apply Nat.eqb_eq in Heq. rewrite Heq.
    apply Nat.eqb_neq in Hne. rewrite Hne.
    destruct embeddings as [l'|]; [|reflexivity].
    rewrite (proj2 (Nat.eqb_eq _ _) (Hemb l' eq_refl)). reflexivity.
Qed.

(** Registering ids that the store already holds (or no id at all) does
    nothing: no trace is replaced, no event is logged, the tick does not
    advance and no maintenance runs. *)
Theorem register_chunks_known_ids (ids raw_texts : list string)
  (embeddings : option (list (option (list Q))))
  (metadata : option (list json)) (m : VoidMemoryManager) :
  List.length ids = List.length raw_texts ->
  (forall l, embeddings = Some l -> List.length l = List.length ids) ->
  (forall l, metadata = Some l -> List.length l = List.length ids) ->
  (forall i, In i ids -> dict_mem i (_mem m) = true) ->
  register_chunks ids raw_texts embeddings metadata m = (Ok tt, m).
Proof.
  intros Heq Hemb Hmeta Hknown.
  unfold register_chunks, register_chunks_locked.
  rewrite (proj2 (Nat.eqb_eq _ _) Heq). cbn [negb].
  assert (He : match embeddings with
               | Some l => negb (List.length l =? List.length ids)%nat
               | None => false
               end = false).
  { destruct embeddings as [l|]; [|reflexivity].
    rewrite (proj2 (Nat.eqb_eq _ _) (Hemb l eq_refl)). reflexivity. }
  assert (Hm : match metadata with
               | Some l => negb (List.length l =? List.length ids)%nat
               | None => false
               end = false).
  { destruct metadata as [l|]; [|reflexivity].
    rewrite (proj2 (Nat.eqb_eq _ _) (Hmeta l eq_refl)). reflexivity. }
  rewrite He, Hm.
  unfold bind at 1. unfold bind at 1.
  rewrite register_rows_known.
  - reflexivity.
  - intros r Hr. apply Hknown. apply (chunk_rows_ids _ _ _ _ _ Hr).
Qed.

(** [degrade] validates [ttl_floor] first: a floor below 1, or a value
    that [int] does not convert, raises a ValueError and leaves the
    manager as it was. *)
Theorem degrade_rejects_bad_floor (ids : list string) (ttl_floor : json)
  (m : VoidMemoryManager) :
  (forall z, py_int ttl_floor = Ok z -> z < 1 ->
     degrade ids ttl_floor m
     = (Raise (ValueError "ttl_floor must be >= 1"), m))
  /\ (forall e, py_int ttl_floor = Raise e ->
        is_type_or_value_error e = true ->
        degrade ids ttl_floor m
        = (Raise (ValueError "ttl_floor must be an integer"), m)).
Proof.
  unfold degrade, require_int. split.
  - intros z -> Hlt. apply Z.ltb_lt in Hlt. rewrite Hlt. reflexivity.
  - intros e -> He. rewrite He. reflexivity.
Qed.

End Registration.

(** The sample manager, asked to register two of its ids again. *)
Lemma register_chunks_known_ids_witness :
  register_chunks (rt := sample_runtime) ["mem-alpha"; "mem-gamma"]
    ["energy"; "other"] None None learned_manager
  = (Ok tt, learned_manager).
Proof.
  apply (register_chunks_known_ids (rt := sample_runtime)).
  - reflexivity.
  - intros l H. discriminate H.
  - intros l H. discriminate H.
  - intros i [<-|[<-|[]]]; reflexivity.
Defined.

(* ------------------------------------------------------------------ *)
(** * Engrams *)

(** What [register_engram] does to a member each time its id comes up. *)
Definition engram_touch (ms : MemoryState) : MemoryState :=
  let ms := set_boredom (fmin 1.0 (boredom ms + 0.05)) ms in
  let ms := set_inhibition (fmin 1.0 (inhibition ms + 0.05)) ms in
  clamp_ranges ms.

Lemma fmin_one_range (b : Q) :
  (0 <= b)%Q -> (0 <= fmin 1.0 (b + 0.05))%Q /\ (fmin 1.0 (b + 0.05) <= 1)%Q.
Proof.
  intros Hb. unfold fmin.
  destruct (Qltb (b + 0.05) 1.0) eqn:E.
  - apply Qltb_true in E. lra.
  - lra.
Qed.

Lemma clamp01_fixed (q : Q) : (0 <= q)%Q -> (q <= 1)%Q -> clamp01 q = q.
Proof.
  intros H0 H1. unfold clamp01.
  apply Qltb_false in H0. apply Qltb_false in H1.
  rewrite H0, H1. reflexivity.
Qed.

Lemma clamp01_range (q : Q) : (0 <= clamp01 q)%Q /\ (clamp01 q <= 1)%Q.
Proof.
  unfold clamp01.
  destruct (Qltb q 0) eqn:E0; [lra|].
  destruct (Qltb 1 q) eqn:E1; [lra|].
  apply Qltb_false in E0. apply Qltb_false in E1. lra.
Qed.

Lemma clamped_ranges (ms : MemoryState) :
  clamped ms ->
  0 <= ttl ms
  /\ (0 <= mass ms)%Q /\ (0 <= heat ms)%Q /\ (0 <= inhibition ms)%Q
  /\ (0 <= confidence ms <= 1)%Q
  /\ (0 <= novelty ms <= 1)%Q
  /\ (0 <= boredom ms <= 1)%Q.
Proof.
  intros Hc. destruct (clamped_fields ms Hc)
    as (Ht & Hm & Hh & Hi & Hcf & Hn & Hb).
  apply Z.ltb_ge in Ht.
  apply Qltb_false in Hm. apply Qltb_false in Hh. apply Qltb_false in Hi.
  rewrite <- Hcf, <- Hn, <- Hb.
  repeat split; try assumption; apply clamp01_range.
Qed.

Lemma engram_touch_fields (ms : MemoryState) :
  clamped ms ->
  boredom (engram_touch ms) = fmin 1.0 (boredom ms + 0.05)
  /\ inhibition (engram_touch ms) = fmin 1.0 (inhibition ms + 0.05)
  /\ ttl (engram_touch ms) = ttl ms
  /\ mass (engram_touch ms) = mass ms
  /\ heat (engram_touch ms) = heat ms
  /\ confidence (engram_touch ms) = confidence ms
  /\ novelty (engram_touch ms) = novelty ms.
Proof.
  intros Hc.
  destruct (clamped_ranges ms Hc) as (Ht & Hm & Hh & Hi & Hcf & Hn & Hb).
  destruct (clamped_fields ms Hc) as (Ft & Fm & Fh & Fi & Fcf & Fn & Fb).
  unfold engram_touch, clamp_ranges.
  cbn [text embedding metadata territory_id ttl last_touch_tick use_count
       mass heat confidence novelty boredom inhibition frontier_hits
       pending_condense set_boredom set_inhibition].
  rewrite Ft, Fm, Fh, Fcf, Fn.
  destruct (fmin_one_range (boredom ms) (proj1 Hb)) as [B0 B1].
  destruct (fmin_one_range (inhibition ms) Hi) as [I0 I1].
  rewrite (clamp01_fixed _ B0 B1).
  apply Qltb_false in I0. rewrite I0.
  repeat split; reflexivity.
Qed.

Section Engrams.
Context {rt : Runtime}.

(** [register_engram] counts the member ids the store holds, repeated ids
    included.  With fewer than two it returns [False] and leaves the
    manager as it was.  Otherwise it returns [True], stores those ids
    under [summary_id] (replacing an earlier engram of that name, all
    other engrams being kept), and touches each member once per
    occurrence of its id; a member listed once has its boredom and its
    inhibition raised by 0.05, up to 1, its other attributes being as
    before.  Traces that are no members are untouched, the tick does not
    advance, and the [text] argument plays no part. *)
Theorem register_engram_outcome (summary_id : string)
  (member_ids : list string) (text : string) (m : VoidMemoryManager) :
  let members := filter (fun mid => dict_mem mid (_mem m)) member_ids in
  ((List.length members < 2)%nat ->
   register_engram summary_id member_ids text m = (Ok false, m))
  /\ ((2 <= List.length members)%nat ->
      exists m',
        register_engram summary_id member_ids text m = (Ok true, m')
        /\ dict_get summary_id (engrams m') = Some members
        /\ (forall k, k <> summary_id ->
              dict_get k (engrams m') = dict_get k (engrams m))
        /\ dict_keys (_mem m') = dict_keys (_mem m)
        /\ (forall k,
              dict_get k (_mem m')
              = option_map
                  (Nat.iter (count_occ string_dec members k) engram_touch)
                  (dict_get k (_mem m)))
        /\ (forall k ms,
              dict_get k (_mem m) = Some ms -> clamped ms ->
              count_occ string_dec members k = 1%nat ->
              exists ms',
                dict_get k (_mem m') = Some ms'
                /\ boredom ms' = fmin 1.0 (boredom ms + 0.05)
                /\ inhibition ms' = fmin 1.0 (inhibition ms + 0.05)
                /\ ttl ms' = ttl ms /\ mass ms' = mass ms
                /\ heat ms' = heat ms /\ confidence ms' = confidence ms
                /\ novelty ms' = novelty ms)
        /\ _tick m' = _tick m
        /\ _rng m' = _rng m
        /\ _pending_condense m' = _pending_condense m)
  /\ (forall text',
        register_engram summary_id member_ids text' m
        = register_engram summary_id member_ids text m).
Proof.
  intros members. split; [|split].
  - intros Hlt. unfold register_engram.
    unfold bind at 1, gets at 1. fold members.
    apply Nat.ltb_lt in Hlt. rewrite Hlt. reflexivity.
  - intros Hge. unfold register_engram.
    unfold bind at 1, gets at 1. fold members.
    apply Nat.ltb_ge in Hge. rewrite Hge.
    unfold bind at 1, modify at 1.
    unfold bind at 1.
    change (fun ms : MemoryState =>
              let ms0 := set_boredom (fmin 1.0 (boredom ms + 0.05)) ms in
              let ms1 :=
                set_inhibition (fmin 1.0 (inhibition ms0 + 0.05)) ms0 in
              clamp_ranges ms1) with engram_touch.
    rewrite for_each_modify.
    rewrite (fold_upd_mem_update (fun x : string => x) engram_touch members).
    rewrite map_id.
    unfold bind at 1, _record_event at 1. unfold ret.
    eexists. split; [reflexivity|].
    cbn [engrams _mem _tick _rng _pending_condense upd_events upd_mem
         upd_engrams].
    assert (Hget : forall k,
               dict_get k (update_all engram_touch members (_mem m))
               = option_map
                   (Nat.iter (count_occ string_dec members k) engram_touch)
                   (dict_get k (_mem m)))
      by (intros k; apply update_all_get).
    split; [|split; [|split; [|split; [|split; [|repeat split]]]]].
    + rewrite dict_get_set, keqb_refl. reflexivity.
    + intros k Hk. rewrite dict_get_set, keqb_neq by exact Hk. reflexivity.
    + apply update_all_keys.
    + exact Hget.
    + intros k ms Hk Hc Hone. rewrite Hget, Hk, Hone.
      cbn [option_map Nat.iter nat_rect].
      eexists. split; [reflexivity|].
      apply engram_touch_fields. exact Hc.
  - intros text'. reflexivity.
Qed.

End Engrams.

(* ------------------------------------------------------------------ *)
(** * Ranking *)

(** A scored id ranks no lower than another. *)
Definition score_ge {A} (a b : A * Q) : Prop := (snd b <= snd a)%Q.

Lemma insert_desc_perm {A} (x : A * Q) (l : list (A * Q)) :
  Permutation (insert_desc x l) (x :: l).
Proof.
  induction l as [|y l IH]; simpl; [reflexivity|].
  destruct (Qltb (snd x) (snd y)); [|reflexivity].
  rewrite IH. apply perm_swap.
Qed.

Lemma sort_desc_perm {A} (l : list (A * Q)) :
  Permutation (fold_right insert_desc [] l) l.
Proof.
  induction l as [|x l IH]; simpl; [reflexivity|].
  rewrite insert_desc_perm. apply perm_skip. exact IH.
Qed.

Lemma insert_desc_sorted {A} (x : A * Q) (l : list (A * Q)) :
  StronglySorted score_ge l -> StronglySorted score_ge (insert_desc x l).
Proof.
  induction l as [|y l IH]; intros Hs; simpl.
  - constructor; constructor.
  - inversion Hs as [|? ? Hs' Hall]; subst.
    destruct (Qltb (snd x) (snd y)) eqn:E.
    + constructor; [apply IH; exact Hs'|].
      apply Qltb_true in E.
      rewrite Forall_forall in *. intros z Hz.
      apply (Permutation_in _ (insert_desc_perm x l)) in Hz.
      destruct Hz as [<-|Hz]; [unfold score_ge; lra | apply Hall; exact Hz].
    + apply Qltb_false in E. constructor; [exact Hs|].
      constructor; [exact E|].
      rewrite Forall_forall in *. intros z Hz.
      specialize (Hall z Hz). unfold score_ge in *. lra.
Qed.

Lemma sort_desc_sorted {A} (l : list (A * Q)) :
  StronglySorted score_ge (fold_right insert_desc [] l).
Proof.
  induction l as [|x l IH]; simpl.
  - constructor.
  - apply insert_desc_sorted; exact IH.
Qed.

Lemma firstn_sorted {A} (R : A -> A -> Prop) (n : nat) (l : list A) :
  StronglySorted R l -> StronglySorted R (firstn n l).
Proof.
  intros Hs. revert n.
  induction Hs as [|a l Hs IH Hall]; intros n.
  - destruct n; constructor.
  - destruct n as [|n]; simpl; constructor; [apply IH|].
    rewrite Forall_forall in *. intros x Hx. apply Hall.
    apply (in_firstn n). exact Hx.
Qed.

Section Ranking.
Context {rt : Runtime}.

(** [top(k)] changes nothing and returns [min(n, |mem|)] scored ids, [n]
    being [k] brought into [[1, 100]] (so [top(0)] returns the best one and
    [top(1000)] a hundred): each is an id of the store with its composite
    score, they come in descending order of score, and the scored ids left
    out make up the rest of the store and score no higher than any that
    is returned. *)
Theorem top_returns_best (k : Z) (m : VoidMemoryManager) :
  let n := Z.to_nat (Z.min 100 (Z.max 1 k)) in
  let scored :=
    map (fun p => (fst p, composite_score m (snd p))) (_mem m) in
  exists best rest,
    top k m = (Ok best, m)
    /\ List.length best = Nat.min n (List.length (_mem m))
    /\ Permutation (best ++ rest) scored
    /\ StronglySorted score_ge best
    /\ forall a b, In a best -> In b rest -> score_ge a b.
Proof.
  intros n scored.
  exists (firstn n (fold_right insert_desc [] scored)).
  exists (skipn n (fold_right insert_desc [] scored)).
  split; [|split; [|split; [|split]]].
  - unfold top, bind, gets, ret. fold scored. f_equal. f_equal. f_equal.
    unfold n. destruct (k <=? 0) eqn:E1.
    + apply Z.leb_le in E1. change (1 >? 100) with false. cbv iota.
      f_equal. lia.
    + apply Z.leb_gt in E1. destruct (k >? 100) eqn:E2.
      * apply Z.gtb_lt in E2. f_equal. lia.
      * rewrite Z.gtb_ltb in E2. apply Z.ltb_ge in E2. f_equal. lia.
  - rewrite length_firstn.
    rewrite (Permutation_length (sort_desc_perm scored)).
    unfold scored. rewrite length_map. reflexivity.
  - rewrite firstn_skipn. apply sort_desc_perm.
  - apply firstn_sorted. apply sort_desc_sorted.
  - intros a b Ha Hb.
    apply (sorted_firstn_skipn score_ge _ (sort_desc_sorted scored) n a b Ha Hb).
Qed.

End Ranking.

(* ------------------------------------------------------------------ *)
(** * The event log *)

(** [consume_events] hands over the whole log and empties it, changing
    nothing else: consuming or peeking right after it gives no event.
    [peek_events] changes nothing; it returns the oldest [limit] events, all
    of them when there are fewer, and none for a [limit] of zero or
    less. *)
Theorem consume_then_nothing (limit : Z) (m : VoidMemoryManager) :
  consume_events m = (Ok (_events m), upd_events (fun _ => []) m)
  /\ consume_events (snd (consume_events m))
     = (Ok [], snd (consume_events m))
  /\ fst (peek_events limit (snd (consume_events m))) = Ok []
  /\ snd (peek_events limit m) = m
  /\ (limit <= 0 -> fst (peek_events limit m) = Ok [])
  /\ (0 < limit ->
      exists later,
        fst (peek_events limit m) = Ok (firstn (Z.to_nat limit) (_events m))
        /\ _events m = firstn (Z.to_nat limit) (_events m) ++ later
        /\ List.length (firstn (Z.to_nat limit) (_events m))
           = Nat.min (Z.to_nat limit) (List.length (_events m))).
Proof.
  split; [reflexivity|]. split; [reflexivity|].
  split; [|split; [|split]].
  - unfold peek_events. destruct (limit <=? 0); [reflexivity|].
    unfold bind, gets, ret. cbn [fst snd consume_events _events upd_events].
    unfold consume_events, bind, gets, modify, ret.
    cbn [fst snd _events upd_events]. rewrite firstn_nil. reflexivity.
  - unfold peek_events. destruct (limit <=? 0); reflexivity.
  - intros Hle. unfold peek_events.
    apply Z.leb_le in Hle. rewrite Hle. reflexivity.
  - intros Hlt. unfold peek_events.
    apply Z.leb_gt in Hlt. rewrite Hlt.
    exists (skipn (Z.to_nat limit) (_events m)).
    split; [reflexivity|]. split.
    + symmetry. apply firstn_skipn.
    + apply length_firstn.
Qed.

(* ------------------------------------------------------------------ *)
(** * Habituation *)

(** The bounds of the quotient [_boredom_increment] scales. *)
Lemma habituation_ratio (u d : Q) :
  (1 <= u)%Q -> (u <= d)%Q ->
  (0 < u / d * 0.05)%Q /\ (u / d * 0.05 <= 0.05)%Q.
Proof.
  intros Hu Hd.
  assert (Hpos : (0 < d)%Q) by lra.
  assert (Hr1 : (u / d <= 1)%Q)
    by (apply Qle_shift_div_r; [exact Hpos | lra]).
  assert (Hr0 : (0 < u / d)%Q)
    by (apply Qlt_shift_div_l; [exact Hpos | lra]).
  split; lra.
Qed.

(** On all doubles, with [habituation_start] not negative as the
    constructor makes it: the boredom a reinforcement adds is 0.02 up to
    [habituation_start] uses.  After that it lies in [(0, 0.05]] for a
    finite [habituation_scale], so that the cap of 0.2 plays no part; it
    is 0 for an infinite scale, which the constructor accepts, and it is
    the cap, 0.2, for a scale that is NaN, which the constructor accepts
    too.  On a finite scale it is what the manager computes. *)
Theorem boredom_increment_small (habituation_start' use_count' : Z)
  (scale : ieee.double) :
  0 <= habituation_start' ->
  (use_count' <= habituation_start' ->
   ieee._boredom_increment habituation_start' scale use_count'
   = Some (ieee.Fin 0.02))
  /\ (habituation_start' < use_count' ->
      (forall s, scale = ieee.Fin s ->
         exists q,
           ieee._boredom_increment habituation_start' scale use_count'
           = Some (ieee.Fin q)
           /\ (0 < q)%Q /\ (q <= 0.05)%Q)
      /\ (scale = ieee.PInf ->
          exists q,
            ieee._boredom_increment habituation_start' scale use_count'
            = Some (ieee.Fin q)
            /\ (q == 0)%Q)
      /\ (scale = ieee.NaN ->
          ieee._boredom_increment habituation_start' scale use_count'
          = Some (ieee.Fin 0.2)))
  /\ (forall (c : Config) (ms : MemoryState),
        habituation_start c = habituation_start' ->
        use_count ms = use_count' ->
        ieee._boredom_increment habituation_start'
          (ieee.Fin (habituation_scale c)) use_count'
        = Some (ieee.Fin (_boredom_increment c ms))).
Proof.
  intros Hs.
  assert (Hu : habituation_start' < use_count' ->
               (1 <= inject_Z use_count')%Q).
  { intros Hlt. change 1%Q with (inject_Z 1). rewrite <- Zle_Qle. lia. }
  assert (Hfin : forall s,
             habituation_start' < use_count' ->
             ieee._boredom_increment habituation_start' (ieee.Fin s)
               use_count'
             = Some (ieee.Fin
                       (fmin 0.2
                          (inject_Z use_count'
                           / fmax s (inject_Z use_count') * 0.05)))).
  { intros s Hlt. specialize (Hu Hlt).
    unfold ieee._boredom_increment.
    assert (E : (use_count' <=? habituation_start') = false)
      by (apply Z.leb_gt; exact Hlt).
    rewrite E. cbv zeta. unfold ieee.max. cbn [ieee.lt].
    assert (Hd : (inject_Z use_count' <= fmax s (inject_Z use_count'))%Q).
    { unfold fmax. destruct (Qltb s (inject_Z use_count')) eqn:Ef;
        [lra | apply Qltb_false in Ef; exact Ef]. }
    assert (Hnz : Qeq_bool (fmax s (inject_Z use_count')) 0 = false).
    { destruct (Qeq_bool (fmax s (inject_Z use_count')) 0) eqn:Ez;
        [|reflexivity].
      apply Qeq_bool_iff in Ez. lra. }
    unfold fmax in *. destruct (Qltb s (inject_Z use_count'));
      unfold ieee.div; rewrite Hnz; cbn [ieee.mul]; unfold ieee.min, fmin;
      cbn [ieee.lt];
      match goal with
      | |- context [Qltb ?a ?b] => destruct (Qltb a b)
      end; reflexivity. }
  split; [|split].
  - intros Hle. unfold ieee._boredom_increment.
    apply Z.leb_le in Hle. rewrite Hle. reflexivity.
  - intros Hlt. pose proof (Hu Hlt) as Hu1. split; [|split].
    + intros s ->. eexists. split; [apply (Hfin s Hlt)|].
      assert (Hd : (inject_Z use_count' <= fmax s (inject_Z use_count'))%Q).
      { unfold fmax. destruct (Qltb s (inject_Z use_count')) eqn:Ef;
          [lra | apply Qltb_false in Ef; exact Ef]. }
      destruct (habituation_ratio _ _ Hu1 Hd) as [H0 H1].
      unfold fmin.
      match goal with
      | |- context [Qltb ?a ?b] => destruct (Qltb a b) eqn:Em
      end; [split; assumption|].
      apply Qltb_false in Em. lra.
    + intros ->. unfold ieee._boredom_increment.
      assert (E : (use_count' <=? habituation_start') = false)
        by (apply Z.leb_gt; exact Hlt).
      rewrite E. cbv zeta. eexists. split; [reflexivity|]. reflexivity.
    + intros ->. unfold ieee._boredom_increment.
      assert (E : (use_count' <=? habituation_start') = false)
        by (apply Z.leb_gt; exact Hlt).
      rewrite E. reflexivity.
  - intros c ms Hc Hm. unfold _boredom_increment. rewrite Hc, Hm.
    destruct (use_count' <=? habituation_start') eqn:E.
    + unfold ieee._boredom_increment. rewrite E. reflexivity.
    + apply Z.leb_gt in E. rewrite (Hfin _ E). reflexivity.
Qed.

(** Forty uses against a start of 32 and a scale of 100. *)
Lemma boredom_increment_small_witness :
  0 <= 32
  /\ exists q,
       ieee._boredom_increment 32 (ieee.Fin 100) 40 = Some (ieee.Fin q)
       /\ (0 < q)%Q /\ (q <= 0.05)%Q.
Proof.
  assert (H : 0 <= 32) by lia.
  split; [exact H|].
  apply (proj1 (proj1 (proj2 (boredom_increment_small 32 40
                                (ieee.Fin 100) H))
                 ltac:(lia)) 100%Q eq_refl).
Defined.

(* ------------------------------------------------------------------ *)
(** * What no operation undoes *)

(** [m] has the configuration and the generator's seeding of [m0], and
    its counters are no lower. *)
Definition grows_from (m0 m : VoidMemoryManager) : Prop :=
  _config m = _config m0
  /\ rng_src (_rng m) = rng_src (_rng m0)
  /\ _tick m0 <= _tick m
  /\ _next_territory_id m0 <= _next_territory_id m
  /\ _split_counter m0 <= _split_counter m
  /\ _merge_counter m0 <= _merge_counter m.

(** The event log is within the bound of its deque. *)
Definition log_bounded (m : VoidMemoryManager) : Prop :=
  within 1024 (_events m).

Create HintDb grow_pres.
Create HintDb log_pres.

Ltac grow_frame :=
  let m := fresh "m" in
  let H := fresh "H" in
  intros m H;
  repeat match goal with
         | |- context [match ?x with _ => _ end] => destruct x
         end;
  try exact H;
  destruct H as (Hcfg & Hsrc & Htick & Hnext & Hsplit & Hmerge);
  unfold grows_from;
  cbn [_config _rng _mem _tick _events _nn_distances _territory_centroids
       _territory_counts _territory_member_dists _territory_tau
       _next_territory_id _deterministic_ids _reward_ema _pair_churn
       _pair_last _exploration_temp _pending_condense _condense_callback
       engrams frontier _split_counter _merge_counter
       upd_rng upd_mem upd_tick upd_events upd_nn_distances
       upd_territory_centroids upd_territory_counts
       upd_territory_member_dists upd_territory_tau upd_next_territory_id
       upd_deterministic_ids upd_reward_ema upd_pair_churn upd_pair_last
       upd_exploration_temp upd_pending_condense upd_condense_callback
       upd_engrams upd_frontier upd_split_counter upd_merge_counter rng_src];
  refine (conj _ (conj _ (conj _ (conj _ (conj _ _)))));
  first [ assumption | lia ].

Ltac grow_step :=
  first
    [ solve [auto with grow_pres]
    | apply preserves_record_event; intros ? ?; grow_frame
    | apply preserves_modify; grow_frame
    | pres_step ].

Ltac grow_auto := repeat grow_step.

Lemma log_record_event (ty : string) (payload : list (string * json)) :
  preserves log_bounded (_record_event ty payload).
Proof.
  intros m _. unfold _record_event, log_bounded.
  cbn [snd _events upd_events]. apply within_append.
Qed.

Ltac log_frame :=
  let m := fresh "m" in
  let H := fresh "H" in
  intros m H;
  repeat match goal with
         | |- context [match ?x with _ => _ end] => destruct x
         end;
  try exact H;
  unfold log_bounded in *;
  cbn [_config _rng _mem _tick _events _nn_distances _territory_centroids
       _territory_counts _territory_member_dists _territory_tau
       _next_territory_id _deterministic_ids _reward_ema _pair_churn
       _pair_last _exploration_temp _pending_condense _condense_callback
       engrams frontier _split_counter _merge_counter
       upd_rng upd_mem upd_tick upd_events upd_nn_distances
       upd_territory_centroids upd_territory_counts
       upd_territory_member_dists upd_territory_tau upd_next_territory_id
       upd_deterministic_ids upd_reward_ema upd_pair_churn upd_pair_last
       upd_exploration_temp upd_pending_condense upd_condense_callback
       upd_engrams upd_frontier upd_split_counter upd_merge_counter];
  first [ exact H | apply within_nil ].

Ltac log_step :=
  first
    [ solve [auto with log_pres]
    | apply log_record_event
    | apply preserves_modify; log_frame
    | pres_step ].

Ltac log_auto := repeat log_step.

Section Growth.
Context {rt : Runtime}.
Variable m0 : VoidMemoryManager.

Lemma grow_record_nn_distance d :
  preserves (grows_from m0) (record_nn_distance d).
Proof. unfold record_nn_distance. grow_auto. Qed.
#[local] Hint Resolve grow_record_nn_distance : grow_pres.

Lemma grow_create_territory e t : preserves (grows_from m0) (create_territory e t).
Proof. unfold create_territory. grow_auto. Qed.
#[local] Hint Resolve grow_create_territory : grow_pres.

Lemma grow_deterministic_territory t :
  preserves (grows_from m0) (deterministic_territory t).
Proof. unfold deterministic_territory. grow_auto. Qed.
#[local] Hint Resolve grow_deterministic_territory : grow_pres.

Lemma grow_update_centroid tid e : preserves (grows_from m0) (update_centroid tid e).
Proof. unfold update_centroid. grow_auto. Qed.
#[local] Hint Resolve grow_update_centroid : grow_pres.

Lemma grow_assign_territory t e : preserves (grows_from m0) (assign_territory t e).
Proof. unfold assign_territory. grow_auto. Qed.
#[local] Hint Resolve grow_assign_territory : grow_pres.

Lemma grow_merge_territories a b : preserves (grows_from m0) (merge_territories a b).
Proof. unfold merge_territories. grow_auto. Qed.
#[local] Hint Resolve grow_merge_territories : grow_pres.

Lemma grow_rng_draw_random : preserves (grows_from m0) rng_draw_random.
Proof. unfold rng_draw_random. simpl. grow_frame. Qed.
#[local] Hint Resolve grow_rng_draw_random : grow_pres.

Lemma grow_diffuse_pairs pairs : preserves (grows_from m0) (diffuse_pairs pairs).
Proof.
  induction pairs as [|[a b] pairs IH]; simpl; grow_auto.
Qed.
#[local] Hint Resolve grow_diffuse_pairs : grow_pres.

Lemma grow_maybe_diffuse : preserves (grows_from m0) maybe_diffuse.
Proof. unfold maybe_diffuse. grow_auto. Qed.
#[local] Hint Resolve grow_maybe_diffuse : grow_pres.

Lemma grow_maybe_split_territory ms_id :
  preserves (grows_from m0) (maybe_split_territory ms_id).
Proof. unfold maybe_split_territory. grow_auto. Qed.
#[local] Hint Resolve grow_maybe_split_territory : grow_pres.

Lemma grow_record_member_distance ms_id sim :
  preserves (grows_from m0) (record_member_distance ms_id sim).
Proof. unfold record_member_distance. grow_auto. Qed.
#[local] Hint Resolve grow_record_member_distance : grow_pres.

Lemma grow_update_pair_metrics states :
  preserves (grows_from m0) (update_pair_metrics states).
Proof. unfold update_pair_metrics. grow_auto. Qed.
#[local] Hint Resolve grow_update_pair_metrics : grow_pres.

Lemma grow_register_memory a b c d :
  preserves (grows_from m0) (_register_memory a b c d).
Proof. unfold _register_memory. grow_auto. Qed.
#[local] Hint Resolve grow_register_memory : grow_pres.

Lemma grow_apply_reinforcement a b c d :
  preserves (grows_from m0) (_apply_reinforcement a b c d).
Proof. unfold _apply_reinforcement. grow_auto. Qed.
#[local] Hint Resolve grow_apply_reinforcement : grow_pres.

Lemma grow_remove_memory a : preserves (grows_from m0) (_remove_memory a).
Proof. unfold _remove_memory. grow_auto. Qed.
#[local] Hint Resolve grow_remove_memory : grow_pres.

Lemma grow_decay_pass : preserves (grows_from m0) _decay_pass.
Proof. unfold _decay_pass. grow_auto. Qed.
#[local] Hint Resolve grow_decay_pass : grow_pres.

Lemma grow_rng_do_shuffle l : preserves (grows_from m0) (rng_do_shuffle l).
Proof. unfold rng_do_shuffle. simpl. grow_frame. Qed.
#[local] Hint Resolve grow_rng_do_shuffle : grow_pres.

Lemma grow_prune_if_needed : preserves (grows_from m0) _prune_if_needed.
Proof. unfold _prune_if_needed. grow_auto. Qed.
#[local] Hint Resolve grow_prune_if_needed : grow_pres.

Lemma grow_after_operation : preserves (grows_from m0) _after_operation.
Proof. unfold _after_operation. grow_auto. Qed.
#[local] Hint Resolve grow_after_operation : grow_pres.

Lemma grow_flush : preserves (grows_from m0) _flush_condensation_locked.
Proof. unfold _flush_condensation_locked. grow_auto. Qed.
#[local] Hint Resolve grow_flush : grow_pres.

Lemma grow_register_rows rows added :
  preserves (grows_from m0) (register_rows rows added).
Proof.
  revert added.
  induction rows as [|[[[i t] e] md] rows IH]; intros added; simpl; grow_auto.
Qed.
#[local] Hint Resolve grow_register_rows : grow_pres.

Lemma grow_register_chunks_locked a b c d :
  preserves (grows_from m0) (register_chunks_locked a b c d).
Proof. unfold register_chunks_locked. grow_auto. Qed.
#[local] Hint Resolve grow_register_chunks_locked : grow_pres.

Lemma grow_run_condense_callback depth pending :
  preserves (grows_from m0) (_run_condense_callback depth pending).
Proof.
  revert pending.
  induction depth as [|depth IH]; intros pending; simpl; grow_auto.
Qed.
#[local] Hint Resolve grow_run_condense_callback : grow_pres.

Lemma grow_register_chunks a b c d :
  preserves (grows_from m0) (register_chunks a b c d).
Proof. unfold register_chunks. grow_auto. Qed.
#[local] Hint Resolve grow_register_chunks : grow_pres.

Lemma grow_frontier_step a : preserves (grows_from m0) (frontier_step a).
Proof. unfold frontier_step. grow_auto. Qed.
#[local] Hint Resolve grow_frontier_step : grow_pres.

Lemma grow_condensation_step a : preserves (grows_from m0) (condensation_step a).
Proof. unfold condensation_step. grow_auto. Qed.
#[local] Hint Resolve grow_condensation_step : grow_pres.

Lemma grow_reinforce_row a b c d : preserves (grows_from m0) (reinforce_row a b c d).
Proof.
  unfold reinforce_row. grow_auto.
Qed.
#[local] Hint Resolve grow_reinforce_row : grow_pres.

Lemma grow_reinforce a b c : preserves (grows_from m0) (reinforce a b c).
Proof. unfold reinforce. grow_auto. Qed.
#[local] Hint Resolve grow_reinforce : grow_pres.

Lemma grow_degrade_loop f ids count :
  preserves (grows_from m0) (degrade_loop f ids count).
Proof.
  revert count. induction ids as [|i ids IH]; intros count; simpl; grow_auto.
Qed.
#[local] Hint Resolve grow_degrade_loop : grow_pres.

Lemma grow_degrade ids f : preserves (grows_from m0) (degrade ids f).
Proof. unfold degrade. grow_auto. Qed.
#[local] Hint Resolve grow_degrade : grow_pres.

Lemma grow_register_engram a b c : preserves (grows_from m0) (register_engram a b c).
Proof. unfold register_engram. grow_auto. Qed.
#[local] Hint Resolve grow_register_engram : grow_pres.

Lemma grow_run_call c : preserves (grows_from m0) (run_call c).
Proof.
  destruct c; simpl;
    unfold top, composite_score_for, exploratory_weight, stats,
      consume_events, peek_events, set_condense_callback, to_dict;
    grow_auto.
Qed.


End Growth.

Section Log.
Context {rt : Runtime}.

Lemma log_record_nn_distance d :
  preserves log_bounded (record_nn_distance d).
Proof. unfold record_nn_distance. log_auto. Qed.
#[local] Hint Resolve log_record_nn_distance : log_pres.

Lemma log_create_territory e t : preserves log_bounded (create_territory e t).
Proof. unfold create_territory. log_auto. Qed.
#[local] Hint Resolve log_create_territory : log_pres.

Lemma log_deterministic_territory t :
  preserves log_bounded (deterministic_territory t).
Proof. unfold deterministic_territory. log_auto. Qed.
#[local] Hint Resolve log_deterministic_territory : log_pres.

Lemma log_update_centroid tid e : preserves log_bounded (update_centroid tid e).
Proof. unfold update_centroid. log_auto. Qed.
#[local] Hint Resolve log_update_centroid : log_pres.

Lemma log_assign_territory t e : preserves log_bounded (assign_territory t e).
Proof. unfold assign_territory. log_auto. Qed.
#[local] Hint Resolve log_assign_territory : log_pres.

Lemma log_merge_territories a b : preserves log_bounded (merge_territories a b).
Proof. unfold merge_territories. log_auto. Qed.
#[local] Hint Resolve log_merge_territories : log_pres.

Lemma log_rng_draw_random : preserves log_bounded rng_draw_random.
Proof. unfold rng_draw_random. simpl. log_frame. Qed.
#[local] Hint Resolve log_rng_draw_random : log_pres.

Lemma log_diffuse_pairs pairs : preserves log_bounded (diffuse_pairs pairs).
Proof.
  induction pairs as [|[a b] pairs IH]; simpl; log_auto.
Qed.
#[local] Hint Resolve log_diffuse_pairs : log_pres.

Lemma log_maybe_diffuse : preserves log_bounded maybe_diffuse.
Proof. unfold maybe_diffuse. log_auto. Qed.
#[local] Hint Resolve log_maybe_diffuse : log_pres.

Lemma log_maybe_split_territory ms_id :
  preserves log_bounded (maybe_split_territory ms_id).
Proof. unfold maybe_split_territory. log_auto. Qed.
#[local] Hint Resolve log_maybe_split_territory : log_pres.

Lemma log_record_member_distance ms_id sim :
  preserves log_bounded (record_member_distance ms_id sim).
Proof. unfold record_member_distance. log_auto. Qed.
#[local] Hint Resolve log_record_member_distance : log_pres.

Lemma log_update_pair_metrics states :
  preserves log_bounded (update_pair_metrics states).
Proof. unfold update_pair_metrics. log_auto. Qed.
#[local] Hint Resolve log_update_pair_metrics : log_pres.

Lemma log_register_memory a b c d :
  preserves log_bounded (_register_memory a b c d).
Proof. unfold _register_memory. log_auto. Qed.
#[local] Hint Resolve log_register_memory : log_pres.

Lemma log_apply_reinforcement a b c d :
  preserves log_bounded (_apply_reinforcement a b c d).
Proof. unfold _apply_reinforcement. log_auto. Qed.
#[local] Hint Resolve log_apply_reinforcement : log_pres.

Lemma log_remove_memory a : preserves log_bounded (_remove_memory a).
Proof. unfold _remove_memory. log_auto. Qed.
#[local] Hint Resolve log_remove_memory : log_pres.

Lemma log_decay_pass : preserves log_bounded _decay_pass.
Proof. unfold _decay_pass. log_auto. Qed.
#[local] Hint Resolve log_decay_pass : log_pres.

Lemma log_rng_do_shuffle l : preserves log_bounded (rng_do_shuffle l).
Proof. unfold rng_do_shuffle. simpl. log_frame. Qed.
#[local] Hint Resolve log_rng_do_shuffle : log_pres.

Lemma log_prune_if_needed : preserves log_bounded _prune_if_needed.
Proof. unfold _prune_if_needed. log_auto. Qed.
#[local] Hint Resolve log_prune_if_needed : log_pres.

Lemma log_after_operation : preserves log_bounded _after_operation.
Proof. unfold _after_operation. log_auto. Qed.
#[local] Hint Resolve log_after_operation : log_pres.

Lemma log_flush : preserves log_bounded _flush_condensation_locked.
Proof. unfold _flush_condensation_locked. log_auto. Qed.
#[local] Hint Resolve log_flush : log_pres.

Lemma log_register_rows rows added :
  preserves log_bounded (register_rows rows added).
Proof.
  revert added.
  induction rows as [|[[[i t] e] md] rows IH]; intros added; simpl; log_auto.
Qed.
#[local] Hint Resolve log_register_rows : log_pres.

Lemma log_register_chunks_locked a b c d :
  preserves log_bounded (register_chunks_locked a b c d).
Proof. unfold register_chunks_locked. log_auto. Qed.
#[local] Hint Resolve log_register_chunks_locked : log_pres.

Lemma log_run_condense_callback depth pending :
  preserves log_bounded (_run_condense_callback depth pending).
Proof.
  revert pending.
  induction depth as [|depth IH]; intros pending; simpl; log_auto.
Qed.
#[local] Hint Resolve log_run_condense_callback : log_pres.

Lemma log_register_chunks a b c d :
  preserves log_bounded (register_chunks a b c d).
Proof. unfold register_chunks. log_auto. Qed.
#[local] Hint Resolve log_register_chunks : log_pres.

Lemma log_frontier_step a : preserves log_bounded (frontier_step a).
Proof. unfold frontier_step. log_auto. Qed.
#[local] Hint Resolve log_frontier_step : log_pres.

Lemma log_condensation_step a : preserves log_bounded (condensation_step a).
Proof. unfold condensation_step. log_auto. Qed.
#[local] Hint Resolve log_condensation_step : log_pres.

Lemma log_reinforce_row a b c d : preserves log_bounded (reinforce_row a b c d).
Proof.
  unfold reinforce_row. log_auto.
Qed.
#[local] Hint Resolve log_reinforce_row : log_pres.

Lemma log_reinforce a b c : preserves log_bounded (reinforce a b c).
Proof. unfold reinforce. log_auto. Qed.
#[local] Hint Resolve log_reinforce : log_pres.

Lemma log_degrade_loop f ids count :
  preserves log_bounded (degrade_loop f ids count).
Proof.
  revert count. induction ids as [|i ids IH]; intros count; simpl; log_auto.
Qed.
#[local] Hint Resolve log_degrade_loop : log_pres.

Lemma log_degrade ids f : preserves log_bounded (degrade ids f).
Proof. unfold degrade. log_auto. Qed.
#[local] Hint Resolve log_degrade : log_pres.

Lemma log_register_engram a b c : preserves log_bounded (register_engram a b c).
Proof. unfold register_engram. log_auto. Qed.
#[local] Hint Resolve log_register_engram : log_pres.

Lemma log_run_call c : preserves log_bounded (run_call c).
Proof.
  destruct c; simpl;
    unfold top, composite_score_for, exploratory_weight, stats,
      consume_events, peek_events, set_condense_callback, to_dict;
    log_auto.
Qed.


End Log.

Section NoUndo.
Context {rt : Runtime}.

Lemma grows_from_refl (m : VoidMemoryManager) : grows_from m m.
Proof. unfold grows_from. repeat split; lia. Qed.

Lemma grows_from_drive (calls : list call) :
  forall m0 m, grows_from m0 m -> grows_from m0 (snd (drive calls m)).
Proof.
  induction calls as [|c calls IH]; intros m0 m Hm; simpl; [exact Hm|].
  pose proof (grow_run_call m0 c m Hm) as Hc.
  destruct (run_call c m) as [r m1]. cbn [snd] in Hc.
  specialize (IH m0 m1 Hc).
  destruct (drive calls m1) as [rs m2]. exact IH.
Qed.

(** No public call, however it ends, and no sequence of them changes the
    configuration or the seeding of the generator, and none lowers the
    tick, the next territory id, the split counter or the merge
    counter. *)
Theorem calls_never_rewind (calls : list call) (m : VoidMemoryManager) :
  let m' := snd (drive calls m) in
  _config m' = _config m
  /\ rng_src (_rng m') = rng_src (_rng m)
  /\ _tick m <= _tick m'
  /\ _next_territory_id m <= _next_territory_id m'
  /\ _split_counter m <= _split_counter m'
  /\ _merge_counter m <= _merge_counter m'.
Proof.
  exact (grows_from_drive calls m m (grows_from_refl m)).
Qed.

(** The event log never holds more than 1024 events: every public call
    keeps it within that bound, so it is within it in every manager that
    was constructed and then driven through public calls. *)
Theorem event_log_bounded :
  (forall c m,
      (List.length (_events m) <= 1024)%nat ->
      (List.length (_events (snd (run_call c m))) <= 1024)%nat)
  /\ (forall m, reachable m -> (List.length (_events m) <= 1024)%nat).
Proof.
  assert (Hcall : forall c m, log_bounded m -> log_bounded (snd (run_call c m)))
    by (intros c m; apply log_run_call).
  split; [exact Hcall|].
  induction 1 as [entropy config m Hinit | c m Hreach IH].
  - destruct (init_initial_state _ _ _ Hinit) as (cfg & r & ->).
    cbn. lia.
  - apply Hcall. exact IH.
Qed.

End NoUndo.

(* ------------------------------------------------------------------ *)
(** * Novelty and distance *)

(** The number of distinct characters of a text. *)
Definition distinct_chars (text : string) : nat :=
  List.length (nodup ascii_dec (list_ascii_of_string text)).

Lemma no_chars_empty (text : string) :
  list_ascii_of_string text = [] -> text = "".
Proof. destruct text; [reflexivity | discriminate]. Qed.

Lemma same_chars_same_count (l1 l2 : list ascii) :
  (forall c, In c l1 <-> In c l2) ->
  List.length (nodup ascii_dec l1) = List.length (nodup ascii_dec l2).
Proof.
  intros Hsame. apply Permutation_length. apply NoDup_Permutation.
  - apply NoDup_nodup.
  - apply NoDup_nodup.
  - intros c. rewrite !nodup_In. apply Hsame.
Qed.

(** [estimate_novelty] is 0 on the empty text and otherwise the number of
    distinct characters over 64, capped at 1; so it lies in [[0, 1]] and
    two texts made of the same characters, however often and in whatever
    order, are equally novel. *)
Theorem estimate_novelty_counts_characters (text : string) :
  (0 <= estimate_novelty text)%Q /\ (estimate_novelty text <= 1)%Q
  /\ estimate_novelty "" = 0%Q
  /\ (text <> "" ->
      (0 < estimate_novelty text)%Q
      /\ ((distinct_chars text <= 64)%nat ->
          estimate_novelty text
          = (inject_Z (Z.of_nat (distinct_chars text)) / 64)%Q)
      /\ ((64 < distinct_chars text)%nat -> estimate_novelty text = 1%Q))
  /\ (forall other,
        (forall c, In c (list_ascii_of_string text)
                   <-> In c (list_ascii_of_string other)) ->
        estimate_novelty other = estimate_novelty text).
Proof.
  assert (Hrange : (0 <= estimate_novelty text)%Q
                   /\ (estimate_novelty text <= 1)%Q).
  { unfold estimate_novelty. destruct (text =? "")%string; [lra|].
    apply clamp01_range. }
  split; [exact (proj1 Hrange)|]. split; [exact (proj2 Hrange)|].
  split; [reflexivity|]. split.
  - intros Hne. unfold estimate_novelty.
    apply String.eqb_neq in Hne. rewrite Hne. cbv zeta.
    fold (distinct_chars text).
    set (q := (inject_Z (Z.of_nat (distinct_chars text)) / 64)%Q).
    assert (Hpos : (0 < distinct_chars text)%nat).
    { unfold distinct_chars. destruct text as [|c t].
      - rewrite String.eqb_refl in Hne. discriminate.
      - assert (Hin : In c (nodup ascii_dec (list_ascii_of_string (String c t))))
          by (apply nodup_In; left; reflexivity).
        destruct (nodup ascii_dec (list_ascii_of_string (String c t)));
          [contradiction | simpl; lia]. }
    assert (Hq : (0 < q)%Q).
    { unfold q. apply Qlt_shift_div_l; [lra|].
      rewrite Qmult_0_l. change 0%Q with (inject_Z 0).
      rewrite <- Zlt_Qlt. lia. }
    split; [|split].
    + unfold clamp01.
      destruct (Qltb q 0) eqn:E0; [apply Qltb_true in E0; lra|].
      destruct (Qltb 1 q); [lra | exact Hq].
    + intros Hle. apply clamp01_fixed; [lra|].
      unfold q. apply Qle_shift_div_r; [lra|].
      change (1 * 64)%Q with (inject_Z 64). rewrite <- Zle_Qle. lia.
    + intros Hgt. unfold clamp01.
      destruct (Qltb q 0) eqn:E0; [apply Qltb_true in E0; lra|].
      assert (H1 : Qltb 1 q = true).
      { apply Qltb_true. unfold q. apply Qlt_shift_div_l; [lra|].
        change (1 * 64)%Q with (inject_Z 64). rewrite <- Zlt_Qlt. lia. }
      rewrite H1. reflexivity.
  - intros other Hsame. unfold estimate_novelty.
    rewrite (same_chars_same_count _ _ Hsame).
    destruct (text =? "")%string eqn:E.
    + apply String.eqb_eq in E. subst text.
      assert (Ho : other = "").
      { apply no_chars_empty.
        destruct (list_ascii_of_string other) as [|c l]; [reflexivity|].
        exfalso. apply (proj2 (Hsame c)). left. reflexivity. }
      rewrite Ho. reflexivity.
    + assert (Ho : (other =? "")%string = false).
      { apply String.eqb_neq. intros ->.
        apply String.eqb_neq in E. apply E. apply no_chars_empty.
        destruct (list_ascii_of_string text) as [|c l]; [reflexivity|].
        exfalso. apply (proj1 (Hsame c)). left. reflexivity. }
      rewrite Ho. reflexivity.
Qed.

Section Distance.
Context {rt : Runtime}.

(** [cosine_distance] raises a ValueError when one of the vectors is empty
    or their lengths differ; otherwise it returns a distance within
    [[0, 2]], whatever the cosine, and 1 when one of the norms is zero. *)
Theorem cosine_distance_outcomes (a b : list Q) :
  (a = [] \/ b = [] \/ List.length a <> List.length b ->
   cosine_distance a b
   = Raise (ValueError
       "cosine distance requires non-empty vectors of the same length"))
  /\ (a <> [] -> b <> [] -> List.length a = List.length b ->
      exists d,
        cosine_distance a b = Ok d /\ (0 <= d)%Q /\ (d <= 2)%Q
        /\ (Qeq_bool (py_sqrt (fsum (map (fun x => x * x)%Q a))) 0 = true
            \/ Qeq_bool (py_sqrt (fsum (map (fun y => y * y)%Q b))) 0 = true
            -> d = 1%Q)).
Proof.
  unfold cosine_distance. split.
  - intros [->|[->|Hne]].
    + reflexivity.
    + destruct a; reflexivity.
    + apply Nat.eqb_neq in Hne. rewrite Hne.
      destruct a, b; reflexivity.
  - intros Ha Hb Hlen.
    apply Nat.eqb_eq in Hlen. rewrite Hlen.
    destruct a as [|x a]; [contradiction|].
    destruct b as [|y b]; [contradiction|].
    cbn [orb negb]. cbv zeta.
    destruct (Qeq_bool (py_sqrt (fsum (map (fun x0 => x0 * x0)%Q (x :: a)))) 0
              || Qeq_bool (py_sqrt (fsum (map (fun y0 => y0 * y0)%Q (y :: b)))) 0)
      eqn:Ez.
    + exists 1%Q. split; [reflexivity|]. split; [lra|]. split; [lra|].
      intros _. reflexivity.
    + eexists. split; [reflexivity|].
      match goal with
      | |- context [fmin 1 ?c] => set (cosine := c)
      end.
      assert (Hc : (-1 <= fmax (-1) (fmin 1 cosine))%Q
                   /\ (fmax (-1) (fmin 1 cosine) <= 1)%Q).
      { unfold fmax, fmin.
        destruct (Qltb cosine 1) eqn:E1.
        - apply Qltb_true in E1.
          destruct (Qltb (-1) cosine) eqn:E2.
          + apply Qltb_true in E2. lra.
          + lra.
        - destruct (Qltb (-1) 1) eqn:E2; lra. }
      split; [lra|]. split; [lra|].
      intros Hz. apply orb_false_elim in Ez. destruct Ez as [E1 E2].
      destruct Hz as [Hz|Hz]; congruence.
Qed.

End Distance.

(* ------------------------------------------------------------------ *)
(** * Territories of texts without embedding *)

(** The manager maps every digest that [d0] maps, to the same
    territory. *)
Definition keeps_ids (d0 : dict string Z) (m : VoidMemoryManager) : Prop :=
  forall h tid,
    dict_get h d0 = Some tid -> dict_get h (_deterministic_ids m) = Some tid.

Create HintDb ids_pres.

Ltac ids_frame :=
  let m := fresh "m" in
  let H := fresh "H" in
  intros m H;
  repeat match goal with
         | |- context [match ?x with _ => _ end] => destruct x
         end;
  try exact H;
  unfold keeps_ids in *;
  cbn [_config _rng _mem _tick _events _nn_distances _territory_centroids
       _territory_counts _territory_member_dists _territory_tau
       _next_territory_id _deterministic_ids _reward_ema _pair_churn
       _pair_last _exploration_temp _pending_condense _condense_callback
       engrams frontier _split_counter _merge_counter
       upd_rng upd_mem upd_tick upd_events upd_nn_distances
       upd_territory_centroids upd_territory_counts
       upd_territory_member_dists upd_territory_tau upd_next_territory_id
       upd_deterministic_ids upd_reward_ema upd_pair_churn upd_pair_last
       upd_exploration_temp upd_pending_condense upd_condense_callback
       upd_engrams upd_frontier upd_split_counter upd_merge_counter];
  exact H.

(** The update of [create_territory], which writes a digest that is not
    mapped yet. *)
Ltac ids_writer :=
  let m := fresh "m" in
  let H := fresh "H" in
  let h := fresh "h" in
  let tid := fresh "tid" in
  let Hh := fresh "Hh" in
  let Em := fresh "Em" in
  let Ek := fresh "Ek" in
  intros m H; unfold keeps_ids in *;
  cbn [_config _rng _mem _tick _events _nn_distances _territory_centroids
       _territory_counts _territory_member_dists _territory_tau
       _next_territory_id _deterministic_ids _reward_ema _pair_churn
       _pair_last _exploration_temp _pending_condense _condense_callback
       engrams frontier _split_counter _merge_counter
       upd_rng upd_mem upd_tick upd_events upd_nn_distances
       upd_territory_centroids upd_territory_counts
       upd_territory_member_dists upd_territory_tau upd_next_territory_id
       upd_deterministic_ids upd_reward_ema upd_pair_churn upd_pair_last
       upd_exploration_temp upd_pending_condense upd_condense_callback
       upd_engrams upd_frontier upd_split_counter upd_merge_counter];
  cbv zeta;
  match goal with
  | |- context [dict_mem ?k ?d] => destruct (dict_mem k d) eqn:Em
  end;
  [ exact H | ];
  intros h tid Hh; rewrite dict_get_set;
  match goal with
  | |- context [keqb h ?k] => destruct (keqb h k) eqn:Ek
  end;
  [ apply keqb_eq in Ek; subst h; unfold dict_mem in Em;
    rewrite (H _ _ Hh) in Em; discriminate Em
  | apply H; exact Hh ].

Ltac ids_step :=
  first
    [ solve [auto with ids_pres]
    | apply preserves_record_event; intros ? ?; ids_frame
    | apply preserves_modify; ids_frame
    | pres_step ].

Ltac ids_auto := repeat ids_step.

Section WriteOnce.
Context {rt : Runtime}.
Variable d0 : dict string Z.

Lemma ids_record_nn_distance d :
  preserves (keeps_ids d0) (record_nn_distance d).
Proof. unfold record_nn_distance. ids_auto. Qed.
#[local] Hint Resolve ids_record_nn_distance : ids_pres.

Lemma ids_create_territory e t : preserves (keeps_ids d0) (create_territory e t).
Proof.
  unfold create_territory.
  repeat first
    [ apply preserves_record_event; intros ? ?; ids_frame
    | apply preserves_modify; first [ ids_frame | ids_writer ]
    | pres_step ].
Qed.
#[local] Hint Resolve ids_create_territory : ids_pres.

Lemma ids_deterministic_territory t :
  preserves (keeps_ids d0) (deterministic_territory t).
Proof.
  intros m H.
  unfold deterministic_territory, bind, gets, modify, ret, _record_event.
  cbv beta iota zeta.
  destruct (dict_get (hash_text t) (_deterministic_ids m)) eqn:E;
    cbn [snd]; [exact H|].
  unfold keeps_ids in *.
  cbn [_config _rng _mem _tick _events _nn_distances _territory_centroids
       _territory_counts _territory_member_dists _territory_tau
       _next_territory_id _deterministic_ids _reward_ema _pair_churn
       _pair_last _exploration_temp _pending_condense _condense_callback
       engrams frontier _split_counter _merge_counter
       upd_rng upd_mem upd_tick upd_events upd_nn_distances
       upd_territory_centroids upd_territory_counts
       upd_territory_member_dists upd_territory_tau upd_next_territory_id
       upd_deterministic_ids upd_reward_ema upd_pair_churn upd_pair_last
       upd_exploration_temp upd_pending_condense upd_condense_callback
       upd_engrams upd_frontier upd_split_counter upd_merge_counter].
  intros h tid Hh. rewrite dict_get_set.
  destruct (keqb h (hash_text t)) eqn:Ek; [|apply H; exact Hh].
  apply keqb_eq in Ek. subst h. rewrite (H _ _ Hh) in E. discriminate E.
Qed.
#[local] Hint Resolve ids_deterministic_territory : ids_pres.

Lemma ids_update_centroid tid e : preserves (keeps_ids d0) (update_centroid tid e).
Proof. unfold update_centroid. ids_auto. Qed.
#[local] Hint Resolve ids_update_centroid : ids_pres.

Lemma ids_assign_territory t e : preserves (keeps_ids d0) (assign_territory t e).
Proof. unfold assign_territory. ids_auto. Qed.
#[local] Hint Resolve ids_assign_territory : ids_pres.

Lemma ids_merge_territories a b : preserves (keeps_ids d0) (merge_territories a b).
Proof. unfold merge_territories. ids_auto. Qed.
#[local] Hint Resolve ids_merge_territories : ids_pres.

Lemma ids_rng_draw_random : preserves (keeps_ids d0) rng_draw_random.
Proof. unfold rng_draw_random. simpl. ids_frame. Qed.
#[local] Hint Resolve ids_rng_draw_random : ids_pres.

Lemma ids_diffuse_pairs pairs : preserves (keeps_ids d0) (diffuse_pairs pairs).
Proof.
  induction pairs as [|[a b] pairs IH]; simpl; ids_auto.
Qed.
#[local] Hint Resolve ids_diffuse_pairs : ids_pres.

Lemma ids_maybe_diffuse : preserves (keeps_ids d0) maybe_diffuse.
Proof. unfold maybe_diffuse. ids_auto. Qed.
#[local] Hint Resolve ids_maybe_diffuse : ids_pres.

Lemma ids_maybe_split_territory ms_id :
  preserves (keeps_ids d0) (maybe_split_territory ms_id).
Proof. unfold maybe_split_territory. ids_auto. Qed.
#[local] Hint Resolve ids_maybe_split_territory : ids_pres.

Lemma ids_record_member_distance ms_id sim :
  preserves (keeps_ids d0) (record_member_distance ms_id sim).
Proof. unfold record_member_distance. ids_auto. Qed.
#[local] Hint Resolve ids_record_member_distance : ids_pres.

Lemma ids_update_pair_metrics states :
  preserves (keeps_ids d0) (update_pair_metrics states).
Proof. unfold update_pair_metrics. ids_auto. Qed.
#[local] Hint Resolve ids_update_pair_metrics : ids_pres.

Lemma ids_register_memory a b c d :
  preserves (keeps_ids d0) (_register_memory a b c d).
Proof. unfold _register_memory. ids_auto. Qed.
#[local] Hint Resolve ids_register_memory : ids_pres.

Lemma ids_apply_reinforcement a b c d :
  preserves (keeps_ids d0) (_apply_reinforcement a b c d).
Proof. unfold _apply_reinforcement. ids_auto. Qed.
#[local] Hint Resolve ids_apply_reinforcement : ids_pres.

Lemma ids_remove_memory a : preserves (keeps_ids d0) (_remove_memory a).
Proof. unfold _remove_memory. ids_auto. Qed.
#[local] Hint Resolve ids_remove_memory : ids_pres.

Lemma ids_decay_pass : preserves (keeps_ids d0) _decay_pass.
Proof. unfold _decay_pass. ids_auto. Qed.
#[local] Hint Resolve ids_decay_pass : ids_pres.

Lemma ids_rng_do_shuffle l : preserves (keeps_ids d0) (rng_do_shuffle l).
Proof. unfold rng_do_shuffle. simpl. ids_frame. Qed.
#[local] Hint Resolve ids_rng_do_shuffle : ids_pres.

Lemma ids_prune_if_needed : preserves (keeps_ids d0) _prune_if_needed.
Proof. unfold _prune_if_needed. ids_auto. Qed.
#[local] Hint Resolve ids_prune_if_needed : ids_pres.

Lemma ids_after_operation : preserves (keeps_ids d0) _after_operation.
Proof. unfold _after_operation. ids_auto. Qed.
#[local] Hint Resolve ids_after_operation : ids_pres.

Lemma ids_flush : preserves (keeps_ids d0) _flush_condensation_locked.
Proof. unfold _flush_condensation_locked. ids_auto. Qed.
#[local] Hint Resolve ids_flush : ids_pres.

Lemma ids_register_rows rows added :
  preserves (keeps_ids d0) (register_rows rows added).
Proof.
  revert added.
  induction rows as [|[[[i t] e] md] rows IH]; intros added; simpl; ids_auto.
Qed.
#[local] Hint Resolve ids_register_rows : ids_pres.

Lemma ids_register_chunks_locked a b c d :
  preserves (keeps_ids d0) (register_chunks_locked a b c d).
Proof. unfold register_chunks_locked. ids_auto. Qed.
#[local] Hint Resolve ids_register_chunks_locked : ids_pres.

Lemma ids_run_condense_callback depth pending :
  preserves (keeps_ids d0) (_run_condense_callback depth pending).
Proof.
  revert pending.
  induction depth as [|depth IH]; intros pending; simpl; ids_auto.
Qed.
#[local] Hint Resolve ids_run_condense_callback : ids_pres.

Lemma ids_register_chunks a b c d :
  preserves (keeps_ids d0) (register_chunks a b c d).
Proof. unfold register_chunks. ids_auto. Qed.
#[local] Hint Resolve ids_register_chunks : ids_pres.

Lemma ids_frontier_step a : preserves (keeps_ids d0) (frontier_step a).
Proof. unfold frontier_step. ids_auto. Qed.
#[local] Hint Resolve ids_frontier_step : ids_pres.

Lemma ids_condensation_step a : preserves (keeps_ids d0) (condensation_step a).
Proof. unfold condensation_step. ids_auto. Qed.
#[local] Hint Resolve ids_condensation_step : ids_pres.

Lemma ids_reinforce_row a b c d : preserves (keeps_ids d0) (reinforce_row a b c d).
Proof.
  unfold reinforce_row. ids_auto.
Qed.
#[local] Hint Resolve ids_reinforce_row : ids_pres.

Lemma ids_reinforce a b c : preserves (keeps_ids d0) (reinforce a b c).
Proof. unfold reinforce. ids_auto. Qed.
#[local] Hint Resolve ids_reinforce : ids_pres.

Lemma ids_degrade_loop f ids count :
  preserves (keeps_ids d0) (degrade_loop f ids count).
Proof.
  revert count. induction ids as [|i ids IH]; intros count; simpl; ids_auto.
Qed.
#[local] Hint Resolve ids_degrade_loop : ids_pres.

Lemma ids_degrade ids f : preserves (keeps_ids d0) (degrade ids f).
Proof. unfold degrade. ids_auto. Qed.
#[local] Hint Resolve ids_degrade : ids_pres.

Lemma ids_register_engram a b c : preserves (keeps_ids d0) (register_engram a b c).
Proof. unfold register_engram. ids_auto. Qed.
#[local] Hint Resolve ids_register_engram : ids_pres.

Lemma ids_run_call c : preserves (keeps_ids d0) (run_call c).
Proof.
  destruct c; simpl;
    unfold top, composite_score_for, exploratory_weight, stats,
      consume_events, peek_events, set_condense_callback, to_dict;
    ids_auto.
Qed.


End WriteOnce.

Section DeterministicTerritories.
Context {rt : Runtime}.

(** The territory of a text is written once: a digest that
    [_deterministic_ids] maps to a territory is mapped to that territory
    after every public call, however the call ends. *)
Theorem deterministic_ids_write_once (c : call) (m : VoidMemoryManager)
  (digest : string) (tid : Z) :
  dict_get digest (_deterministic_ids m) = Some tid ->
  dict_get digest (_deterministic_ids (snd (run_call c m))) = Some tid.
Proof.
  intros Hget.
  apply (ids_run_call (_deterministic_ids m) c m); [|exact Hget].
  intros h t Ht. exact Ht.
Qed.

(** [deterministic_territory] returns the territory its text's digest is
    mapped to, leaving the manager as it is; for a digest that is not
    mapped it allocates the next territory id, with a count of zero, an
    empty window of distances and no centroid, and maps the digest to it.
    Either way a second call on the same text returns the same territory
    and changes nothing. *)
Theorem deterministic_territory_stable (text : string)
  (m : VoidMemoryManager) :
  let m' := snd (deterministic_territory text m) in
  exists tid,
    fst (deterministic_territory text m) = Ok tid
    /\ deterministic_territory text m' = (Ok tid, m')
    /\ (forall known,
          dict_get (hash_text text) (_deterministic_ids m) = Some known ->
          tid = known /\ m' = m)
    /\ (dict_get (hash_text text) (_deterministic_ids m) = None ->
        tid = _next_territory_id m
        /\ _next_territory_id m' = _next_territory_id m + 1
        /\ dict_get tid (_territory_counts m') = Some 0
        /\ dict_get tid (_territory_member_dists m') = Some []
        /\ _territory_centroids m' = _territory_centroids m
        /\ _mem m' = _mem m
        /\ _tick m' = _tick m).
Proof.
  unfold deterministic_territory, bind, gets, modify, ret, _record_event.
  cbv beta iota zeta.
  destruct (dict_get (hash_text text) (_deterministic_ids m)) as [known|]
    eqn:E; cbn [fst snd].
  - exists known. split; [reflexivity|]. split.
    + rewrite E. reflexivity.
    + split; [|discriminate].
      intros k [= <-]. split; reflexivity.
  - exists (_next_territory_id m). split; [reflexivity|].
    cbn [_deterministic_ids _next_territory_id _territory_counts
         _territory_member_dists _territory_centroids _mem _tick
         upd_events upd_deterministic_ids upd_territory_member_dists
         upd_territory_counts upd_next_territory_id].
    rewrite !dict_get_set, !keqb_refl.
    split; [reflexivity|]. split; [discriminate|].
    intros _. repeat split; reflexivity.
Qed.

End DeterministicTerritories.

(** The sample manager maps the digest of its first text to the first
    territory, and keeps doing so when that trace is degraded. *)
Lemma deterministic_ids_write_once_witness :
  dict_get (hash_text (rt := sample_runtime) "energy")
    (_deterministic_ids
       (snd (run_call (rt := sample_runtime)
               (Degrade ["mem-alpha"] (JInt 30)) learned_manager)))
  = Some 10000.
Proof.
  apply (deterministic_ids_write_once (rt := sample_runtime)).
  reflexivity.
Defined.

(* ------------------------------------------------------------------ *)
(** * Merging territories *)

Section DictLookups.
Context {K V : Type} `{Key K}.

Lemma dict_get_map_values (g : K * V -> V) (k : K) (d : dict K V) :
  dict_get k (map (fun p => (fst p, g p)) d)
  = match dict_get k d with
    | Some v => Some (g (k, v))
    | None => None
    end.
Proof.
  induction d as [|[k0 v0] d IH]; simpl; [reflexivity|].
  destruct (keqb k k0) eqn:E; [|exact IH].
  apply keqb_eq in E. subst k0. reflexivity.
Qed.

Lemma dict_get_pop_other (k k' : K) (d : dict K V) :
  k <> k' -> dict_get k (dict_pop k' d) = dict_get k d.
Proof.
  intros Hne. induction d as [|[k0 v0] d IH]; simpl; [reflexivity|].
  destruct (keqb k' k0) eqn:E0.
  - apply keqb_eq in E0. subst k0. rewrite keqb_neq by exact Hne.
    reflexivity.
  - simpl. destruct (keqb k k0); [reflexivity | exact IH].
Qed.

Lemma dict_get_pop_same (k : K) (d : dict K V) :
  NoDup (dict_keys d) -> dict_get k (dict_pop k d) = None.
Proof.
  unfold dict_keys.
  induction d as [|[k0 v0] d IH]; simpl; [reflexivity|].
  intros Hnd. inversion Hnd as [|? ? Hnot Hnd']; subst.
  destruct (keqb k k0) eqn:E0.
  - apply keqb_eq in E0. subst k0.
    apply dict_get_None_keys. exact Hnot.
  - simpl. rewrite E0. apply IH. exact Hnd'.
Qed.

End DictLookups.

(** At most one more merge, and the same traces. *)
Definition merges_once (m m' : VoidMemoryManager) : Prop :=
  _merge_counter m <= _merge_counter m'
  /\ _merge_counter m' <= _merge_counter m + 1
  /\ dict_keys (_mem m') = dict_keys (_mem m).

(** What [merge_territories] does to a trace. *)
Definition move_trace (from_tid to_tid : Z) (st : MemoryState)
  : MemoryState :=
  if in_territory from_tid st then set_territory_id (Some to_tid) st else st.

Section Merge.
Context {rt : Runtime}.

(** [merge_territories] does nothing when the two ids are the same, when
    one of the territories has no centroid, or when their counts add up
    to more than 1000.  Otherwise it moves every trace of [from_tid] to
    [to_tid] and no other trace, gives [to_tid] the sum of the two counts,
    forgets the centroid and the count of [from_tid], and counts one more
    merge; no trace is added or removed and the tick stays. *)
Theorem merge_territories_outcome (from_tid to_tid : Z)
  (m : VoidMemoryManager) :
  (from_tid = to_tid
   \/ dict_get from_tid (_territory_centroids m) = None
   \/ dict_get to_tid (_territory_centroids m) = None
   \/ 1000 < count_of m from_tid + count_of m to_tid ->
   merge_territories from_tid to_tid m = (Ok tt, m))
  /\ (from_tid <> to_tid ->
      dict_get from_tid (_territory_centroids m) <> None ->
      dict_get to_tid (_territory_centroids m) <> None ->
      count_of m from_tid + count_of m to_tid <= 1000 ->
      exists m',
        merge_territories from_tid to_tid m = (Ok tt, m')
        /\ (forall k,
              dict_get k (_mem m')
              = option_map (move_trace from_tid to_tid)
                  (dict_get k (_mem m)))
        /\ dict_keys (_mem m') = dict_keys (_mem m)
        /\ count_of m' to_tid = count_of m from_tid + count_of m to_tid
        /\ (NoDup (dict_keys (_territory_counts m)) ->
            count_of m' from_tid = 0)
        /\ (NoDup (dict_keys (_territory_centroids m)) ->
            dict_get from_tid (_territory_centroids m') = None)
        /\ dict_get to_tid (_territory_centroids m') <> None
        /\ _merge_counter m' = _merge_counter m + 1
        /\ _tick m' = _tick m
        /\ _next_territory_id m' = _next_territory_id m).
Proof.
  unfold merge_territories. split.
  - intros [Heq|[Hn|[Hn|Hbig]]].
    + apply Z.eqb_eq in Heq. rewrite Heq. reflexivity.
    + destruct (from_tid =? to_tid); [reflexivity|].
      unfold bind, gets. rewrite Hn. reflexivity.
    + destruct (from_tid =? to_tid); [reflexivity|].
      unfold bind, gets. rewrite Hn.
      destruct (dict_get from_tid (_territory_centroids m)); reflexivity.
    + destruct (from_tid =? to_tid); [reflexivity|].
      unfold bind, gets.
      destruct (dict_get from_tid (_territory_centroids m));
        [|reflexivity].
      destruct (dict_get to_tid (_territory_centroids m)); [|reflexivity].
      assert (Hgt : (count_of m from_tid + count_of m to_tid >? 1000) = true)
        by (apply Z.gtb_lt; exact Hbig).
      rewrite Hgt. reflexivity.
  - intros Hne Ha Hb Hsmall.
    apply Z.eqb_neq in Hne. rewrite Hne.
    apply Z.eqb_neq in Hne.
    unfold bind at 1, gets at 1. unfold bind at 1, gets at 1.
    destruct (dict_get from_tid (_territory_centroids m)) as [ca|];
      [|contradiction].
    destruct (dict_get to_tid (_territory_centroids m)) as [cb|];
      [|contradiction].
    unfold bind at 1, gets at 1. unfold bind at 1, gets at 1.
    assert (Hle : (count_of m from_tid + count_of m to_tid >? 1000) = false).
    { rewrite Z.gtb_ltb. apply Z.ltb_ge. exact Hsmall. }
    rewrite Hle.
    unfold bind, modify, _record_event.
    eexists. split; [reflexivity|].
    cbn [_mem _territory_counts _territory_centroids _merge_counter _tick
         _next_territory_id upd_events upd_merge_counter
         upd_territory_centroids upd_territory_counts upd_mem
         upd_territory_member_dists].
    split; [|split; [|split; [|split; [|split; [|repeat split]]]]].
    + intros k.
      rewrite (dict_get_map_values
                 (fun p => match territory_id (snd p) with
                           | Some t =>
                               if t =? from_tid
                               then set_territory_id (Some to_tid) (snd p)
                               else snd p
                           | None => snd p
                           end)).
      destruct (dict_get k (_mem m)) as [st|]; [|reflexivity].
      cbn [option_map snd]. unfold move_trace, in_territory.
      destruct (territory_id st); reflexivity.
    + unfold dict_keys. rewrite map_map. reflexivity.
    + unfold count_of at 1.
      cbn [_territory_counts upd_events upd_merge_counter
           upd_territory_centroids upd_territory_counts upd_mem
           upd_territory_member_dists].
      rewrite dict_get_pop_other by (intros Heq; apply Hne; symmetry; exact Heq).
      rewrite dict_get_set, keqb_refl. reflexivity.
    + intros Hnd. unfold count_of at 1.
      cbn [_territory_counts upd_events upd_merge_counter
           upd_territory_centroids upd_territory_counts upd_mem
           upd_territory_member_dists].
      rewrite dict_get_pop_same; [reflexivity|].
      apply keys_set_nodup. exact Hnd.
    + intros Hnd. apply dict_get_pop_same.
      apply keys_set_nodup. exact Hnd.
    + rewrite dict_get_pop_other by (intros Heq; apply Hne; symmetry; exact Heq).
      rewrite dict_get_set, keqb_refl. discriminate.
Qed.

Lemma merges_once_refl (m : VoidMemoryManager) : merges_once m m.
Proof. unfold merges_once. split; [lia | split; [lia | reflexivity]]. Qed.

Lemma merge_counts_once (a b : Z) (m : VoidMemoryManager) :
  merges_once m (snd (merge_territories a b m)).
Proof.
  unfold merge_territories.
  destruct (a =? b); [apply merges_once_refl|].
  unfold bind at 1, gets at 1. unfold bind at 1, gets at 1.
  destruct (dict_get a (_territory_centroids m)); [|apply merges_once_refl].
  destruct (dict_get b (_territory_centroids m)); [|apply merges_once_refl].
  unfold bind at 1, gets at 1. unfold bind at 1, gets at 1.
  destruct (count_of m a + count_of m b >? 1000); [apply merges_once_refl|].
  unfold bind, modify, _record_event, merges_once.
  cbn [snd _mem _merge_counter upd_events upd_merge_counter
       upd_territory_centroids upd_territory_counts upd_mem
       upd_territory_member_dists].
  split; [lia|]. split; [lia|].
  unfold dict_keys. rewrite map_map. reflexivity.
Qed.

Lemma diffuse_pairs_once (pairs : list (Z * Z)) :
  forall m, merges_once m (snd (diffuse_pairs pairs m)).
Proof.
  induction pairs as [|[a b] pairs IH]; intros m.
  - apply merges_once_refl.
  - cbn [diffuse_pairs].
    destruct (a =? b); [apply IH|].
    unfold bind at 1, gets at 1. unfold bind at 1, gets at 1.
    destruct (dict_get a (_territory_centroids m)) as [ca|]; [|apply IH].
    destruct (dict_get b (_territory_centroids m)) as [cb|]; [|apply IH].
    unfold bind at 1, lift at 1.
    destruct (cosine_distance ca cb) as [distance|e];
      [|apply merges_once_refl].
    unfold bind at 1, gets at 1. unfold bind at 1, gets at 1.
    destruct (Qle_bool distance (0.5 * _territory_tau m)
              && Qle_bool
                   (fmax (territory_radius m a) (territory_radius m b))
                   (1.25 * fmin (_territory_tau m) 0.6)); [|apply IH].
    unfold bind at 1, gets at 1.
    destruct (count_of m a + count_of m b >=? 500); [apply IH|].
    unfold bind at 1, gets at 1.
    unfold bind at 1, rng_draw_random at 1.
    match goal with
    | |- context [upd_rng ?f m] => set (m1 := upd_rng f m)
    end.
    assert (Hshift : forall x, merges_once m1 x -> merges_once m x)
      by (intros x Hx; exact Hx).
    apply Hshift.
    destruct (Qltb (diffusion_kappa (_config m)) (rng_random (_rng m)));
      [apply IH|].
    unfold bind at 1, gets at 1. unfold bind at 1, gets at 1.
    destruct (count_of m1 a <=? count_of m1 b); apply merge_counts_once.
Qed.

(** A maintenance pass merges at most one pair of territories, and it
    neither adds nor removes a trace; off the diffusion interval, or with
    fewer than two centroids, [maybe_diffuse] does nothing at all. *)
Theorem maybe_diffuse_merges_once (m : VoidMemoryManager) :
  merges_once m (snd (maybe_diffuse m))
  /\ (diffusion_interval (_config m) <= 0
      \/ _tick m mod diffusion_interval (_config m) <> 0
      \/ (List.length (_territory_centroids m) < 2)%nat ->
      maybe_diffuse m = (Ok tt, m)).
Proof.
  assert (Hrun : maybe_diffuse m
                 = if diffusion_interval (_config m) <=? 0 then (Ok tt, m)
                   else if negb (_tick m mod diffusion_interval (_config m)
                                 =? 0)
                   then (Ok tt, m)
                   else diffuse_pairs
                          (combinations2
                             (dict_keys (_territory_centroids m))) m).
  { unfold maybe_diffuse, bind, gets.
    destruct (diffusion_interval (_config m) <=? 0); [reflexivity|].
    destruct (negb (_tick m mod diffusion_interval (_config m) =? 0));
      reflexivity. }
  rewrite Hrun.
  destruct (diffusion_interval (_config m) <=? 0) eqn:Ei.
  - split; [apply merges_once_refl | intros _; reflexivity].
  - destruct (negb (_tick m mod diffusion_interval (_config m) =? 0)) eqn:Et.
    + split; [apply merges_once_refl | intros _; reflexivity].
    + split; [apply diffuse_pairs_once|].
      intros [Hle|[Hmod|Hfew]].
      * apply Z.leb_gt in Ei. lia.
      * apply negb_false_iff in Et. apply Z.eqb_eq in Et. contradiction.
      * destruct (_territory_centroids m) as [|p1 [|p2 rest]];
          [reflexivity | reflexivity | simpl in Hfew; lia].
Qed.

End Merge.

(* ------------------------------------------------------------------ *)
(** * Loaded managers *)

Section Loading.
Context {rt : Runtime}.

Lemma from_dict_clamped (data : json) (st : MemoryState) :
  memory_state.from_dict data = Ok st -> clamped st.
Proof.
  unfold memory_state.from_dict. intros H.
  repeat match type of H with
         | rbind ?x _ = Ok _ =>
             destruct x; [cbn [rbind] in H | discriminate H]
         end.
  injection H as <-. apply clamped_clamp_ranges.
Qed.

Lemma parse_pair_ordered (key : string) (p : Z * Z) :
  parse_pair key = Ok p -> ordered_pair p.
Proof.
  unfold parse_pair. destruct (split_colon key) as [[a b]|]; [|discriminate].
  destruct (py_int (JStr a)) as [x|]; [|discriminate].
  destruct (py_int (JStr b)) as [y|]; [|discriminate].
  cbn [rbind]. intros [= <-]. apply ordered_min_max.
Qed.

Lemma preserves_try_entry_ok {A} P (entry : result A)
  (store : A -> VoidMemoryManager -> VoidMemoryManager) :
  (forall a, entry = Ok a -> forall m, P m -> P (store a m)) ->
  preserves P (try_entry entry store).
Proof.
  intros H. unfold try_entry. destruct entry as [a|e].
  - apply preserves_modify. apply H. reflexivity.
  - destruct (is_type_or_value_error e);
      [apply preserves_ret | apply preserves_raise].
Qed.

Ltac crack H :=
  repeat match type of H with
         | rbind ?x _ = Ok _ =>
             let E := fresh "E" in
             destruct x eqn:E;
             [ cbn [rbind] in H; try apply parse_pair_ordered in E
             | discriminate H ]
         end;
  try (injection H as <-).

Ltac shape_frame :=
  let m := fresh "m" in
  let H := fresh "H" in
  intros m H;
  destruct H as (Hcfg & Hmem & Hengr & Hfront & Hcen & Hcnt & Hdists & Hnn
                 & Hchurn & Hlast);
  unfold well_formed;
  cbn [_config _rng _mem _tick _events _nn_distances _territory_centroids
       _territory_counts _territory_member_dists _territory_tau
       _next_territory_id _deterministic_ids _reward_ema _pair_churn
       _pair_last _exploration_temp _pending_condense _condense_callback
       engrams frontier _split_counter _merge_counter
       upd_rng upd_mem upd_tick upd_events upd_nn_distances
       upd_territory_centroids upd_territory_counts
       upd_territory_member_dists upd_territory_tau upd_next_territory_id
       upd_deterministic_ids upd_reward_ema upd_pair_churn upd_pair_last
       upd_exploration_temp upd_pending_condense upd_condense_callback
       upd_engrams upd_frontier upd_split_counter upd_merge_counter
       fst snd];
  refine (conj _ (conj _ (conj _ (conj _ (conj _ (conj _ (conj _
            (conj _ (conj _ _)))))))));
  solve [wf_fact].

Lemma populate_well_formed (payload : json) :
  preserves well_formed (populate_manager_from_dict payload).
Proof.
  unfold populate_manager_from_dict.
  repeat first
    [ lazymatch goal with
      | |- preserves _ (match memory_state.from_dict ?d with _ => _ end) =>
          let E := fresh "E" in
          destruct (memory_state.from_dict d) eqn:E;
          [ apply from_dict_clamped in E | ]
      | |- preserves _ (try_entry _ _) =>
          apply preserves_try_entry_ok;
          let a := fresh "a" in
          let Ha := fresh "Ha" in
          intros a Ha; crack Ha; shape_frame
      | |- preserves _ (fun _ => _) =>
          let m := fresh "m" in
          let H := fresh "H" in
          intros m H; cbv zeta;
          match goal with
          | |- well_formed (snd (try_entry ?entry ?store ?m0)) =>
              let a := fresh "a" in
              let Ha := fresh "Ha" in
              unfold try_entry; destruct entry as [a|?] eqn:Ha;
              [ crack Ha; revert m H; shape_frame
              | destruct (is_type_or_value_error _); exact H ]
          end
      end
    | wf_step ].
Qed.

Lemma loaded_well_formed (entropy : Z) (payload : json)
  (m : VoidMemoryManager) :
  from_dict entropy payload = Ok m -> well_formed m /\ tau_in_range m.
Proof.
  intros Hload.
  destruct (from_dict_populated _ _ _ Hload) as (config & m0 & Hinit & Hrun).
  split; [|exact (proj1 (populated_tau _ _ _ _ _ Hinit Hrun))].
  destruct (init_config_ok _ _ _ Hinit) as (c & r & -> & Hc).
  pose proof (populate_well_formed payload (initial_state c r)
                (well_formed_initial c r Hc)) as H.
  rewrite Hrun in H. exact H.
Qed.

Lemma drive_well_formed (calls : list call) :
  forall m, well_formed m /\ tau_in_range m ->
            well_formed (snd (drive calls m))
            /\ tau_in_range (snd (drive calls m)).
Proof.
  induction calls as [|c calls IH]; intros m Hm; simpl; [exact Hm|].
  assert (Hc : well_formed (snd (run_call c m))
               /\ tau_in_range (snd (run_call c m))).
  { split.
    - apply wf_run_call. exact (proj1 Hm).
    - apply (tau_run_call tau_in_range tau_in_range_frame tau_in_range_push
               c m (proj2 Hm)). }
  destruct (run_call c m) as [r m1]. cbn [snd] in Hc.
  specialize (IH m1 Hc).
  destruct (drive calls m1) as [rs m2]. exact IH.
Qed.


End Loading.

Section LoadedRoundTrip.
Context {rt : Runtime} {codec : Codec}.
Hypothesis int_of_str_of_Z : forall z, int_of_str (str_of_Z z) = Some z.

(** A manager that was loaded from a snapshot whose traces carry integer
    or null territory ids, and then driven through any sequence of public
    calls, round-trips as a constructed one does: [save_json] to a
    writable path followed by [load_json] gives a manager with the same
    [to_dict].  (The interpreter's [int(str(n))] is taken to give [n]
    back, and the file to read back as the dictionary that was
    written.) *)
Theorem loaded_manager_round_trip (entropy entropy' : Z) (payload : json)
  (calls : list call) (path : string) (fs : FileSystem)
  (m0 : VoidMemoryManager) :
  integer_territories payload = true ->
  from_dict entropy payload = Ok m0 ->
  let m := snd (drive calls m0) in
  json_loads (json_dumps (manager_to_dict m)) = Some (manager_to_dict m) ->
  fs_writable fs path = true ->
  fst (save_json path fs m) = true
  /\ exists m',
       load_json entropy' path (snd (save_json path fs m)) = Ok (Some m')
       /\ fst (to_dict m') = fst (to_dict m).
Proof.
  intros _ Hload m Hcodec Hw.
  destruct (drive_well_formed calls m0 (loaded_well_formed _ _ _ Hload))
    as [Hwf Htau].
  destruct (load_saved int_of_str_of_Z entropy' path fs m Hwf Htau Hcodec Hw)
    as [Hs Hl].
  split; [exact Hs|].
  exists (reloaded entropy' m). split; [exact Hl | reflexivity].
Qed.

(** The key of a pair of territories reads back as the pair, the lower id
    first whatever the order in the key; a key without a colon is
    rejected. *)
Theorem pair_key_round_trip (a b : Z) (key : string) :
  parse_pair (pair_key (a, b)) = Ok (Z.min a b, Z.max a b)
  /\ parse_pair (pair_key (b, a)) = parse_pair (pair_key (a, b))
  /\ (split_colon key = None ->
      parse_pair key = Raise (ValueError "not enough values to unpack")).
Proof.
  assert (Hparse : forall x y,
             parse_pair (pair_key (x, y)) = Ok (Z.min x y, Z.max x y)).
  { intros x y. unfold parse_pair, pair_key. cbn [fst snd].
    rewrite split_colon_str_of_Z, !(py_int_str_of_Z int_of_str_of_Z).
    reflexivity. }
  split; [apply Hparse|]. split.
  - rewrite !Hparse, Z.min_comm, Z.max_comm. reflexivity.
  - intros Hnone. unfold parse_pair. rewrite Hnone. reflexivity.
Qed.

End LoadedRoundTrip.

(** The manager loaded from the sample snapshot of six traces, degraded
    and saved. *)
Lemma loaded_manager_round_trip_witness :
  fst (save_json (codec := sample_codec) "snapshot.json" empty_fs
         (snd (drive (rt := sample_runtime) [Degrade ["a"] (JInt 30)]
                 split_manager))) = true
  /\ exists m',
       load_json (rt := sample_runtime) (codec := sample_codec) 1
         "snapshot.json"
         (snd (save_json (codec := sample_codec) "snapshot.json" empty_fs
                 (snd (drive (rt := sample_runtime)
                         [Degrade ["a"] (JInt 30)] split_manager))))
       = Ok (Some m')
       /\ fst (to_dict m')
          = fst (to_dict
                   (snd (drive (rt := sample_runtime)
                           [Degrade ["a"] (JInt 30)] split_manager))).
Proof.
  apply (loaded_manager_round_trip (rt := sample_runtime)
           (codec := sample_codec) sample_int_of_str 0 1 split_payload
           [Degrade ["a"] (JInt 30)] "snapshot.json" empty_fs split_manager).
  - vm_compute. reflexivity.
  - vm_compute. reflexivity.
  - reflexivity.
  - reflexivity.
Defined.

(** Territories 10007 and 10003, in both orders. *)
Lemma pair_key_round_trip_witness :
  parse_pair (rt := sample_runtime) (pair_key (10007, 10003))
  = Ok (10003, 10007).
Proof.
  apply (pair_key_round_trip (rt := sample_runtime) sample_int_of_str
           10007 10003 "").
Defined.

(* ------------------------------------------------------------------ *)
(** * Traces *)

(** The attributes of a trace are within their ranges. *)
Definition in_ranges (ms : MemoryState) : Prop :=
  0 <= ttl ms
  /\ (0 <= mass ms)%Q /\ (0 <= heat ms)%Q /\ (0 <= inhibition ms)%Q
  /\ (0 <= confidence ms <= 1)%Q
  /\ (0 <= novelty ms <= 1)%Q
  /\ (0 <= boredom ms <= 1)%Q.

(** The trace [from_dict] builds from an empty dictionary. *)
Definition default_trace : MemoryState :=
  {| text := ""; embedding := None; metadata := JNull; territory_id := None;
     ttl := 0; last_touch_tick := 0; use_count := 0; mass := 1;
     heat := 0; confidence := 0.5; novelty := 0.5; boredom := 0;
     inhibition := 0; frontier_hits := 0; pending_condense := false |}.

Lemma in_ranges_clamped (ms : MemoryState) : in_ranges ms -> clamped ms.
Proof.
  intros (Ht & Hm & Hh & Hi & Hc & Hn & Hb).
  apply clamped_intro.
  - apply Z.ltb_ge. exact Ht.
  - apply Qltb_false. exact Hm.
  - apply Qltb_false. exact Hh.
  - apply Qltb_false. exact Hi.
  - apply clamp01_fixed; [exact (proj1 Hc) | exact (proj2 Hc)].
  - apply clamp01_fixed; [exact (proj1 Hn) | exact (proj2 Hn)].
  - apply clamp01_fixed; [exact (proj1 Hb) | exact (proj2 Hb)].
Qed.

(* ------------------------------------------------------------------ *)
(** * The comparisons of doubles *)

Lemma double_lt_irrefl (a : ieee.double) : ieee.lt a a = false.
Proof. destruct a; try reflexivity. apply Qltb_irrefl. Qed.

Lemma double_le_refl (a : ieee.double) : a <> ieee.NaN -> ieee.le a a = true.
Proof.
  destruct a; intros H; try reflexivity; [|contradiction].
  cbn [ieee.le]. apply Qle_bool_iff. lra.
Qed.

Lemma double_le_not_nan (a b : ieee.double) :
  ieee.le a b = true -> a <> ieee.NaN /\ b <> ieee.NaN.
Proof. destruct a, b; cbn [ieee.le]; intros H; split; congruence. Qed.

Lemma double_lt_false_le (a b : ieee.double) :
  a <> ieee.NaN -> b <> ieee.NaN -> ieee.lt a b = false -> ieee.le b a = true.
Proof.
  destruct a, b; cbn [ieee.lt ieee.le]; intros Ha Hb H;
    try reflexivity; try discriminate; try contradiction.
  unfold Qltb in H. apply negb_false_iff in H. exact H.
Qed.

Lemma clamp01_double_idem (x : ieee.double) :
  ieee.clamp01 (ieee.clamp01 x) = ieee.clamp01 x.
Proof.
  unfold ieee.clamp01.
  destruct (ieee.lt x (ieee.Fin 0)) eqn:E0; [reflexivity|].
  destruct (ieee.lt (ieee.Fin 1) x) eqn:E1; [reflexivity|].
  rewrite E0, E1. reflexivity.
Qed.

Lemma floor0_double_idem (x : ieee.double) :
  (if ieee.lt (if ieee.lt x (ieee.Fin 0) then ieee.Fin 0 else x) (ieee.Fin 0)
   then ieee.Fin 0
   else if ieee.lt x (ieee.Fin 0) then ieee.Fin 0 else x)
  = if ieee.lt x (ieee.Fin 0) then ieee.Fin 0 else x.
Proof.
  destruct (ieee.lt x (ieee.Fin 0)) eqn:E0; [reflexivity|].
  rewrite E0. reflexivity.
Qed.

(** What [clamp01] makes of an attribute: NaN of NaN, and a number within
    [[0, 1]] of anything else. *)
Definition unit_or_nan (before after : ieee.double) : Prop :=
  (before = ieee.NaN /\ after = ieee.NaN)
  \/ (before <> ieee.NaN
      /\ ieee.between (ieee.Fin 0) (ieee.Fin 1) after).

(** What [if x < 0.0: x = 0.0] makes of an attribute: NaN of NaN, and a
    number that is not negative, or plus infinity, of anything else. *)
Definition floor_or_nan (before after : ieee.double) : Prop :=
  (before = ieee.NaN /\ after = ieee.NaN)
  \/ (before <> ieee.NaN /\ ieee.le (ieee.Fin 0) after = true).

Lemma clamp01_unit_or_nan (x : ieee.double) :
  unit_or_nan x (ieee.clamp01 x).
Proof.
  unfold unit_or_nan, ieee.between, ieee.clamp01.
  destruct x as [q| | |]; cbn [ieee.lt].
  - right. split; [discriminate|].
    destruct (Qltb q 0) eqn:E0; [split; reflexivity|].
    destruct (Qltb 1 q) eqn:E1; [split; reflexivity|].
    cbn [ieee.le]. unfold Qltb in E0, E1.
    apply negb_false_iff in E0. apply negb_false_iff in E1.
    split; assumption.
  - right. split; [discriminate | split; reflexivity].
  - right. split; [discriminate | split; reflexivity].
  - left. split; reflexivity.
Qed.

Lemma floor0_floor_or_nan (x : ieee.double) :
  floor_or_nan x (if ieee.lt x (ieee.Fin 0) then ieee.Fin 0 else x).
Proof.
  unfold floor_or_nan.
  destruct x as [q| | |]; cbn [ieee.lt].
  - right. split; [discriminate|].
    destruct (Qltb q 0) eqn:E0; [reflexivity|].
    cbn [ieee.le]. unfold Qltb in E0. apply negb_false_iff in E0. exact E0.
  - right. split; [discriminate | reflexivity].
  - right. split; [discriminate | reflexivity].
  - left. split; reflexivity.
Qed.

(** On all doubles [clamp_ranges] brings every bounded attribute that is
    a number into its range, the infinities included, and leaves an
    attribute that is NaN as it is, every comparison being false on NaN;
    [ttl] becomes non-negative.  It touches nothing else, clamping twice
    is clamping once, and on finite attributes it is the function the
    manager uses, which changes nothing in a trace whose attributes are in
    range. *)
Theorem clamp_ranges_normalises (ms : ieee.MemoryState) :
  0 <= ieee.ttl (ieee.clamp_ranges ms)
  /\ unit_or_nan (ieee.confidence ms)
       (ieee.confidence (ieee.clamp_ranges ms))
  /\ unit_or_nan (ieee.novelty ms) (ieee.novelty (ieee.clamp_ranges ms))
  /\ unit_or_nan (ieee.boredom ms) (ieee.boredom (ieee.clamp_ranges ms))
  /\ floor_or_nan (ieee.mass ms) (ieee.mass (ieee.clamp_ranges ms))
  /\ floor_or_nan (ieee.heat ms) (ieee.heat (ieee.clamp_ranges ms))
  /\ floor_or_nan (ieee.inhibition ms)
       (ieee.inhibition (ieee.clamp_ranges ms))
  /\ ieee.clamp_ranges (ieee.clamp_ranges ms) = ieee.clamp_ranges ms
  /\ ieee.text (ieee.clamp_ranges ms) = ieee.text ms
  /\ ieee.embedding (ieee.clamp_ranges ms) = ieee.embedding ms
  /\ ieee.metadata (ieee.clamp_ranges ms) = ieee.metadata ms
  /\ ieee.territory_id (ieee.clamp_ranges ms) = ieee.territory_id ms
  /\ ieee.last_touch_tick (ieee.clamp_ranges ms) = ieee.last_touch_tick ms
  /\ ieee.use_count (ieee.clamp_ranges ms) = ieee.use_count ms
  /\ ieee.frontier_hits (ieee.clamp_ranges ms) = ieee.frontier_hits ms
  /\ ieee.pending_condense (ieee.clamp_ranges ms)
     = ieee.pending_condense ms
  /\ (forall t : MemoryState,
        ieee.clamp_ranges (ieee.of_trace t)
        = ieee.of_trace (clamp_ranges t))
  /\ (forall t : MemoryState, in_ranges t -> clamp_ranges t = t).
Proof.
  split.
  { cbn [ieee.clamp_ranges ieee.ttl].
    destruct (ieee.ttl ms <? 0) eqn:E; [lia | apply Z.ltb_ge; exact E]. }
  split; [apply clamp01_unit_or_nan|].
  split; [apply clamp01_unit_or_nan|].
  split; [apply clamp01_unit_or_nan|].
  split; [apply floor0_floor_or_nan|].
  split; [apply floor0_floor_or_nan|].
  split; [apply floor0_floor_or_nan|].
  split.
  { unfold ieee.clamp_ranges.
    cbn [ieee.text ieee.embedding ieee.metadata ieee.territory_id ieee.ttl
         ieee.last_touch_tick ieee.use_count ieee.mass ieee.heat
         ieee.confidence ieee.novelty ieee.boredom ieee.inhibition
         ieee.frontier_hits ieee.pending_condense].
    rewrite !clamp01_double_idem, !floor0_double_idem.
    destruct (ieee.ttl ms <? 0) eqn:E; [reflexivity|]. rewrite E.
    reflexivity. }
  do 8 (split; [reflexivity|]).
  split.
  - intros t. unfold ieee.clamp_ranges, ieee.of_trace, clamp_ranges,
      ieee.clamp01, clamp01.
    cbn [ieee.text ieee.embedding ieee.metadata ieee.territory_id ieee.ttl
         ieee.last_touch_tick ieee.use_count ieee.mass ieee.heat
         ieee.confidence ieee.novelty ieee.boredom ieee.inhibition
         ieee.frontier_hits ieee.pending_condense
         text embedding metadata territory_id ttl last_touch_tick use_count
         mass heat confidence novelty boredom inhibition frontier_hits
         pending_condense ieee.lt].
    destruct (Qltb (mass t) 0), (Qltb (heat t) 0), (Qltb (inhibition t) 0),
      (Qltb (confidence t) 0), (Qltb 1 (confidence t)),
      (Qltb (novelty t) 0), (Qltb 1 (novelty t)),
      (Qltb (boredom t) 0), (Qltb 1 (boredom t)); reflexivity.
  - intros t Hr. apply in_ranges_clamped. exact Hr.
Qed.

Section TraceSnapshots.
Context {rt : Runtime}.

(** Reading back what [to_dict] wrote gives the trace, clamped: the trace
    itself when its attributes are in range.  An empty dictionary gives
    the defaults, and a value that is no dictionary raises an
    AttributeError. *)
Theorem trace_snapshot_round_trip (ms : MemoryState) (data : json) :
  memory_state.from_dict (memory_state.to_dict ms) = Ok (clamp_ranges ms)
  /\ (in_ranges ms ->
      memory_state.from_dict (memory_state.to_dict ms) = Ok ms)
  /\ memory_state.from_dict (JObj []) = Ok default_trace
  /\ (is_dict data = false ->
      memory_state.from_dict data
      = Raise (AttributeError "object has no attribute 'get'")).
Proof.
  split; [apply from_dict_to_dict|]. split; [|split].
  - intros Hr. rewrite from_dict_to_dict.
    rewrite (in_ranges_clamped ms Hr). reflexivity.
  - reflexivity.
  - intros Hd. destruct data; try discriminate Hd; reflexivity.
Qed.

End TraceSnapshots.

(* ------------------------------------------------------------------ *)
(** * Validation helpers *)

(** On all doubles [clamp_float] returns the lower bound for a value
    below it, else the upper bound for a value above it, else the value:
    NaN is returned as it is, whatever the bounds, both comparisons being
    false.  For any other value and bounds in order the result lies
    between the bounds; unless the upper bound is below the lower one,
    clamping again changes nothing; and on finite doubles it is the
    function the manager uses. *)
Theorem clamp_float_clamps (value lower upper : ieee.double) :
  (value = ieee.NaN -> ieee.clamp_float value lower upper = ieee.NaN)
  /\ (ieee.lt value lower = true ->
      ieee.clamp_float value lower upper = lower)
  /\ (ieee.lt value lower = false -> ieee.lt upper value = true ->
      ieee.clamp_float value lower upper = upper)
  /\ (ieee.lt value lower = false -> ieee.lt upper value = false ->
      ieee.clamp_float value lower upper = value)
  /\ (value <> ieee.NaN -> ieee.le lower upper = true ->
      ieee.between lower upper (ieee.clamp_float value lower upper))
  /\ (ieee.lt upper lower = false ->
      ieee.clamp_float (ieee.clamp_float value lower upper) lower upper
      = ieee.clamp_float value lower upper)
  /\ (forall v lo hi : Q,
        ieee.clamp_float (ieee.Fin v) (ieee.Fin lo) (ieee.Fin hi)
        = ieee.Fin (clamp_float v lo hi)).
Proof.
  split; [intros ->; destruct lower, upper; reflexivity|].
  split; [intros H; unfold ieee.clamp_float; rewrite H; reflexivity|].
  split; [intros H1 H2; unfold ieee.clamp_float; rewrite H1, H2;
          reflexivity|].
  split; [intros H1 H2; unfold ieee.clamp_float; rewrite H1, H2;
          reflexivity|].
  split; [|split].
  - intros Hv Hle. destruct (double_le_not_nan _ _ Hle) as [Hlo Hhi].
    unfold ieee.between, ieee.clamp_float.
    destruct (ieee.lt value lower) eqn:E1.
    + split; [apply double_le_refl; exact Hlo | exact Hle].
    + destruct (ieee.lt upper value) eqn:E2.
      * split; [exact Hle | apply double_le_refl; exact Hhi].
      * split; apply double_lt_false_le; assumption.
  - intros Hb. unfold ieee.clamp_float.
    destruct (ieee.lt value lower) eqn:E1.
    + rewrite double_lt_irrefl, Hb. reflexivity.
    + destruct (ieee.lt upper value) eqn:E2.
      * rewrite Hb, double_lt_irrefl. reflexivity.
      * rewrite E1, E2. reflexivity.
  - intros v lo hi. apply clamp_float_finite.
Qed.

Section Validation.
Context {rt : Runtime}.

(** [require_int] returns what [int] makes of its value exactly when that
    is at least the minimum; below the minimum it raises a ValueError that
    names the parameter and the minimum, and when [int] raises a TypeError
    or a ValueError it raises a ValueError that names the parameter. *)
Theorem require_int_outcomes (value : json) (minimum : Z) (name : string) :
  (forall z,
      require_int value minimum name = Ok z
      <-> py_int value = Ok z /\ minimum <= z)
  /\ (forall z,
        py_int value = Ok z -> z < minimum ->
        require_int value minimum name
        = Raise (ValueError
                   (name ++ " must be >= " ++ str_of_Z minimum)%string))
  /\ (forall e,
        py_int value = Raise e -> is_type_or_value_error e = true ->
        require_int value minimum name
        = Raise (ValueError (name ++ " must be an integer")%string)).
Proof.
  unfold require_int. split; [|split].
  - intros z. destruct (py_int value) as [a|e].
    + destruct (a <? minimum) eqn:E.
      * apply Z.ltb_lt in E. split; [discriminate|].
        intros [[= ->] Hle]. lia.
      * apply Z.ltb_ge in E. split.
        -- intros [= ->]. split; [reflexivity | exact E].
        -- intros [[= ->] _]. reflexivity.
    + split.
      * destruct (is_type_or_value_error e); discriminate.
      * intros [Habs _]. discriminate Habs.
  - intros z -> Hlt. apply Z.ltb_lt in Hlt. rewrite Hlt. reflexivity.
  - intros e -> He. rewrite He. reflexivity.
Qed.

End Validation.

(* ------------------------------------------------------------------ *)
(** * telemetry.py *)

Module telemetry.

(** The dataclass [TelemetrySample]. *)
Record TelemetrySample : Type := {
  label : string;
  tick : Z;
  count : Z;
  reward_ema : Q;
  avg_heat : Q;
  max_heat : Q;
  territories : Z;
  frontier_size : Z;
  split_counter : Z;
  merge_counter : Z;
  avg_confidence : Q;
  avg_novelty : Q;
  avg_boredom : Q;
  avg_mass : Q;
  events : dict string Z;
  reinforced_ids : list string
}.

(** The dataclass [AnomalyThresholds]; its field [max_heat] is
    [heat_limit] here, the name being taken by the sample's. *)
Record AnomalyThresholds : Type := {
  min_reward_ema : Q;
  max_avg_heat_delta : Q;
  heat_limit : Q
}.

(** [AnomalyThresholds()] *)
Definition default_thresholds : AnomalyThresholds :=
  {| min_reward_ema := 0.12; max_avg_heat_delta := 2.5; heat_limit := 3.0 |}.

(** The dataclass [TelemetryAnomaly]. *)
Record TelemetryAnomaly : Type := {
  metric : string;
  severity : string;
  message : string;
  sample : string
}.

(** The text ["{:.4f}".format(x)] makes of a float. *)
Class Formatting : Type := {
  format_4f : Q -> string
}.

(** [event.get("type", "unknown")] as a key of the counts; the events of a
    manager carry a string there, and the embedding has no counts keyed by
    anything else. *)
Definition event_type (event : list (string * json)) : result string :=
  match dict_get "type" event with
  | None => Ok "unknown"
  | Some (JStr s) => Ok s
  | Some _ => Raise Untyped
  end.

(** [counts[k] = counts.get(k, 0) + n] *)
Definition bump (k : string) (n : Z) (counts : dict string Z)
  : dict string Z :=
  dict_set k (match dict_get k counts with Some c => c | None => 0 end + n)
    counts.

(** [_count_events] *)
Definition _count_events (events : list (list (string * json)))
  : result (dict string Z) :=
  fold_left (fun acc event =>
               counts <-! acc ;;
               event_type' <-! event_type event ;;
               Ok (bump event_type' 1 counts))
            events (Ok []).

Section Telemetry.
Context {rt : Runtime} {fmt : Formatting}.

(** [samples[-1].label] of a list that is not empty. *)
Definition last_label (samples : list TelemetrySample) : string :=
  match rev samples with
  | s :: _ => label s
  | [] => ""
  end.

(** The loop of [detect_anomalies] over the samples. *)
Definition heat_anomalies (samples : list TelemetrySample)
  (thresholds : AnomalyThresholds) : list TelemetryAnomaly :=
  flat_map (fun s =>
    if Qltb (heat_limit thresholds) (max_heat s)
    then
      [{| metric := "max_heat";
          severity :=
            if Qltb (heat_limit thresholds * 1.2) (max_heat s)
            then "critical" else "warning";
          message :=
            "Max heat " ++ format_4f (max_heat s) ++ " exceeded limit "
            ++ format_4f (heat_limit thresholds);
          sample := label s |}]
    else []) samples.

(** [detect_anomalies] *)
Definition detect_anomalies (samples : list TelemetrySample)
  (summary : json) (thresholds : AnomalyThresholds)
  : result (list TelemetryAnomaly) :=
  match samples with
  | [] => Ok []
  | _ :: _ =>
      final_reward <-!
        (j <-! py_get summary "final_reward_ema" (JFloat 0.0) ;; py_float j) ;;
      let reward_anomaly :=
        if Qltb final_reward (min_reward_ema thresholds)
        then
          [{| metric := "reward_ema";
              severity := "critical";
              message :=
                "Final reward EMA " ++ format_4f final_reward
                ++ " fell below floor "
                ++ format_4f (min_reward_ema thresholds);
              sample := last_label samples |}]
        else [] in
      heat_trend <-! py_get summary "heat_trend" (JObj []) ;;
      avg_delta <-!
        (j <-! py_get heat_trend "avg_delta" (JFloat 0.0) ;; py_float j) ;;
      let delta_anomaly :=
        if Qltb (max_avg_heat_delta thresholds) avg_delta
        then
          [{| metric := "avg_heat_delta";
              severity := "warning";
              message :=
                "Average heat delta " ++ format_4f avg_delta
                ++ " exceeded limit "
                ++ format_4f (max_avg_heat_delta thresholds);
              sample := last_label samples |}]
        else [] in
      Ok (reward_anomaly ++ delta_anomaly ++ heat_anomalies samples thresholds)
  end.

(** [d.values()] and [len(d)] of a value that [get] gave with a dictionary
    as its default. *)
Definition py_values (j : json) : result (list json) :=
  match j with
  | JObj kv => Ok (map snd kv)
  | _ => Raise (AttributeError "object has no attribute 'values'")
  end.

Definition py_keys (j : json) : result (list string) :=
  match j with
  | JObj kv => Ok (map fst kv)
  | _ => Raise (AttributeError "object has no attribute 'keys'")
  end.

Definition py_len (j : json) : result Z :=
  match j with
  | JObj kv => Ok (Z.of_nat (List.length kv))
  | JList l => Ok (Z.of_nat (List.length l))
  | JStr s => Ok (Z.of_nat (String.length s))
  | _ => Raise (TypeError "object has no len()")
  end.

(** [stats.get(key, 0.0)] *)
Definition stat (stats : list (string * Q)) (key : string) : Q :=
  match dict_get key stats with
  | Some v => v
  | None => 0.0%Q
  end.

(** [collect_sample] *)
Definition collect_sample (label' : string)
  (events' : list (list (string * json))) (reinforced_ids' : list string)
  : M TelemetrySample :=
  snapshot <- to_dict ;;
  stats' <- stats ;;
  memory_states <-
    lift (j <-! py_get snapshot "mem" (JObj []) ;; py_values j) ;;
  heat_values <-
    lift (rmap (fun state =>
                  j <-! py_get state "heat" (JFloat 0.0) ;; py_num j)
               memory_states) ;;
  let avg_heat' :=
    match heat_values with
    | [] => 0.0%Q
    | _ :: _ =>
        (fsum heat_values / inject_Z (Z.of_nat (List.length heat_values)))%Q
    end in
  let max_heat' :=
    match heat_values with
    | [] => 0.0%Q
    | h :: hs => fold_left fmax hs h
    end in
  tick' <- lift (j <-! py_get snapshot "tick" (JInt 0) ;; py_int j) ;;
  reward_ema' <-
    lift (j <-! py_get snapshot "reward_ema" (JFloat 0.0) ;; py_float j) ;;
  territories' <-
    lift (j <-! py_get snapshot "territory_centroids" (JObj []) ;;
          py_len j) ;;
  frontier_size' <-
    lift (j <-! py_get snapshot "frontier" (JObj []) ;; py_len j) ;;
  split_counter' <-
    lift (j <-! py_get snapshot "split_counter" (JInt 0) ;; py_int j) ;;
  merge_counter' <-
    lift (j <-! py_get snapshot "merge_counter" (JInt 0) ;; py_int j) ;;
  counts <- lift (_count_events events') ;;
  ret {| label := label';
         tick := tick';
         count := Z.of_nat (List.length memory_states);
         reward_ema := reward_ema';
         avg_heat := avg_heat';
         max_heat := max_heat';
         territories := territories';
         frontier_size := frontier_size';
         split_counter := split_counter';
         merge_counter := merge_counter';
         avg_confidence := stat stats' "avg_confidence";
         avg_novelty := stat stats' "avg_novelty";
         avg_boredom := stat stats' "avg_boredom";
         avg_mass := stat stats' "avg_mass";
         events := counts;
         reinforced_ids := reinforced_ids' |}.

(** [range(n)] as integers. *)
Definition py_range (n : Z) : list Z :=
  map Z.of_nat (seq 0 (Z.to_nat n)).

(** The ids and the distances of one probe window. *)
Definition probe_row (memory_ids : list string) (batch_size window : Z)
  : list string * list json :=
  let n := Z.of_nat (List.length memory_ids) in
  let current_batch_size := Z.min batch_size n in
  (map (fun offset =>
          nth (Z.to_nat ((window + offset) mod n)) memory_ids "")
       (py_range current_batch_size),
   map (fun offset => JFloat (0.05 + 0.05 * inject_Z offset))
       (py_range current_batch_size)).

(** The loop of [drive_manager_for_telemetry] over the windows; it ends at
    the first window that finds the store empty ([break]). *)
Fixpoint drive_windows (windows : list Z)
  (batch_size degrade_interval ttl_floor : Z) (heat_gain : Q) (ttl_boost : Z)
  (samples : list TelemetrySample) : M (list TelemetrySample) :=
  match windows with
  | [] => ret samples
  | window :: rest =>
      snapshot <- to_dict ;;
      memory_ids <-
        lift (j <-! py_get snapshot "mem" (JObj []) ;; py_keys j) ;;
      match memory_ids with
      | [] => ret samples
      | _ :: _ =>
          let row := probe_row memory_ids batch_size window in
          reinforce {| res_ids := Some [fst row];
                       res_distances := Some [snd row] |}
                    heat_gain ttl_boost >>
          (if (degrade_interval >? 0)
              && (window mod degrade_interval =? 0)
           then degrade (fst row) (JInt ttl_floor)
           else ret tt) >>
          events' <- consume_events ;;
          sample' <-
            collect_sample ("window-" ++ str_of_Z window) events' (fst row) ;;
          drive_windows rest batch_size degrade_interval ttl_floor heat_gain
            ttl_boost (samples ++ [sample'])
      end
  end.

(** [drive_manager_for_telemetry] *)
Definition drive_manager_for_telemetry
  (iterations batch_size degrade_interval ttl_floor : Z) (heat_gain : Q)
  (ttl_boost : Z) : M (list TelemetrySample) :=
  if iterations <=? 0 then ret []
  else
    drive_windows (map (fun k => k + 1) (py_range iterations))
      batch_size degrade_interval ttl_floor heat_gain ttl_boost [].

(** [asdict(thresholds)], or the empty dictionary. *)
Definition thresholds_dict (thresholds : option AnomalyThresholds) : json :=
  match thresholds with
  | Some t =>
      JObj [("min_reward_ema", JFloat (min_reward_ema t));
            ("max_avg_heat_delta", JFloat (max_avg_heat_delta t));
            ("max_heat", JFloat (heat_limit t))]
  | None => JObj []
  end.

(** [anomaly.__dict__] *)
Definition anomaly_dict (a : TelemetryAnomaly) : json :=
  JObj [("metric", JStr (metric a)); ("severity", JStr (severity a));
        ("message", JStr (message a)); ("sample", JStr (sample a))].

(** The totals of the events over the samples. *)
Definition event_totals (samples : list TelemetrySample) : dict string Z :=
  fold_left (fun totals s =>
               fold_left (fun totals kv => bump (fst kv) (snd kv) totals)
                         (events s) totals)
            samples [].

(** [summarize_samples] *)
Definition summarize_samples (samples : list TelemetrySample)
  (thresholds : option AnomalyThresholds) : result json :=
  match samples with
  | [] =>
      Ok (JObj [("event_totals", JObj []);
                ("heat_trend", JObj [("avg_delta", JFloat 0.0);
                                     ("max_delta", JFloat 0.0)]);
                ("final_reward_ema", JFloat 0.0);
                ("final_frontier", JInt 0);
                ("territory_span", JInt 0);
                ("thresholds", thresholds_dict thresholds);
                ("anomalies", JList []);
                ("status", JStr "ok")])
  | first :: others =>
      let last := List.last samples first in
      let summary := [
        ("event_totals",
         JObj (map (fun kv => (fst kv, JInt (snd kv)))
                   (event_totals samples)));
        ("heat_trend",
         JObj [("avg_delta", JFloat (avg_heat last - avg_heat first));
               ("max_delta", JFloat (max_heat last - max_heat first))]);
        ("final_reward_ema", JFloat (reward_ema last));
        ("final_frontier", JInt (frontier_size last));
        ("territory_span",
         JInt (fold_left Z.max (map territories others)
                 (territories first)));
        ("thresholds", thresholds_dict thresholds)
      ] in
      match thresholds with
      | Some t =>
          anomalies <-! detect_anomalies samples (JObj summary) t ;;
          Ok (JObj (summary ++
                    [("anomalies", JList (map anomaly_dict anomalies));
                     ("status",
                      JStr (match anomalies with
                            | [] => "ok"
                            | _ :: _ => "alert"
                            end))]))
      | None =>
          Ok (JObj (summary ++ [("anomalies", JList []);
                                ("status", JStr "ok")]))
      end
  end.

End Telemetry.

End telemetry.

(* ------------------------------------------------------------------ *)
(** * The events a manager logs *)

(** An event as [_record_event] writes it: a type that is a string and a
    tick that is an integer. *)
Definition typed_event (event : list (string * json)) : Prop :=
  exists ty tk,
    dict_get "type" event = Some (JStr ty)
    /\ dict_get "tick" event = Some (JInt tk).

Definition log_typed (m : VoidMemoryManager) : Prop :=
  forall event, In event (_events m) -> typed_event event.

Lemma in_deque_append {A} (n : nat) (x y : A) (dq : list A) :
  In y (deque_append n x dq) -> y = x \/ In y dq.
Proof.
  unfold deque_append. cbv zeta. intros Hin.
  apply in_skipn in Hin. apply in_app_or in Hin.
  destruct Hin as [Hin|[Heq|[]]]; [right; exact Hin | left; symmetry; exact Heq].
Qed.

Lemma typed_record_event (ty : string) (payload : list (string * json)) :
  preserves log_typed (_record_event ty payload).
Proof.
  intros m H. unfold _record_event, log_typed.
  cbn [snd _events upd_events]. intros event Hin.
  apply in_deque_append in Hin. destruct Hin as [->|Hin]; [|apply H; exact Hin].
  exists ty, (_tick m). split.
  - rewrite dict_get_set. change (keqb "type" "tick") with false. cbv iota.
    rewrite dict_get_set, keqb_refl. reflexivity.
  - rewrite dict_get_set, keqb_refl. reflexivity.
Qed.

Create HintDb typed_pres.

Ltac typed_frame :=
  let m := fresh "m" in
  let H := fresh "H" in
  intros m H;
  repeat match goal with
         | |- context [match ?x with _ => _ end] => destruct x
         end;
  try exact H;
  unfold log_typed in *;
  cbn [_config _rng _mem _tick _events _nn_distances _territory_centroids
       _territory_counts _territory_member_dists _territory_tau
       _next_territory_id _deterministic_ids _reward_ema _pair_churn
       _pair_last _exploration_temp _pending_condense _condense_callback
       engrams frontier _split_counter _merge_counter
       upd_rng upd_mem upd_tick upd_events upd_nn_distances
       upd_territory_centroids upd_territory_counts
       upd_territory_member_dists upd_territory_tau upd_next_territory_id
       upd_deterministic_ids upd_reward_ema upd_pair_churn upd_pair_last
       upd_exploration_temp upd_pending_condense upd_condense_callback
       upd_engrams upd_frontier upd_split_counter upd_merge_counter];
  first [ exact H | intros ? [] ].

Ltac typed_step :=
  first
    [ solve [auto with typed_pres]
    | apply typed_record_event
    | apply preserves_modify; typed_frame
    | pres_step ].

Ltac typed_auto := repeat typed_step.

Section TypedLog.
Context {rt : Runtime}.

Lemma typed_record_nn_distance d :
  preserves log_typed (record_nn_distance d).
Proof. unfold record_nn_distance. typed_auto. Qed.
#[local] Hint Resolve typed_record_nn_distance : typed_pres.

Lemma typed_create_territory e t : preserves log_typed (create_territory e t).
Proof. unfold create_territory. typed_auto. Qed.
#[local] Hint Resolve typed_create_territory : typed_pres.

Lemma typed_deterministic_territory t :
  preserves log_typed (deterministic_territory t).
Proof. unfold deterministic_territory. typed_auto. Qed.
#[local] Hint Resolve typed_deterministic_territory : typed_pres.

Lemma typed_update_centroid tid e : preserves log_typed (update_centroid tid e).
Proof. unfold update_centroid. typed_auto. Qed.
#[local] Hint Resolve typed_update_centroid : typed_pres.

Lemma typed_assign_territory t e : preserves log_typed (assign_territory t e).
Proof. unfold assign_territory. typed_auto. Qed.
#[local] Hint Resolve typed_assign_territory : typed_pres.

Lemma typed_merge_territories a b : preserves log_typed (merge_territories a b).
Proof. unfold merge_territories. typed_auto. Qed.
#[local] Hint Resolve typed_merge_territories : typed_pres.

Lemma typed_rng_draw_random : preserves log_typed rng_draw_random.
Proof. unfold rng_draw_random. simpl. typed_frame. Qed.
#[local] Hint Resolve typed_rng_draw_random : typed_pres.

Lemma typed_diffuse_pairs pairs : preserves log_typed (diffuse_pairs pairs).
Proof.
  induction pairs as [|[a b] pairs IH]; simpl; typed_auto.
Qed.
#[local] Hint Resolve typed_diffuse_pairs : typed_pres.

Lemma typed_maybe_diffuse : preserves log_typed maybe_diffuse.
Proof. unfold maybe_diffuse. typed_auto. Qed.
#[local] Hint Resolve typed_maybe_diffuse : typed_pres.

Lemma typed_maybe_split_territory ms_id :
  preserves log_typed (maybe_split_territory ms_id).
Proof. unfold maybe_split_territory. typed_auto. Qed.
#[local] Hint Resolve typed_maybe_split_territory : typed_pres.

Lemma typed_record_member_distance ms_id sim :
  preserves log_typed (record_member_distance ms_id sim).
Proof. unfold record_member_distance. typed_auto. Qed.
#[local] Hint Resolve typed_record_member_distance : typed_pres.

Lemma typed_update_pair_metrics states :
  preserves log_typed (update_pair_metrics states).
Proof. unfold update_pair_metrics. typed_auto. Qed.
#[local] Hint Resolve typed_update_pair_metrics : typed_pres.

Lemma typed_register_memory a b c d :
  preserves log_typed (_register_memory a b c d).
Proof. unfold _register_memory. typed_auto. Qed.
#[local] Hint Resolve typed_register_memory : typed_pres.

Lemma typed_apply_reinforcement a b c d :
  preserves log_typed (_apply_reinforcement a b c d).
Proof. unfold _apply_reinforcement. typed_auto. Qed.
#[local] Hint Resolve typed_apply_reinforcement : typed_pres.

Lemma typed_remove_memory a : preserves log_typed (_remove_memory a).
Proof. unfold _remove_memory. typed_auto. Qed.
#[local] Hint Resolve typed_remove_memory : typed_pres.

Lemma typed_decay_pass : preserves log_typed _decay_pass.
Proof. unfold _decay_pass. typed_auto. Qed.
#[local] Hint Resolve typed_decay_pass : typed_pres.

Lemma typed_rng_do_shuffle l : preserves log_typed (rng_do_shuffle l).
Proof. unfold rng_do_shuffle. simpl. typed_frame. Qed.
#[local] Hint Resolve typed_rng_do_shuffle : typed_pres.

Lemma typed_prune_if_needed : preserves log_typed _prune_if_needed.
Proof. unfold _prune_if_needed. typed_auto. Qed.
#[local] Hint Resolve typed_prune_if_needed : typed_pres.

Lemma typed_after_operation : preserves log_typed _after_operation.
Proof. unfold _after_operation. typed_auto. Qed.
#[local] Hint Resolve typed_after_operation : typed_pres.

Lemma typed_flush : preserves log_typed _flush_condensation_locked.
Proof. unfold _flush_condensation_locked. typed_auto. Qed.
#[local] Hint Resolve typed_flush : typed_pres.

Lemma typed_register_rows rows added :
  preserves log_typed (register_rows rows added).
Proof.
  revert added.
  induction rows as [|[[[i t] e] md] rows IH]; intros added; simpl; typed_auto.
Qed.
#[local] Hint Resolve typed_register_rows : typed_pres.

Lemma typed_register_chunks_locked a b c d :
  preserves log_typed (register_chunks_locked a b c d).
Proof. unfold register_chunks_locked. typed_auto. Qed.
#[local] Hint Resolve typed_register_chunks_locked : typed_pres.

Lemma typed_run_condense_callback depth pending :
  preserves log_typed (_run_condense_callback depth pending).
Proof.
  revert pending.
  induction depth as [|depth IH]; intros pending; simpl; typed_auto.
Qed.
#[local] Hint Resolve typed_run_condense_callback : typed_pres.

Lemma typed_register_chunks a b c d :
  preserves log_typed (register_chunks a b c d).
Proof. unfold register_chunks. typed_auto. Qed.
#[local] Hint Resolve typed_register_chunks : typed_pres.

Lemma typed_frontier_step a : preserves log_typed (frontier_step a).
Proof. unfold frontier_step. typed_auto. Qed.
#[local] Hint Resolve typed_frontier_step : typed_pres.

Lemma typed_condensation_step a : preserves log_typed (condensation_step a).
Proof. unfold condensation_step. typed_auto. Qed.
#[local] Hint Resolve typed_condensation_step : typed_pres.

Lemma typed_reinforce_row a b c d : preserves log_typed (reinforce_row a b c d).
Proof.
  unfold reinforce_row. typed_auto.
Qed.
#[local] Hint Resolve typed_reinforce_row : typed_pres.

Lemma typed_reinforce a b c : preserves log_typed (reinforce a b c).
Proof. unfold reinforce. typed_auto. Qed.
#[local] Hint Resolve typed_reinforce : typed_pres.

Lemma typed_degrade_loop f ids count :
  preserves log_typed (degrade_loop f ids count).
Proof.
  revert count. induction ids as [|i ids IH]; intros count; simpl; typed_auto.
Qed.
#[local] Hint Resolve typed_degrade_loop : typed_pres.

Lemma typed_degrade ids f : preserves log_typed (degrade ids f).
Proof. unfold degrade. typed_auto. Qed.
#[local] Hint Resolve typed_degrade : typed_pres.

Lemma typed_register_engram a b c : preserves log_typed (register_engram a b c).
Proof. unfold register_engram. typed_auto. Qed.
#[local] Hint Resolve typed_register_engram : typed_pres.

Lemma typed_run_call c : preserves log_typed (run_call c).
Proof.
  destruct c; simpl;
    unfold top, composite_score_for, exploratory_weight, stats,
      consume_events, peek_events, set_condense_callback, to_dict;
    typed_auto.
Qed.


Lemma reachable_log_typed (m : VoidMemoryManager) :
  reachable m -> log_typed m.
Proof.
  induction 1 as [entropy config m Hinit | c m Hreach IH].
  - destruct (init_initial_state _ _ _ Hinit) as (cfg & r & ->).
    intros event [].
  - apply typed_run_call. exact IH.
Qed.

End TypedLog.

Import telemetry.

(* ------------------------------------------------------------------ *)
(** * Counting events *)

(** The count a dictionary of counts holds for a type, the sum of its
    counts, and the number of events of a type. *)
Definition count_at (t : string) (counts : dict string Z) : Z :=
  match dict_get t counts with Some n => n | None => 0 end.

Definition total (counts : dict string Z) : Z :=
  fold_right Z.add 0 (map snd counts).

Definition tally (t : string) (events : list (list (string * json))) : Z :=
  Z.of_nat (List.length
    (filter (fun e => match event_type e with
                      | Ok t' => (t' =? t)%string
                      | Raise _ => false
                      end) events)).

Lemma total_set (k : string) (v : Z) (d : dict string Z) :
  total (dict_set k v d) = total d - count_at k d + v.
Proof.
  unfold total, count_at.
  induction d as [|[k0 v0] d IH]; simpl; [lia|].
  destruct (k =? k0)%string; simpl; [lia|].
  rewrite IH. lia.
Qed.

Lemma count_at_bump (t k : string) (n : Z) (d : dict string Z) :
  count_at t (bump k n d)
  = count_at t d + (if (t =? k)%string then n else 0).
Proof.
  unfold count_at, bump. rewrite dict_get_set.
  change (keqb t k) with (t =? k)%string.
  destruct (t =? k)%string eqn:E; [|lia].
  apply String.eqb_eq in E. subst t. reflexivity.
Qed.

Lemma count_events_from (events : list (list (string * json))) :
  forall acc,
    (forall e, In e events -> exists t, event_type e = Ok t) ->
    exists counts,
      fold_left (fun acc event =>
                   counts <-! acc ;;
                   event_type' <-! event_type event ;;
                   Ok (bump event_type' 1 counts))
                events (Ok acc) = Ok counts
      /\ (forall t, count_at t counts = count_at t acc + tally t events)
      /\ total counts = total acc + Z.of_nat (List.length events)
      /\ (NoDup (dict_keys acc) -> NoDup (dict_keys counts))
      /\ ((forall t n, dict_get t acc = Some n -> 0 < n) ->
          forall t n, dict_get t counts = Some n -> 0 < n).
Proof.
  induction events as [|e events IH]; intros acc Hty.
  - exists acc. split; [reflexivity|].
    split; [intros t; unfold tally; simpl; lia|].
    split; [simpl; lia|]. split; auto.
  - destruct (Hty e (or_introl eq_refl)) as [t0 Ht0].
    destruct (IH (bump t0 1 acc)) as (counts & Hrun & Hcount & Htotal & Hnd & Hpos).
    { intros e' He'. apply Hty. right. exact He'. }
    exists counts. split; [|split; [|split; [|split]]].
    + cbn [fold_left rbind]. rewrite Ht0. cbn [rbind]. exact Hrun.
    + intros t. rewrite Hcount, count_at_bump.
      unfold tally. cbn [filter]. rewrite Ht0.
      rewrite (String.eqb_sym t t0).
      destruct (t0 =? t)%string; cbn [List.length]; lia.
    + rewrite Htotal. unfold bump. rewrite total_set.
      unfold count_at. cbn [List.length]. lia.
    + intros Ha. apply Hnd. unfold bump. apply keys_set_nodup. exact Ha.
    + intros Ha. apply Hpos. intros t n. unfold bump.
      rewrite dict_get_set. change (keqb t t0) with (t =? t0)%string.
      destruct (t =? t0)%string eqn:E.
      * intros [= <-]. apply String.eqb_eq in E. subst t.
        destruct (dict_get t0 acc) as [c|] eqn:Ec; [|lia].
        specialize (Ha t0 c Ec). lia.
      * apply Ha.
Qed.

(** On events whose type is a string or is missing, [_count_events]
    returns counts that account for every event once: the count of a type
    is the number of events of that type (an event without a type counting
    as ["unknown"]), the counts add up to the number of events, and only
    types that occur are listed, each once. *)
Theorem count_events_accounts (events : list (list (string * json))) :
  (forall e, In e events -> exists t, event_type e = Ok t) ->
  exists counts,
    _count_events events = Ok counts
    /\ (forall t, count_at t counts = tally t events)
    /\ total counts = Z.of_nat (List.length events)
    /\ NoDup (dict_keys counts)
    /\ (forall t n, dict_get t counts = Some n -> 0 < n).
Proof.
  intros Hty.
  destruct (count_events_from events [] Hty)
    as (counts & Hrun & Hcount & Htotal & Hnd & Hpos).
  exists counts. split; [exact Hrun|].
  split; [intros t; rewrite Hcount; reflexivity|].
  split; [rewrite Htotal; reflexivity|].
  split; [apply Hnd; constructor|].
  apply Hpos. intros t n H. discriminate H.
Qed.

(** Two registrations and an event without a type. *)
Lemma count_events_accounts_witness :
  exists counts,
    _count_events [[("id", JStr "a"); ("type", JStr "register")];
                   [("note", JNull)];
                   [("id", JStr "b"); ("type", JStr "register")]]
    = Ok counts
    /\ (forall t,
          count_at t counts
          = tally t [[("id", JStr "a"); ("type", JStr "register")];
                     [("note", JNull)];
                     [("id", JStr "b"); ("type", JStr "register")]])
    /\ total counts = 3
    /\ NoDup (dict_keys counts)
    /\ (forall t n, dict_get t counts = Some n -> 0 < n).
Proof.
  apply (count_events_accounts
           [[("id", JStr "a"); ("type", JStr "register")];
            [("note", JNull)];
            [("id", JStr "b"); ("type", JStr "register")]]).
  intros e [<-|[<-|[<-|[]]]]; eexists; reflexivity.
Defined.

Import telemetry.

(* ------------------------------------------------------------------ *)
(** * Sampling a manager *)

Section Sampling.
Context {rt : Runtime}.

Lemma stats_pure (m : VoidMemoryManager) :
  exists l, stats m = (Ok l, m).
Proof.
  unfold stats, bind, gets, ret.
  destruct (_mem m); eexists; reflexivity.
Qed.

Lemma heat_values_of (mem : dict string MemoryState) :
  rmap (fun state => j <-! py_get state "heat" (JFloat 0.0) ;; py_num j)
       (map snd (map (fun p => (fst p, memory_state.to_dict (snd p))) mem))
  = Ok (map (fun p => heat (snd p)) mem).
Proof.
  induction mem as [|[k ms] mem IH]; [reflexivity|].
  cbn [map rmap snd fst].
  change (py_get (memory_state.to_dict ms) "heat" (JFloat 0.0))
    with (Ok (JFloat (heat ms))).
  cbn [rbind py_num]. rewrite IH. reflexivity.
Qed.

(** [collect_sample] reads the manager and leaves it as it is.  Given
    events whose type is a string or is missing it returns a sample that
    carries the label and the reinforced ids it was given, the manager's
    tick, reward average and split and merge counters, the number of
    traces, of centroids and of frontier entries, and the counts of the
    events; both heats are 0 for an empty store. *)
Theorem collect_sample_reads (label' : string)
  (events' : list (list (string * json))) (ids : list string)
  (m : VoidMemoryManager) :
  (forall e, In e events' -> exists t, event_type e = Ok t) ->
  exists s,
    collect_sample label' events' ids m = (Ok s, m)
    /\ label s = label'
    /\ reinforced_ids s = ids
    /\ tick s = _tick m
    /\ reward_ema s = _reward_ema m
    /\ split_counter s = _split_counter m
    /\ merge_counter s = _merge_counter m
    /\ count s = Z.of_nat (List.length (_mem m))
    /\ territories s = Z.of_nat (List.length (_territory_centroids m))
    /\ frontier_size s = Z.of_nat (List.length (frontier m))
    /\ _count_events events' = Ok (events s)
    /\ (_mem m = [] -> avg_heat s = 0.0%Q /\ max_heat s = 0.0%Q).
Proof.
  intros Hty.
  destruct (count_events_from events' [] Hty) as (counts & Hcounts & _).
  change (_count_events events' = Ok counts) in Hcounts.
  destruct (stats_pure m) as (l & Hstats).
  eexists. split.
  - unfold collect_sample.
    eapply bind_runs; [reflexivity | cbv beta].
    eapply bind_runs; [exact Hstats | cbv beta].
    eapply bind_runs; [reflexivity | cbv beta].
    eapply bind_runs;
      [exact (f_equal (fun r => (r, m)) (heat_values_of (_mem m)))
      | cbv beta].
    do 6 (eapply bind_runs; [reflexivity | cbv beta]).
    eapply bind_runs;
      [exact (f_equal (fun r => (r, m)) Hcounts) | cbv beta].
    reflexivity.
  - cbn [label reinforced_ids tick reward_ema split_counter merge_counter
         count territories frontier_size events max_heat avg_heat].
    repeat split.
    + rewrite !length_map. reflexivity.
    + unfold manager_to_dict. cbn. rewrite length_map. reflexivity.
    + unfold manager_to_dict. cbn. rewrite length_map. reflexivity.
    + exact Hcounts.
    + rewrite H. reflexivity.
    + rewrite H. reflexivity.
Qed.

End Sampling.

(** The sample manager, sampled without events. *)
Lemma collect_sample_reads_witness :
  exists s,
    collect_sample (rt := sample_runtime) "window-1" [] ["mem-alpha"]
      learned_manager = (Ok s, learned_manager)
    /\ label s = "window-1"
    /\ count s = 3.
Proof.
  destruct (collect_sample_reads (rt := sample_runtime) "window-1" []
              ["mem-alpha"] learned_manager)
    as (s & Hrun & Hlabel & _ & _ & _ & _ & _ & Hcount & _).
  - intros e [].
  - exists s. split; [exact Hrun|]. split; [exact Hlabel | exact Hcount].
Defined.

(* ------------------------------------------------------------------ *)
(** * The telemetry probe *)

Lemma windows_firstn_from (k : nat) :
  forall n start,
    (k <= n)%nat ->
    firstn k (map (fun z => z + 1) (map Z.of_nat (seq start n)))
    = map Z.of_nat (seq (S start) k).
Proof.
  induction k as [|k IH]; intros n start Hle; [reflexivity|].
  destruct n as [|n]; [lia|].
  cbn [seq map firstn]. rewrite (IH n (S start)) by lia.
  f_equal. lia.
Qed.

Lemma windows_firstn (k n : nat) :
  (k <= n)%nat ->
  firstn k (map (fun z => z + 1) (map Z.of_nat (seq 0 n)))
  = map Z.of_nat (seq 1 k).
Proof. apply windows_firstn_from. Qed.

Section Probe.
Context {rt : Runtime}.

Lemma snapshot_keys (m : VoidMemoryManager) :
  (j <-! py_get (manager_to_dict m) "mem" (JObj []) ;; py_keys j)
  = Ok (map fst (_mem m)).
Proof.
  unfold manager_to_dict. cbn. rewrite map_map. reflexivity.
Qed.

Lemma collect_sample_label (label' : string)
  (events' : list (list (string * json))) (ids : list string)
  (m m' : VoidMemoryManager) (s : TelemetrySample) :
  collect_sample label' events' ids m = (Ok s, m') ->
  label s = label' /\ m' = m.
Proof.
  destruct (stats_pure m) as (l & Hstats).
  unfold collect_sample, bind, to_dict, gets, lift, ret.
  rewrite Hstats. cbv beta iota.
  repeat match goal with
         | |- context [match ?x with Ok _ => _ | Raise _ => _ end] =>
             destruct x; cbv beta iota
         end;
    intros H; try discriminate H.
  injection H as <- <-. split; reflexivity.
Qed.

Lemma drive_windows_labels (batch_size degrade_interval ttl_floor : Z)
  (heat_gain : Q) (ttl_boost : Z) (windows : list Z) :
  forall acc m samples m',
    drive_windows windows batch_size degrade_interval ttl_floor heat_gain
      ttl_boost acc m = (Ok samples, m') ->
    exists k,
      (k <= List.length windows)%nat
      /\ map label samples
         = map label acc
           ++ map (fun w => ("window-" ++ str_of_Z w)%string) (firstn k windows)
      /\ grows_from m m'.
Proof.
  induction windows as [|window rest IH]; intros acc m samples m' Hrun.
  - cbn in Hrun. injection Hrun as <- <-. exists 0%nat.
    split; [lia|]. split; [rewrite app_nil_r; reflexivity|].
    apply grows_from_refl.
  - cbn [drive_windows] in Hrun.
    unfold bind at 1, to_dict at 1, gets at 1 in Hrun.
    unfold bind at 1, lift at 1 in Hrun.
    rewrite snapshot_keys in Hrun.
    cbv beta iota in Hrun.
    destruct (map fst (_mem m)) as [|k0 ks] eqn:Hkeys.
    + injection Hrun as <- <-. exists 0%nat.
      split; [lia|]. split; [rewrite app_nil_r; reflexivity|].
      apply grows_from_refl.
    + set (row := probe_row (k0 :: ks) batch_size window) in *.
      unfold bind at 1 in Hrun.
      pose proof (grow_reinforce m
                    {| res_ids := Some [fst row];
                       res_distances := Some [snd row] |}
                    heat_gain ttl_boost m (grows_from_refl m)) as G1.
      destruct (reinforce _ heat_gain ttl_boost m) as [[[]|e1] m1];
        [|discriminate Hrun].
      cbn [snd] in G1.
      unfold bind at 1 in Hrun.
      assert (G2 : grows_from m
                     (snd ((if (degrade_interval >? 0)
                               && (window mod degrade_interval =? 0)
                            then degrade (fst row) (JInt ttl_floor)
                            else ret tt) m1))).
      { destruct ((degrade_interval >? 0)
                  && (window mod degrade_interval =? 0)).
        - apply (grow_degrade m). exact G1.
        - exact G1. }
      destruct ((if (degrade_interval >? 0)
                    && (window mod degrade_interval =? 0)
                 then degrade (fst row) (JInt ttl_floor)
                 else ret tt) m1) as [[[]|e2] m2];
        [|discriminate Hrun].
      cbn [snd] in G2.
      unfold bind at 1, consume_events at 1 in Hrun.
      unfold bind at 1, gets at 1 in Hrun.
      unfold bind at 1, modify at 1 in Hrun.
      unfold ret at 1 in Hrun.
      unfold bind at 1 in Hrun.
      set (m3 := upd_events (fun _ => []) m2) in *.
      assert (G3 : grows_from m m3).
      { destruct G2 as (A & B & C & D & E & F).
        unfold grows_from. repeat split; assumption. }
      destruct (collect_sample ("window-" ++ str_of_Z window)%string (_events m2)
                  (fst row) m3) as [[s|e3] m4] eqn:Hs;
        [|discriminate Hrun].
      destruct (collect_sample_label _ _ _ _ _ _ Hs) as [Hl ->].
      destruct (IH _ _ _ _ Hrun) as (k & Hk & Hlabels & G4).
      exists (S k). split; [cbn [List.length]; lia|]. split.
      * rewrite Hlabels, map_app. cbn [map firstn]. rewrite Hl.
        rewrite <- app_assoc. reflexivity.
      * destruct G3 as (A & B & C & D & E & F).
        destruct G4 as (A' & B' & C' & D' & E' & F').
        unfold grows_from. repeat split; try congruence; lia.
Qed.

(** The probe [drive_manager_for_telemetry] does nothing and returns no
    sample when [iterations] is not positive or the store is empty.  When
    it returns, it returns at most [iterations] samples, the k-th of them
    labelled [window-k], and it leaves the manager with its
    configuration, its tick and its counters no lower than before. *)
Theorem probe_windows (iterations batch_size degrade_interval ttl_floor : Z)
  (heat_gain : Q) (ttl_boost : Z) (m : VoidMemoryManager) :
  (iterations <= 0 \/ _mem m = [] ->
   drive_manager_for_telemetry iterations batch_size degrade_interval
     ttl_floor heat_gain ttl_boost m = (Ok [], m))
  /\ (forall samples m',
        drive_manager_for_telemetry iterations batch_size degrade_interval
          ttl_floor heat_gain ttl_boost m = (Ok samples, m') ->
        (List.length samples <= Z.to_nat iterations)%nat
        /\ map label samples
           = map (fun k => ("window-" ++ str_of_Z (Z.of_nat k))%string)
                 (seq 1 (List.length samples))
        /\ grows_from m m').
Proof.
  unfold drive_manager_for_telemetry. split.
  - intros [Hle|Hempty].
    + apply Z.leb_le in Hle. rewrite Hle. reflexivity.
    + destruct (iterations <=? 0); [reflexivity|].
      unfold py_range.
      destruct (map (fun k => k + 1) (map Z.of_nat (seq 0 (Z.to_nat iterations))))
        as [|w ws]; [reflexivity|].
      cbn [drive_windows].
      unfold bind at 1, to_dict at 1, gets at 1.
      unfold bind at 1, lift at 1.
      rewrite snapshot_keys, Hempty. reflexivity.
  - intros samples m' Hrun.
    destruct (iterations <=? 0) eqn:E.
    + injection Hrun as <- <-. split; [cbn; lia|].
      split; [reflexivity | apply grows_from_refl].
    + destruct (drive_windows_labels _ _ _ _ _ _ _ _ _ _ Hrun)
        as (k & Hk & Hlabels & Hg).
      unfold py_range in Hk, Hlabels.
      rewrite !length_map, length_seq in Hk.
      cbn [map app] in Hlabels.
      rewrite (windows_firstn k (Z.to_nat iterations) Hk) in Hlabels.
      assert (Hlen : List.length samples = k).
      { rewrite <- (length_map label samples), Hlabels.
        rewrite !length_map, length_seq. reflexivity. }
      rewrite Hlen. split; [exact Hk|]. split; [|exact Hg].
      rewrite Hlabels, map_map. reflexivity.
Qed.

End Probe.

Import telemetry.

(* ------------------------------------------------------------------ *)
(** * The status of a summary *)

(** Some threshold is crossed: the last reward average is below its floor,
    the average heat rose by more than its limit from the first sample to
    the last, or the heat of some sample is above its limit. *)
Definition crossed (samples : list TelemetrySample)
  (thresholds : option AnomalyThresholds) : bool :=
  match samples, thresholds with
  | first :: _, Some t =>
      let last := List.last samples first in
      Qltb (reward_ema last) (min_reward_ema t)
      || Qltb (max_avg_heat_delta t) (avg_heat last - avg_heat first)
      || existsb (fun s => Qltb (heat_limit t) (max_heat s)) samples
  | _, _ => false
  end.

Section Summary.
Context {rt : Runtime} {fmt : Formatting}.

Lemma heat_anomalies_none (samples : list TelemetrySample)
  (t : AnomalyThresholds) :
  existsb (fun s => Qltb (heat_limit t) (max_heat s)) samples = false ->
  heat_anomalies samples t = [].
Proof.
  unfold heat_anomalies.
  induction samples as [|s rest IH]; [reflexivity|].
  cbn [existsb flat_map]. intros H. apply orb_false_iff in H.
  destruct H as [Hs Hrest]. rewrite Hs, (IH Hrest). reflexivity.
Qed.

Lemma heat_anomalies_some (samples : list TelemetrySample)
  (t : AnomalyThresholds) :
  existsb (fun s => Qltb (heat_limit t) (max_heat s)) samples = true ->
  exists a rest, heat_anomalies samples t = a :: rest.
Proof.
  unfold heat_anomalies.
  induction samples as [|s rest IH]; [discriminate|].
  cbn [existsb flat_map]. intros H.
  destruct (Qltb (heat_limit t) (max_heat s)).
  - cbn [app]. eexists _, _. reflexivity.
  - cbn [orb] in H. destruct (IH H) as (a & l & ->).
    cbn [app]. eexists _, _. reflexivity.
Qed.

(** [summarize_samples] never raises.  The status of the summary it
    returns is [alert] exactly when there are samples, thresholds are
    given and one of them is crossed; it is [ok] otherwise. *)
Theorem summary_status (samples : list TelemetrySample)
  (thresholds : option AnomalyThresholds) :
  exists kv,
    summarize_samples samples thresholds = Ok (JObj kv)
    /\ assoc "status" kv
       = Some (JStr (if crossed samples thresholds
                     then "alert" else "ok")).
Proof.
  destruct samples as [|first others].
  - eexists. split; [reflexivity|]. reflexivity.
  - destruct thresholds as [t|].
    + unfold summarize_samples, detect_anomalies, crossed.
      cbv zeta. set (samples := first :: others).
      set (last := List.last samples first).
      cbn [py_get assoc rbind py_float String.eqb Ascii.eqb Bool.eqb].
      destruct (Qltb (reward_ema last) (min_reward_ema t)).
      { eexists. split; [reflexivity|]. reflexivity. }
      destruct (Qltb (max_avg_heat_delta t) (avg_heat last - avg_heat first)).
      { eexists. split; [reflexivity|]. reflexivity. }
      cbn [orb app].
      destruct (existsb (fun s => Qltb (heat_limit t) (max_heat s)) samples)
        eqn:E.
      * destruct (heat_anomalies_some samples t E) as (a & rest & ->).
        eexists. split; [reflexivity|]. reflexivity.
      * rewrite (heat_anomalies_none samples t E).
        eexists. split; [reflexivity|]. reflexivity.
    + eexists. split; [reflexivity|]. reflexivity.
Qed.

End Summary.

(* ------------------------------------------------------------------ *)
(** * What every reachable manager satisfies *)

Section Reachable.
Context {rt : Runtime}.

(** Floats being read as numbers, with neither NaN nor an infinity
    among the arguments of the constructor and of the calls or among the
    sums they form: a manager that was constructed and then only called through its public
    methods has a configuration the constructor accepts, distinct ids in
    its store, every trace within the ranges of [clamp_ranges],
    at most 5000 neighbour distances and at most 1024 member distances
    per territory, its churn windows within the configured length under
    pairs in order, and a log in which every event has a type that is a
    string and a tick that is an integer. *)
Theorem reachable_manager_shape (m : VoidMemoryManager) :
  reachable m ->
  config_ok (_config m)
  /\ NoDup (dict_keys (_mem m))
  /\ (forall k ms, In (k, ms) (_mem m) -> in_ranges ms)
  /\ (List.length (_nn_distances m) <= 5000)%nat
  /\ (forall t dq,
        In (t, dq) (_territory_member_dists m) ->
        (List.length dq <= 1024)%nat)
  /\ (forall p dq,
        In (p, dq) (_pair_churn m) ->
        fst p <= snd p
        /\ (List.length dq
            <= Z.to_nat (exploration_churn_window (_config m)))%nat)
  /\ log_typed m.
Proof.
  intros Hreach.
  destruct (reachable_well_formed m Hreach)
    as (Hc & Hmem & _ & _ & _ & _ & Hd & Hnn & Hchurn & _).
  split; [exact Hc|]. split; [exact (proj1 Hmem)|].
  split.
  { intros k ms Hin. apply clamped_ranges.
    exact (proj2 (proj2 Hmem k ms Hin)). }
  split; [exact Hnn|]. split.
  { intros t dq Hin. exact (proj2 (proj2 Hd t dq Hin)). }
  split.
  { intros p dq Hin. exact (proj2 Hchurn p dq Hin). }
  apply reachable_log_typed. exact Hreach.
Qed.

End Reachable.

(** The sample manager is reachable. *)
Lemma reachable_manager_shape_witness :
  reachable (rt := sample_runtime) learned_manager
  /\ NoDup (dict_keys (_mem learned_manager))
  /\ log_typed learned_manager.
Proof.
  split; [exact learned_manager_reachable|].
  destruct (reachable_manager_shape (rt := sample_runtime) learned_manager
              learned_manager_reachable)
    as (_ & Hkeys & _ & _ & _ & _ & Hlog).
  split; [exact Hkeys | exact Hlog].
Defined.
